(* ===== verification/_CoqProject ===== *)
-Q . S2P
Prelude.v
Common.v
Peers.v
Config.v
Retry.v
Kv.v
Fs.v
ObjectStorage.v
ReplicationService.v
ReplicationClient.v
Coordinator.v
Backends.v
Factory.v
StorageBackend.v
FsDirs.v
Grpc.v
ReplicationServer.v
Buckets.v
Objects.v
Multipart.v
Locks.v
StateMachine.v
RaftTypes.v
RaftRpc.v
RaftNode.v
MetadataStore.v
RaftLog.v
Snapshot.v
ReplicaSet.v
S3Xml.v
Api.v
Auth.v
BucketHandlers.v
ObjectHandlers.v
MultipartHandlers.v
Gc.v
Routes.v
Middleware.v
Cluster.v
ClusterApi.v
AdminServer.v
Scaling.v
Readiness.v
Metrics.v
Workers.v
Startup.v
Main.v
ApiWit.v
AdminRoutes.v
Cli.v
