(* ===== verification/Prelude.v ===== *)
(** * Save: verification of an S3-compatible replicated object store

    Save ([src/crates]) stores S3 objects on a cluster of nodes.  The metadata
    (buckets, objects, multipart uploads, locks) is a RocksDB database that every
    node keeps by applying the commands of a Raft log ([save-metadata], over the
    openraft library).  The data of an object is a file on each replica, written
    by a two-phase protocol that a coordinator runs over gRPC ([save-storage]).
    [save-common] holds validation, configuration, peers, retries and framing;
    [save-proto] the messages; [save-api] the HTTP front end, the administration
    service, the garbage collector, the node's joining and leaving, its metrics,
    and the process with its workers; [save-cli] is a command line client.

    ** What is modelled, and where

    The files translate the Rust sources function by function, with their names.

    - [Prelude]: Rust's [Result], the state-and-error monad [M] (a computation
      returns the state it leaves also when it fails), its variant [PM] for
      computations that may panic, frame reasoning ([keeps], [errs] and the hint
      database [frame]), strings as bytes with RocksDB's key order, number
      printing and parsing, wrap-around.

    [save-common]:
    - [Common], [Peers], [Config], [Retry], [Grpc]: [error.rs], [validation.rs],
      [types.rs]; [cluster.rs]; [config.rs]; [retry.rs] (delays computed in
      binary64); [grpc.rs] and the framing of the gRPC servers.
    - [S3Xml]: [s3_error.rs] and [s3_responses.rs], as the element trees that
      serde hands to the XML writer.

    [save-metadata]:
    - [Kv]: the interfaces of RocksDB and of the codecs (bincode, JSON, prost) as
      the classes [RocksDB] and [Codec] with their laws, the prefix loops the
      metadata code is made of, and the in-memory store [Mem] of the witnesses.
    - [Buckets], [Objects], [Multipart], [Locks]: [bucket.rs], [object.rs],
      [multipart.rs], [lock.rs] with [error.rs] and [keys.rs]; [Locks.Manager] is
      the distributed lock manager.
    - [StateMachine]: [raft/commands.rs] and [raft/state_machine.rs], with the
      abstract state and transition function they implement.
    - [RaftTypes], [RaftLog], [Snapshot]: openraft's types, [raft/log_store.rs],
      [raft/storage.rs], [raft/snapshot.rs].
    - [ReplicaSet]: several nodes over one committed log, each with its database
      and lock manager, their actions interleaved in any order; a request for a
      lock goes through the stages between its awaits; nodes restart, die in the
      middle of a batch, and send each other snapshots while they go on applying.
    - [RaftRpc], [RaftNode]: [raft/rpc.rs], [raft/server.rs], [raft/node.rs],
      [raft/network.rs], over openraft's core and tonic as classes.
    - [MetadataStore]: [lib.rs].

    [save-storage]:
    - [Fs], [FsDirs]: the file system as the classes [FileSystem] and that of
      directories with their laws, readers as the sequence of what their reads
      give, the in-memory [MemFs]; [FsDirs] has [list_temp_files] of [lib.rs].
    - [ObjectStorage]: [layout.rs], [error.rs], [lib.rs]; the destructor of a
      temporary object is written out on every path that runs it.  The trait
      [ReplicationStorage] is a class with laws; [ObjectStorage] is its instance.
    - [ReplicationService], [ReplicationServer]: [replication/service.rs] on any
      [ReplicationStorage], each handler one step on the node's files and its
      table of prepared writes, and [replication/server.rs] in front of it.
    - [ReplicationClient]: [replication/client.rs] and [tls.rs], over tonic as
      the class [ReplTransport].
    - [Coordinator]: [replication/coordinator.rs] and [health.rs]; spawned tasks
      run in an arbitrary order, hash tables are iterated in an arbitrary order,
      aborts are background tasks.
    - [Backends], [Factory]: [backend.rs], [local_backend.rs],
      [replicated_backend.rs], a cluster in memory, [MemNet], on which whole puts
      are evaluated, and [factory.rs].
    - [StorageBackend]: the trait the handlers are written against with its
      contract, which both backends are shown to meet.
    - [Cluster]: [cluster/state.rs] and [cluster/manager.rs]: heartbeats, quorum,
      partitions; each section that holds the lock is a step of [wstep], so that the
      operations of a manager interleave between their awaits.

    [save-api]:
    - [Api]: [handlers/error.rs], [handlers/mod.rs], [state.rs]; what the handlers
      need of Raft is the class [NodeRaft], an instance of which is [RaftNode]'s.
    - [BucketHandlers], [ObjectHandlers], [MultipartHandlers]: the S3 handlers.
    - [Auth]: [auth.rs], AWS Signature Version 4; [Auth.SigV4] is the signature and
      [Auth.Client] a client that signs, both written from the documentation and
      not from the code.
    - [Gc]: [gc.rs].
    - [Routes], [Middleware]: [routes/], [middleware.rs], [forward.rs], [lib.rs]:
      the whole stack from a request to its answer, with [tracing.rs] of
      [save-common].
    - [ClusterApi], [AdminServer]: [handlers/cluster/] and [internal_api/], over
      openraft's membership as the class [RaftMembers].
    - [Scaling]: [scaling.rs].
    - [Readiness]: [handlers/health/].
    - [Metrics]: [metrics/], [collect_metrics] of [lib.rs] and the places in the
      handlers, the middleware, [auth.rs], [gc.rs], [main.rs] and [internal_api/]
      that use a metric directly, over the Prometheus library as the class
      [Prometheus]; an action that would panic has no result.
    - [Workers]: the workers of [main.rs] as loops around a timer and the shutdown
      signal, over the components their ticks call.
    - [Startup]: the start of storage, database and Raft node, the sockets and the
      [run_server] functions of the three gRPC servers by the phases they go
      through.
    - [Main]: [handle_graceful_shutdown] and [async_main_with_config], which calls
      the functions of [Startup] and records each step in a trace.
    - [ApiWit]: the handlers evaluated on an in-memory node.
    - [AdminRoutes]: [routes/health.rs], [routes/cluster.rs], [routes/failpoint.rs]
      and [handlers/failpoint.rs], in front of the S3 routes as in [lib.rs].

    [save-cli]:
    - [Cli]: [main.rs], over the AWS and HTTP clients.

    ** What the theorems show

    - The node as a whole: whatever requests, collections and failures a node
      sees, metadata never names an object without a file
      ([Routes.metadata_never_dangles]); every request that changes it is an
      authentic one, a readiness check, or one of the cluster routes, which need no
      signature ([AdminRoutes.changes_accounted_for] says under which conditions);
      the counter of requests in flight is balanced ([AdminRoutes.tracker_balanced]).
    - The cluster: without restarts and snapshots, guards of one object on
      whatever nodes exclude each other ([ReplicaSet.cluster_mutual_exclusion]).
      With them, also with crashes in the middle of a batch, every node shows each
      object as a prefix of the one log has it, between what it recorded as applied
      and what reached its data, and a committed put is read by every node that has
      recorded it until a later entry on the object comes
      ([ReplicaSet.nodes_follow_log], [ReplicaSet.committed_put_visible]).
    - The S3 handlers: put, get, delete, list, upload, complete do exactly what
      they answer, on every branch; a get returns what was put; a client that
      follows continuation tokens through the handler enumerates a bucket.
    - Authentication: a request is accepted exactly when its signature is the one of
      [Auth.SigV4]; what [Auth.Client] signs is accepted, except for header values
      with three spaces in a row, which are shown to be refused.
    - The state machine: [apply_command] refines the abstract transition function
      on every branch; the lock table stays exclusive; replicas that apply the
      same entries agree.
    - The Raft log: appended entries are read back; truncation, purge and the
      application of committed entries do exactly what they should, errors
      included; a snapshot carries the buckets and objects of the checkpoint and the
      applied id read before it over, whatever is applied between the two reads.
    - Files: a put is atomic, a get exact; the garbage collector removes exactly
      the old temporary files of no upload.
    - Two-phase writes on a node: prepare then commit publishes exactly the
      prepared bytes whatever other keys' requests come in between, abort
      restores; streams carry exactly the file and exactly the object.
    - The coordinator and the replicated backend: for any network, [Ok] means the
      local file and a quorum of nodes that answered the prepare of these bytes with
      a success, everything else leaves the object as it was; majorities intersect.
    - The cluster manager, with a failure threshold of two or more and outside of
      [discover_peers]: the quorum flag is right in every state that interleaved
      operations reach, a round of heartbeats settles it, two sides of a partition
      never both accept writes.  Without these conditions examples show it wrong.
    - Membership: initialization, removal, draining, joining and leaving change
      openraft's membership exactly as their answers say, and end.
    - Locks, retries, Raft writes: the loops end, with the stated results.
    - The process: it serves only with its database, Raft node and listener there,
      spawns what its configuration asks for and awaits it, the worker that joins
      excepted; starting the Raft node loses no metadata, and clears Raft's own state
      exactly after the errors whose text has one of the five words; the shutdown
      ends, drained or timed out, and leaves.
    - The workers: a tick of the stale cleanup and of the coordinator's
      synchronisation does exactly its work; cleaning the bucket cache is invisible.
    - Metrics: no use of a metric panics, one state and one status is set at a time, and the
      statistics of temporary files are those of [list_temp_files].
    - Where the code departs from what it means to do, a theorem states what it
      does (a prepare delivered twice, two prepares of one key, empty objects,
      a cut stream, unreported commit failures, replayed bucket creations,
      snapshot pieces, the delay of the 63rd join attempt, removal of a voter,
      servers that fail unnoticed, intervals of zero, a join after the leave,
      holders used again after a restart, locks that a snapshot forgets or a
      timeout leaks, membership changes without a signature, reserved names).

    ** Bounds and fuel

    Integers that are stored or wrap keep their width ([wrapN], 64-bit counters,
    ports, the frame length, the join delay).  Loops that are not structural have
    fuel, and a theorem shows that it is enough:
    [Retry.retry_loop] has [max_retries + 1] runs ([retry_with_backoff_bounded]);
    [Locks.Manager.acquire_loop] has one iteration more than the awaits the
    timeout allows, and any larger fuel gives the same run; that number stands for
    the timeout and the retry interval and is arbitrary in the theorems;
    [RaftNode.write_loop] and [wait_loop] are bounded by the retries and the
    polls of the timeout; the frame parsers by the length of the body, one byte a
    step at least; the walks of [list_temp_files] and
    [Metrics.stats_loop] by the number of directories; [Main.drain_requests],
    [ClusterApi.drain_loop] and the waits of [Scaling] by the turns of 100 ms that
    the timeout has; the removal loop of [Scaling], which may run without a
    pause while a leader refuses, by the units of its deadline on a clock with
    [res] units a millisecond, under the assumption that an HTTP exchange takes at
    least one unit.  Log messages are left out.

    ** What is not modelled

    RocksDB, openraft, tonic, hyper, axum's matching of paths, prost, bincode,
    serde_json, quick-xml, chrono, tar, zstd, SHA-256, HMAC and the operating
    system are interfaces with laws.  Of openraft's consensus [ReplicaSet] relies on
    one committed log that every node applies in order; a proposed command may be
    committed at any later time, several times or never.  A handler or an
    operation is one step: interleavings inside one are not considered, except
    where the code spawns tasks, for requests of locks ([ReplicaSet]) and in the
    cluster manager ([Cluster]); so the laws of [NodeRaft] say what a write does
    while no other command is applied, and checks that another node's command
    overtakes are not covered.  Events of the cluster manager are sent after the
    lock is released; the model has them with the change, and no theorem speaks of
    their order.  A process that dies while it installs a snapshot is not
    considered.  A write of the file system is taken to reach the file when it
    returns, as it does once the file is flushed, which the code does before it
    relies on it.  Left out as glue over other libraries: the set-up of logging and of
    the tokio runtime, the tower wrappers of the gRPC services, the calls of
    tonic's client in [grpc.rs] and the [Debug] texts of types.  Serving by axum and tonic ends
    as the environment says; what it hands to the handlers is what [Middleware],
    [RaftRpc], [ReplicationServer] and [AdminServer] start from. *)
From Stdlib Require Import NArith Ascii.
From stdpp Require Import base gmap strings pretty sorting numbers list.

(** ** Results: Rust's [Result<A, E>] *)

Inductive result (E A : Type) : Type :=
| Ok (a : A)
| Err (e : E).
Arguments Ok {E A} a.
Arguments Err {E A} e.

#[export] Instance result_eq_dec `{EqDecision E, EqDecision A} : EqDecision (result E A).
Proof. solve_decision. Defined.

#[export] Instance result_ret {E} : MRet (result E) := fun A => Ok.
#[export] Instance result_bind {E} : MBind (result E) :=
  fun A B f r => match r with Ok a => f a | Err e => Err e end.

Definition is_ok {E A} (r : result E A) : bool :=
  match r with Ok _ => true | Err _ => false end.

Definition map_err {E F A} (f : E -> F) (r : result E A) : result F A :=
  match r with Ok a => Ok a | Err e => Err (f e) end.

Definition ok_or {E A} (e : E) (o : option A) : result E A :=
  match o with Some a => Ok a | None => Err e end.

(** [iter.map(f).collect::<Result<Vec<_>, _>>()]: stops at the first error. *)
Fixpoint collect_results {E A B} (f : A -> result E B) (l : list A) : result E (list B) :=
  match l with
  | [] => Ok []
  | a :: l' => b ← f a; bs ← collect_results f l'; Ok (b :: bs)
  end.

Lemma collect_results_Ok {E A B} (f : A -> result E B) l bs :
  collect_results f l = Ok bs <-> Forall2 (fun a b => f a = Ok b) l bs.
Proof.
  revert bs. induction l as [|a l IH]; intros bs; simpl.
  - split; [intros [= <-]; constructor | by intros ->%Forall2_nil_inv_l].
  - split.
    + destruct (f a) as [b|] eqn:?; simpl; [|done].
      destruct (collect_results f l) as [bs'|]; simpl; [|done].
      intros [= <-]. constructor; [done|]. by apply IH.
    + intros (b & bs' & Ha & Hl%IH & ->)%Forall2_cons_inv_l. by rewrite Ha, Hl.
Qed.

(** ** Stateful fallible computations

    A Rust function that writes through a shared store and returns [Result]
    is a function of the store that yields the result together with the store
    it leaves, on the error paths too. *)
Definition M (S E A : Type) : Type := S -> result E A * S.

#[export] Instance M_ret {S E} : MRet (M S E) := fun A a s => (Ok a, s).
#[export] Instance M_bind {S E} : MBind (M S E) :=
  fun A B f c s => match c s with (Ok a, s') => f a s' | (Err e, s') => (Err e, s') end.

(** An error raised by the code itself. *)
Definition throw {S E A} (e : E) : M S E A := fun s => (Err e, s).
(** A pure computation that may fail, and [?] after [map_err]. *)
Definition lift {S E A} (r : result E A) : M S E A := fun s => (r, s).
(** A fallible read of the store. *)
Definition reads {S E A} (f : S -> result E A) : M S E A := fun s => (f s, s).
(** A fallible write of the store: a failed write leaves the store as it was. *)
Definition writes {S E} (f : S -> result E S) : M S E unit :=
  fun s => match f s with Ok s' => (Ok tt, s') | Err e => (Err e, s) end.
(** [Result::map_err] on a stateful computation. *)
Definition with_err {S E F A} (f : E -> F) (c : M S E A) : M S F A :=
  fun s => let '(r, s') := c s in (map_err f r, s').

(** A computation that may also panic: [None] in place of a result, with the
    state the panic leaves. *)
Definition PM (S E A : Type) : Type := S -> option (result E A) * S.
#[export] Instance PM_ret {S E} : MRet (PM S E) := fun A a s => (Some (Ok a), s).
#[export] Instance PM_bind {S E} : MBind (PM S E) :=
  fun A B f c s => match c s with
                   | (Some (Ok a), s') => f a s'
                   | (Some (Err e), s') => (Some (Err e), s')
                   | (None, s') => (None, s')
                   end.
(** A computation that does not panic. *)
Definition safe {S E A} (c : M S E A) : PM S E A := fun s => let '(r, s') := c s in (Some r, s').

Fixpoint for_each {S E A} (f : A -> M S E unit) (l : list A) : M S E unit :=
  match l with
  | [] => mret tt
  | a :: l' => f a ;; for_each f l'
  end.

(** A sequence that ran: its first part returned and the rest ran from the
    state it left, or its first part failed. *)
Lemma bind_inv {S E A B} (c : M S E A) (f : A -> M S E B) s r s' :
  (x ← c; f x) s = (r, s') ->
  (exists a t, c s = (Ok a, t) /\ f a t = (r, s')) \/
  (exists e, c s = (Err e, s') /\ r = Err e).
Proof.
  unfold mbind, M_bind. destruct (c s) as [[a|e] t]; [by eauto|]. intros [= <- <-]. eauto.
Qed.

Lemma result_bind_inv {E A B} (c : result E A) (f : A -> result E B) b :
  (x ← c; f x) = Ok b -> exists a, c = Ok a /\ f a = Ok b.
Proof. destruct c as [a|e]; [by eauto|done]. Qed.

Lemma lift_inv {S E A} (x : result E A) (s : S) r s' : lift x s = (r, s') -> x = r /\ s' = s.
Proof. by intros [= <- <-]. Qed.

Lemma with_err_inv {S E F A} (g : E -> F) (c : M S E A) s r s' : with_err g c s = (r, s') ->
  exists r0, c s = (r0, s') /\ r = map_err g r0.
Proof. unfold with_err. destruct (c s) as [r0 t]. intros [= <- <-]. eauto. Qed.

(** *** Frames

    [keeps P c]: every run of [c], failed ones too, relates the state before to
    the state after by the preorder [P].  The lemmas are the [frame] hints;
    [solve_frame] goes through the branches of an operation. *)
Definition keeps {S E A} (P : S -> S -> Prop) (c : M S E A) : Prop :=
  forall s r s', c s = (r, s') -> P s s'.

Create HintDb frame.

Section keeps.
Context {S E : Type} (P : S -> S -> Prop) `{!PreOrder P}.

Lemma keeps_ret {A} (a : A) : keeps P (mret a : M S E A).
Proof. intros s r s' [= _ <-]. done. Qed.
Lemma keeps_throw {A} (e : E) : keeps P (throw e : M S E A).
Proof. intros s r s' [= _ <-]. done. Qed.
Lemma keeps_lift {A} (x : result E A) : keeps P (lift x : M S E A).
Proof. intros s r s' [= _ <-]. done. Qed.
Lemma keeps_reads {A} (f : S -> result E A) : keeps P (reads f).
Proof. intros s r s' [= _ <-]. done. Qed.
Lemma keeps_writes (f : S -> result E S) :
  (forall s s', f s = Ok s' -> P s s') -> keeps P (writes f).
Proof.
  intros Hf s r s'. unfold writes. destruct (f s) as [t|e] eqn:Hs; intros [= _ <-]; [by apply Hf|done].
Qed.
Lemma keeps_bind {A B} (c : M S E A) (f : A -> M S E B) :
  keeps P c -> (forall a, keeps P (f a)) -> keeps P (x ← c; f x).
Proof.
  intros Hc Hf s r s' [(a & t & Ha & Hr)|(e & He & _)]%bind_inv; [|by eapply Hc].
  trans t; [by eapply Hc|by eapply Hf].
Qed.
Lemma keeps_with_err {F A} (g : F -> E) (c : M S F A) : keeps P c -> keeps P (with_err g c).
Proof. intros Hc s r s' (r0 & Hr & _)%with_err_inv. by eapply Hc. Qed.
Lemma keeps_for_each {A} (f : A -> M S E unit) l :
  (forall a, keeps P (f a)) -> keeps P (for_each f l).
Proof.
  intros Hf. induction l as [|a l IH]; simpl; [apply keeps_ret|]. by apply keeps_bind.
Qed.
End keeps.

(** The same for a computation that may panic. *)
Definition pkeeps {S E A} (P : S -> S -> Prop) (c : PM S E A) : Prop :=
  forall s r s', c s = (r, s') -> P s s'.

Lemma pbind_inv {S E A B} (c : PM S E A) (f : A -> PM S E B) s r s' :
  (x ← c; f x) s = (r, s') ->
  (exists a t, c s = (Some (Ok a), t) /\ f a t = (r, s')) \/
  (exists e, c s = (Some (Err e), s') /\ r = Some (Err e)) \/
  (c s = (None, s') /\ r = None).
Proof.
  unfold mbind, PM_bind. destruct (c s) as [[[a|e]|] t]; [by eauto| |];
    intros [= <- <-]; [right; left|right; right]; eauto.
Qed.

Lemma safe_bind {S E A B} (c : M S E A) (f : A -> PM S E B) s r s' :
  (x ← safe c; f x) s = (r, s') ->
  (exists a t, c s = (Ok a, t) /\ f a t = (r, s')) \/ (exists e, c s = (Err e, s') /\ r = Some (Err e)).
Proof.
  unfold mbind, PM_bind, safe. destruct (c s) as [[a|e] t]; [by eauto|]. intros [= <- <-]. eauto.
Qed.

(** The run of a computation, from its answer. *)
Lemma run_eq {A B} (x : A * B) a : x.1 = a -> x = (a, x.2).
Proof. destruct x; simpl. by intros ->. Qed.

Lemma pbind_assoc {S E A B C} (c : PM S E A) (f : A -> PM S E B) (g : B -> PM S E C) s :
  (x ← (y ← c; f y); g x) s = (y ← c; x ← f y; g x) s.
Proof. unfold mbind, PM_bind. by destruct (c s) as [[[a|e]|] t]. Qed.

Lemma pkeeps_ret {S E A} (P : S -> S -> Prop) `{!PreOrder P} (a : A) : pkeeps P (mret a : PM S E A).
Proof. intros s r s' [= _ <-]. done. Qed.
Lemma pkeeps_bind {S E A B} (P : S -> S -> Prop) `{!PreOrder P} (c : PM S E A) (f : A -> PM S E B) :
  pkeeps P c -> (forall a, pkeeps P (f a)) -> pkeeps P (x ← c; f x).
Proof.
  intros Hc Hf s r s' [(a & t & Ha & Hr)|[(e & He & _)|[He _]]]%pbind_inv; [|by eapply Hc..].
  trans t; [by eapply Hc|by eapply Hf].
Qed.

(** [errs Q c]: every error [c] returns satisfies [Q]. *)
Definition errs {S E A} (Q : E -> Prop) (c : M S E A) : Prop :=
  forall s e s', c s = (Err e, s') -> Q e.

Section errs.
Context {S E : Type} (Q : E -> Prop).
Lemma errs_ret {A} (a : A) : errs Q (mret a : M S E A).
Proof. by intros s e s' [=]. Qed.
Lemma errs_lift {A} (x : result E A) : (forall e, x = Err e -> Q e) -> errs Q (lift x : M S E A).
Proof. intros Hx s e s' [= -> _]. by apply Hx. Qed.
Lemma errs_reads {A} (f : S -> result E A) : (forall s e, f s = Err e -> Q e) -> errs Q (reads f).
Proof. intros Hf s e s' [= Hs _]. by eapply Hf. Qed.
Lemma errs_writes (f : S -> result E S) : (forall s e, f s = Err e -> Q e) -> errs Q (writes f).
Proof. intros Hf s e s'. unfold writes. destruct (f s) eqn:Hs; intros [=]; subst. by eapply Hf. Qed.
Lemma errs_bind {A B} (c : M S E A) (f : A -> M S E B) :
  errs Q c -> (forall a, errs Q (f a)) -> errs Q (x ← c; f x).
Proof.
  intros Hc Hf s e s' [(a & t & _ & Hr)|(e' & Hr & [= ->])]%bind_inv; [by eapply Hf|by eapply Hc].
Qed.
Lemma errs_for_each {A} (f : A -> M S E unit) l : (forall a, errs Q (f a)) -> errs Q (for_each f l).
Proof. intros Hf. induction l as [|a l IH]; simpl; [apply errs_ret|]. by apply errs_bind. Qed.
End errs.
#[export] Hint Resolve errs_ret errs_for_each : frame.

#[export] Hint Resolve keeps_ret keeps_throw keeps_lift keeps_reads keeps_bind keeps_with_err
  keeps_for_each : frame.

Ltac solve_frame :=
  repeat first
    [ progress intros
    | solve [eauto with frame typeclass_instances]
    | apply keeps_bind; [apply _| |]
    | apply keeps_with_err
    | apply keeps_for_each; [apply _|]
    | apply errs_bind
    | apply errs_for_each
    | case_match ].

(** An invariant that every iteration keeps holds after the loop. *)
Lemma for_each_inv {S E A} (P : S -> Prop) (f : A -> M S E unit) l s r s' :
  (forall a t u t', a ∈ l -> P t -> f a t = (u, t') -> P t') ->
  P s -> for_each f l s = (r, s') -> P s'.
Proof.
  revert s. induction l as [|a l IH]; intros s Hf Hs; simpl.
  - intros [= _ <-]. done.
  - unfold mbind, M_bind. destruct (f a s) as [[u|e] t] eqn:Ha.
    + apply IH; [|by eapply Hf; [constructor|..]].
      intros b ? ? ? Hb. apply Hf. by constructor.
    + intros [= _ <-]. eapply Hf; [constructor|..]; done.
Qed.

(** ** Strings

    A Rust [String] is a sequence of bytes (UTF-8), as is Rocq's [string]:
    lengths, prefixes and the lexicographic order of RocksDB keys are those of
    the bytes. *)

#[global] Arguments String.append : simpl nomatch.

Fixpoint starts_with (p s : string) : bool :=
  match p, s with
  | EmptyString, _ => true
  | String a p', String b s' => bool_decide (a = b) && starts_with p' s'
  | String _ _, EmptyString => false
  end.

Fixpoint contains_char (c : ascii) (s : string) : bool :=
  match s with
  | EmptyString => false
  | String d s' => bool_decide (c = d) || contains_char c s'
  end.

(** [s.contains(p)] for a string pattern. *)
Fixpoint contains_str (p s : string) : bool :=
  starts_with p s ||
  match s with
  | EmptyString => false
  | String _ s' => contains_str p s'
  end.

Fixpoint ends_with_char (c : ascii) (s : string) : bool :=
  match s with
  | EmptyString => false
  | String d EmptyString => bool_decide (c = d)
  | String _ s' => ends_with_char c s'
  end.

Definition starts_with_char (c : ascii) (s : string) : bool :=
  match s with EmptyString => false | String d _ => bool_decide (c = d) end.

Fixpoint all_chars (f : ascii -> bool) (s : string) : bool :=
  match s with EmptyString => true | String c s' => f c && all_chars f s' end.

(** [s.split(c)]: the parts between the separators, one more than them. *)
Fixpoint split_char (c : ascii) (s : string) : list string :=
  match s with
  | EmptyString => [EmptyString]
  | String d s' =>
      if bool_decide (c = d) then EmptyString :: split_char c s'
      else match split_char c s' with
           | [] => [String d EmptyString]
           | p :: ps => String d p :: ps
           end
  end.

(** [s.split_once(c)] and [s.rsplit_once(c)]. *)
Fixpoint split_once (c : ascii) (s : string) : option (string * string) :=
  match s with
  | EmptyString => None
  | String d s' =>
      if bool_decide (c = d) then Some (EmptyString, s')
      else match split_once c s' with
           | Some (a, b) => Some (String d a, b)
           | None => None
           end
  end.

Fixpoint rsplit_once (c : ascii) (s : string) : option (string * string) :=
  match s with
  | EmptyString => None
  | String d s' =>
      match rsplit_once c s' with
      | Some (a, b) => Some (String d a, b)
      | None => if bool_decide (c = d) then Some (EmptyString, s') else None
      end
  end.

Fixpoint strip_prefix (p s : string) : option string :=
  match p, s with
  | EmptyString, _ => Some s
  | String a p', String b s' => if bool_decide (a = b) then strip_prefix p' s' else None
  | String _ _, EmptyString => None
  end.

(** [parts.join(sep)]. *)
Fixpoint join_str (sep : string) (l : list string) : string :=
  match l with
  | [] => ""
  | [s] => s
  | s :: l' => s +:+ sep +:+ join_str sep l'
  end.

(** ASCII part of [to_lowercase]; header names and the messages the code
    matches on are ASCII. *)
Definition lower_ascii (c : ascii) : ascii :=
  let n := N_of_ascii c in
  if (65 <=? n)%N && (n <=? 90)%N then ascii_of_N (n + 32) else c.
Fixpoint to_lowercase (s : string) : string :=
  match s with EmptyString => EmptyString | String c s' => String (lower_ascii c) (to_lowercase s') end.

Definition is_ascii_digit (c : ascii) : bool :=
  let n := N_of_ascii c in (48 <=? n)%N && (n <=? 57)%N.
Definition is_ascii_lowercase (c : ascii) : bool :=
  let n := N_of_ascii c in (97 <=? n)%N && (n <=? 122)%N.

#[export] Instance string_app_assoc : Assoc (=) String.append.
Proof. intros s t u. induction s as [|c s IH]; simpl; congruence. Qed.

Lemma string_app_nil_r s : s +:+ "" = s.
Proof. induction s as [|c s IH]; simpl; [done|]. by rewrite IH. Qed.

Lemma string_length_app s t : String.length (s +:+ t) = String.length s + String.length t.
Proof. induction s as [|c s IH]; simpl; [done|]. by rewrite IH. Qed.

Lemma string_app_inj_r s s' t : s +:+ t = s' +:+ t -> s = s'.
Proof.
  revert s'. induction s as [|c s IH]; intros [|c' s'] Heq.
  - done.
  - apply (f_equal String.length) in Heq. rewrite !string_length_app in Heq. simpl in Heq. lia.
  - apply (f_equal String.length) in Heq. rewrite !string_length_app in Heq. simpl in Heq. lia.
  - simpl in Heq. simplify_eq. f_equal. by apply IH.
Qed.

Lemma starts_with_spec p s : starts_with p s = true <-> exists t, s = p +:+ t.
Proof.
  revert s. induction p as [|a p IH]; intros s; simpl.
  - split; [intros _; by exists s|by destruct s].
  - destruct s as [|b s]; [by split; [|intros (t & ?)]|].
    rewrite andb_true_iff, bool_decide_eq_true, IH. naive_solver.
Qed.

Lemma starts_with_app p t : starts_with p (p +:+ t) = true.
Proof. apply starts_with_spec. eauto. Qed.

Lemma starts_with_trans p q s :
  starts_with p q = true -> starts_with q s = true -> starts_with p s = true.
Proof.
  rewrite !starts_with_spec. intros (t & ->) (u & ->). exists (t +:+ u).
  by rewrite <- (assoc_L String.append).
Qed.

Lemma starts_with_app_l p s t : starts_with (p +:+ s) (p +:+ t) = starts_with s t.
Proof.
  apply eq_true_iff_eq. rewrite !starts_with_spec. split; intros (u & Hu); exists u.
  - rewrite <- (assoc_L String.append) in Hu. by simplify_eq.
  - by rewrite Hu, (assoc_L String.append).
Qed.

Lemma contains_str_app p s t : contains_str p (s +:+ p +:+ t) = true.
Proof.
  induction s as [|c s IH]; simpl.
  - destruct (p +:+ t) eqn:E; simpl; rewrite <- E, starts_with_app; done.
  - rewrite IH. by rewrite orb_true_r.
Qed.

Lemma contains_str_app_l p s t : contains_str p t = true -> contains_str p (s +:+ t) = true.
Proof. intros H. induction s as [|c s IH]; simpl; [done|]. by rewrite IH, orb_true_r. Qed.

Lemma starts_with_app_r p s t : starts_with p s = true -> starts_with p (s +:+ t) = true.
Proof.
  rewrite !starts_with_spec. intros (u & ->). exists (u +:+ t). by rewrite (assoc_L String.append).
Qed.
Lemma contains_str_app_r p s t : contains_str p s = true -> contains_str p (s +:+ t) = true.
Proof.
  induction s as [|c s IH]; simpl.
  - destruct p; [|done]. by destruct t.
  - rewrite !orb_true_iff. intros [Hp|Hs]; [left|right; by apply IH].
    apply (starts_with_app_r p (String c s) t) in Hp. done.
Qed.

Lemma contains_char_app c s t :
  contains_char c (s +:+ t) = contains_char c s || contains_char c t.
Proof. induction s as [|d s IH]; simpl; [done|]. by rewrite IH, orb_assoc. Qed.

Lemma split_char_nonnil c s : split_char c s <> [].
Proof. destruct s; simpl; [done|]. case_bool_decide; [done|]. by case_match. Qed.

Lemma split_char_none c s : contains_char c s = false -> split_char c s = [s].
Proof.
  induction s as [|d s IH]; simpl; [done|].
  intros [Hd Hs]%orb_false_elim. rewrite Hd, IH by done. done.
Qed.

Lemma split_char_app c s t :
  contains_char c s = false -> split_char c (s +:+ String c t) = s :: split_char c t.
Proof.
  induction s as [|d s IH]; simpl.
  - intros _. by rewrite bool_decide_eq_true_2.
  - intros [Hd Hs]%orb_false_elim. by rewrite Hd, IH.
Qed.

(** The pieces of a split hold no separator and joined with it give the string. *)
Lemma split_char_join c s l : split_char c s = l ->
  s = join_str (String c "") l /\ Forall (fun p => contains_char c p = false) l.
Proof.
  intros <-. induction s as [|d s IHs]; simpl; [split; [done|by repeat constructor]|].
  destruct IHs as [IH Hall].
  case_bool_decide as Hd.
  - subst d. split; [|by constructor]. rewrite IH at 1.
    destruct (split_char c s) eqn:Hs; [by apply split_char_nonnil in Hs|done].
  - destruct (split_char c s) as [|p ps] eqn:Hs; [by apply split_char_nonnil in Hs|].
    inversion Hall as [|? ? Hp Hps]; subst. split.
    + by destruct ps.
    + constructor; [|done]. simpl. by rewrite bool_decide_eq_false_2, Hp.
Qed.

Lemma rsplit_once_none c s : contains_char c s = false -> rsplit_once c s = None.
Proof.
  induction s as [|d s IH]; simpl; [done|].
  intros [Hd Hs]%orb_false_elim. by rewrite IH, Hd.
Qed.

Lemma rsplit_once_app c s t :
  contains_char c t = false -> rsplit_once c (s +:+ String c t) = Some (s, t).
Proof.
  intros Ht. induction s as [|d s IH]; simpl.
  - rewrite rsplit_once_none by done. by rewrite bool_decide_eq_true_2.
  - by rewrite IH.
Qed.

Lemma rsplit_once_Some c s a b :
  rsplit_once c s = Some (a, b) -> s = a +:+ String c b /\ contains_char c b = false.
Proof.
  revert a. induction s as [|d s IH]; intros a; simpl; [done|].
  destruct (rsplit_once c s) as [[a' b']|] eqn:E.
  - intros [= <- <-]. destruct (IH a') as [-> ?]; done.
  - case_bool_decide; [|done]. intros [= <- <-]. subst. split; [done|].
    clear IH. induction s as [|e s IH]; simpl in *; [done|].
    destruct (rsplit_once d s) as [[]|]; [done|].
    case_bool_decide; [done|]. simpl. by apply IH.
Qed.

(** *** Lexicographic byte order

    The order in which RocksDB iterates and in which Rust compares strings. *)

Fixpoint str_ltb (s t : string) : bool :=
  match s, t with
  | _, EmptyString => false
  | EmptyString, String _ _ => true
  | String a s', String b t' =>
      (N_of_ascii a <? N_of_ascii b)%N || (bool_decide (a = b) && str_ltb s' t')
  end.

Definition str_lt (s t : string) : Prop := str_ltb s t = true.
Definition str_le (s t : string) : Prop := str_ltb t s = false.
#[export] Instance str_lt_dec : RelDecision str_lt.
Proof. intros s t. unfold str_lt. apply _. Defined.
#[export] Instance str_le_dec : RelDecision str_le.
Proof. intros s t. unfold str_le. apply _. Defined.

Lemma N_of_ascii_inj a b : N_of_ascii a = N_of_ascii b -> a = b.
Proof. intros H. by rewrite <- (ascii_N_embedding a), H, ascii_N_embedding. Qed.

Lemma str_ltb_cons a b s t :
  str_ltb (String a s) (String b t) = true <->
  (N_of_ascii a < N_of_ascii b)%N \/ (a = b /\ str_ltb s t = true).
Proof. simpl. by rewrite orb_true_iff, andb_true_iff, bool_decide_eq_true, N.ltb_lt. Qed.

Lemma str_ltb_irrefl s : str_ltb s s = false.
Proof.
  apply not_true_is_false. induction s as [|a s IH]; [done|].
  rewrite str_ltb_cons. intros [?|[_ ?]]; [lia|done].
Qed.

Lemma str_ltb_trans s t u : str_ltb s t = true -> str_ltb t u = true -> str_ltb s u = true.
Proof.
  revert t u. induction s as [|a s IH]; intros [|b t] [|c u]; try done.
  rewrite !str_ltb_cons.
  intros [?|[-> ?]] [?|[-> ?]]; [left; lia|left; done|left; done|].
  right. split; [done|]. by eapply IH.
Qed.

Lemma str_ltb_total s t : s = t \/ str_ltb s t = true \/ str_ltb t s = true.
Proof.
  revert t. induction s as [|a s IH]; intros [|b t]; [by left|by right; left|by right; right|].
  rewrite !str_ltb_cons.
  destruct (N.lt_total (N_of_ascii a) (N_of_ascii b)) as [?|[->%N_of_ascii_inj|?]]; [by auto| |by auto].
  destruct (IH t) as [->|[?|?]]; [by left|by auto|by auto].
Qed.

#[export] Instance str_lt_trans : Transitive str_lt.
Proof. intros s t u. apply str_ltb_trans. Qed.
#[export] Instance str_lt_irrefl : Irreflexive str_lt.
Proof. intros s. unfold complement, str_lt. by rewrite str_ltb_irrefl. Qed.

Lemma str_lt_le s t : str_lt s t -> str_le s t.
Proof.
  unfold str_lt, str_le. intros H. apply not_true_is_false. intros H'.
  pose proof (str_ltb_trans _ _ _ H H') as Hs. by rewrite str_ltb_irrefl in Hs.
Qed.
Lemma str_le_lt_or_eq s t : str_le s t <-> str_lt s t \/ s = t.
Proof.
  split.
  - unfold str_le, str_lt. destruct (str_ltb_total s t) as [?|[?|?]]; auto. congruence.
  - intros [?| ->]; [by apply str_lt_le|apply str_ltb_irrefl].
Qed.
#[export] Instance str_le_trans : Transitive str_le.
Proof.
  intros s t u. rewrite !str_le_lt_or_eq. intros [?| ->] [?| ->]; auto. left. by etrans.
Qed.
#[export] Instance str_le_total : Total str_le.
Proof.
  intros s t. rewrite !str_le_lt_or_eq. destruct (str_ltb_total s t) as [->|[?|?]]; auto.
Qed.
#[export] Instance str_le_antisym : AntiSymm (=) str_le.
Proof.
  intros s t. rewrite !str_le_lt_or_eq. intros [Hst| ->] [Hts|?]; auto.
  destruct (irreflexivity str_lt s). by etrans.
Qed.

Lemma str_lt_app_l p s t : str_lt (p +:+ s) (p +:+ t) <-> str_lt s t.
Proof.
  unfold str_lt. induction p as [|c p IH]; [done|]. simpl String.append.
  rewrite str_ltb_cons, IH. split; [intros [?|[_ ?]]; [lia|done]|by right].
Qed.

(** A key at or after [p] that does not start with [p] is after every key
    that does: the keys with a prefix are a contiguous run that begins at it. *)
Lemma str_prefix_run p k k' :
  str_le p k -> starts_with p k = false -> starts_with p k' = true -> str_lt k' k.
Proof.
  unfold str_le, str_lt. revert k k'. induction p as [|a p IH]; intros k k'; [by destruct k|].
  destruct k as [|b k]; [done|]. destruct k' as [|c k']; [by destruct p|].
  intros Hle Hk Hk'. simpl in Hk'. apply andb_true_iff in Hk' as [Hc Hk'].
  apply bool_decide_eq_true in Hc as <-. apply str_ltb_cons.
  destruct (decide (a = b)) as [<-|Hne].
  - right. split; [done|]. simpl in Hk. rewrite bool_decide_eq_true_2 in Hk by done.
    apply IH; [|done|done]. apply not_true_is_false. intros H. revert Hle.
    rewrite (proj2 (str_ltb_cons _ _ _ _)); [done|]. by right.
  - left. destruct (N.lt_total (N_of_ascii a) (N_of_ascii b)) as [?|[?%N_of_ascii_inj|H]]; [done..|].
    revert Hle. rewrite (proj2 (str_ltb_cons _ _ _ _)); [done|]. by left.
Qed.

(** ** Prefix scans of a sorted run *)

Fixpoint take_while {A} (f : A -> bool) (l : list A) : list A :=
  match l with
  | [] => []
  | a :: l' => if f a then a :: take_while f l' else []
  end.

Lemma take_while_filter {A} (f : A -> bool) (R : relation A) l :
  (forall a b, a ∈ l -> b ∈ l -> f a = false -> R a b -> f b = false) ->
  StronglySorted R l -> take_while f l = filter (fun a => f a = true) l.
Proof.
  induction l as [|a l IH]; intros Hf Hs; [done|].
  apply StronglySorted_inv in Hs as [Hs Ha]. simpl. rewrite filter_cons.
  destruct (f a) eqn:E.
  - rewrite decide_True by done. f_equal. apply IH; [|done].
    intros b c ? ?. apply Hf; by constructor.
  - rewrite decide_False by congruence.
    assert (Hn : Forall (fun b => f b <> true) l).
    { apply list.Forall_forall. intros b Hb. rewrite list.Forall_forall in Ha.
      rewrite (Hf a b); set_solver. }
    clear -Hn. induction Hn; [done|]. by rewrite filter_cons_False.
Qed.

(** ** Unsigned integers

    [u16], [u32], [u64] and [usize] are [N]; [wrapN w] is the wrap-around of a
    [w]-bit register. *)
Definition wrapN (w : N) (n : N) : N := (n mod 2 ^ w)%N.
Definition u16_max : N := 65535.
Definition u32_max : N := 4294967295.
Definition u64_max : N := 18446744073709551615.

Definition digit_val (c : ascii) : N := (N_of_ascii c - 48)%N.

(** [str::parse::<uN>]: an optional leading [+], then at least one decimal
    digit; anything else, and a value above [max], is an error. *)
Fixpoint parse_digits (max acc : N) (s : string) : option N :=
  match s with
  | EmptyString => Some acc
  | String c s' =>
      if is_ascii_digit c
      then let v := (acc * 10 + digit_val c)%N in
           if (v <=? max)%N then parse_digits max v s' else None
      else None
  end.

Definition parse_uint (max : N) (s : string) : option N :=
  match s with
  | EmptyString => None
  | String c s' =>
      if bool_decide (c = "+"%char)
      then match s' with EmptyString => None | _ => parse_digits max 0 s' end
      else parse_digits max 0 s
  end.

Lemma parse_digits_le max acc s n : (acc <= max)%N -> parse_digits max acc s = Some n -> (n <= max)%N.
Proof.
  revert acc. induction s as [|c s IH]; intros acc Ha; simpl; [by intros [= <-]|].
  destruct (is_ascii_digit c); [|done].
  destruct (N.leb_spec (acc * 10 + digit_val c) max); [|done]. by apply IH.
Qed.

Lemma parse_uint_le max s n : parse_uint max s = Some n -> (n <= max)%N.
Proof.
  unfold parse_uint. destruct s as [|c s]; [done|].
  case_bool_decide; [destruct s; [done|]|]; apply parse_digits_le; lia.
Qed.

(** A string that parses as a number holds no character that is neither a digit
    nor a plus sign. *)
Lemma parse_digits_no_char max acc s n c : is_ascii_digit c = false ->
  parse_digits max acc s = Some n -> contains_char c s = false.
Proof.
  intros Hc. revert acc. induction s as [|d s IH]; intros acc; simpl; [done|].
  destruct (is_ascii_digit d) eqn:Hd; [|done]. case_match; [|done]. intros Hp.
  rewrite (IH _ Hp). rewrite bool_decide_eq_false_2; [done|]. intros ->. congruence.
Qed.
Lemma parse_uint_no_char max s n c : is_ascii_digit c = false -> c <> "+"%char ->
  parse_uint max s = Some n -> contains_char c s = false.
Proof.
  intros Hc Hplus. unfold parse_uint. destruct s as [|d s]; [done|]. case_bool_decide as Hd.
  - destruct s as [|e s]; [done|]. intros Hp. apply (parse_digits_no_char _ _ _ _ _ Hc) in Hp.
    subst d. cbn [contains_char] in *. rewrite Hp. by rewrite bool_decide_eq_false_2.
  - by apply parse_digits_no_char.
Qed.

(** Decimal printing, [n.to_string()] and [{}]. *)
Definition show (n : N) : string := pretty n.

Lemma pretty_N_char_digit x : (x < 10)%N ->
  is_ascii_digit (pretty_N_char x) = true /\ digit_val (pretty_N_char x) = x.
Proof.
  intros Hx.
  assert (x = 0 \/ x = 1 \/ x = 2 \/ x = 3 \/ x = 4 \/ x = 5 \/ x = 6 \/ x = 7 \/ x = 8 \/ x = 9)%N
    as Hcases by lia.
  destruct_or! Hcases; subst; by vm_compute.
Qed.

Lemma parse_digits_pretty max x s : (x <= max)%N ->
  parse_digits max 0 (pretty_N_go x s) = parse_digits max x s.
Proof.
  revert s. induction (N.lt_wf_0 x) as [x _ IH]. intros s Hx.
  assert (x = 0 \/ 0 < x)%N as [->|Hpos] by lia; [done|].
  rewrite pretty_N_go_step by done.
  assert (Hdm : (x = 10 * (x / 10) + x mod 10)%N) by (apply N.div_mod; lia).
  assert (Hm : (x mod 10 < 10)%N) by (apply N.mod_lt; lia).
  assert (Hlt : (x / 10 < x)%N) by (apply N.div_lt; lia).
  rewrite IH by lia. simpl.
  destruct (pretty_N_char_digit (x mod 10)) as [-> ->]; [done|].
  replace (x / 10 * 10 + x mod 10)%N with x by lia.
  by rewrite (proj2 (N.leb_le x max)).
Qed.

Lemma pretty_N_go_head x c s : is_ascii_digit c = true ->
  exists d t, pretty_N_go x (String c s) = String d t /\ is_ascii_digit d = true.
Proof.
  revert c s. induction (N.lt_wf_0 x) as [x _ IH]. intros c s Hc.
  assert (x = 0 \/ 0 < x)%N as [->|Hpos] by lia; [by exists c, s|].
  rewrite pretty_N_go_step by done. apply IH; [apply N.div_lt; lia|].
  apply pretty_N_char_digit, N.mod_lt. lia.
Qed.

Lemma show_head n : exists d t, show n = String d t /\ is_ascii_digit d = true.
Proof.
  unfold show, pretty, pretty_N. case_decide as Hn; [by exists "0"%char, ""|].
  rewrite pretty_N_go_step by lia. apply pretty_N_go_head, pretty_N_char_digit, N.mod_lt. lia.
Qed.

(** Printing then parsing a number in range gives it back. *)
Lemma parse_show max n : (n <= max)%N -> parse_uint max (show n) = Some n.
Proof.
  intros Hn. destruct (show_head n) as (d & t & Hs & Hd). rewrite Hs.
  unfold parse_uint. rewrite (bool_decide_eq_false_2 (d = "+"%char)) 
    by (intros ->; by vm_compute in Hd).
  rewrite <- Hs. unfold show, pretty, pretty_N. case_decide as H0.
  - subst. unfold parse_digits. change (0 * 10 + digit_val "0")%N with 0%N.
    by rewrite (proj2 (N.leb_le 0 max)) by lia.
  - by rewrite parse_digits_pretty.
Qed.

#[export] Instance show_inj : Inj (=) (=) show.
Proof. intros n m. apply (inj pretty). Qed.

Lemma pretty_N_go_digits x s : all_chars is_ascii_digit s = true ->
  all_chars is_ascii_digit (pretty_N_go x s) = true.
Proof.
  revert s. induction (N.lt_wf_0 x) as [x _ IH]. intros s Hs.
  assert (x = 0 \/ 0 < x)%N as [->|Hpos] by lia; [done|].
  rewrite pretty_N_go_step by done. apply IH; [apply N.div_lt; lia|].
  simpl. destruct (pretty_N_char_digit (x mod 10)) as [-> _]; [apply N.mod_lt; lia|done].
Qed.

Lemma show_digits n : all_chars is_ascii_digit (show n) = true.
Proof. unfold show, pretty, pretty_N. case_decide; [done|]. by apply pretty_N_go_digits. Qed.

Lemma all_chars_contains f c s : all_chars f s = true -> f c = false -> contains_char c s = false.
Proof.
  intros Hs Hc. induction s as [|d s IH]; simpl in *; [done|].
  apply andb_true_iff in Hs as [Hd Hs]. rewrite IH by done.
  rewrite bool_decide_eq_false_2; [done|]. intros ->. congruence.
Qed.

Lemma show_no_char c n : is_ascii_digit c = false -> contains_char c (show n) = false.
Proof. apply all_chars_contains, show_digits. Qed.
