(* ===== verification/Common.v ===== *)
(** * save-common: errors, bucket and key validation, the [Bucket] record

    Models [crates/save-common/src/error.rs], [validation.rs] and [types.rs].
    A timestamp ([DateTime<Utc>]) is a [Z], the instant in nanoseconds; every
    call of [Utc::now()] is an argument of the operation that makes it. *)
From Stdlib Require Import Ascii.
From S2P Require Import Prelude.
From stdpp Require Import base gmap strings numbers list.

(** ** [error.rs] *)
Module Error.
Inductive t : Type :=
| Io (msg : string)
| Validation (msg : string)
| Config (msg : string)
| Toml (msg : string).

#[export] Instance eq_dec : EqDecision t.
Proof. solve_decision. Defined.

Definition validation (msg : string) : t := Validation msg.
Definition config (msg : string) : t := Config msg.

(** The [Display] implementation that [thiserror] derives. *)
Definition to_string (e : t) : string :=
  match e with
  | Io m => "I/O error: " +:+ m
  | Validation m => "Validation error: " +:+ m
  | Config m => "Configuration error: " +:+ m
  | Toml m => "TOML error: " +:+ m
  end.
End Error.

(** ** [types.rs] *)
Record Bucket : Type := mkBucket { bucket_name : string; created_at : Z }.

#[export] Instance Bucket_eq_dec : EqDecision Bucket.
Proof. solve_decision. Defined.
#[export] Instance Bucket_countable : Countable Bucket.
Proof.
  by apply (inj_countable' (fun b => (bucket_name b, created_at b))
    (fun p => mkBucket p.1 p.2)); intros [].
Defined.

Definition Bucket_new (now : Z) (name : string) : Bucket := mkBucket name now.
Definition Bucket_with_timestamp (name : string) (at_ : Z) : Bucket := mkBucket name at_.

(** ** [validation.rs] *)
Definition MAX_OBJECT_KEY_LENGTH : nat := 1024.
Definition MIN_BUCKET_NAME_LENGTH : nat := 3.
Definition MAX_BUCKET_NAME_LENGTH : nat := 63.

Definition show_nat (n : nat) : string := show (N.of_nat n).

Definition validate_object_key (key : string) : result Error.t unit :=
  if bool_decide (key = "") then Err (Error.validation "Object key cannot be empty")
  else if Nat.ltb MAX_OBJECT_KEY_LENGTH (String.length key) then
    Err (Error.validation ("Object key too long: " +:+ show_nat (String.length key)
           +:+ " bytes (max " +:+ show_nat MAX_OBJECT_KEY_LENGTH +:+ ")"))
  else if contains_char "000"%char key then
    Err (Error.validation "Object key cannot contain null bytes")
  else if contains_str ".." key then
    Err (Error.validation "Object key cannot contain '..'")
  else if starts_with_char "/"%char key || ends_with_char "/"%char key then
    Err (Error.validation "Object key cannot start or end with '/'")
  else Ok tt.

Definition bucket_char (c : ascii) : bool :=
  is_ascii_lowercase c || is_ascii_digit c || bool_decide (c = "-"%char) || bool_decide (c = "."%char).

Definition validate_bucket_name (name : string) : result Error.t unit :=
  if Nat.ltb (String.length name) MIN_BUCKET_NAME_LENGTH
     || Nat.ltb MAX_BUCKET_NAME_LENGTH (String.length name) then
    Err (Error.validation ("Bucket name must be " +:+ show_nat MIN_BUCKET_NAME_LENGTH +:+ "-"
           +:+ show_nat MAX_BUCKET_NAME_LENGTH +:+ " characters, got "
           +:+ show_nat (String.length name)))
  else if negb (all_chars bucket_char name) then
    Err (Error.validation
      "Bucket name must contain only lowercase letters, numbers, hyphens, and dots")
  else if starts_with_char "-"%char name || starts_with_char "."%char name
          || ends_with_char "-"%char name || ends_with_char "."%char name then
    Err (Error.validation "Bucket name cannot start or end with hyphen or dot")
  else Ok tt.

(** ** What a validated name guarantees *)

Lemma validate_object_key_Ok key :
  validate_object_key key = Ok tt <->
  key <> "" /\ String.length key <= 1024 /\ contains_char "000"%char key = false
  /\ contains_str ".." key = false
  /\ starts_with_char "/"%char key = false /\ ends_with_char "/"%char key = false.
Proof.
  unfold validate_object_key, MAX_OBJECT_KEY_LENGTH.
  case_bool_decide; [naive_solver|].
  destruct (Nat.ltb_spec 1024 (String.length key)); [split; [done|lia]|].
  destruct (contains_char "000"%char key); [naive_solver|].
  destruct (contains_str ".." key); [naive_solver|].
  destruct (starts_with_char "/"%char key), (ends_with_char "/"%char key); naive_solver lia.
Qed.

Lemma validate_bucket_name_chars name :
  validate_bucket_name name = Ok tt -> all_chars bucket_char name = true.
Proof. unfold validate_bucket_name. case_match; [done|]. by destruct (all_chars bucket_char name). Qed.

Lemma validate_bucket_name_no_sep name c :
  validate_bucket_name name = Ok tt -> bucket_char c = false -> contains_char c name = false.
Proof. intros H. eapply all_chars_contains, validate_bucket_name_chars, H. Qed.

Lemma validate_bucket_name_no_slash name :
  validate_bucket_name name = Ok tt -> contains_char "/"%char name = false.
Proof. intros H. by eapply validate_bucket_name_no_sep. Qed.
Lemma validate_bucket_name_no_colon name :
  validate_bucket_name name = Ok tt -> contains_char ":"%char name = false.
Proof. intros H. by eapply validate_bucket_name_no_sep. Qed.

(** Two strings joined by a separator the first parts do not contain split
    back uniquely. *)
Lemma sep_app_inj c s s' t t' :
  contains_char c s = false -> contains_char c s' = false ->
  s +:+ String c t = s' +:+ String c t' -> s = s' /\ t = t'.
Proof.
  revert s'. induction s as [|d s IH]; intros [|d' s']; simpl; intros Hs Hs' Heq.
  - by simplify_eq.
  - simplify_eq. rewrite bool_decide_eq_true_2 in Hs'; done.
  - simplify_eq. rewrite bool_decide_eq_true_2 in Hs; done.
  - apply orb_false_elim in Hs as [_ Hs]. apply orb_false_elim in Hs' as [_ Hs'].
    simplify_eq. destruct (IH s') as [-> ->]; done.
Qed.
