(* ===== verification/Peers.v ===== *)
(** * save-common: peer addresses

    Models [crates/save-common/src/cluster.rs]. *)
From Stdlib Require Import Ascii.
From S2P Require Import Prelude Common.
From stdpp Require Import base gmap strings numbers list.

Module PeerInfo.
Record t : Type := mk {
  node_id : N; host : string; raft_port : N; http_port : N; replication_port : N }.

#[export] Instance eq_dec : EqDecision t.
Proof. solve_decision. Defined.

Definition raft_addr (p : t) : string := "http://" +:+ host p +:+ ":" +:+ show (raft_port p).
Definition http_addr (p : t) : string := "http://" +:+ host p +:+ ":" +:+ show (http_port p).
Definition replication_addr (p : t) : string :=
  "http://" +:+ host p +:+ ":" +:+ show (replication_port p).
Definition to_tuple (p : t) : N * string * string * string :=
  (node_id p, raft_addr p, http_addr p, replication_addr p).
End PeerInfo.

Definition parse_bind_addr (addr : string) : result Error.t (string * N) :=
  '(host, port_str) ← ok_or (Error.validation ("Invalid bind address '" +:+ addr
      +:+ "'. Expected 'host:port' format")) (rsplit_once ":"%char addr);
  port ← ok_or (Error.validation ("Invalid port in bind address '" +:+ addr
      +:+ "'. Expected numeric value 1-65535")) (parse_uint u16_max port_str);
  Ok (host, port).

Definition from_bind_addrs (node_id : N) (raft_bind http_bind replication_bind : string)
  : result Error.t PeerInfo.t :=
  '(host, raft_port) ← parse_bind_addr raft_bind;
  '(_, http_port) ← parse_bind_addr http_bind;
  '(_, replication_port) ← parse_bind_addr replication_bind;
  Ok (PeerInfo.mk node_id host raft_port http_port replication_port).

Definition bad_field (field peer expected : string) : Error.t :=
  Error.validation ("Invalid " +:+ field +:+ " in peer '" +:+ peer +:+ "'. Expected numeric value" +:+ expected).

Definition parse_peer (peer : string) : result Error.t PeerInfo.t :=
  match split_char ":"%char peer with
  | [p0; p1; p2; p3; p4] =>
      node_id ← ok_or (bad_field "node_id" peer "") (parse_uint u64_max p0);
      let host := p1 in
      raft_port ← ok_or (bad_field "raft_port" peer " 1-65535") (parse_uint u16_max p2);
      http_port ← ok_or (bad_field "http_port" peer " 1-65535") (parse_uint u16_max p3);
      replication_port ← ok_or (bad_field "replication_port" peer " 1-65535") (parse_uint u16_max p4);
      Ok (PeerInfo.mk node_id host raft_port http_port replication_port)
  | _ => Err (Error.validation ("Invalid peer format '" +:+ peer
           +:+ "'. Expected 'node_id:host:raft_port:http_port:replication_port'"))
  end.

Definition parse_peers (peers : list string) : result Error.t (list PeerInfo.t) :=
  collect_results parse_peer peers.

(** The textual form [parse_peer] reads. *)
Definition peer_string (p : PeerInfo.t) : string :=
  show (PeerInfo.node_id p) +:+ ":" +:+ PeerInfo.host p +:+ ":" +:+ show (PeerInfo.raft_port p)
  +:+ ":" +:+ show (PeerInfo.http_port p) +:+ ":" +:+ show (PeerInfo.replication_port p).

Definition peer_wf (p : PeerInfo.t) : Prop :=
  (PeerInfo.node_id p <= u64_max)%N /\ contains_char ":"%char (PeerInfo.host p) = false /\
  (PeerInfo.raft_port p <= u16_max)%N /\ (PeerInfo.http_port p <= u16_max)%N /\
  (PeerInfo.replication_port p <= u16_max)%N.

Lemma parse_peer_string p : peer_wf p -> parse_peer (peer_string p) = Ok p.
Proof.
  intros (Hid & Hh & H1 & H2 & H3).
  assert (Hs : split_char ":"%char (peer_string p)
    = [show (PeerInfo.node_id p); PeerInfo.host p; show (PeerInfo.raft_port p); show (PeerInfo.http_port p);
       show (PeerInfo.replication_port p)]).
  { unfold peer_string. simpl. rewrite !split_char_app by (done || by apply show_no_char).
    rewrite split_char_none by (by apply show_no_char). done. }
  unfold parse_peer. rewrite Hs, !parse_show by done. by destruct p.
Qed.

(** Printing and parsing a peer are inverse: the five fields joined by colons
    parse back to the peer, for every node id, every port and every host without
    a colon. *)
Theorem parse_peer_roundtrip p : peer_wf p -> parse_peer (peer_string p) = Ok p.
Proof. apply parse_peer_string. Qed.

Lemma parse_peer_roundtrip_witness :
  parse_peer "1:192.168.1.10:9001:9000:9002" = Ok (PeerInfo.mk 1 "192.168.1.10" 9001 9000 9002).
Proof.
  apply (parse_peer_roundtrip (PeerInfo.mk 1 "192.168.1.10" 9001 9000 9002)). by vm_compute.
Defined.

(** What [parse_peer] accepts: exactly the strings with four colons whose
    first field is a [u64] and whose last three are [u16]; the peer has those
    numbers, in range, and the host is the second field as it stands, so a peer
    never has an IPv6 host and may have node id 0 or port 0. *)
Theorem parse_peer_accepts s p :
  parse_peer s = Ok p <->
  exists a b c d, s = a +:+ ":" +:+ PeerInfo.host p +:+ ":" +:+ b +:+ ":" +:+ c +:+ ":" +:+ d /\
    contains_char ":"%char (PeerInfo.host p) = false /\
    parse_uint u64_max a = Some (PeerInfo.node_id p) /\
    parse_uint u16_max b = Some (PeerInfo.raft_port p) /\
    parse_uint u16_max c = Some (PeerInfo.http_port p) /\
    parse_uint u16_max d = Some (PeerInfo.replication_port p).
Proof.
  split.
  - unfold parse_peer. destruct (split_char ":"%char s) as [|p0 [|p1 [|p2 [|p3 [|p4 [|]]]]]] eqn:Hs; try done.
    apply split_char_join in Hs as (Hs & Hall). simpl in Hs.
    destruct (parse_uint u64_max p0) eqn:H0; [|done]. destruct (parse_uint u16_max p2) eqn:H2; [|done].
    destruct (parse_uint u16_max p3) eqn:H3; [|done]. destruct (parse_uint u16_max p4) eqn:H4; [|done].
    simpl. intros [= <-]. exists p0, p2, p3, p4. simpl. split_and!; try done.
    by inversion Hall as [|? ? ? Hall']; inversion Hall'.
  - intros (a & b & c & d & -> & Hh & Ha & Hb & Hc & Hd).
    assert (Hno : forall m x n, parse_uint m x = Some n -> contains_char ":"%char x = false)
      by (intros ? ? ?; by apply parse_uint_no_char).
    unfold parse_peer. simpl. rewrite !split_char_app by eauto. rewrite split_char_none by eauto.
    rewrite Ha, Hb, Hc, Hd. by destruct p.
Qed.

(** [parse_peers] returns the parsed peers in order, or fails if any peer is
    malformed, with the error of the first such peer. *)
Theorem parse_peers_all peers r :
  parse_peers peers = r ->
  match r with
  | Ok ps => Forall2 (fun s p => parse_peer s = Ok p) peers ps
  | Err e => exists l s l', peers = l ++ s :: l' /\ parse_peer s = Err e /\
               Forall (fun s => is_ok (parse_peer s) = true) l
  end.
Proof.
  intros <-. unfold parse_peers. destruct (collect_results parse_peer peers) as [ps|e] eqn:Hc.
  - by apply collect_results_Ok.
  - induction peers as [|s l IH]; simpl in Hc; [done|].
    destruct (parse_peer s) as [p|e'] eqn:Hp; simpl in Hc.
    + destruct (collect_results parse_peer l) as [ps|]; simpl in Hc; [done|]. injection Hc as ->.
      destruct (IH eq_refl) as (l1 & s' & l2 & -> & Hs & Hf). exists (s :: l1), s', l2. split_and!; [done..|].
      constructor; [by rewrite Hp|done].
    + injection Hc as ->. exists [], s, l. split_and!; [done..|constructor].
Qed.
Lemma parse_peers_all_witness :
  exists l s l', ["1:a:1:2:3"; "2:b:1:2"] = l ++ s :: l' /\
    parse_peer s = Err (Error.validation "Invalid peer format '2:b:1:2'. Expected 'node_id:host:raft_port:http_port:replication_port'")
    /\ Forall (fun s => is_ok (parse_peer s) = true) l.
Proof. apply (parse_peers_all ["1:a:1:2:3"; "2:b:1:2"] (Err _)). vm_compute. reflexivity. Defined.

(** [from_bind_addrs] takes the host of the Raft address, everything before its
    last colon, and the port after the last colon of each address. *)
Theorem from_bind_addrs_fields id h1 h2 h3 p1 p2 p3 :
  (p1 <= u16_max)%N -> (p2 <= u16_max)%N -> (p3 <= u16_max)%N ->
  from_bind_addrs id (h1 +:+ ":" +:+ show p1) (h2 +:+ ":" +:+ show p2) (h3 +:+ ":" +:+ show p3)
  = Ok (PeerInfo.mk id h1 p1 p2 p3).
Proof.
  intros H1 H2 H3. unfold from_bind_addrs, parse_bind_addr. simpl.
  rewrite !rsplit_once_app by (by apply show_no_char). simpl. by rewrite !parse_show.
Qed.
Lemma from_bind_addrs_fields_witness :
  from_bind_addrs 1 "[::1]:9001" "0.0.0.0:9000" "0.0.0.0:9002" = Ok (PeerInfo.mk 1 "[::1]" 9001 9000 9002).
Proof. by apply (from_bind_addrs_fields 1 "[::1]" "0.0.0.0" "0.0.0.0" 9001 9000 9002). Defined.
