(* ===== verification/Config.v ===== *)
(** * save-common: configuration

    Models [crates/save-common/src/config.rs]: the configuration records, their
    defaults and [SaveConfig::load] with [validate].  Reading the file and
    [toml::from_str] are parameters of [load].  An [f64] is the [spec_float] of
    its binary64 encoding. *)
From Stdlib Require Import Ascii ZArith SpecFloat.
From S2P Require Import Prelude Common Peers.
From stdpp Require Import base gmap strings numbers list.

Definition DEFAULT_HTTP_BIND : string := "0.0.0.0:9000".
Definition DEFAULT_RAFT_BIND : string := "0.0.0.0:9001".
Definition DEFAULT_REPLICATION_BIND : string := "0.0.0.0:9002".

Record ServerConfig : Type := mkServerConfig {
  bind_address : string;
  max_body_size : N;
  worker_threads : N;
  max_blocking_threads : N;
  bucket_cache_ttl_secs : N;
  metrics_interval_secs : N;
}.
Definition default_max_body_size : N := 100 * 1024 * 1024.
Definition default_worker_threads : N := 4.
Definition default_max_blocking_threads : N := 512.
Definition default_bucket_cache_ttl_secs : N := 60.
Definition default_metrics_interval_secs : N := 60.

Record StorageConfig : Type := mkStorageConfig {
  data_path : string;
  metadata_path : string;
  max_object_size : option N;
  gc_interval_secs : N;
  gc_temp_file_max_age_secs : N;
  fsync_mode : string;
}.
Definition default_gc_interval_secs : N := 10 * 60.
Definition default_gc_temp_file_max_age_secs : N := 60 * 60.
Definition default_fsync_mode : string := "data".

Record MetadataConfig : Type := mkMetadataConfig {
  write_buffer_size_mb : N;
  max_write_buffer_number : Z;
  block_cache_size_mb : N;
  max_background_jobs : Z;
}.
Definition default_write_buffer_size_mb : N := 128.
Definition default_max_write_buffer_number : Z := 4.
Definition default_block_cache_size_mb : N := 256.
Definition default_max_background_jobs : Z := 4.
Definition MetadataConfig_default : MetadataConfig :=
  mkMetadataConfig default_write_buffer_size_mb default_max_write_buffer_number
    default_block_cache_size_mb default_max_background_jobs.

Record CredentialsConfig : Type := mkCredentialsConfig { access_key : string; secret_key : string }.
(** The [Debug] output: neither key appears in it. *)
Definition CredentialsConfig_debug (c : CredentialsConfig) : string :=
  "CredentialsConfig { access_key: " +:+ String "034"%char "[REDACTED]" +:+ String "034"%char ""
  +:+ ", secret_key: " +:+ String "034"%char "[REDACTED]" +:+ String "034"%char "" +:+ " }".

Record LimitsConfig : Type := mkLimitsConfig {
  max_concurrent_requests : N; requests_per_second : N; request_timeout_secs : N }.
Definition default_max_concurrent_requests : N := 1000.
Definition default_requests_per_second : N := 100.
Definition default_request_timeout_secs : N := 300.
Definition LimitsConfig_default : LimitsConfig :=
  mkLimitsConfig default_max_concurrent_requests default_requests_per_second default_request_timeout_secs.

Record ShutdownConfig : Type := mkShutdownConfig { drain_timeout_secs : N }.
Definition default_drain_timeout_secs : N := 30.
Definition ShutdownConfig_default : ShutdownConfig := mkShutdownConfig default_drain_timeout_secs.

Inductive ConsistencyMode : Type := Strong | Eventual.
Definition ConsistencyMode_default : ConsistencyMode := Strong.

Record TlsConfig : Type := mkTlsConfig { cert_path : string; key_path : string; ca_cert_path : string }.

Record RetrySettings : Type := mkRetrySettings {
  max_attempts : N; initial_delay_ms : N; max_delay_ms : N; jitter : spec_float }.
Definition default_retry_max_attempts : N := 3.
Definition default_retry_initial_delay_ms : N := 100.
Definition default_retry_max_delay_ms : N := 5000.
(** [0.2_f64] *)
Definition default_retry_jitter : spec_float := S754_finite false 7205759403792794 (-55).
Definition RetrySettings_default : RetrySettings :=
  mkRetrySettings default_retry_max_attempts default_retry_initial_delay_ms
    default_retry_max_delay_ms default_retry_jitter.

Record ReplicationConfig : Type := mkReplicationConfig {
  replication_factor : N;
  repl_bind_addr : string;
  repl_tls : option TlsConfig;
  retry : RetrySettings;
  stale_prepare_cleanup_interval_secs : N;
  stale_prepare_max_age_secs : N;
}.
Definition default_stale_prepare_cleanup_interval_secs : N := 5 * 60.
Definition default_stale_prepare_max_age_secs : N := 60 * 60.
Definition default_replication_factor : N := 1.
Definition ReplicationConfig_default : ReplicationConfig :=
  mkReplicationConfig default_replication_factor DEFAULT_REPLICATION_BIND None RetrySettings_default
    default_stale_prepare_cleanup_interval_secs default_stale_prepare_max_age_secs.
Definition is_enabled (c : ReplicationConfig) : bool := (1 <? replication_factor c)%N.
Definition replication_config_addr (c : ReplicationConfig) : string := "http://" +:+ repl_bind_addr c.

Record InternalApiConfig : Type := mkInternalApiConfig {
  api_bind_addr : string; api_tls : option TlsConfig; require_auth : bool }.
Definition default_require_auth : bool := true.
Definition InternalApiConfig_default : InternalApiConfig :=
  mkInternalApiConfig "" None default_require_auth.

Record ClusterConfig : Type := mkClusterConfig {
  cluster_node_id : N;
  raft_bind_addr : string;
  seed_nodes : list string;
  consistency_mode : ConsistencyMode;
  connect_timeout_secs : N;
  rpc_timeout_secs : N;
  heartbeat_interval_ms : N;
  election_timeout_min_ms : N;
  election_timeout_max_ms : N;
  join_timeout_secs : N;
  leave_timeout_secs : N;
  learner_catchup_delay_ms : N;
  join_max_retries : N;
  replication : ReplicationConfig;
  internal_api : InternalApiConfig;
}.
Definition default_connect_timeout_secs : N := 5.
Definition default_rpc_timeout_secs : N := 30.
Definition default_heartbeat_interval_ms : N := 50.
Definition default_election_timeout_min_ms : N := 150.
Definition default_election_timeout_max_ms : N := 300.
Definition default_join_timeout_secs : N := 30.
Definition default_leave_timeout_secs : N := 30.
Definition default_learner_catchup_delay_ms : N := 200.
Definition default_join_max_retries : N := 3.
Definition default_node_id : N := 1.
Definition default_raft_bind_addr : string := DEFAULT_RAFT_BIND.
Definition ClusterConfig_default : ClusterConfig :=
  mkClusterConfig default_node_id default_raft_bind_addr [] ConsistencyMode_default
    default_connect_timeout_secs default_rpc_timeout_secs default_heartbeat_interval_ms
    default_election_timeout_min_ms default_election_timeout_max_ms default_join_timeout_secs
    default_leave_timeout_secs default_learner_catchup_delay_ms default_join_max_retries
    ReplicationConfig_default InternalApiConfig_default.

Record SaveConfig : Type := mkSaveConfig {
  server : ServerConfig;
  storage : StorageConfig;
  metadata : MetadataConfig;
  credentials : CredentialsConfig;
  limits : LimitsConfig;
  shutdown : ShutdownConfig;
  cluster : ClusterConfig;
}.

Definition SaveConfig_default : SaveConfig :=
  mkSaveConfig
    (mkServerConfig DEFAULT_HTTP_BIND default_max_body_size default_worker_threads default_max_blocking_threads
       default_bucket_cache_ttl_secs default_metrics_interval_secs)
    (mkStorageConfig "/tmp/save/data" "/tmp/save/metadata" (Some (5 * 1024 * 1024 * 1024)%N) default_gc_interval_secs
       default_gc_temp_file_max_age_secs default_fsync_mode)
    MetadataConfig_default (mkCredentialsConfig "test-access-key" "test-secret-key")
    LimitsConfig_default ShutdownConfig_default ClusterConfig_default.

(** [if c { return Err(Error::validation(msg)) }]. *)
Definition reject_if (c : bool) (msg : string) : result Error.t unit :=
  if c then Err (Error.validation msg) else Ok tt.

Fixpoint check_peers (peers : list string) : result Error.t unit :=
  match peers with
  | [] => Ok tt
  | p :: ps => _ ← parse_peer p; check_peers ps
  end.

Definition validate (c : SaveConfig) : result Error.t unit :=
  reject_if (bool_decide (bind_address (server c) = "")) "bind_address cannot be empty" ;;
  reject_if (bool_decide (data_path (storage c) = "")) "data_path cannot be empty" ;;
  reject_if (bool_decide (metadata_path (storage c) = "")) "metadata_path cannot be empty" ;;
  reject_if (bool_decide (access_key (credentials c) = "")) "access_key cannot be empty" ;;
  reject_if (bool_decide (secret_key (credentials c) = "")) "secret_key cannot be empty" ;;
  reject_if (max_concurrent_requests (limits c) =? 0)%N "max_concurrent_requests must be > 0" ;;
  reject_if (requests_per_second (limits c) =? 0)%N "requests_per_second must be > 0" ;;
  reject_if (request_timeout_secs (limits c) =? 0)%N "request_timeout_secs must be > 0" ;;
  reject_if (drain_timeout_secs (shutdown c) =? 0)%N "drain_timeout_secs must be > 0" ;;
  reject_if (cluster_node_id (cluster c) =? 0)%N "cluster.node_id must be > 0" ;;
  reject_if (bool_decide (raft_bind_addr (cluster c) = "")) "cluster.raft_bind_addr cannot be empty" ;;
  check_peers (seed_nodes (cluster c)) ;;
  reject_if (bool_decide (repl_bind_addr (replication (cluster c)) = ""))
    "cluster.replication.bind_addr cannot be empty" ;;
  Ok tt.

Definition load (read_to_string : string -> result string string)
    (toml_from_str : string -> result string SaveConfig) (path : string) : result Error.t SaveConfig :=
  contents ← map_err (fun e => Error.config ("Failed to read config file " +:+ path +:+ ": " +:+ e))
               (read_to_string path);
  config ← map_err Error.Toml (toml_from_str contents);
  _ ← validate config;
  Ok config.

(** The configuration of the process ([main] of [save-api]): a file that does not
    exist stands for the defaults. *)
Definition process_config (exists_ : string -> bool) (read_to_string : string -> result string string)
    (toml_from_str : string -> result string SaveConfig) (save_config : option string) : result Error.t SaveConfig :=
  let config_path := default "save.toml" save_config in
  if exists_ config_path then load read_to_string toml_from_str config_path else Ok SaveConfig_default.

(** ** Properties *)
Lemma reject_if_Ok c m : reject_if c m = Ok tt <-> c = false.
Proof. by destruct c. Qed.

Lemma bind_Ok_unit {E A} (a : result E unit) (b : result E A) x :
  (a ;; b) = Ok x <-> a = Ok tt /\ b = Ok x.
Proof. destruct a as [[]|]; naive_solver. Qed.

Lemma check_peers_Ok ps : check_peers ps = Ok tt <-> Forall (fun s => exists p, parse_peer s = Ok p) ps.
Proof.
  induction ps as [|s ps IH]; simpl; [by split|]. rewrite list.Forall_cons, <- IH.
  destruct (parse_peer s) as [p|]; simpl; [|naive_solver]. split; [by eauto|by intros [_ ?]].
Qed.

(** What a valid configuration guarantees. *)
Record config_wf (c : SaveConfig) : Prop := {
  wf_bind : bind_address (server c) <> "";
  wf_data : data_path (storage c) <> "";
  wf_meta : metadata_path (storage c) <> "";
  wf_access : access_key (credentials c) <> "";
  wf_secret : secret_key (credentials c) <> "";
  wf_conc : (0 < max_concurrent_requests (limits c))%N;
  wf_rps : (0 < requests_per_second (limits c))%N;
  wf_timeout : (0 < request_timeout_secs (limits c))%N;
  wf_drain : (0 < drain_timeout_secs (shutdown c))%N;
  wf_id : (0 < cluster_node_id (cluster c))%N;
  wf_raft : raft_bind_addr (cluster c) <> "";
  wf_seeds : Forall (fun s => exists p, parse_peer s = Ok p) (seed_nodes (cluster c));
  wf_repl : repl_bind_addr (replication (cluster c)) <> "";
}.

Lemma validate_Ok c : validate c = Ok tt <-> config_wf c.
Proof.
  unfold validate. rewrite !bind_Ok_unit, !reject_if_Ok, !bool_decide_eq_false, !N.eqb_neq, check_peers_Ok.
  split.
  - intros (?&?&?&?&?&?&?&?&?&?&?&?&?&_). split; try done; lia.
  - intros []. split_and!; try done; lia.
Qed.

(** A configuration is accepted exactly when every required string is
    non-empty, every limit and the node id are positive and every seed node
    parses as a peer; [load] returns only such configurations, as parsed. *)
Theorem load_validates rd toml path c :
  load rd toml path = Ok c <->
  exists s, rd path = Ok s /\ toml s = Ok c /\ config_wf c.
Proof.
  unfold load. split.
  - intros (s & Hs & Hr)%result_bind_inv. apply result_bind_inv in Hr as (c' & Hc & Hr).
    apply result_bind_inv in Hr as ([] & Hv & [= ->]).
    exists s. split_and!; [by destruct (rd path); simplify_eq/=|by destruct (toml s); simplify_eq/=|].
    by apply validate_Ok.
  - intros (s & Hs & Hc & Hv%validate_Ok). rewrite Hs. simpl. rewrite Hc. simpl. by rewrite Hv.
Qed.

(** Every configuration that the process runs with is valid, the defaults of a
    missing file included; those have credentials that everybody knows. *)
Theorem process_config_valid ex rd toml path c : process_config ex rd toml path = Ok c ->
  config_wf c /\ (ex (default "save.toml" path) = false -> credentials c = mkCredentialsConfig "test-access-key" "test-secret-key").
Proof.
  unfold process_config. destruct (ex _); [|intros [= <-]; split; [|done]].
  - intros (s & Hs & Hr)%result_bind_inv. apply result_bind_inv in Hr as (c' & _ & Hr).
    apply result_bind_inv in Hr as ([] & Hv & [= ->]). split; [by apply validate_Ok|done].
  - apply validate_Ok. vm_compute. reflexivity.
Qed.
Lemma process_config_valid_witness : config_wf SaveConfig_default.
Proof.
  exact (proj1 (process_config_valid (fun _ => false) (fun _ => Err "no file") (fun _ => Err "no") None SaveConfig_default eq_refl)).
Defined.

(** A configuration file may leave out the optional sections: with their
    defaults and any non-empty addresses, paths and keys it is valid. *)
Theorem default_sections_valid addr mbs wt mbt ttl mi st cr :
  addr <> "" -> data_path st <> "" -> metadata_path st <> "" -> access_key cr <> "" -> secret_key cr <> "" ->
  validate (mkSaveConfig (mkServerConfig addr mbs wt mbt ttl mi) st MetadataConfig_default cr
    LimitsConfig_default ShutdownConfig_default ClusterConfig_default) = Ok tt.
Proof. intros. apply validate_Ok. split; try done; by constructor. Qed.
Lemma default_sections_valid_witness :
  validate (mkSaveConfig (mkServerConfig DEFAULT_HTTP_BIND default_max_body_size 4 512 60 60)
    (mkStorageConfig "/data" "/meta" None 600 3600 "data") MetadataConfig_default
    (mkCredentialsConfig "ak" "sk") LimitsConfig_default ShutdownConfig_default ClusterConfig_default) = Ok tt.
Proof. by apply default_sections_valid. Defined.

(** A seed node in the documented four-part form
    [node_id:host:raft_port:http_port] makes the configuration invalid. *)
Theorem four_part_seed_rejected c id h rp hp :
  contains_char ":"%char h = false ->
  (show id +:+ ":" +:+ h +:+ ":" +:+ show rp +:+ ":" +:+ show hp) ∈ seed_nodes (cluster c) ->
  is_ok (validate c) = false.
Proof.
  intros Hh Hin. destruct (validate c) as [[]|] eqn:Hv; [|done]. apply validate_Ok in Hv as [].
  rewrite list.Forall_forall in wf_seeds0. destruct (wf_seeds0 _ Hin) as [p Hp].
  unfold parse_peer in Hp. simpl in Hp. rewrite !split_char_app in Hp by (done || by apply show_no_char).
  by rewrite split_char_none in Hp by (by apply show_no_char).
Qed.
Lemma four_part_seed_rejected_witness :
  let cl := ClusterConfig_default in
  is_ok (validate (mkSaveConfig (mkServerConfig DEFAULT_HTTP_BIND default_max_body_size 4 512 60 60)
    (mkStorageConfig "/data" "/meta" None 600 3600 "data") MetadataConfig_default
    (mkCredentialsConfig "ak" "sk") LimitsConfig_default ShutdownConfig_default
    (mkClusterConfig 1 (raft_bind_addr cl) ["2:10.0.0.2:9001:9000"] Strong 5 30 50 150 300 30 30 200 3
       (replication cl) (internal_api cl)))) = false.
Proof.
  intros cl. apply (four_part_seed_rejected _ 2 "10.0.0.2" 9001 9000); [reflexivity|].
  apply list_elem_of_singleton. vm_compute. reflexivity.
Defined.
