(* ===== verification/Retry.v ===== *)
(** * save-common: retries with exponential backoff

    Models [crates/save-common/src/retry.rs].  A [Duration] is its nanoseconds;
    [f64] arithmetic is the Standard Library's [SpecFloat] at binary64; the
    random offset is a parameter.  [None] is a panic. *)
From Stdlib Require Import Ascii ZArith SpecFloat.
From S2P Require Import Prelude Common Config.
From stdpp Require Import base gmap strings numbers list.

(** ** [f64] *)
Module F64.
Definition prec : Z := 53.
Definition emax : Z := 1024.
Definition of_N (n : N) : spec_float := binary_normalize prec emax (Z.of_N n) 0 false.
Definition mul : spec_float -> spec_float -> spec_float := SFmul prec emax.
Definition add : spec_float -> spec_float -> spec_float := SFadd prec emax.
Definition one : spec_float := of_N 1.
Definition lt (x y : spec_float) : bool := SFltb x y.
Definition le (x y : spec_float) : bool := SFleb x y.
(** [f64::max]: the other operand when one is NaN. *)
Definition max (x y : spec_float) : spec_float :=
  match x, y with
  | S754_nan, _ => y
  | _, S754_nan => x
  | _, _ => if lt x y then y else x
  end.
(** [x as u64]: towards zero, saturating, NaN to 0. *)
Definition to_u64 (x : spec_float) : N :=
  match x with
  | S754_finite false m e =>
      let v := match e with
               | Z0 => Npos m
               | Zpos k => (Npos m * 2 ^ Npos k)%N
               | Zneg k => (Npos m / 2 ^ Npos k)%N
               end in
      N.min v u64_max
  | S754_infinity false => u64_max
  | _ => 0%N
  end.
(** [f64::powi] by repeated squaring. *)
Fixpoint powi_pos (x : spec_float) (p : positive) : spec_float :=
  match p with
  | xH => x
  | xO q => powi_pos (mul x x) q
  | xI q => mul x (powi_pos (mul x x) q)
  end.
Definition powi (x : spec_float) (n : N) : spec_float :=
  match n with N0 => one | Npos p => powi_pos x p end.
End F64.

Definition from_millis (ms : N) : N := (ms * 1000000)%N.
Definition as_millis (d : N) : N := (d / 1000000)%N.

Record RetryConfig : Type := mkRetryConfig {
  max_retries : N; initial_delay : N; max_delay : N; multiplier : spec_float; rc_jitter : spec_float }.

Definition RetryConfig_default : RetryConfig :=
  mkRetryConfig 3 (from_millis 100) (5 * 1000000000) (F64.of_N 2) default_retry_jitter.
Definition with_max_retries (n : N) : RetryConfig :=
  let d := RetryConfig_default in
  mkRetryConfig n (initial_delay d) (max_delay d) (multiplier d) (rc_jitter d).
Definition no_retry : RetryConfig := with_max_retries 0.

(** [rand::rng().random_range(lo..hi)] panics on an empty range; [sample] is the
    value drawn. *)
Definition random_range (sample : spec_float -> spec_float -> spec_float) (lo hi : spec_float)
  : option spec_float :=
  if F64.lt lo hi then Some (sample lo hi) else None.

Definition apply_jitter (sample : spec_float -> spec_float -> spec_float) (c : RetryConfig) (delay : N)
  : option N :=
  if F64.le (rc_jitter c) (S754_zero false) then Some delay else
  let jitter_range := F64.mul (F64.of_N (as_millis delay)) (rc_jitter c) in
  jitter_offset ← random_range sample (SFopp jitter_range) jitter_range;
  let jittered_ms := F64.max (F64.add (F64.of_N (as_millis delay)) jitter_offset) F64.one in
  Some (from_millis (F64.to_u64 jittered_ms)).

Definition base_delay (c : RetryConfig) (attempt : N) : N :=
  if (attempt =? 0)%N then initial_delay c
  else
    let delay_ms := F64.mul (F64.of_N (as_millis (initial_delay c))) (F64.powi (multiplier c) attempt) in
    N.min (from_millis (F64.to_u64 delay_ms)) (max_delay c).

Definition delay_for_attempt (sample : spec_float -> spec_float -> spec_float) (c : RetryConfig) (attempt : N)
  : option N := apply_jitter sample c (base_delay c attempt).

(** [retry_with_backoff]: the operation runs on the state [S] and may panic;
    [fuel] counts the runs left, [N.to_nat max_retries + 1] in all. *)
Section retry.
Context {S E T : Type} (sample : spec_float -> spec_float -> spec_float) (config : RetryConfig)
  (operation : PM S E T) (is_retryable : E -> bool).

Fixpoint retry_loop (fuel : nat) (attempt : N) : PM S E T := fun s =>
  match fuel with
  | 0 => (None, s)
  | Datatypes.S fuel' =>
      match operation s with
      | (Some (Err e), s') =>
          if (attempt <? max_retries config)%N && is_retryable e then
            match delay_for_attempt sample config attempt with
            | Some _ => retry_loop fuel' (attempt + 1) s'
            | None => (None, s')
            end
          else (Some (Err e), s')
      | (Some (Ok result), s') => (Some (Ok result), s')
      | (None, s') => (None, s')
      end
  end.

Definition retry_with_backoff : PM S E T :=
  retry_loop (Datatypes.S (N.to_nat (max_retries config))) 0.

(** [failed_runs k s s']: [k] runs from [s] to [s'] that all failed, with a
    retryable error. *)
Inductive failed_runs : nat -> S -> S -> Prop :=
| failed_none s : failed_runs 0 s s
| failed_more k s s1 s2 e : operation s = (Some (Err e), s1) -> is_retryable e = true ->
    failed_runs k s1 s2 -> failed_runs (Datatypes.S k) s s2.

Lemma retry_loop_spec fuel attempt s :
  (forall a, (a < max_retries config)%N -> is_Some (delay_for_attempt sample config a)) ->
  (attempt <= max_retries config)%N ->
  fuel = Datatypes.S (N.to_nat (max_retries config - attempt)) ->
  exists k s1 r s2, k <= N.to_nat (max_retries config - attempt) /\
    failed_runs k s s1 /\ operation s1 = (r, s2) /\
    retry_loop fuel attempt s = (r, s2) /\
    (forall e, r = Some (Err e) -> is_retryable e = false \/ k = N.to_nat (max_retries config - attempt)).
Proof.
  intros Hd. revert attempt s. induction fuel as [|fuel IH]; intros attempt s Ha Hf; [done|]. simpl.
  destruct (operation s) as [[[t|e]|] s'] eqn:Hop.
  - exists 0, s, (Some (Ok t)), s'. split_and!; [lia|constructor|done|done|done].
  - destruct (attempt <? max_retries config)%N eqn:Hlt; simpl.
    + apply N.ltb_lt in Hlt. destruct (is_retryable e) eqn:He.
      * destruct (Hd attempt Hlt) as [x ->].
        destruct (IH (attempt + 1)%N s') as (k & s1 & r & s2 & Hk & Hrun & Hlast & -> & Hend); [lia|lia|].
        exists (Datatypes.S k), s1, r, s2. split_and!; [lia|by econstructor|done|done|].
        intros e' He'. destruct (Hend e' He') as [?|?]; [by left|right; lia].
      * exists 0, s, (Some (Err e)), s'. split_and!; [lia|constructor|done|done|]. intros ? [= <-]. by left.
    + apply N.ltb_ge in Hlt. exists 0, s, (Some (Err e)), s'. split_and!; [lia|constructor|done|done|].
      intros ? _. right. lia.
  - exists 0, s, None, s'. split_and!; [lia|constructor|done|done|done].
Qed.
End retry.

(** [retry_with_backoff] returns, after at most [max_retries + 1] runs of the
    operation, what its last run gave: the first success, the first error that is
    not retryable, or the error of run [max_retries + 1]; every earlier run
    failed with a retryable error.  It adds no panic of its own when no delay
    computation panics. *)
Theorem retry_with_backoff_bounded {S E T} sample config (operation : PM S E T) is_retryable s :
  (forall a, (a < max_retries config)%N -> is_Some (delay_for_attempt sample config a)) ->
  exists k s1 r s2, k <= N.to_nat (max_retries config) /\
    failed_runs operation is_retryable k s s1 /\ operation s1 = (r, s2) /\
    retry_with_backoff sample config operation is_retryable s = (r, s2) /\
    (forall e, r = Some (Err e) -> is_retryable e = false \/ k = N.to_nat (max_retries config)).
Proof.
  intros Hd. replace (N.to_nat (max_retries config)) with (N.to_nat (max_retries config - 0)) by lia.
  apply retry_loop_spec; [done|lia|lia].
Qed.

Lemma default_delays_defined sample a : (a < 3)%N -> is_Some (delay_for_attempt sample RetryConfig_default a).
Proof.
  intros Ha. assert (a = 0 \/ a = 1 \/ a = 2)%N as [-> |[-> | ->]] by lia;
    unfold delay_for_attempt, apply_jitter, random_range;
    (replace (F64.le _ _) with false by (by vm_compute)); (replace (F64.lt _ _) with true by (by vm_compute)); by eexists.
Qed.

(** Under the default configuration an operation that fails until its third run
    succeeds. *)
Definition flaky : PM nat string nat :=
  safe (fun n => if Nat.ltb n 2 then (Err "unavailable", Datatypes.S n) else (Ok 42, n)).
Lemma retry_with_backoff_bounded_witness :
  exists k s1 r s2, k <= 3 /\ failed_runs flaky (fun _ => true) k 0 s1 /\ flaky s1 = (r, s2) /\
    retry_with_backoff (fun lo hi => lo) RetryConfig_default flaky (fun _ => true) 0 = (r, s2) /\
    (forall e, r = Some (Err e) -> true = false \/ k = 3).
Proof.
  apply (retry_with_backoff_bounded (fun lo hi => lo) RetryConfig_default flaky (fun _ => true) 0).
  intros a Ha. by apply default_delays_defined.
Defined.

(** Without jitter the delay is at most the larger of the initial and the
    maximum delay, and from the second retry on at most the maximum delay. *)
Theorem delay_capped sample c a d :
  F64.le (rc_jitter c) (S754_zero false) = true -> delay_for_attempt sample c a = Some d ->
  (d <= N.max (initial_delay c) (max_delay c))%N /\ (a <> 0%N -> (d <= max_delay c)%N).
Proof.
  intros Hj. unfold delay_for_attempt, apply_jitter. rewrite Hj. intros [= <-]. unfold base_delay.
  destruct (N.eqb_spec a 0) as [->|Hne]; split; lia.
Qed.
Lemma delay_capped_witness :
  let c := mkRetryConfig 3 (from_millis 100) (from_millis 500) (F64.of_N 2) (S754_zero false) in
  (from_millis 500 <= N.max (initial_delay c) (max_delay c))%N /\ (3%N <> 0%N -> (from_millis 500 <= max_delay c)%N).
Proof.
  intros c. apply (delay_capped (fun lo hi => lo) c 3 (from_millis 500)); vm_compute; reflexivity.
Defined.

(** A configuration with jitter and an initial delay below one millisecond
    panics at the first retry: the jitter range is empty. *)
Theorem zero_delay_panics {S E T} sample max_r maxd mult (operation : PM S E T) is_retryable s e s' :
  (0 < max_r)%N -> operation s = (Some (Err e), s') -> is_retryable e = true ->
  retry_with_backoff sample (mkRetryConfig max_r 0 maxd mult default_retry_jitter) operation is_retryable s
  = (None, s').
Proof.
  intros Hm Hop He. unfold retry_with_backoff. cbn [retry_loop]. rewrite Hop, He. cbn [max_retries].
  by rewrite (proj2 (N.ltb_lt 0 max_r)).
Qed.
Lemma zero_delay_panics_witness :
  retry_with_backoff (fun lo hi => lo) (mkRetryConfig 3 0 (from_millis 5000) (F64.of_N 2) default_retry_jitter)
    flaky (fun _ => true) 0 = (None, 1).
Proof.
  apply (zero_delay_panics (fun lo hi => lo) 3 (from_millis 5000) (F64.of_N 2) flaky (fun _ => true) 0 "unavailable" 1);
    [lia|reflexivity|reflexivity].
Defined.
