(* ===== verification/Kv.v ===== *)
(** * The key-value store and the codecs as interfaces

    RocksDB, bincode and serde_json are not part of the repository: they are
    the classes [RocksDB] and [Codec], parameters of every definition that
    uses them, with the documented behaviour the code relies on as laws
    ([RocksDBLaws], [codec_roundtrip]).  The in-memory store [Mem.t] with the
    codecs of [Mem] satisfies the laws and is what the witnesses run on. *)
From Stdlib Require Import Strings.Byte.
From S2P Require Import Prelude.
From stdpp Require Import base gmap strings numbers sorting list.

Abbreviation bytes := (list Byte.byte).

#[export] Instance byte_eq_dec : EqDecision Byte.byte := Byte.byte_eq_dec.
#[export] Instance byte_countable : Countable Byte.byte.
Proof. apply (inj_countable Byte.to_N Byte.of_N). apply Byte.of_to_N. Defined.

(** ** RocksDB

    A column family is named by its string.  [db_get], [db_put], [db_delete]
    are [get_cf], [put_cf], [delete_cf]; the calls without a column family use
    ["default"].  An error is RocksDB's message.  [db_iter d cf p] is what
    [prefix_iterator(p)] yields: the entries from [p] on in key order, cut
    short after an error item.  The stores are opened without a prefix
    extractor, so the iterator runs past the keys that start with [p]. *)
Class RocksDB (DB : Type) : Type := {
  db_has_cf : DB -> string -> bool;
  db_get : DB -> string -> string -> result string (option bytes);
  db_put : DB -> string -> string -> bytes -> result string DB;
  db_delete : DB -> string -> string -> result string DB;
  db_iter : DB -> string -> string -> list (result string (string * bytes));
}.

(** The entries of [m] from key [p] on, in key order. *)
Definition is_run (m : gmap string bytes) (p : string) (l : list (string * bytes)) : Prop :=
  StronglySorted str_lt l.*1 /\ forall k v, (k, v) ∈ l <-> m !! k = Some v /\ str_le p k.

(** The entries of [m] whose key starts with [p], in key order. *)
Definition is_entries (m : gmap string bytes) (p : string) (l : list (string * bytes)) : Prop :=
  StronglySorted str_lt l.*1 /\
  forall k v, (k, v) ∈ l <-> m !! k = Some v /\ starts_with p k = true.

Class RocksDBLaws (DB : Type) `{RocksDB DB} : Type := {
  db_view : DB -> string -> gmap string bytes;
  db_get_ok : forall d cf k o, db_get d cf k = Ok o -> o = db_view d cf !! k;
  db_put_ok : forall d cf k v d', db_put d cf k v = Ok d' ->
    db_view d' cf = <[k := v]> (db_view d cf);
  db_put_frame : forall d cf k v d' cf', db_put d cf k v = Ok d' -> cf' <> cf ->
    db_view d' cf' = db_view d cf';
  db_put_cf : forall d cf k v d' cf', db_put d cf k v = Ok d' -> db_has_cf d' cf' = db_has_cf d cf';
  db_delete_ok : forall d cf k d', db_delete d cf k = Ok d' ->
    db_view d' cf = delete k (db_view d cf);
  db_delete_frame : forall d cf k d' cf', db_delete d cf k = Ok d' -> cf' <> cf ->
    db_view d' cf' = db_view d cf';
  db_delete_cf : forall d cf k d' cf', db_delete d cf k = Ok d' -> db_has_cf d' cf' = db_has_cf d cf';
  db_iter_ok : forall d cf p, exists l, is_run (db_view d cf) p l /\
    (db_iter d cf p = Ok <$> l \/ exists n e, db_iter d cf p = (Ok <$> take n l) ++ [Err e]);
}.

(** ** Codecs

    Encoding and decoding of one type in one format; an error is its message. *)
Class Codec (A : Type) : Type := {
  enc : A -> result string bytes;
  dec : bytes -> result string A;
}.
Class CodecLaws (A : Type) `{Codec A} : Prop :=
  codec_roundtrip : forall a b, enc a = Ok b -> dec b = Ok a.

(** ** Prefix loops

    [for item in db.prefix_iterator(p) { let (k, v) = item?;
       if !k.starts_with(p) { break; } ... }]: [f] is the body, which fails,
    skips the entry ([continue]) or pushes a value. *)
Fixpoint scan {E A} (io : string -> E) (p : string) (f : string * bytes -> result E (option A))
    (items : list (result string (string * bytes))) : result E (list A) :=
  match items with
  | [] => Ok []
  | Err e :: _ => Err (io e)
  | Ok (k, v) :: rest =>
      if starts_with p k then
        x ← f (k, v);
        xs ← scan io p f rest;
        Ok (match x with Some a => a :: xs | None => xs end)
      else Ok []
  end.

(** What the body does on a list of entries, in order. *)
Fixpoint scan_list {E A} (f : string * bytes -> result E (option A)) (l : list (string * bytes))
  : result E (list A) :=
  match l with
  | [] => Ok []
  | kv :: l' => x ← f kv; xs ← scan_list f l';
               Ok (match x with Some a => a :: xs | None => xs end)
  end.

Section scan_lemmas.
Context {E A : Type} (io : string -> E) (f : string * bytes -> result E (option A)).

Lemma scan_Ok_items p l :
  scan io p f (Ok <$> l) = scan_list f (take_while (fun kv => starts_with p kv.1) l).
Proof.
  induction l as [|[k v] l IH]; csimpl; [done|].
  destruct (starts_with p k); [|done]. csimpl. destruct (f (k, v)); [|done]. csimpl. by rewrite IH.
Qed.

Lemma scan_cut p l e xs :
  scan io p f ((Ok <$> l) ++ [Err e]) = Ok xs ->
  exists kv, kv ∈ l /\ starts_with p kv.1 = false.
Proof.
  revert xs. induction l as [|[k v] l IH]; intros xs; csimpl; [done|].
  destruct (starts_with p k) eqn:Hk; [|intros _; exists (k, v); set_solver].
  destruct (f (k, v)); csimpl; [|done].
  destruct (scan io p f ((Ok <$> l) ++ [Err e])) as [xs'|] eqn:Hs; csimpl; [|done].
  intros _. destruct (IH xs') as (kv & ? & ?); [done|]. exists kv. set_solver.
Qed.

Lemma take_while_cut {B} (g : B -> bool) l l' :
  (exists b, b ∈ l /\ g b = false) -> take_while g (l ++ l') = take_while g l.
Proof.
  induction l as [|a l IH]; intros (b & Hb & Hg); [set_solver|]. csimpl.
  destruct (g a) eqn:E'; [|done]. f_equal. apply IH. exists b.
  apply elem_of_cons in Hb as [->|?]; [congruence|done].
Qed.

Lemma scan_cut_Ok p l e xs :
  scan io p f ((Ok <$> l) ++ [Err e]) = Ok xs ->
  scan_list f (take_while (fun kv => starts_with p kv.1) l) = Ok xs.
Proof.
  revert xs. induction l as [|[k v] l IH]; intros xs; csimpl; [done|].
  destruct (starts_with p k); [|done]. csimpl. destruct (f (k, v)); csimpl; [|done].
  destruct (scan io p f ((Ok <$> l) ++ [Err e])); csimpl; [|done].
  intros [= <-]. by rewrite (IH _ eq_refl).
Qed.
End scan_lemmas.

Lemma run_take_while m p l : is_run m p l ->
  is_entries m p (take_while (fun kv => starts_with p kv.1) l).
Proof.
  intros [Hs Hl].
  assert (Hsorted : StronglySorted (fun a b : string * bytes => str_lt a.1 b.1) l).
  { clear Hl. induction l as [|a l IH]; [constructor|]. simpl in Hs.
    apply StronglySorted_inv in Hs as [Hs Ha]. constructor; [by apply IH|].
    by rewrite Forall_fmap in Ha. }
  rewrite (take_while_filter _ (fun a b => str_lt a.1 b.1)); [|clear Hsorted|done].
  - split.
    + clear Hl Hs. induction Hsorted as [|a l _ IH Ha]; [constructor|].
      rewrite filter_cons. case_decide; [|done]. simpl. constructor; [done|].
      apply list.Forall_forall. intros k (kv & -> & [_ Hkv]%list_elem_of_filter)%list_elem_of_fmap.
      rewrite list.Forall_forall in Ha. by apply Ha.
    + intros k v. rewrite list_elem_of_filter, Hl. simpl. split; [naive_solver|].
      intros [? Hp]. split_and!; [done..|]. apply starts_with_spec in Hp as [t ->].
      apply str_le_lt_or_eq. clear. induction p as [|c p IH]; simpl.
      * destruct t; [by right|by left].
      * destruct IH as [IH|IH]; [left; apply str_ltb_cons; by right|right; by f_equal].
  - intros [k v] [k' v'] Ha Hb Hk Hlt. simpl in *. apply not_true_is_false. intros Hk'.
    apply Hl in Ha as [_ Hpk]. eapply (irreflexivity str_lt k). etrans; [exact Hlt|].
    by eapply str_prefix_run.
Qed.

Lemma run_unique m p l l' : is_run m p l -> is_run m p l' -> l = l'.
Proof.
  intros [Hs Hl] [Hs' Hl'].
  assert (Hsub : forall a b, is_run m p a -> is_run m p b -> forall kv, kv ∈ a -> kv ∈ b).
  { intros a b [_ Ha] [_ Hb] [k v]. rewrite Ha, Hb. done. }
  assert (Hmono : forall a : list (string * bytes), StronglySorted str_lt a.*1 ->
    StronglySorted (fun x y : string * bytes => str_lt x.1 y.1) a).
  { intros a. induction a as [|x a IH]; intros Hsa; [constructor|]. simpl in Hsa.
    apply StronglySorted_inv in Hsa as [Hsa Hx]. constructor; [by apply IH|].
    by rewrite Forall_fmap in Hx. }
  apply Hmono in Hs as Hs1. apply Hmono in Hs' as Hs1'.
  assert (HE : forall kv, kv ∈ l <-> kv ∈ l').
  { intros [k v]. by rewrite Hl, Hl'. }
  clear -Hs1 Hs1' HE. revert l' Hs1' HE.
  induction l as [|x l IH]; intros [|y l'] Hs1' HE; [done|set_solver|set_solver|].
  apply StronglySorted_inv in Hs1 as [Hs1 Hx]. apply StronglySorted_inv in Hs1' as [Hs1' Hy].
  rewrite list.Forall_forall in Hx, Hy.
  assert (x = y) as ->.
  { destruct (decide (x = y)) as [|Hne]; [done|].
    assert (Hxy : str_lt y.1 x.1) by (apply Hy; set_solver).
    assert (Hyx : str_lt x.1 y.1) by (apply Hx; set_solver).
    destruct (irreflexivity str_lt x.1). by etrans. }
  f_equal. apply IH; [done..|]. intros kv. specialize (HE kv). rewrite !elem_of_cons in HE.
  split; intros Hkv.
  - assert (kv <> y) by (intros ->; by destruct (irreflexivity str_lt y.1); apply Hx). naive_solver.
  - assert (kv <> y) by (intros ->; by destruct (irreflexivity str_lt y.1); apply Hy). naive_solver.
Qed.

(** A prefix loop that returns has visited exactly the entries with the
    prefix, in key order: the early [break] loses nothing. *)
Lemma scan_spec {DB} `{RocksDBLaws DB} {E A} (io : string -> E) d cf p
    (f : string * bytes -> result E (option A)) xs :
  scan io p f (db_iter d cf p) = Ok xs ->
  exists l, is_entries (db_view d cf) p l /\ scan_list f l = Ok xs.
Proof.
  destruct (db_iter_ok d cf p) as (l & Hrun & [->|(n & e & ->)]); intros Hs.
  - exists (take_while (fun kv => starts_with p kv.1) l).
    split; [by apply run_take_while|]. by rewrite scan_Ok_items in Hs.
  - exists (take_while (fun kv => starts_with p kv.1) l). split; [by apply run_take_while|].
    pose proof (scan_cut _ _ _ _ _ _ Hs) as Hcut.
    rewrite <- (take_drop n l), take_while_cut by done. by eapply scan_cut_Ok.
Qed.

(** ** The in-memory store

    A map of column families; a call on a family that is not open fails, as
    RocksDB's does, and so does every write when [read_only] is set. *)
Module Mem.
Record t : Type := mk { cfs : gmap string (gmap string bytes); read_only : bool }.

Definition key_le (a b : string * bytes) : Prop := str_le a.1 b.1.
#[export] Instance key_le_dec : RelDecision key_le.
Proof. intros a b. unfold key_le. apply _. Defined.
#[export] Instance key_le_total : Total key_le.
Proof. intros a b. apply (total str_le). Qed.
#[export] Instance key_le_trans : Transitive key_le.
Proof. intros a b c. apply (transitivity (R := str_le)). Qed.

Definition sorted_entries (m : gmap string bytes) (p : string) : list (string * bytes) :=
  merge_sort key_le
    (filter (fun kv : string * bytes => str_le p kv.1) (map_to_list m)).

Definition update (d : t) (cf : string) (f : gmap string bytes -> gmap string bytes)
  : result string t :=
  if read_only d then Err "Not implemented: Not supported operation in read only mode."
  else match cfs d !! cf with
       | Some m => Ok (mk (<[cf := f m]> (cfs d)) (read_only d))
       | None => Err "Invalid argument: Column family not found"
       end.

#[export] Instance rocksdb : RocksDB t := {
  db_has_cf d cf := bool_decide (is_Some (cfs d !! cf));
  db_get d cf k :=
    match cfs d !! cf with
    | Some m => Ok (m !! k)
    | None => Err "Invalid argument: Column family not found"
    end;
  db_put d cf k v := update d cf (insert k v);
  db_delete d cf k := update d cf (delete k);
  db_iter d cf p :=
    match cfs d !! cf with
    | Some m => Ok <$> sorted_entries m p
    | None => [Err "Invalid argument: Column family not found"]
    end;
}.

Lemma sorted_entries_run m p : is_run m p (sorted_entries m p).
Proof.
  unfold sorted_entries. set (R := key_le). set (l0 := filter _ _). pose proof (merge_sort_Permutation R l0) as Hp.
  assert (Hmem : forall k v, (k, v) ∈ merge_sort R l0 <-> m !! k = Some v /\ str_le p k).
  { intros k v. rewrite Hp. unfold l0. rewrite list_elem_of_filter, elem_of_map_to_list. naive_solver. }
  split; [|exact Hmem].
  assert (Hnd : NoDup (merge_sort R l0).*1).
  { rewrite Hp. unfold l0. apply (NoDup_fmap_fst (A:=string) (B:=bytes)).
    - intros k v v'. rewrite !list_elem_of_filter, !elem_of_map_to_list.
      intros [_ H1] [_ H2]. congruence.
    - apply NoDup_filter, NoDup_map_to_list. }
  pose proof (StronglySorted_merge_sort R l0) as Hs. revert Hnd Hs. clear.
  generalize (merge_sort R l0). intros l. induction l as [|a l IH]; csimpl; [constructor|].
  intros [Ha Hnd]%NoDup_cons [Hs Hal]%StronglySorted_inv. constructor; [by apply IH|].
  apply Forall_fmap, list.Forall_forall. intros b Hb. rewrite list.Forall_forall in Hal.
  specialize (Hal b Hb). apply str_le_lt_or_eq in Hal as [?|Heq]; [done|].
  destruct Ha. rewrite Heq. by apply list_elem_of_fmap_2.
Qed.

Lemma update_Ok d cf f d' : update d cf f = Ok d' ->
  exists m, cfs d !! cf = Some m /\ d' = mk (<[cf := f m]> (cfs d)) (read_only d).
Proof.
  unfold update. destruct (read_only d); [done|].
  destruct (cfs d !! cf) as [m|]; [|done]. intros [= <-]. eauto.
Qed.

Definition view (d : t) (cf : string) : gmap string bytes := default ∅ (cfs d !! cf).

Lemma update_view d cf f d' cf' : update d cf f = Ok d' ->
  view d' cf' = (if decide (cf' = cf) then f (view d cf) else view d cf').
Proof.
  intros (m & Hm & ->)%update_Ok. unfold view. simpl. case_decide as Hc.
  - subst. by rewrite lookup_insert_eq, Hm.
  - by rewrite lookup_insert_ne.
Qed.

Lemma update_cf d cf f d' cf' : update d cf f = Ok d' ->
  bool_decide (is_Some (cfs d' !! cf')) = bool_decide (is_Some (cfs d !! cf')).
Proof.
  intros (m & Hm & ->)%update_Ok. simpl. apply bool_decide_ext.
  destruct (decide (cf = cf')) as [->|].
  - rewrite lookup_insert_eq, Hm. split; eauto.
  - by rewrite lookup_insert_ne.
Qed.

#[export] Instance laws : RocksDBLaws t.
Proof.
  refine {| db_view := view |}; simpl.
  - intros d cf k o. unfold view. destruct (cfs d !! cf); [|done]. by intros [= <-].
  - intros ????? Hu. rewrite (update_view _ _ _ _ _ Hu). by rewrite decide_True.
  - intros ?????? Hu Hne. rewrite (update_view _ _ _ _ _ Hu). by rewrite decide_False.
  - intros ?????? Hu. by eapply update_cf.
  - intros ???? Hu. rewrite (update_view _ _ _ _ _ Hu). by rewrite decide_True.
  - intros ????? Hu Hne. rewrite (update_view _ _ _ _ _ Hu). by rewrite decide_False.
  - intros ????? Hu. by eapply update_cf.
  - intros d cf p. unfold view. destruct (cfs d !! cf) as [m|]; simpl.
    + exists (sorted_entries m p). split; [apply sorted_entries_run|by left].
    + exists []. split; [|right; by exists 0, "Invalid argument: Column family not found"].
      split; [constructor|]. intros k v. rewrite lookup_empty. set_solver.
Defined.

(** A store with the four column families of the program, all empty. *)
Definition empty : t :=
  mk {[ "default" := ∅; "raft_log" := ∅; "raft_state" := ∅; "raft_snapshot" := ∅ ]} false.

(** Codec of any countable type: the bits of its code, one per byte. *)
Fixpoint pos_bytes (p : positive) : bytes :=
  match p with
  | xH => []
  | xO q => x00 :: pos_bytes q
  | xI q => x01 :: pos_bytes q
  end.
Fixpoint bytes_pos (b : bytes) : option positive :=
  match b with
  | [] => Some xH
  | x00 :: b' => xO <$> bytes_pos b'
  | x01 :: b' => xI <$> bytes_pos b'
  | _ => None
  end.
Lemma bytes_pos_bytes p : bytes_pos (pos_bytes p) = Some p.
Proof. induction p as [p IH|p IH|]; simpl; [by rewrite IH..|done]. Qed.

#[export] Instance codec `{Countable A} : Codec A := {
  enc a := Ok (pos_bytes (countable.encode a));
  dec b := ok_or "invalid encoding" (bytes_pos b ≫= countable.decode);
}.
#[export] Instance codec_laws `{Countable A} : CodecLaws A.
Proof. intros a b [= <-]. simpl. by rewrite bytes_pos_bytes; simpl; rewrite decode_encode. Qed.
End Mem.
