(* ===== verification/Fs.v ===== *)
(** * The file system as an interface

    The operating system's files, reached through [std::fs] and [tokio::fs],
    are the class [FileSystem], a parameter of every definition that touches a
    file, with the documented behaviour of the calls as laws
    ([FileSystemLaws]).  A call returns the state it leaves also when it fails,
    so a write that stops half way is expressible.  [MemFs] is an in-memory
    file system with failing paths; it satisfies the laws and is what the
    witnesses run on. *)
From Stdlib Require Import Strings.Byte Ascii.
From S2P Require Import Prelude Kv.
From stdpp Require Import base gmap strings numbers list.

(** ** [std::io::Error] *)
Inductive ErrorKind : Type := NotFoundKind | OtherKind.
#[export] Instance ErrorKind_eq_dec : EqDecision ErrorKind.
Proof. solve_decision. Defined.

Record io_error : Type := mkIoError { kind : ErrorKind; io_msg : string }.
#[export] Instance io_error_eq_dec : EqDecision io_error.
Proof. solve_decision. Defined.

(** [std::io::Error::other]. *)
Definition io_other (msg : string) : io_error := mkIoError OtherKind msg.

(** ** Paths: the components below the root.

    Every component the program joins is a name without a separator. *)
Abbreviation PathBuf := (list string).

Definition path_join (p : PathBuf) (c : string) : PathBuf := p ++ [c].
Definition parent (p : PathBuf) : option PathBuf :=
  match p with [] => None | _ => Some (removelast p) end.

Lemma parent_path_join p c : parent (path_join p c) = Some p.
Proof.
  unfold parent, path_join. rewrite removelast_last. by destruct p.
Qed.

(** A path as [{:?}] prints it. *)
Definition quote : string := String (Ascii.ascii_of_nat 34) EmptyString.
Definition debug_path (p : PathBuf) : string :=
  quote +:+ "/" +:+ join_str "/" p +:+ quote.

(** ** Readers

    An [AsyncRead] is the sequence of what its successive [read] calls with a
    64 KiB buffer give, up to the first error or the end of the data. *)
Abbreviation Reader := (list (result io_error bytes)).

Definition BUF_SIZE : nat := 64 * 1024.

(** [r] reads the data [b]: non-empty pieces of at most a buffer that make up
    [b], or pieces of a beginning of [b] and then an error. *)
Definition is_reader (b : bytes) (r : Reader) : Prop :=
  exists cs, Forall (fun c => c <> [] /\ length c <= BUF_SIZE) cs /\
    ((r = Ok <$> cs /\ concat cs = b) \/
     (exists e rest, r = (Ok <$> cs) ++ [Err e] /\ concat cs ++ rest = b)).

(** [AsyncReadExt::read_to_end]. *)
Fixpoint read_to_end (r : Reader) : result io_error bytes :=
  match r with
  | [] => Ok []
  | Err e :: _ => Err e
  | Ok c :: r' => b ← read_to_end r'; Ok (c ++ b)
  end.

Lemma read_to_end_pieces cs : read_to_end (Ok <$> cs) = Ok (concat cs).
Proof. induction cs as [|c cs IH]; csimpl; [done|]. by rewrite IH. Qed.

Lemma read_to_end_cut cs e r : read_to_end ((Ok <$> cs) ++ Err e :: r) = Err e.
Proof. induction cs as [|c cs IH]; csimpl; [done|]. by rewrite IH. Qed.

(** A reader that reads to its end has given all the data. *)
Lemma is_reader_read b r b' : is_reader b r -> read_to_end r = Ok b' -> b' = b.
Proof.
  intros (cs & _ & [[-> <-]|(e & rest & -> & _)]).
  - rewrite read_to_end_pieces. by intros [= <-].
  - by rewrite read_to_end_cut.
Qed.

(** Data cut in pieces of at most [size] bytes; [n] bounds their number. *)
Fixpoint pieces (size n : nat) (b : bytes) : list bytes :=
  match n, b with
  | O, _ | _, [] => []
  | S n', _ => take size b :: pieces size n' (drop size b)
  end.

Lemma pieces_spec size n b : 1 <= size -> length b <= n ->
  concat (pieces size n b) = b /\ Forall (fun c => c <> [] /\ length c <= size) (pieces size n b).
Proof.
  intros Hs. revert b. induction n as [|n IH]; intros b Hb; simpl pieces.
  - destruct b; simpl in *; [done|lia].
  - destruct b as [|x b]; [done|]. destruct (IH (drop size (x :: b))) as [Hc Hf].
    { rewrite length_drop. simpl in *. lia. }
    split; [simpl concat; by rewrite Hc, take_drop|]. constructor; [|done].
    rewrite length_take. split; [|lia]. intros Ht%(f_equal length). rewrite length_take in Ht.
    simpl in Ht. lia.
Qed.

Lemma BUF_SIZE_pos : 1 <= BUF_SIZE.
Proof. apply Nat.leb_le. vm_compute. reflexivity. Qed.

(** A byte slice as a reader. *)
Definition slice_reader (b : bytes) : Reader := Ok <$> pieces BUF_SIZE (length b) b.

Lemma slice_reader_ok b : is_reader b (slice_reader b).
Proof.
  destruct (pieces_spec BUF_SIZE (length b) b) as [Hc Hf]; [apply BUF_SIZE_pos|done|].
  exists (pieces BUF_SIZE (length b) b). eauto.
Qed.

Lemma slice_reader_read b : read_to_end (slice_reader b) = Ok b.
Proof.
  unfold slice_reader. rewrite read_to_end_pieces. f_equal.
  by apply pieces_spec; [apply BUF_SIZE_pos|].
Qed.

(** ** The calls

    [fs_open_any] opens a file or a directory and drops the handle; [fs_open]
    opens a file for reading. *)
Record Metadata : Type := mkMetadata { is_dir : bool; is_file : bool; meta_len : N }.

Class FileSystem (F : Type) : Type := {
  fs_create_dir_all : PathBuf -> M F io_error unit;
  fs_create : PathBuf -> M F io_error unit;
  fs_write_all : PathBuf -> bytes -> M F io_error unit;
  fs_flush : PathBuf -> M F io_error unit;
  fs_sync_all : PathBuf -> M F io_error unit;
  fs_sync_dir : PathBuf -> M F io_error unit;
  fs_open_any : PathBuf -> M F io_error unit;
  fs_rename : PathBuf -> PathBuf -> M F io_error unit;
  fs_remove_file : PathBuf -> M F io_error unit;
  fs_exists : F -> PathBuf -> bool;
  fs_metadata : F -> PathBuf -> result io_error Metadata;
  fs_open : F -> PathBuf -> result io_error Reader;
}.

(** The contents of the regular files.  Two laws say more than the documentation of
    tokio promises.  A write is in the file when [write_all] returns: tokio buffers,
    and only [flush] reports what became of it; the code flushes every file that it
    goes on to use, so a lost write would show there.  [exists] finds every file
    that is there: the call answers [false] also when the metadata cannot be
    read. *)
Class FileSystemLaws (F : Type) `{FileSystem F} : Type := {
  fs_view : F -> gmap PathBuf bytes;
  fs_create_dir_all_view : forall p, keeps (fun f f' => fs_view f' = fs_view f) (fs_create_dir_all p);
  fs_flush_view : forall p, keeps (fun f f' => fs_view f' = fs_view f) (fs_flush p);
  fs_sync_all_view : forall p, keeps (fun f f' => fs_view f' = fs_view f) (fs_sync_all p);
  fs_sync_dir_view : forall p, keeps (fun f f' => fs_view f' = fs_view f) (fs_sync_dir p);
  fs_open_any_view : forall p, keeps (fun f f' => fs_view f' = fs_view f) (fs_open_any p);
  fs_create_ok : forall p f f', fs_create p f = (Ok tt, f') -> fs_view f' = <[p := []]> (fs_view f);
  fs_create_err : forall p f e f', fs_create p f = (Err e, f') ->
    delete p (fs_view f') = delete p (fs_view f);
  fs_write_ok : forall p d f f' b, fs_view f !! p = Some b -> fs_write_all p d f = (Ok tt, f') ->
    fs_view f' = <[p := b ++ d]> (fs_view f);
  fs_write_err : forall p d f e f', fs_write_all p d f = (Err e, f') ->
    delete p (fs_view f') = delete p (fs_view f);
  fs_rename_ok : forall p q f f' b, fs_view f !! p = Some b -> fs_rename p q f = (Ok tt, f') ->
    fs_view f' = <[q := b]> (delete p (fs_view f));
  fs_rename_err : forall p q f e f', fs_rename p q f = (Err e, f') -> fs_view f' = fs_view f;
  fs_rename_frame : forall p q f r f' x, fs_rename p q f = (r, f') ->
    ~ p `prefix_of` x -> ~ q `prefix_of` x -> fs_view f' !! x = fs_view f !! x;
  fs_remove_ok : forall p f f', fs_remove_file p f = (Ok tt, f') ->
    is_Some (fs_view f !! p) /\ fs_view f' = delete p (fs_view f);
  fs_remove_err : forall p f e f', fs_remove_file p f = (Err e, f') -> fs_view f' = fs_view f;
  fs_remove_not_found : forall p f e f', fs_remove_file p f = (Err e, f') ->
    kind e = NotFoundKind -> fs_view f !! p = None;
  fs_exists_ok : forall p f b, fs_view f !! p = Some b -> fs_exists f p = true;
  fs_metadata_ok : forall p f m b, fs_metadata f p = Ok m -> fs_view f !! p = Some b ->
    meta_len m = N.of_nat (length b);
  fs_metadata_not_found : forall p f e, fs_metadata f p = Err e ->
    kind e = NotFoundKind -> fs_view f !! p = None;
  fs_open_ok : forall p f r, fs_open f p = Ok r -> exists b, fs_view f !! p = Some b /\ is_reader b r;
  fs_open_not_found : forall p f e, fs_open f p = Err e ->
    kind e = NotFoundKind -> fs_view f !! p = None;
}.

(** Two states with the same files. *)
Definition same_view {F} `{FileSystemLaws F} (f f' : F) : Prop := fs_view f' = fs_view f.
#[export] Instance same_view_preorder {F} `{FileSystemLaws F} : PreOrder same_view.
Proof. split; [done|]. intros f g h H1 H2. unfold same_view in *. congruence. Qed.

(** Two states with the same files but for [p]. *)
Definition same_but {F} `{FileSystemLaws F} (p : PathBuf) (f f' : F) : Prop :=
  delete p (fs_view f') = delete p (fs_view f).
#[export] Instance same_but_preorder {F} `{FileSystemLaws F} p : PreOrder (same_but p).
Proof. split; [done|]. intros f g h H1 H2. unfold same_but in *. congruence. Qed.

Lemma same_but_lookup {F} `{FileSystemLaws F} p q (f f' : F) :
  same_but p f f' -> q <> p -> fs_view f' !! q = fs_view f !! q.
Proof.
  intros Hs Hne. rewrite <- (lookup_delete_ne (fs_view f') p q) by done.
  rewrite Hs. by apply lookup_delete_ne.
Qed.

Lemma same_but_of_view {F} `{FileSystemLaws F} p (f f' : F) :
  fs_view f' = fs_view f -> same_but p f f'.
Proof. unfold same_but. by intros ->. Qed.

Section frames.
Context {F : Type} `{FileSystemLaws F} (p : PathBuf).

Lemma keeps_view {E A} (c : M F E A) :
  keeps (fun f f' => fs_view f' = fs_view f) c -> keeps (same_but p) c.
Proof. intros Hc f r f' Hr. eapply same_but_of_view, Hc, Hr. Qed.

Lemma create_frame : keeps (same_but p) (fs_create p).
Proof.
  intros f [[]|e] f' Hr; unfold same_but.
  - rewrite (fs_create_ok _ _ _ Hr). apply delete_insert_eq.
  - by eapply fs_create_err.
Qed.

Lemma remove_frame : keeps (same_but p) (fs_remove_file p).
Proof.
  intros f [[]|e] f' Hr; unfold same_but.
  - apply fs_remove_ok in Hr as [_ ->]. apply delete_delete_eq.
  - by rewrite (fs_remove_err _ _ _ _ Hr).
Qed.

End frames.

(** ** The in-memory file system

    [denied] are the paths every call on which fails, [unsynced] the paths
    whose [fsync] fails, [flaky] the files whose reads fail after a number of
    pieces. *)
Module MemFs.
Record t : Type := mk {
  files : gmap PathBuf bytes;
  dirs : gset PathBuf;
  denied : gset PathBuf;
  unsynced : gset PathBuf;
  flaky : gmap PathBuf nat }.

Definition enoent : io_error := mkIoError NotFoundKind "No such file or directory (os error 2)".
Definition eacces : io_error := io_other "Permission denied (os error 13)".
Definition eio : io_error := io_other "Input/output error (os error 5)".

Definition set_files (f : t) (m : gmap PathBuf bytes) : t :=
  mk m (dirs f) (denied f) (unsynced f) (flaky f).

(** A path and the directories above it. *)
Fixpoint ancestors (fuel : nat) (p : PathBuf) : gset PathBuf :=
  match fuel with
  | O => {[p]}
  | S n => {[p]} ∪ match parent p with Some q => ancestors n q | None => ∅ end
  end.

Definition parent_exists (f : t) (p : PathBuf) : bool :=
  match parent p with Some q => bool_decide (q ∈ dirs f) | None => false end.

Definition reader (f : t) (p : PathBuf) (b : bytes) : Reader :=
  let cs := pieces BUF_SIZE (length b) b in
  match flaky f !! p with
  | Some n => (Ok <$> take n cs) ++ [Err eio]
  | None => Ok <$> cs
  end.

Definition update (f : t) (p : PathBuf) (r : result io_error (gmap PathBuf bytes))
  : result io_error unit * t :=
  if bool_decide (p ∈ denied f) then (Err eacces, f)
  else match r with Ok m => (Ok tt, set_files f m) | Err e => (Err e, f) end.

Definition sync (f : t) (p : PathBuf) : result io_error unit * t :=
  (if bool_decide (p ∈ unsynced f) then Err eio else Ok tt, f).

#[export] Instance filesystem : FileSystem t := {
  fs_create_dir_all p f :=
    if bool_decide (p ∈ denied f) then (Err eacces, f)
    else (Ok tt, mk (files f) (dirs f ∪ ancestors (length p) p) (denied f) (unsynced f) (flaky f));
  fs_create p f :=
    update f p (if parent_exists f p then Ok (<[p := []]> (files f)) else Err enoent);
  fs_write_all p d f :=
    update f p (match files f !! p with
                | Some b => Ok (<[p := b ++ d]> (files f)) | None => Err enoent end);
  fs_flush p f := (Ok tt, f);
  fs_sync_all p f := sync f p;
  fs_sync_dir p f := sync f p;
  fs_open_any p f :=
    (if bool_decide (p ∈ denied f) then Err eacces
     else if bool_decide (is_Some (files f !! p)) || bool_decide (p ∈ dirs f) then Ok tt
     else Err enoent, f);
  fs_rename p q f :=
    update f q (match files f !! p with
                | Some b => if parent_exists f q then Ok (<[q := b]> (delete p (files f))) else Err enoent
                | None => Err enoent end);
  fs_remove_file p f :=
    update f p (match files f !! p with Some _ => Ok (delete p (files f)) | None => Err enoent end);
  fs_exists f p := bool_decide (is_Some (files f !! p)) || bool_decide (p ∈ dirs f);
  fs_metadata f p :=
    if bool_decide (p ∈ denied f) then Err eacces
    else match files f !! p with
         | Some b => Ok (mkMetadata false true (N.of_nat (length b)))
         | None => if bool_decide (p ∈ dirs f) then Ok (mkMetadata true false 0) else Err enoent
         end;
  fs_open f p :=
    if bool_decide (p ∈ denied f) then Err eacces
    else match files f !! p with Some b => Ok (reader f p b) | None => Err enoent end;
}.

Lemma reader_ok f p b : is_reader b (reader f p b).
Proof.
  destruct (pieces_spec BUF_SIZE (length b) b) as [Hc Hf]; [apply BUF_SIZE_pos|done|].
  unfold reader. set (cs := pieces BUF_SIZE (length b) b) in *. destruct (flaky f !! p) as [n|].
  - exists (take n cs). split; [by apply Forall_take|]. right. exists eio, (concat (drop n cs)).
    split; [done|]. by rewrite <- concat_app, take_drop.
  - exists cs. eauto.
Qed.

Lemma fs_update_Ok f p r f' : update f p r = (Ok tt, f') -> exists m, r = Ok m /\ files f' = m.
Proof. unfold update. case_bool_decide; [done|]. destruct r; [|done]. intros [= <-]. eauto. Qed.
Lemma fs_update_Err f p r e f' : update f p r = (Err e, f') ->
  f' = f /\ (e = eacces \/ r = Err e).
Proof. unfold update. case_bool_decide; [|destruct r]; naive_solver. Qed.

#[export] Instance laws : FileSystemLaws t.
Proof.
  refine {| fs_view := files |}; simpl.
  - intros p f r f' Hr. cbn in Hr. case_bool_decide; by simplify_eq.
  - intros p f r f' [= _ <-]. done.
  - intros p f r f' [= _ <-]. done.
  - intros p f r f' [= _ <-]. done.
  - intros p f r f' [= _ <-]. done.
  - intros p f f' (m & Hm & ->)%fs_update_Ok. case_match; by simplify_eq.
  - intros p f e f' [-> _]%fs_update_Err. done.
  - intros p d f f' b Hb (m & Hm & ->)%fs_update_Ok. rewrite Hb in Hm. by simplify_eq.
  - intros p d f e f' [-> _]%fs_update_Err. done.
  - intros p q f f' b Hb (m & Hm & ->)%fs_update_Ok. rewrite Hb in Hm. case_match; by simplify_eq.
  - intros p q f e f' [-> _]%fs_update_Err. done.
  - intros p q f r f' x. unfold update. case_bool_decide; [by intros [= _ <-]|].
    destruct (files f !! p); [|by intros [= _ <-]]. destruct (parent_exists f q); intros [= _ <-]; [|done].
    intros Hp Hq. simpl. rewrite lookup_insert_ne by (intros ->; by apply Hq).
    by rewrite lookup_delete_ne by (intros ->; by apply Hp).
  - intros p f f' (m & Hm & ->)%fs_update_Ok. destruct (files f !! p); [|done]. simplify_eq. eauto.
  - intros p f e f' [-> _]%fs_update_Err. done.
  - intros p f e f' [_ [->|He]]%fs_update_Err; [done|]. by destruct (files f !! p).
  - intros p f b ->. rewrite bool_decide_eq_true_2; eauto.
  - intros p f m b Hm Hb. case_bool_decide; [done|]. rewrite Hb in Hm. by simplify_eq.
  - intros p f e. case_bool_decide; [intros [= <-]; done|]. by destruct (files f !! p).
  - intros p f r. case_bool_decide; [done|]. destruct (files f !! p) as [b|] eqn:Hb; [|done].
    intros [= <-]. exists b. split; [done|]. apply reader_ok.
  - intros p f e. case_bool_decide; [intros [= <-]; done|]. by destruct (files f !! p).
Defined.

Definition empty : t := mk ∅ ∅ ∅ ∅ ∅.
End MemFs.
