(* ===== verification/ObjectStorage.v ===== *)
(** * save-storage: the object files of one node

    Models [crates/save-storage/src/error.rs], [layout.rs] and [lib.rs].  An
    operation is a computation on the file system that returns [Result]; the
    destructor of a [TempObject] is written out on every path on which Rust runs
    it.  SHA-256 is the class [Sha256]. *)
From Stdlib Require Import Strings.Byte Ascii.
From S2P Require Import Prelude Common Kv Fs.
From stdpp Require Import base gmap strings numbers list.

(** ** SHA-256: the digest of the data fed to the hasher, in lower-case hex *)
Class Sha256 : Type := sha256_hex : bytes -> string.
Definition is_hex (c : ascii) : bool :=
  is_ascii_digit c || bool_decide (c ∈ String.list_ascii_of_string "abcdef").
Class Sha256Laws `{Sha256} : Prop := {
  sha256_len : forall d, String.length (sha256_hex d) = 64;
  sha256_chars : forall d, all_chars is_hex (sha256_hex d) = true;
}.

(** A digest of the right shape to run the witnesses with: a polynomial hash
    modulo [2^256]. *)
Module ToySha.
Definition hex_digit (n : N) : ascii :=
  default "0"%char (String.get (N.to_nat n) "0123456789abcdef").
Fixpoint hex (digits : nat) (n : N) : string :=
  match digits with
  | O => ""
  | S k => String (hex_digit (n mod 16)) (hex k (n / 16))
  end.
Definition digest (d : bytes) : string :=
  hex 64 (foldl (fun a b => ((a * 257 + Byte.to_N b + 1) mod 2 ^ 256)%N) 7%N d).
#[export] Instance sha : Sha256 := digest.

Lemma hex_digit_ok n : (n < 16)%N -> is_hex (hex_digit n) = true.
Proof.
  intros Hn. assert (Hall : Forall (fun k => is_hex (hex_digit (N.of_nat k)) = true) (seq 0 16)).
  { repeat constructor. }
  rewrite list.Forall_forall in Hall. rewrite <- (N2Nat.id n). apply Hall, elem_of_seq. lia.
Qed.

#[export] Instance laws : Sha256Laws.
Proof.
  split; intros d; unfold sha256_hex, sha, digest; generalize (foldl (fun a b => ((a * 257 + Byte.to_N b + 1) mod 2 ^ 256)%N) 7%N d).
  - assert (Hl : forall k n, String.length (hex k n) = k) by (induction k; simpl; auto).
    intros n. apply Hl.
  - assert (Hl : forall k n, all_chars is_hex (hex k n) = true).
    { induction k as [|k IH]; intros n; [done|]. cbn [hex all_chars]. rewrite IH, andb_true_r.
      apply hex_digit_ok, N.mod_lt. lia. }
    intros n. apply Hl.
Qed.
End ToySha.

(** ** [error.rs] *)
Module StorageError.
Inductive t : Type :=
| Io (e : io_error)
| NotFound (key : string)
| InvalidKey (msg : string)
| InvalidPath (msg : string)
| QuorumNotAchieved (achieved required : nat)
| Tls (msg : string).

#[export] Instance eq_dec : EqDecision t.
Proof. solve_decision. Defined.

(** The [Display] implementation that [thiserror] derives. *)
Definition to_string (e : t) : string :=
  match e with
  | Io e => "IO error: " +:+ io_msg e
  | NotFound k => "Object not found: " +:+ k
  | InvalidKey m => "Invalid key: " +:+ m
  | InvalidPath m => "Invalid path: " +:+ m
  | QuorumNotAchieved a r =>
      "Quorum not achieved: " +:+ show_nat a +:+ " of " +:+ show_nat r +:+ " nodes"
  | Tls m => "TLS error: " +:+ m
  end.
End StorageError.

(** ** [layout.rs] *)
Record StorageLayout : Type := mkStorageLayout { base_path : PathBuf }.

Section layout.
Context `{Sha256}.

Definition object_id (key : string) : result StorageError.t string :=
  map_err (fun e => StorageError.InvalidKey (Error.to_string e)) (validate_object_key key) ;;
  Ok (sha256_hex (String.list_byte_of_string key)).

(** [&id[..2]] of an identifier shorter than two bytes would panic; a digest
    has 64. *)
Definition object_path_from_id (l : StorageLayout) (id : string) : PathBuf :=
  path_join (path_join (path_join (base_path l) "objects") (String.substring 0 2 id)) id.

Definition object_path (l : StorageLayout) (key : string) : result StorageError.t PathBuf :=
  id ← object_id key; Ok (object_path_from_id l id).

Definition temp_path_from_id (l : StorageLayout) (id : string) : PathBuf :=
  path_join (path_join (base_path l) "temp") (id +:+ ".tmp").

Definition objects_dir (l : StorageLayout) : PathBuf := path_join (base_path l) "objects".
Definition temp_dir (l : StorageLayout) : PathBuf := path_join (base_path l) "temp".
End layout.

(** ** [lib.rs]: temporary objects *)
Record TempObject : Type := mkTempObject {
  temp_path : PathBuf; final_path : PathBuf; committed : bool }.
Definition TempObject_new (t f : PathBuf) : TempObject := mkTempObject t f false.
Definition mark_committed (t : TempObject) : TempObject :=
  mkTempObject (temp_path t) (final_path t) true.

Record ObjectStorage : Type := mkObjectStorage { layout : StorageLayout; fsync_mode : string }.

Section storage.
Context {F : Type} `{FileSystem F, Sha256}.

Abbreviation IO := (M F StorageError.t).

(** [?] on an [io::Result]: [StorageError::from]. *)
Definition io {A} (c : M F io_error A) : IO A := with_err StorageError.Io c.

(** [Drop for TempObject]: a failure to remove is logged, not returned. *)
Definition drop_temp (t : TempObject) : F -> F := fun f =>
  if negb (committed t) && fs_exists f (temp_path t)
  then (fs_remove_file (temp_path t) f).2 else f.

Definition dropping (t : TempObject) : IO unit := fun f => (Ok tt, drop_temp t f).

(** A scope that owns [t] until it returns it: on an early return with an
    error the destructor runs. *)
Definition owning {A} (t : TempObject) (c : IO A) : IO A := fun f =>
  match c f with
  | (Ok a, f') => (Ok a, f')
  | (Err e, f') => (Err e, drop_temp t f')
  end.

(** The error of an [fsync] names the step and the path. *)
Definition fsync_err (what : string) (p : PathBuf) (e : io_error) : StorageError.t :=
  StorageError.Io (mkIoError (kind e)
    ("Failed to " +:+ what +:+ " at " +:+ debug_path p +:+ ": " +:+ io_msg e)).
Definition fsync_file (p : PathBuf) : IO unit :=
  with_err (fsync_err "open file for fsync" p) (fs_open_any p) ;;
  with_err (fsync_err "fsync file" p) (fs_sync_all p).
Definition fsync_dir (p : PathBuf) : IO unit :=
  with_err (fsync_err "open directory for fsync" p) (fs_open_any p) ;;
  with_err (fsync_err "fsync directory" p) (fs_sync_dir p).

(** [tokio::io::copy]: the pieces the reader gives are written until it ends
    or one side fails. *)
Fixpoint copy (r : Reader) (dst : PathBuf) : M F io_error N :=
  match r with
  | [] => mret 0%N
  | Err e :: _ => throw e
  | Ok c :: r' => fs_write_all dst c ;; n ← copy r' dst; mret (N.of_nat (length c) + n)%N
  end.

Definition new_with_fsync_mode (base : PathBuf) (mode : string) : IO ObjectStorage :=
  let l := mkStorageLayout base in
  io (fs_create_dir_all (objects_dir l)) ;;
  io (fs_create_dir_all (temp_dir l)) ;;
  mret (mkObjectStorage l mode).

Definition ObjectStorage_new (base : PathBuf) : IO ObjectStorage := new_with_fsync_mode base "data".

Section methods.
Context (self : ObjectStorage).

Definition create_temp_object (key : string) : IO TempObject :=
  id ← lift (object_id key);
  let temp := temp_path_from_id (layout self) id in
  let final := object_path_from_id (layout self) id in
  temp_parent ← lift (ok_or (StorageError.InvalidPath "Temp path has no parent") (parent temp));
  io (fs_create_dir_all temp_parent) ;;
  mret (TempObject_new temp final).

Definition write_temp_object (key : string) (r : Reader) : IO TempObject :=
  t ← create_temp_object key;
  owning t
    (io (fs_create (temp_path t)) ;;
     io (copy r (temp_path t)) ;;
     io (fs_flush (temp_path t)) ;;
     (if bool_decide (fsync_mode self = "none") then mret tt else io (fs_sync_all (temp_path t))) ;;
     mret t).

(** The argument is owned: its destructor runs on every path, and does nothing
    after [mark_committed]. *)
Definition commit_object (t : TempObject) : IO unit :=
  owning t
    (final_parent ←
       lift (ok_or (StorageError.InvalidPath "Final path has no parent") (parent (final_path t)));
     io (fs_create_dir_all final_parent) ;;
     io (fs_rename (temp_path t) (final_path t)) ;;
     (if bool_decide (fsync_mode self = "full") then fsync_dir final_parent else mret tt) ;;
     dropping (mark_committed t)).

Definition put_object (key : string) (r : Reader) : IO unit :=
  t ← write_temp_object key r; commit_object t.

Definition not_found_or_io (key : string) (e : io_error) : StorageError.t :=
  match kind e with
  | NotFoundKind => StorageError.NotFound key
  | OtherKind => StorageError.Io e
  end.

Definition get_object (key : string) : IO Reader :=
  path ← lift (object_path (layout self) key);
  reads (fun f => map_err (not_found_or_io key) (fs_open f path)).

Definition delete_object (key : string) : IO unit :=
  path ← lift (object_path (layout self) key);
  with_err (not_found_or_io key) (fs_remove_file path).

Definition storage_temp_dir : PathBuf := temp_dir (layout self).

(** The checksum loop: each piece read feeds the hasher. *)
Fixpoint hash_loop (r : Reader) (hasher : bytes) : result StorageError.t string :=
  match r with
  | [] => Ok (sha256_hex hasher)
  | Err e :: _ => Err (StorageError.Io e)
  | Ok c :: r' => hash_loop r' (hasher ++ c)
  end.

Definition object_info (key : string) : IO (N * string) :=
  path ← lift (object_path (layout self) key);
  size ← reads (fun f => m ← map_err (not_found_or_io key) (fs_metadata f path); Ok (meta_len m));
  file ← reads (fun f => map_err StorageError.Io (fs_open f path));
  checksum ← lift (hash_loop file []);
  mret (size, checksum).
End methods.

Definition remove_if_exists (p : PathBuf) : IO bool := fun f =>
  match fs_remove_file p f with
  | (Ok _, f') => (Ok true, f')
  | (Err e, f') =>
      (match kind e with NotFoundKind => Ok false | OtherKind => Err (StorageError.Io e) end, f')
  end.
End storage.

(** ** The trait [ReplicationStorage]

    What the replication service asks of the storage below it.  The laws say
    where a key's data lives: a temporary file [rs_temp] while it is written and
    the object file [rs_final], two keys sharing both or neither. *)
Class ReplicationStorage (F : Type) : Type := {
  rs_put_object : string -> bytes -> M F StorageError.t unit;
  rs_create_temp_object : string -> M F StorageError.t TempObject;
  rs_write_temp_object : string -> bytes -> M F StorageError.t TempObject;
  rs_commit_object : TempObject -> M F StorageError.t unit;
  rs_get_object : string -> M F StorageError.t Reader;
  rs_object_info : string -> M F StorageError.t (N * string);
  rs_delete_object : string -> M F StorageError.t unit;
}.

Class ReplicationStorageLaws (F : Type) `{FileSystemLaws F, Sha256, ReplicationStorage F} : Type := {
  rs_temp : string -> PathBuf;
  rs_final : string -> PathBuf;
  rs_temp_not_final : forall k k', rs_temp k <> rs_final k';
  rs_same_files : forall k k', rs_temp k = rs_temp k' <-> rs_final k = rs_final k';
  rs_create_temp_ok : forall k f t f', rs_create_temp_object k f = (Ok t, f') ->
    t = TempObject_new (rs_temp k) (rs_final k);
  rs_create_temp_view : forall k,
    keeps (fun f f' => fs_view f' = fs_view f) (rs_create_temp_object k);
  rs_write_temp_ok : forall k d f t f', rs_write_temp_object k d f = (Ok t, f') ->
    t = TempObject_new (rs_temp k) (rs_final k) /\ fs_view f' = <[rs_temp k := d]> (fs_view f);
  rs_write_temp_frame : forall k d, keeps (same_but (rs_temp k)) (rs_write_temp_object k d);
  rs_commit_ok : forall k f f' b, fs_view f !! rs_temp k = Some b ->
    rs_commit_object (TempObject_new (rs_temp k) (rs_final k)) f = (Ok tt, f') ->
    fs_view f' = <[rs_final k := b]> (delete (rs_temp k) (fs_view f));
  rs_commit_err : forall k f e f',
    rs_commit_object (TempObject_new (rs_temp k) (rs_final k)) f = (Err e, f') ->
    same_but (rs_temp k) f f' \/
    (forall b, fs_view f !! rs_temp k = Some b ->
     fs_view f' = <[rs_final k := b]> (delete (rs_temp k) (fs_view f)));
  rs_commit_frame : forall k k' f r f',
    rs_commit_object (TempObject_new (rs_temp k) (rs_final k)) f = (r, f') ->
    rs_temp k' <> rs_temp k ->
    fs_view f' !! rs_temp k' = fs_view f !! rs_temp k' /\
    fs_view f' !! rs_final k' = fs_view f !! rs_final k';
  rs_put_ok : forall k d f f', rs_put_object k d f = (Ok tt, f') ->
    fs_view f' = <[rs_final k := d]> (delete (rs_temp k) (fs_view f));
  rs_put_err : forall k d f e f', rs_put_object k d f = (Err e, f') ->
    same_but (rs_temp k) f f' \/ fs_view f' = <[rs_final k := d]> (delete (rs_temp k) (fs_view f));
  rs_get_pure : forall k, keeps eq (rs_get_object k);
  rs_get_ok : forall k f r f', rs_get_object k f = (Ok r, f') ->
    exists b, fs_view f !! rs_final k = Some b /\ is_reader b r;
  rs_get_not_found : forall k f k' f', rs_get_object k f = (Err (StorageError.NotFound k'), f') ->
    fs_view f !! rs_final k = None;
  rs_info_pure : forall k, keeps eq (rs_object_info k);
  rs_info_ok : forall k f n h f', rs_object_info k f = (Ok (n, h), f') ->
    exists b, fs_view f !! rs_final k = Some b /\ n = N.of_nat (length b) /\ h = sha256_hex b;
  rs_delete_ok : forall k f f', rs_delete_object k f = (Ok tt, f') ->
    is_Some (fs_view f !! rs_final k) /\ fs_view f' = delete (rs_final k) (fs_view f);
  rs_delete_err : forall k f e f', rs_delete_object k f = (Err e, f') -> fs_view f' = fs_view f;
  rs_delete_not_found : forall k f k' f',
    rs_delete_object k f = (Err (StorageError.NotFound k'), f') -> fs_view f !! rs_final k = None;
}.

(** [impl ReplicationStorage for ObjectStorage]. *)
Definition object_storage_impl {F} `{FileSystem F, Sha256} (self : ObjectStorage)
  : ReplicationStorage F := {|
  rs_put_object key data := put_object self key (slice_reader data);
  rs_create_temp_object := create_temp_object self;
  rs_write_temp_object key data := write_temp_object self key (slice_reader data);
  rs_commit_object := commit_object self;
  rs_get_object := get_object self;
  rs_object_info := object_info self;
  rs_delete_object := delete_object self;
|}.

(** ** Lemmas *)
Section storage_lemmas.
Context {F : Type} `{FileSystemLaws F, Sha256} (self : ObjectStorage).

Definition key_id (key : string) : string := sha256_hex (String.list_byte_of_string key).
Definition key_temp (key : string) : PathBuf := temp_path_from_id (layout self) (key_id key).
Definition key_final (key : string) : PathBuf := object_path_from_id (layout self) (key_id key).
Definition key_handle (key : string) : TempObject := TempObject_new (key_temp key) (key_final key).

Lemma key_temp_not_final k k' : key_temp k <> key_final k'.
Proof.
  unfold key_temp, key_final, temp_path_from_id, object_path_from_id, path_join.
  intros Heq%(f_equal length). rewrite !length_app in Heq. simpl in Heq. lia.
Qed.

Lemma key_same_files k k' : key_temp k = key_temp k' <-> key_final k = key_final k'.
Proof.
  unfold key_temp, key_final, temp_path_from_id, object_path_from_id, path_join. split.
  - intros [_ [= Heq]]%app_inj_2; [|done]. apply string_app_inj_r in Heq. by rewrite Heq.
  - intros [_ [= ->]]%app_inj_2; done.
Qed.

Lemma object_id_Ok k id : object_id k = Ok id -> validate_object_key k = Ok tt /\ id = key_id k.
Proof.
  unfold object_id. destruct (validate_object_key k) as [[]|]; simpl; [|done].
  intros [= <-]. done.
Qed.

Lemma object_path_Ok k p : object_path (layout self) k = Ok p -> p = key_final k.
Proof. unfold object_path. intros (id & [_ ->]%object_id_Ok & [= <-])%result_bind_inv. done. Qed.

Lemma keeps_io {A} (c : M F io_error A) P : keeps P c -> keeps P (io c).
Proof. intros Hc. by apply keeps_with_err. Qed.

Lemma io_ok {A} (c : M F io_error A) f a f' : io c f = (Ok a, f') -> c f = (Ok a, f').
Proof. intros ([a'|e] & Hr & He)%with_err_inv; by simplify_eq/=. Qed.

Lemma drop_temp_frame t (f : F) : same_but (temp_path t) f (drop_temp t f).
Proof.
  unfold drop_temp. destruct (negb (committed t) && fs_exists f (temp_path t)); [|done].
  destruct (fs_remove_file (temp_path t) f) as [r f'] eqn:Hr. simpl. by eapply remove_frame.
Qed.

Lemma drop_temp_gone t (f : F) : fs_view f !! temp_path t = None -> same_view f (drop_temp t f).
Proof.
  intros Hn. unfold drop_temp. destruct (negb (committed t) && fs_exists f (temp_path t)); [|done].
  destruct (fs_remove_file (temp_path t) f) as [[[]|e] f'] eqn:Hr; simpl.
  - apply fs_remove_ok in Hr as [[? ?] _]. congruence.
  - by apply fs_remove_err in Hr.
Qed.

Lemma owning_inv {A} (t : TempObject) (c : M F StorageError.t A) f r f' :
  owning t c f = (r, f') -> exists g, c f = (r, g) /\ same_but (temp_path t) g f' /\
    (fs_view g !! temp_path t = None -> same_view g f').
Proof.
  unfold owning. destruct (c f) as [[a|e] g]; intros [= <- <-]; eexists; split_and!; [done..| |].
  - apply drop_temp_frame.
  - apply drop_temp_gone.
Qed.

Lemma owning_Ok {A} (t : TempObject) (c : M F StorageError.t A) f a f' :
  owning t c f = (Ok a, f') <-> c f = (Ok a, f').
Proof. unfold owning. destruct (c f) as [[?|?] ?]; split; congruence. Qed.

Lemma fsync_dir_view p : keeps same_view (fsync_dir p).
Proof.
  unfold fsync_dir. apply keeps_bind; [apply _| |intros _]; apply keeps_with_err;
    [apply fs_open_any_view|apply fs_sync_dir_view].
Qed.

Lemma copy_ok r dst f n f' b : fs_view f !! dst = Some b -> copy r dst f = (Ok n, f') ->
  exists d, read_to_end r = Ok d /\ n = N.of_nat (length d) /\
    fs_view f' = <[dst := b ++ d]> (fs_view f).
Proof.
  revert f n b. induction r as [|[c|e] r IH]; intros f n b Hb; simpl; [|..].
  - intros [= <- <-]. exists []. split_and!; [done..|]. by rewrite app_nil_r, insert_id.
  - intros [([] & g & Hw & [(m & g' & Hc & [= <- <-])|(e & _ & ?)]%bind_inv)|(e & _ & ?)]%bind_inv;
      [|done..].
    pose proof (fs_write_ok _ _ _ _ _ Hb Hw) as Hg.
    destruct (IH g m (b ++ c)) as (d & Hd & -> & Hv); [by rewrite Hg, lookup_insert_eq|done|].
    exists (c ++ d). rewrite Hd. split_and!; [done|rewrite length_app; lia|].
    by rewrite Hv, Hg, insert_insert_eq, (assoc_L (++)).
  - done.
Qed.

Lemma copy_frame r dst f n f' b : fs_view f !! dst = Some b -> copy r dst f = (n, f') ->
  same_but dst f f'.
Proof.
  revert f n b. induction r as [|[c|e] r IH]; intros f n b Hb; simpl; [by intros [= _ <-]| |by intros [= _ <-]].
  intros [([] & g & Hw & Hc)|(e & Hw & ->)]%bind_inv.
  - pose proof (fs_write_ok _ _ _ _ _ Hb Hw) as Hg. trans g.
    { unfold same_but. by rewrite Hg, delete_insert_eq. }
    assert (Hgb : fs_view g !! dst = Some (b ++ c)) by by rewrite Hg, lookup_insert_eq.
    apply bind_inv in Hc as [(m & g' & Hc & [= _ <-])|(e & Hc & _)]; by eapply IH.
  - by eapply fs_write_err.
Qed.

Lemma create_temp_Ok k f t f' : create_temp_object self k f = (Ok t, f') ->
  validate_object_key k = Ok tt /\ t = key_handle k /\ fs_view f' = fs_view f.
Proof.
  unfold create_temp_object.
  intros [(id & ? & [Hid ->]%lift_inv & Hr)|(? & _ & ?)]%bind_inv; [|done].
  apply object_id_Ok in Hid as [Hv ->].
  apply bind_inv in Hr as [(p & ? & [_ ->]%lift_inv & Hr)|(? & _ & ?)]; [|done].
  apply bind_inv in Hr as [([] & g & Hd%io_ok & [= <- <-])|(? & _ & ?)]; [|done].
  split_and!; [done..|]. by eapply fs_create_dir_all_view.
Qed.

Lemma create_temp_view k : keeps same_view (create_temp_object self k).
Proof.
  unfold create_temp_object. apply keeps_bind; [apply _|solve_frame|intros id].
  apply keeps_bind; [apply _|solve_frame|intros p].
  apply keeps_bind; [apply _|apply keeps_io, fs_create_dir_all_view|solve_frame].
Qed.

Lemma write_temp_Ok k r f t f' : write_temp_object self k r f = (Ok t, f') ->
  validate_object_key k = Ok tt /\ t = key_handle k /\
  exists d, read_to_end r = Ok d /\ fs_view f' = <[key_temp k := d]> (fs_view f).
Proof.
  unfold write_temp_object.
  intros [(t' & g & (Hv & -> & Hg)%create_temp_Ok & Hr)|(? & _ & ?)]%bind_inv; [|done].
  apply owning_Ok in Hr.
  apply bind_inv in Hr as [([] & g1 & Hc%io_ok & Hr)|(? & _ & ?)]; [|done].
  apply fs_create_ok in Hc.
  apply bind_inv in Hr as [(n & g2 & Hw%io_ok & Hr)|(? & _ & ?)]; [|done].
  eapply copy_ok in Hw as (d & Hd & _ & Hw); [|by rewrite Hc, lookup_insert_eq].
  apply bind_inv in Hr as [([] & g3 & Hf%io_ok%fs_flush_view & Hr)|(? & _ & ?)]; [|done].
  assert (f' = f' /\ t = key_handle k /\ fs_view f' = fs_view g3) as (_ & -> & Hv').
  { case_bool_decide.
    - apply bind_inv in Hr as [([] & g4 & [= <-] & [= <- <-])|(? & _ & ?)]; done.
    - apply bind_inv in Hr as [([] & g4 & Hs%io_ok%fs_sync_all_view & [= <- <-])|(? & _ & ?)]; done. }
  split_and!; [done..|]. exists d. split; [done|].
  by rewrite Hv', Hf, Hw, Hc, insert_insert_eq, Hg.
Qed.

Lemma write_temp_frame k r : keeps (same_but (key_temp k)) (write_temp_object self k r).
Proof.
  intros f res f'. unfold write_temp_object.
  intros [(t & g & (_ & -> & Hg)%create_temp_Ok & Hr)|(e & Hc & _)]%bind_inv;
    [|by eapply same_but_of_view, create_temp_view].
  trans g; [by apply same_but_of_view|]. apply owning_inv in Hr as (h & Hr & Hd & _). trans h; [|done].
  clear Hd f' Hg. change (temp_path (key_handle k)) with (key_temp k) in Hr.
  apply bind_inv in Hr as [([] & g1 & Hc%io_ok & Hr)|(? & Hc & _)];
    [|by eapply (keeps_io _ _ (create_frame _))].
  trans g1; [by eapply create_frame|]. apply fs_create_ok in Hc.
  assert (Hg1 : fs_view g1 !! key_temp k = Some []) by by rewrite Hc, lookup_insert_eq.
  apply bind_inv in Hr as [(n & g2 & Hw%io_ok & Hr)|(? & Hw & _)];
    [|apply with_err_inv in Hw as (? & Hw & _); by eapply copy_frame].
  trans g2; [by eapply copy_frame|]. clear Hw. revert g2 res h Hr.
  assert (Hk : keeps (same_but (key_temp k))
    (io (fs_flush (key_temp k)) ;;
     (if bool_decide (fsync_mode self = "none") then mret tt else io (fs_sync_all (key_temp k))) ;;
     mret (key_handle k) : M F StorageError.t TempObject)); [|exact Hk].
  apply keeps_bind; [apply _|apply keeps_view, keeps_io, fs_flush_view|intros _].
  apply keeps_bind; [apply _| |intros _; apply keeps_ret, _].
  case_bool_decide; [apply keeps_ret, _|apply keeps_view, keeps_io, fs_sync_all_view].
Qed.

(** A commit renames the temporary file, and on success has nothing left to
    clean up. *)
Lemma commit_Ok k f f' b : fs_view f !! key_temp k = Some b ->
  commit_object self (key_handle k) f = (Ok tt, f') ->
  fs_view f' = <[key_final k := b]> (delete (key_temp k) (fs_view f)).
Proof.
  intros Hb. unfold commit_object. intros Hr%owning_Ok.
  apply bind_inv in Hr as [(p & ? & [_ ->]%lift_inv & Hr)|(? & _ & ?)]; [|done].
  apply bind_inv in Hr as [([] & g & Hd%io_ok%fs_create_dir_all_view & Hr)|(? & _ & ?)]; [|done].
  apply bind_inv in Hr as [([] & g1 & Hn%io_ok & Hr)|(? & _ & ?)]; [|done].
  eapply fs_rename_ok in Hn; [|by rewrite Hd]. rewrite Hd in Hn. cbn [key_handle TempObject_new final_path temp_path] in Hn.
  rewrite <- Hn.
  apply bind_inv in Hr as [([] & g2 & Hs & [= <-])|(? & _ & ?)]; [|done].
  unfold drop_temp. simpl. revert Hs. case_bool_decide; [|by intros [= <-]].
  eapply fsync_dir_view.
Qed.

Lemma commit_Err k f e f' : commit_object self (key_handle k) f = (Err e, f') ->
  same_but (key_temp k) f f' \/
  (fsync_mode self = "full" /\ forall b, fs_view f !! key_temp k = Some b ->
   fs_view f' = <[key_final k := b]> (delete (key_temp k) (fs_view f))).
Proof.
  unfold commit_object. intros (h & Hr & Hd & Hgone)%owning_inv.
  apply bind_inv in Hr as [(p & ? & [_ ->]%lift_inv & Hr)|(? & [_ ->]%lift_inv & _)]; [|by left].
  apply bind_inv in Hr as [([] & g & Hg%io_ok%fs_create_dir_all_view & Hr)|(? & Hg & _)].
  2: { left. trans h; [|done]. by eapply same_but_of_view, (keeps_io _ _ (fs_create_dir_all_view _)). }
  apply bind_inv in Hr as [([] & g1 & Hn%io_ok & Hr)|(? & (r0 & Hn & ?)%with_err_inv & _)].
  2: { destruct r0 as [|e0]; [done|]. apply fs_rename_err in Hn. left. trans h; [|done].
       apply same_but_of_view. by rewrite Hn. }
  revert Hr. case_bool_decide as Hm.
  2: { intros [([] & g2 & [= <-] & [=])|(? & [=] & _)]%bind_inv. }
  right. split; [done|]. intros b Hb. eapply fs_rename_ok in Hn; [|by rewrite Hg].
  rewrite Hg in Hn. apply bind_inv in Hr as [([] & g2 & _ & [=])|(? & Hs & _)].
  apply fsync_dir_view in Hs. unfold same_view in Hs. rewrite Hn in Hs. etrans; [apply Hgone|done].
  rewrite Hs. change (temp_path (key_handle k)) with (key_temp k).
  rewrite lookup_insert_ne by apply not_eq_sym, key_temp_not_final. apply lookup_delete_eq.
Qed.

Lemma key_prefix_apart k k' : key_temp k' <> key_temp k ->
  ~ key_temp k `prefix_of` key_temp k' /\ ~ key_final k `prefix_of` key_temp k' /\
  ~ key_temp k `prefix_of` key_final k' /\ ~ key_final k `prefix_of` key_final k'.
Proof.
  intros Hne. assert (Hnf : key_final k' <> key_final k) by by rewrite <- key_same_files.
  split_and!.
  - intros Hp. apply Hne, eq_sym, prefix_length_eq; [done|].
    unfold key_temp, temp_path_from_id, path_join. rewrite !length_app. simpl. lia.
  - intros Hp%prefix_length. unfold key_temp, key_final, temp_path_from_id, object_path_from_id, path_join in Hp.
    rewrite !length_app in Hp. simpl in Hp. lia.
  - unfold key_temp, key_final, temp_path_from_id, object_path_from_id, path_join.
    rewrite <- !(assoc_L (++)). by intros [? [=]]%prefix_app_inv.
  - intros Hp. apply Hnf, eq_sym, prefix_length_eq; [done|].
    unfold key_final, object_path_from_id, path_join. rewrite !length_app. simpl. lia.
Qed.

Lemma commit_frame k k' f r f' : commit_object self (key_handle k) f = (r, f') ->
  key_temp k' <> key_temp k ->
  fs_view f' !! key_temp k' = fs_view f !! key_temp k' /\
  fs_view f' !! key_final k' = fs_view f !! key_final k'.
Proof.
  intros Hc Hne. destruct (key_prefix_apart k k' Hne) as (Hp1 & Hp2 & Hp3 & Hp4).
  set (P := fun g g' : F => fs_view g' !! key_temp k' = fs_view g !! key_temp k' /\
    fs_view g' !! key_final k' = fs_view g !! key_final k').
  assert (HP : PreOrder P) by (unfold P; split; [done|intros ??? [-> ->] [-> ->]; done]).
  assert (Hview : forall E A (c : M F E A), keeps same_view c -> keeps P c)
    by (intros E A c Hk g x g' Hg%Hk; unfold P; by rewrite Hg).
  assert (Hbut : forall g g', same_but (key_temp k) g g' -> P g g').
  { intros g g' Hs. split; (eapply same_but_lookup; [done|]); [done|].
    apply not_eq_sym, key_temp_not_final. }
  apply owning_inv in Hc as (h & Hc & Hd & _). change (P f f'). trans h; [|by apply Hbut].
  clear Hd. revert f r h Hc.
  assert (Hk : keeps P (final_parent ←
       lift (ok_or (StorageError.InvalidPath "Final path has no parent") (parent (final_path (key_handle k))));
     io (fs_create_dir_all final_parent) ;;
     io (fs_rename (temp_path (key_handle k)) (final_path (key_handle k))) ;;
     (if bool_decide (fsync_mode self = "full") then fsync_dir final_parent else mret tt) ;;
     dropping (mark_committed (key_handle k)))).
  { apply keeps_bind; [done|apply keeps_lift, _|intros p].
    apply keeps_bind; [done|apply Hview, keeps_io, fs_create_dir_all_view|intros _].
    apply keeps_bind; [done| |intros _].
    { apply keeps_io. intros g x g' Hr. split; eapply fs_rename_frame; done. }
    apply keeps_bind; [done| |intros _].
    - case_bool_decide; [apply Hview, fsync_dir_view|apply keeps_ret, _].
    - intros g x g' [= _ <-]. by unfold drop_temp. }
  exact Hk.
Qed.

Lemma put_object_spec k r f res f' : put_object self k r f = (res, f') ->
  match res with
  | Ok _ => validate_object_key k = Ok tt /\ exists d, read_to_end r = Ok d /\
      fs_view f' = <[key_final k := d]> (delete (key_temp k) (fs_view f))
  | Err _ => same_but (key_temp k) f f' \/
      (fsync_mode self = "full" /\ exists d, read_to_end r = Ok d /\
       fs_view f' = <[key_final k := d]> (delete (key_temp k) (fs_view f)))
  end.
Proof.
  unfold put_object. intros [(t & g & Hw & Hc)|(e & Hw & ->)]%bind_inv;
    [|left; by eapply write_temp_frame].
  pose proof (write_temp_frame _ _ _ _ _ Hw) as Hframe.
  apply write_temp_Ok in Hw as (Hv & -> & d & Hd & Hg).
  assert (Hb : fs_view g !! key_temp k = Some d) by by rewrite Hg, lookup_insert_eq.
  assert (Hdel : delete (key_temp k) (fs_view g) = delete (key_temp k) (fs_view f))
    by by rewrite Hg, delete_insert_eq.
  destruct res as [[]|e].
  - split; [done|]. exists d. split; [done|]. by rewrite (commit_Ok _ _ _ _ Hb Hc), Hdel.
  - apply commit_Err in Hc as [Hs|[Hm Hc]]; [left; by trans g|right].
    split; [done|]. exists d. split; [done|]. by rewrite (Hc _ Hb), Hdel.
Qed.

(** C18. [put_object] is atomic.  When it returns [Ok] the object file holds
    exactly the bytes the reader gave, the temporary file is gone and every
    other file is as it was.  When it fails, no file but the key's temporary
    one has changed, unless the rename was done and, in fsync mode ["full"],
    the directory could not be synced: then the new object is in place. *)
Theorem put_object_atomic k r f res f' : put_object self k r f = (res, f') ->
  match res with
  | Ok _ => validate_object_key k = Ok tt /\ exists d, read_to_end r = Ok d /\
      fs_view f' = <[key_final k := d]> (delete (key_temp k) (fs_view f))
  | Err _ => same_but (key_temp k) f f' \/
      (fsync_mode self = "full" /\ exists d, read_to_end r = Ok d /\
       fs_view f' = <[key_final k := d]> (delete (key_temp k) (fs_view f)))
  end.
Proof. apply put_object_spec. Qed.

Lemma get_object_Ok k f r f' : get_object self k f = (Ok r, f') ->
  f' = f /\ exists b, fs_view f !! key_final k = Some b /\ is_reader b r.
Proof.
  unfold get_object. intros [(p & ? & [Hp%object_path_Ok ->]%lift_inv & [= Ho <-])|(? & _ & ?)]%bind_inv; [|done].
  subst p. split; [done|]. destruct (fs_open f (key_final k)) eqn:Hopen; simplify_eq/=.
  by apply fs_open_ok.
Qed.

Lemma get_object_Err k f e f' : get_object self k f = (Err e, f') ->
  f' = f /\
  ((exists m, validate_object_key k = Err m /\ e = StorageError.InvalidKey (Error.to_string m)) \/
   (e = StorageError.NotFound k /\ fs_view f !! key_final k = None) \/
   (exists ie, e = StorageError.Io ie /\ fs_open f (key_final k) = Err ie)).
Proof.
  unfold get_object. intros [(p & ? & [Hp%object_path_Ok ->]%lift_inv & [= Ho <-])|(e' & [Hp ->]%lift_inv & [= <-])]%bind_inv.
  - split; [done|right]. subst p. destruct (fs_open f (key_final k)) as [|ie] eqn:Hopen; simplify_eq/=.
    unfold not_found_or_io. destruct (kind ie) eqn:Hk; [left|right; eauto].
    split; [done|]. by eapply fs_open_not_found.
  - split; [done|left]. unfold object_path, object_id in Hp.
    destruct (validate_object_key k) as [[]|m]; simplify_eq/=. eauto.
Qed.

(** [get_object] returns the object's bytes, reports [NotFound] only when
    there is no object file, [InvalidKey] only for a key the validation
    rejects, otherwise the error of opening the file; it never changes a file. *)
Theorem get_object_exact k f res f' : get_object self k f = (res, f') ->
  f' = f /\
  match res with
  | Ok r => exists b, fs_view f !! key_final k = Some b /\
      forall b', read_to_end r = Ok b' -> b' = b
  | Err (StorageError.NotFound k') => k' = k /\ fs_view f !! key_final k = None
  | Err (StorageError.InvalidKey m) => exists e, validate_object_key k = Err e /\ m = Error.to_string e
  | Err (StorageError.Io e) => fs_open f (key_final k) = Err e
  | Err _ => False
  end.
Proof.
  destruct res as [r|e].
  - intros [-> (b & Hb & Hr)]%get_object_Ok. split; [done|]. exists b. split; [done|].
    intros b' Hb'. by eapply is_reader_read.
  - intros [-> He]%get_object_Err. split; [done|].
    destruct He as [(m & Hm & ->)|[[-> Hn]|(ie & -> & Ho)]]; eauto.
Qed.

Lemma hash_loop_pieces cs acc : hash_loop (Ok <$> cs) acc = Ok (sha256_hex (acc ++ concat cs)).
Proof.
  revert acc. induction cs as [|c cs IH]; intros acc; csimpl; [by rewrite app_nil_r|].
  by rewrite IH, (assoc_L (++)).
Qed.
Lemma hash_loop_cut cs e acc : hash_loop ((Ok <$> cs) ++ [Err e]) acc = Err (StorageError.Io e).
Proof. revert acc. induction cs as [|c cs IH]; intros acc; csimpl; [done|]. by rewrite IH. Qed.
Lemma hash_loop_reader b r h : is_reader b r -> hash_loop r [] = Ok h -> h = sha256_hex b.
Proof.
  intros (cs & _ & [[-> <-]|(e & rest & -> & _)]).
  - rewrite hash_loop_pieces. by intros [= <-].
  - by rewrite hash_loop_cut.
Qed.

Lemma object_info_Ok k f n h f' : object_info self k f = (Ok (n, h), f') ->
  exists b, fs_view f !! key_final k = Some b /\ n = N.of_nat (length b) /\ h = sha256_hex b.
Proof.
  unfold object_info.
  intros [(p & ? & [Hp%object_path_Ok ->]%lift_inv & Hr)|(? & _ & ?)]%bind_inv; [|done]. subst p.
  apply bind_inv in Hr as [(size & g & [= Hm <-] & Hr)|(? & _ & ?)]; [|done].
  apply bind_inv in Hr as [(r & g & [= Ho <-] & Hr)|(? & _ & ?)]; [|done].
  apply bind_inv in Hr as [(c & g & [Hh ->]%lift_inv & [= <- <- <-])|(? & _ & ?)]; [|done].
  destruct (fs_open f (key_final k)) as [r'|] eqn:Hopen; simplify_eq/=.
  apply fs_open_ok in Hopen as (b & Hb & Hr). exists b. split_and!; [done| |by eapply hash_loop_reader].
  destruct (fs_metadata f (key_final k)) as [m|] eqn:Hmeta; simplify_eq/=. by eapply fs_metadata_ok.
Qed.

Lemma object_info_pure k : keeps eq (object_info self k).
Proof. unfold object_info. solve_frame. Qed.

Lemma delete_object_inv k f res f' : delete_object self k f = (res, f') ->
  match res with
  | Ok _ => is_Some (fs_view f !! key_final k) /\ fs_view f' = delete (key_final k) (fs_view f)
  | Err e => fs_view f' = fs_view f /\
      (forall k', e = StorageError.NotFound k' -> fs_view f !! key_final k = None)
  end.
Proof.
  unfold delete_object.
  intros [(p & ? & [Hp%object_path_Ok ->]%lift_inv & Hr)|(e & [Hp ->]%lift_inv & ->)]%bind_inv.
  - subst p. apply with_err_inv in Hr as ([[]|ie] & Hr & ->); simpl.
    + by apply fs_remove_ok in Hr.
    + split; [by eapply fs_remove_err|]. intros k'. unfold not_found_or_io.
      destruct (kind ie) eqn:Hk; [|done]. intros _. by eapply fs_remove_not_found.
  - split; [done|]. unfold object_path, object_id in Hp.
    destruct (validate_object_key k) as [[]|m]; simplify_eq/=. done.
Qed.
End storage_lemmas.

#[global] Instance object_storage_laws {F} `{FileSystemLaws F, Sha256} (self : ObjectStorage) :
  @ReplicationStorageLaws F _ _ _ (object_storage_impl self).
Proof.
  refine {| rs_temp := key_temp self; rs_final := key_final self |}; simpl.
  - apply key_temp_not_final.
  - apply key_same_files.
  - by intros k f t f' (_ & -> & _)%create_temp_Ok.
  - apply create_temp_view.
  - intros k d f t f' (_ & -> & d' & Hd & Hv)%write_temp_Ok. rewrite slice_reader_read in Hd.
    by simplify_eq.
  - intros k d. apply write_temp_frame.
  - apply commit_Ok.
  - intros k f e f' [?|[_ ?]]%commit_Err; auto.
  - apply commit_frame.
  - intros k d f f' (_ & d' & Hd & Hv)%put_object_spec. rewrite slice_reader_read in Hd. by simplify_eq.
  - intros k d f e f' [?|(_ & d' & Hd & Hv)]%put_object_spec; [auto|].
    rewrite slice_reader_read in Hd. simplify_eq. auto.
  - intros k f [r|e] f' Hg; [by apply get_object_Ok in Hg as [-> _]|by apply get_object_Err in Hg as [-> _]].
  - by intros k f r f' [_ ?]%get_object_Ok.
  - intros k f k' f' [_ [(? & _ & ?)|[[_ ?]|(? & ? & _)]]]%get_object_Err; done.
  - apply object_info_pure.
  - apply object_info_Ok.
  - intros k f f' Hd. by apply delete_object_inv in Hd.
  - intros k f e f' Hd. by apply delete_object_inv in Hd as [? _].
  - intros k f k' f' Hd. apply delete_object_inv in Hd as [_ Hn]. by eapply Hn.
Defined.

(** ** Concrete runs *)
Module PutWit.
Import MemFs ToySha.

Definition st : ObjectStorage := mkObjectStorage (mkStorageLayout ["data"]) "full".
Definition data : bytes := String.list_byte_of_string "hello".
Definition put : result StorageError.t unit * MemFs.t :=
  put_object st "b/k" (slice_reader data) MemFs.empty.
Definition get : result StorageError.t Reader * MemFs.t := get_object st "b/k" put.2.

(** A run whose result is [a] is the pair of [a] and the state it leaves. *)

Lemma put_object_atomic_witness : put.1 = Ok tt /\
  exists d, read_to_end (slice_reader data) = Ok d /\
    fs_view put.2 = <[key_final st "b/k" := d]> (delete (key_temp st "b/k") (fs_view MemFs.empty)).
Proof.
  assert (Hr : put.1 = Ok tt) by (vm_compute; reflexivity).
  split; [exact Hr|].
  exact (proj2 (put_object_atomic st "b/k" (slice_reader data) MemFs.empty (Ok tt) put.2 (run_eq put _ Hr))).
Defined.

Lemma get_object_exact_witness : exists b, fs_view put.2 !! key_final st "b/k" = Some b /\
  forall b', read_to_end (slice_reader data) = Ok b' -> b' = b.
Proof.
  assert (Hr : get.1 = Ok (slice_reader data)) by (vm_compute; reflexivity).
  exact (proj2 (get_object_exact st "b/k" put.2 (Ok (slice_reader data)) get.2 (run_eq get _ Hr))).
Defined.

(** A put whose directory sync fails reports an error with the object in place. *)
Example put_unsynced :
  let f := MemFs.mk ∅ ∅ ∅ {[ ["data"; "objects"; String.substring 0 2 (key_id "b/k")] ]} ∅ in
  is_ok (put_object st "b/k" (slice_reader data) f).1 = false /\
  MemFs.files (put_object st "b/k" (slice_reader data) f).2 !! key_final st "b/k" = Some data.
Proof. split; vm_compute; reflexivity. Qed.
End PutWit.
