(* ===== verification/ReplicationService.v ===== *)
(** * save-storage: the replication service of one node

    Models [crates/save-storage/src/replication/service.rs] and the messages of
    [crates/save-proto/proto/replication.proto].  The state is the node's file
    system and the table of prepared writes; a handler is a function from a
    request and a state to the response and the state it leaves, and runs as
    one step.  The storage below is the interface [ReplicationStorage]; an
    [Instant] is a number of nanoseconds. *)
From Stdlib Require Import Strings.Byte Ascii Floats.SpecFloat.
From S2P Require Import Prelude Common Kv Fs ObjectStorage.
From stdpp Require Import base gmap strings numbers list.

(** ** [replication.proto] *)
Module proto.
Record WriteObjectRequest : Type := mkWriteObjectRequest {
  wr_key : string; wr_data : bytes; wr_checksum : string; wr_request_id : N }.
Record WriteObjectResponse : Type := mkWriteObjectResponse {
  ws_success : bool; ws_error_message : string; bytes_written : N }.
Record PrepareObjectRequest : Type := mkPrepareObjectRequest {
  pr_key : string; pr_data : bytes; pr_checksum : string; pr_request_id : N }.
Record PrepareObjectResponse : Type := mkPrepareObjectResponse {
  ps_success : bool; ps_error_message : string; ps_temp_id : string }.
Record PrepareChunkRequest : Type := mkPrepareChunkRequest {
  pc_key : string; pc_request_id : N; pc_chunk : bytes; pc_is_last : bool; pc_checksum : string }.
Record CommitObjectRequest : Type := mkCommitObjectRequest {
  cr_key : string; cr_temp_id : string; cr_request_id : N }.
Record CommitObjectResponse : Type := mkCommitObjectResponse {
  cs_success : bool; cs_error_message : string }.
Record AbortObjectRequest : Type := mkAbortObjectRequest {
  ar_key : string; ar_temp_id : string; ar_request_id : N }.
Record AbortObjectResponse : Type := mkAbortObjectResponse {
  as_success : bool; as_error_message : string }.
Record ReadObjectRequest : Type := mkReadObjectRequest {
  rr_key : string; rr_offset : N; rr_length : N }.
Record ReadObjectResponse : Type := mkReadObjectResponse {
  chunk : bytes; is_last : bool; total_size : N }.
Record ObjectExistsRequest : Type := mkObjectExistsRequest { er_key : string }.
Record ObjectExistsResponse : Type := mkObjectExistsResponse {
  exists_ : bool; es_size : N; es_checksum : string }.
Record DeleteObjectRequest : Type := mkDeleteObjectRequest { dr_key : string; dr_request_id : N }.
Record DeleteObjectResponse : Type := mkDeleteObjectResponse {
  ds_success : bool; ds_error_message : string; was_present : bool }.
Record HealthCheckResponse : Type := mkHealthCheckResponse {
  hs_status : Z; hs_message : string; uptime_seconds : N }.
Record GetStatsResponse : Type := mkGetStatsResponse {
  total_objects : N; total_bytes : N; temp_objects : N; disk_usage_percent : spec_float }.
End proto.
Import proto.

(** [Status::Healthy as i32]. *)
Definition STATUS_HEALTHY : Z := 0.
Definition as_secs (ns : N) : N := (ns / 1000000000)%N.

Record PendingPrepare : Type := mkPendingPrepare {
  temp_object : TempObject; checksum : string; prepared_at : N }.

Section service.
Context {F : Type} `{FileSystem F, Sha256, ReplicationStorage F}.

Record ReplicationService : Type := mkService {
  svc_fs : F; start_time : N; pending_prepares : gmap string PendingPrepare }.

Definition service_new (f : F) (now : N) : ReplicationService := mkService f now ∅.

Definition set_fs (s : ReplicationService) (f : F) : ReplicationService :=
  mkService f (start_time s) (pending_prepares s).
Definition set_pending (s : ReplicationService) (m : gmap string PendingPrepare) : ReplicationService :=
  mkService (svc_fs s) (start_time s) m.

Definition compute_sha256 (d : bytes) : string := sha256_hex d.

Definition mismatch (expected actual : string) : string :=
  "checksum mismatch: expected " +:+ expected +:+ ", got " +:+ actual.

(** The check every write starts with: [Some] is the message of the refusal. *)
Definition bad_checksum (expected : string) (data : bytes) : option string :=
  if bool_decide (expected = "") then None
  else let actual := compute_sha256 data in
       if bool_decide (actual = expected) then None else Some (mismatch expected actual).

Definition write_object (req : WriteObjectRequest) (s : ReplicationService)
  : WriteObjectResponse * ReplicationService :=
  match bad_checksum (wr_checksum req) (wr_data req) with
  | Some msg => (mkWriteObjectResponse false msg 0, s)
  | None =>
      match rs_put_object (wr_key req) (wr_data req) (svc_fs s) with
      | (Ok _, f) => (mkWriteObjectResponse true "" (N.of_nat (length (wr_data req))), set_fs s f)
      | (Err e, f) => (mkWriteObjectResponse false (StorageError.to_string e) 0, set_fs s f)
      end
  end.

Definition prepare_failed (msg : string) : PrepareObjectResponse :=
  mkPrepareObjectResponse false msg "".

Definition temp_id_of (request_id : N) (key : string) : string := show request_id +:+ ":" +:+ key.

(** [pending_prepares.write().await.insert(temp_id, pending)]: the entry it
    replaces, if any, is dropped, which runs the destructor of its
    temporary object. *)
Definition insert_pending (temp_id : string) (p : PendingPrepare) (s : ReplicationService)
  : ReplicationService :=
  let s' := set_pending s (<[temp_id := p]> (pending_prepares s)) in
  match pending_prepares s !! temp_id with
  | Some old => set_fs s' (drop_temp (temp_object old) (svc_fs s'))
  | None => s'
  end.

Definition prepare_object (now : N) (req : PrepareObjectRequest) (s : ReplicationService)
  : PrepareObjectResponse * ReplicationService :=
  match bad_checksum (pr_checksum req) (pr_data req) with
  | Some msg => (prepare_failed msg, s)
  | None =>
      match rs_write_temp_object (pr_key req) (pr_data req) (svc_fs s) with
      | (Ok t, f) =>
          let temp_id := temp_id_of (pr_request_id req) (pr_key req) in
          let pending := mkPendingPrepare t (pr_checksum req) now in
          (mkPrepareObjectResponse true "" temp_id, insert_pending temp_id pending (set_fs s f))
      | (Err e, f) => (prepare_failed (StorageError.to_string e), set_fs s f)
      end
  end.

(** The loop over the chunks: the hasher and the expected checksum are carried
    along; a failed write stops it. *)
Fixpoint write_chunks (path : PathBuf) (chunks : list PrepareChunkRequest) (hasher : bytes)
    (expected : string) : M F io_error (bytes * string) :=
  match chunks with
  | [] => mret (hasher, expected)
  | c :: rest =>
      (if bool_decide (pc_chunk c = []) then mret tt else fs_write_all path (pc_chunk c)) ;;
      write_chunks path rest (hasher ++ pc_chunk c)
        (if pc_is_last c && negb (bool_decide (pc_checksum c = "")) then pc_checksum c else expected)
  end.

Definition stream_prepare_object (now : N) (chunks : list PrepareChunkRequest)
    (s : ReplicationService) : PrepareObjectResponse * ReplicationService :=
  match chunks with
  | [] => (prepare_failed "no chunks received", s)
  | first_chunk :: _ =>
      let key := pc_key first_chunk in
      let request_id := pc_request_id first_chunk in
      if bool_decide (key = "") then (prepare_failed "missing key in first chunk", s)
      else
        match rs_create_temp_object key (svc_fs s) with
        | (Err e, f) =>
            (prepare_failed ("failed to create temp object: " +:+ StorageError.to_string e), set_fs s f)
        | (Ok t, f) =>
            let fail msg f' := (prepare_failed msg, set_fs s (drop_temp t f')) in
            match fs_create (temp_path t) f with
            | (Err e, f1) => fail ("failed to create temp file: " +:+ io_msg e) f1
            | (Ok _, f1) =>
                match write_chunks (temp_path t) chunks [] "" f1 with
                | (Err e, f2) => fail ("failed to write chunk: " +:+ io_msg e) f2
                | (Ok (hasher, expected), f2) =>
                    match fs_flush (temp_path t) f2 with
                    | (Err e, f3) => fail ("failed to flush: " +:+ io_msg e) f3
                    | (Ok _, f3) =>
                        match bad_checksum expected hasher with
                        | Some msg => fail msg f3
                        | None =>
                            let temp_id := temp_id_of request_id key in
                            let pending := mkPendingPrepare t expected now in
                            (mkPrepareObjectResponse true "" temp_id,
                             insert_pending temp_id pending (set_fs s f3))
                        end
                    end
                end
            end
        end
  end.

Definition commit_object (req : CommitObjectRequest) (s : ReplicationService)
  : CommitObjectResponse * ReplicationService :=
  let pending := pending_prepares s !! cr_temp_id req in
  let s' := set_pending s (delete (cr_temp_id req) (pending_prepares s)) in
  match pending with
  | Some p =>
      match rs_commit_object (temp_object p) (svc_fs s') with
      | (Ok _, f) => (mkCommitObjectResponse true "", set_fs s' f)
      | (Err e, f) => (mkCommitObjectResponse false (StorageError.to_string e), set_fs s' f)
      end
  | None =>
      (mkCommitObjectResponse false ("no pending prepare for temp_id: " +:+ cr_temp_id req), s')
  end.

Definition abort_object (req : AbortObjectRequest) (s : ReplicationService)
  : AbortObjectResponse * ReplicationService :=
  let pending := pending_prepares s !! ar_temp_id req in
  let s' := set_pending s (delete (ar_temp_id req) (pending_prepares s)) in
  match pending with
  | Some p => (mkAbortObjectResponse true "", set_fs s' (drop_temp (temp_object p) (svc_fs s')))
  | None => (mkAbortObjectResponse true "", s')
  end.

(** The read loop: [chunks] are those already pushed. *)
Fixpoint read_loop (r : Reader) (chunks : list ReadObjectResponse) (total : N)
  : list ReadObjectResponse * N :=
  match r with
  | [] => (match chunks with [] => [mkReadObjectResponse [] true 0] | _ => chunks end, total)
  | Err _ :: _ => (chunks, total)
  | Ok b :: r' =>
      read_loop r' (chunks ++ [mkReadObjectResponse b false 0]) (total + N.of_nat (length b))%N
  end.

Definition set_total (n : N) (c : ReadObjectResponse) : ReadObjectResponse :=
  mkReadObjectResponse (chunk c) (is_last c) n.
Definition set_last (c : ReadObjectResponse) : ReadObjectResponse :=
  mkReadObjectResponse (chunk c) true (total_size c).

Definition read_object (req : ReadObjectRequest) (s : ReplicationService)
  : result StorageError.t (list ReadObjectResponse) * ReplicationService :=
  match rs_get_object (rr_key req) (svc_fs s) with
  | (Err e, f) => (Err e, set_fs s f)
  | (Ok file, f) =>
      let '(chunks, total_bytes) := read_loop file [] 0 in
      let chunks := alter (set_total total_bytes) 0 chunks in
      let chunks := alter set_last (pred (length chunks)) chunks in
      (Ok chunks, set_fs s f)
  end.

Definition object_exists (req : ObjectExistsRequest) (s : ReplicationService)
  : ObjectExistsResponse * ReplicationService :=
  match rs_object_info (er_key req) (svc_fs s) with
  | (Ok (size, sum), f) => (mkObjectExistsResponse true size sum, set_fs s f)
  | (Err _, f) => (mkObjectExistsResponse false 0 "", set_fs s f)
  end.

Definition delete_object (req : DeleteObjectRequest) (s : ReplicationService)
  : DeleteObjectResponse * ReplicationService :=
  let '(got, f) := rs_get_object (dr_key req) (svc_fs s) in
  let present := is_ok got in
  match rs_delete_object (dr_key req) f with
  | (Ok _, f') => (mkDeleteObjectResponse true "" present, set_fs s f')
  | (Err (StorageError.NotFound _), f') => (mkDeleteObjectResponse true "" false, set_fs s f')
  | (Err e, f') => (mkDeleteObjectResponse false (StorageError.to_string e) present, set_fs s f')
  end.

Definition health_check (now : N) (s : ReplicationService) : HealthCheckResponse :=
  mkHealthCheckResponse STATUS_HEALTHY "" (as_secs (now - start_time s)).

Definition get_stats (s : ReplicationService) : GetStatsResponse :=
  mkGetStatsResponse 0 0 (N.of_nat (size (pending_prepares s))) (S754_zero false).

Definition pending_prepare_count (s : ReplicationService) : nat := size (pending_prepares s).

(** The predicate of [retain]. *)
Definition stale (now max_age_secs : N) (p : PendingPrepare) : bool :=
  (max_age_secs <=? as_secs (now - prepared_at p))%N.

(** [retain] visits the entries in the table's order and drops the stale ones. *)
Definition drop_all (ps : list PendingPrepare) (f : F) : F :=
  foldl (fun g p => drop_temp (temp_object p) g) f ps.

Definition cleanup_stale_prepares (now max_age_secs : N) (s : ReplicationService)
  : nat * ReplicationService :=
  let old := pending_prepares s in
  let kept := filter (fun kp => stale now max_age_secs kp.2 = false) old in
  let dropped := (map_to_list (filter (fun kp => stale now max_age_secs kp.2 = true) old)).*2 in
  (size old - size kept, set_fs (set_pending s kept) (drop_all dropped (svc_fs s))).
End service.

(** ** Requests as steps *)
Inductive Request : Type :=
| Write (r : WriteObjectRequest)
| Prepare (now : N) (r : PrepareObjectRequest)
| StreamPrepare (now : N) (chunks : list PrepareChunkRequest)
| Commit (r : CommitObjectRequest)
| Abort (r : AbortObjectRequest)
| Read (r : ReadObjectRequest)
| Exists_ (r : ObjectExistsRequest)
| Delete (r : DeleteObjectRequest)
| Cleanup (now max_age_secs : N).

Definition step {F} `{FileSystem F, Sha256, ReplicationStorage F} (q : Request)
    (s : ReplicationService (F := F)) : ReplicationService :=
  match q with
  | Write r => (write_object r s).2
  | Prepare now r => (prepare_object now r s).2
  | StreamPrepare now cs => (stream_prepare_object now cs s).2
  | Commit r => (commit_object r s).2
  | Abort r => (abort_object r s).2
  | Read r => (read_object r s).2
  | Exists_ r => (object_exists r s).2
  | Delete r => (delete_object r s).2
  | Cleanup now age => (cleanup_stale_prepares now age s).2
  end.

Definition run {F} `{FileSystem F, Sha256, ReplicationStorage F} (qs : list Request)
    (s : ReplicationService (F := F)) : ReplicationService := foldl (fun s q => step q s) s qs.

(** ** Invariant and isolation *)
Section theory.
Context {F : Type} `{FileSystemLaws F, Sha256, !ReplicationStorage F, !ReplicationStorageLaws F}.
Implicit Types (s : ReplicationService (F := F)) (f : F).

Definition handle (k : string) : TempObject := TempObject_new (rs_temp k) (rs_final k).

(** Every prepared write is filed under its request and key and owns the files
    of that key. *)
Definition pending_wf s : Prop := forall tid p, pending_prepares s !! tid = Some p ->
  exists rid k, tid = temp_id_of rid k /\ temp_object p = handle k.

(** The prepared writes that own the files of [k]. *)
Definition mine (k : string) s : gmap string PendingPrepare :=
  filter (fun kp => temp_path (temp_object kp.2) = rs_temp k) (pending_prepares s).

(** The files of [k] are as they were. *)
Definition kept (k : string) f f' : Prop :=
  fs_view f' !! rs_temp k = fs_view f !! rs_temp k /\
  fs_view f' !! rs_final k = fs_view f !! rs_final k.
#[local] Instance kept_preorder k : PreOrder (kept k).
Proof. split; [done|]. intros f g h [] []. split; congruence. Qed.

Lemma temp_id_inj rid k rid' k' : temp_id_of rid k = temp_id_of rid' k' -> k = k'.
Proof.
  unfold temp_id_of. intros [_ Heq]%(sep_app_inj ":"%char); [done|by apply show_no_char..].
Qed.

Lemma kept_view k f f' : fs_view f' = fs_view f -> kept k f f'.
Proof. unfold kept. by intros ->. Qed.

Lemma kept_but k k' f f' : rs_temp k <> rs_temp k' -> same_but (rs_temp k') f f' -> kept k f f'.
Proof.
  intros Hne Hs. split; (eapply same_but_lookup; [done|]); [done|].
  apply not_eq_sym, rs_temp_not_final.
Qed.

Lemma kept_publish k k' f f' b : rs_temp k <> rs_temp k' ->
  fs_view f' = <[rs_final k' := b]> (delete (rs_temp k') (fs_view f)) -> kept k f f'.
Proof.
  intros Hne Hv. pose proof (rs_temp_not_final k k'). pose proof (rs_temp_not_final k' k).
  assert (rs_final k <> rs_final k') by by rewrite <- rs_same_files.
  split; rewrite Hv, lookup_insert_ne, lookup_delete_ne; done.
Qed.

Lemma put_kept k k' d f r f' : rs_temp k <> rs_temp k' ->
  rs_put_object k' d f = (r, f') -> kept k f f'.
Proof.
  intros Hne. destruct r as [[]|e].
  - intros Hp%rs_put_ok. by eapply kept_publish.
  - intros [Hs|Hp]%rs_put_err; [by eapply kept_but|by eapply kept_publish].
Qed.

Lemma drop_kept k k' f : rs_temp k <> rs_temp k' -> kept k f (drop_temp (handle k') f).
Proof. intros Hne. eapply kept_but; [done|]. apply (drop_temp_frame (handle k')). Qed.

Lemma delete_kept k k' f r f' : rs_temp k <> rs_temp k' ->
  rs_delete_object k' f = (r, f') -> kept k f f'.
Proof.
  intros Hne. destruct r as [[]|e].
  - intros [_ Hv]%rs_delete_ok. assert (rs_final k <> rs_final k') by by rewrite <- rs_same_files.
    pose proof (rs_temp_not_final k k').
    split; rewrite Hv, lookup_delete_ne; done.
  - intros Hv%rs_delete_err. by apply kept_view.
Qed.

(** What the table looks like after an insertion or a removal that is not
    about [k]. *)
Lemma mine_insert k s tid p : temp_path (temp_object p) <> rs_temp k ->
  (forall q, pending_prepares s !! tid = Some q -> temp_path (temp_object q) <> rs_temp k) ->
  mine k (set_pending s (<[tid := p]> (pending_prepares s))) = mine k s.
Proof.
  intros Hp Hq. unfold mine. simpl. rewrite map_filter_insert_False by done.
  apply map_filter_delete_not. intros q Hq'. by apply Hq.
Qed.

Lemma mine_delete k s tid :
  (forall q, pending_prepares s !! tid = Some q -> temp_path (temp_object q) <> rs_temp k) ->
  mine k (set_pending s (delete tid (pending_prepares s))) = mine k s.
Proof. intros Hq. unfold mine. simpl. apply map_filter_delete_not. intros q Hq'. by apply Hq. Qed.

Lemma wf_insert s f rid k p : pending_wf s -> temp_object p = handle k ->
  pending_wf (insert_pending (temp_id_of rid k) p (set_fs s f)).
Proof.
  intros Hwf Hp tid q. assert (Hpend : pending_prepares (insert_pending (temp_id_of rid k) p (set_fs s f))
    = <[temp_id_of rid k := p]> (pending_prepares s)) by (unfold insert_pending; simpl; by case_match).
  rewrite Hpend, lookup_insert_Some. intros [[<- <-]|[_ Hq]]; [by eauto|by apply Hwf].
Qed.

(** A request that works on the files of [k]; a cleanup does when a write
    prepared at [t0] has become stale. *)
Definition touches (k : string) (t0 : N) (q : Request) : Prop :=
  match q with
  | Write r => rs_temp k = rs_temp (wr_key r)
  | Prepare _ r => rs_temp k = rs_temp (pr_key r)
  | StreamPrepare _ cs => match cs with [] => False | c :: _ => rs_temp k = rs_temp (pc_key c) end
  | Commit r => exists rid k', cr_temp_id r = temp_id_of rid k' /\ rs_temp k = rs_temp k'
  | Abort r => exists rid k', ar_temp_id r = temp_id_of rid k' /\ rs_temp k = rs_temp k'
  | Read _ | Exists_ _ => False
  | Delete r => rs_temp k = rs_temp (dr_key r)
  | Cleanup now age => (age <= as_secs (now - t0))%N
  end.

Lemma insert_isolated k s f rid k' p : pending_wf s -> rs_temp k <> rs_temp k' ->
  temp_object p = handle k' ->
  kept k f (svc_fs (insert_pending (temp_id_of rid k') p (set_fs s f))) /\
  mine k (insert_pending (temp_id_of rid k') p (set_fs s f)) = mine k s.
Proof.
  intros Hwf Hne Hp.
  assert (Hm : mine k (set_pending s (<[temp_id_of rid k' := p]> (pending_prepares s))) = mine k s).
  { apply mine_insert; [by rewrite Hp|]. intros q (rid' & k'' & <-%temp_id_inj & ->)%Hwf. done. }
  unfold insert_pending. simpl. destruct (pending_prepares s !! _) as [old|] eqn:Hold; [|done].
  split; [|done]. apply Hwf in Hold as (rid' & k'' & <-%temp_id_inj & ->). by apply drop_kept.
Qed.

(** A step that leaves the files and the prepared writes of [k] alone. *)
Definition leaves (k : string) s s' : Prop :=
  kept k (svc_fs s) (svc_fs s') /\ mine k s' = mine k s /\ pending_wf s'.

Lemma leaves_fs k s f : pending_wf s -> kept k (svc_fs s) f -> leaves k s (set_fs s f).
Proof. intros Hwf Hk. split_and!; done. Qed.

Lemma write_leaves k r s : pending_wf s -> rs_temp k <> rs_temp (wr_key r) ->
  leaves k s (write_object r s).2.
Proof.
  intros Hwf Hne. unfold write_object. destruct (bad_checksum _ _); [done|].
  destruct (rs_put_object _ _ _) as [[[]|e] f] eqn:Hp; apply leaves_fs; try done; by eapply put_kept.
Qed.

Lemma insert_leaves k s f rid k' p : pending_wf s -> rs_temp k <> rs_temp k' ->
  kept k (svc_fs s) f -> temp_object p = handle k' ->
  leaves k s (insert_pending (temp_id_of rid k') p (set_fs s f)).
Proof.
  intros Hwf Hne Hk Hp. destruct (insert_isolated k s f rid k' p) as [Hf Hm]; [done..|].
  split_and!; [by trans f|done|by apply wf_insert].
Qed.

Lemma prepare_leaves k now r s : pending_wf s -> rs_temp k <> rs_temp (pr_key r) ->
  leaves k s (prepare_object now r s).2.
Proof.
  intros Hwf Hne. unfold prepare_object. destruct (bad_checksum _ _); [done|].
  destruct (rs_write_temp_object _ _ _) as [[t|e] f] eqn:Hw;
    pose proof (kept_but k (pr_key r) _ _ Hne (rs_write_temp_frame _ _ _ _ _ Hw)).
  - apply rs_write_temp_ok in Hw as [-> _]. by apply insert_leaves.
  - by apply leaves_fs.
Qed.

Lemma write_chunks_frame path cs hasher expected f r f' b : fs_view f !! path = Some b ->
  write_chunks path cs hasher expected f = (r, f') -> same_but path f f'.
Proof.
  revert hasher expected f b. induction cs as [|c cs IH]; intros hasher expected f b Hb; simpl;
    [by intros [= _ <-]|].
  destruct (bool_decide (pc_chunk c = [])).
  - intros [([] & g & Hg & Hr)|(e & Hg & _)]%bind_inv; unfold mret, M_ret in Hg; simplify_eq.
    by eapply IH.
  - intros [([] & g & Hw & Hr)|(e & Hw & _)]%bind_inv; [|by eapply fs_write_err].
    pose proof (fs_write_ok _ _ _ _ _ Hb Hw) as Hg. trans g.
    + unfold same_but. by rewrite Hg, delete_insert_eq.
    + eapply IH; [|exact Hr]. by rewrite Hg, lookup_insert_eq.
Qed.

Lemma stream_prepare_leaves k now c cs s : pending_wf s -> rs_temp k <> rs_temp (pc_key c) ->
  leaves k s (stream_prepare_object now (c :: cs) s).2.
Proof.
  intros Hwf Hne. unfold stream_prepare_object. case_bool_decide; [done|].
  destruct (rs_create_temp_object _ _) as [[t|e] f] eqn:Hc;
    apply rs_create_temp_view in Hc as Hv; [|by apply leaves_fs, kept_view].
  apply rs_create_temp_ok in Hc as ->. set (h := TempObject_new _ _). set (p := temp_path h).
  assert (Hdrop : forall g, same_but p f g -> leaves k s (set_fs s (drop_temp h g))).
  { intros g Hg. apply leaves_fs; [done|]. trans f; [by apply kept_view|].
    trans g; [by eapply kept_but|]. by apply drop_kept. }
  destruct (fs_create p f) as [[[]|e] f1] eqn:Hcr; pose proof (create_frame p _ _ _ Hcr) as Hf1;
    [|by apply Hdrop].
  assert (Hp : fs_view f1 !! p = Some []) by by rewrite (fs_create_ok _ _ _ Hcr), lookup_insert_eq.
  destruct (write_chunks p (c :: cs) [] "" f1) as [[[hasher expected]|e] f2] eqn:Hw;
    apply (write_chunks_frame _ _ _ _ _ _ _ _ Hp) in Hw; [|apply Hdrop; by trans f1].
  destruct (fs_flush p f2) as [[[]|e] f3] eqn:Hf; apply fs_flush_view in Hf;
    assert (Hf3 : same_but p f f3)
      by (trans f1; [done|]; trans f2; [done|]; by apply same_but_of_view); [|by apply Hdrop].
  destruct (bad_checksum _ _); [by apply Hdrop|]. apply insert_leaves; [done..| |done].
  trans f; [by apply kept_view|]. by eapply kept_but.
Qed.

Lemma remove_leaves k s tid f : pending_wf s ->
  (forall rid k', tid = temp_id_of rid k' -> rs_temp k <> rs_temp k') ->
  kept k (svc_fs s) f ->
  leaves k s (set_fs (set_pending s (delete tid (pending_prepares s))) f).
Proof.
  intros Hwf Hne Hk. split_and!; [done| |].
  - apply mine_delete. intros q (rid & k' & Hn & ->)%Hwf. apply not_eq_sym. by eapply Hne.
  - intros tid' q. simpl. intros [_ Hq]%lookup_delete_Some. by apply Hwf.
Qed.

Lemma commit_leaves k r s : pending_wf s -> ~ touches k 0 (Commit r) ->
  leaves k s (commit_object r s).2.
Proof.
  intros Hwf Ht. unfold commit_object. simpl.
  assert (Hne : forall rid k', cr_temp_id r = temp_id_of rid k' -> rs_temp k <> rs_temp k').
  { intros rid k' Hr Heq. apply Ht. by exists rid, k'. }
  destruct (pending_prepares s !! cr_temp_id r) as [p|] eqn:Hp;
    [|by apply (remove_leaves k s (cr_temp_id r) (svc_fs s))].
  apply Hwf in Hp as (rid & k' & Hr & ->).
  assert (Hk : forall x g, rs_commit_object (handle k') (svc_fs s) = (x, g) -> kept k (svc_fs s) g).
  { intros x g Hc. by eapply rs_commit_frame, Hne. }
  destruct (rs_commit_object _ _) as [[[]|e] g] eqn:Hc; apply remove_leaves; try done; by eapply Hk.
Qed.

Lemma abort_leaves k r s : pending_wf s -> ~ touches k 0 (Abort r) ->
  leaves k s (abort_object r s).2.
Proof.
  intros Hwf Ht. unfold abort_object. simpl.
  assert (Hne : forall rid k', ar_temp_id r = temp_id_of rid k' -> rs_temp k <> rs_temp k').
  { intros rid k' Hr Heq. apply Ht. by exists rid, k'. }
  destruct (pending_prepares s !! ar_temp_id r) as [p|] eqn:Hp;
    [|by apply (remove_leaves k s (ar_temp_id r) (svc_fs s))].
  apply Hwf in Hp as (rid & k' & Hr & ->). apply remove_leaves; [done..|]. by eapply drop_kept, Hne.
Qed.

Lemma read_leaves k r s : pending_wf s -> leaves k s (read_object r s).2.
Proof.
  intros Hwf. unfold read_object.
  destruct (rs_get_object _ _) as [[x|e] f] eqn:Hg; apply rs_get_pure in Hg as <-.
  - destruct (read_loop x [] 0). by apply leaves_fs.
  - by apply leaves_fs.
Qed.

Lemma exists_leaves k r s : pending_wf s -> leaves k s (object_exists r s).2.
Proof.
  intros Hwf. unfold object_exists.
  destruct (rs_object_info _ _) as [[[x y]|e] f] eqn:Hg; apply rs_info_pure in Hg as <-; by apply leaves_fs.
Qed.

Lemma delete_leaves k r s : pending_wf s -> rs_temp k <> rs_temp (dr_key r) ->
  leaves k s (delete_object r s).2.
Proof.
  intros Hwf Hne. unfold delete_object.
  destruct (rs_get_object _ _) as [x f] eqn:Hg; apply rs_get_pure in Hg as <-.
  destruct (rs_delete_object _ _) as [[[]|e] f'] eqn:Hd; (eapply delete_kept in Hd; [|exact Hne]);
    [by apply leaves_fs|]. destruct e; by apply leaves_fs.
Qed.

Lemma drop_all_kept k ps f :
  (forall p, p ∈ ps -> exists k', temp_object p = handle k' /\ rs_temp k <> rs_temp k') ->
  kept k f (drop_all ps f).
Proof.
  unfold drop_all. revert f. induction ps as [|p ps IH]; intros f Hps; simpl; [done|].
  trans (drop_temp (temp_object p) f).
  - destruct (Hps p) as (k' & -> & Hne); [set_solver|]. by apply drop_kept.
  - apply IH. intros q Hq. apply Hps. set_solver.
Qed.

Lemma cleanup_fresh_leaves k now age s : pending_wf s ->
  (forall tid p, mine k s !! tid = Some p -> stale now age p = false) ->
  leaves k s (cleanup_stale_prepares now age s).2.
Proof.
  intros Hwf Hmine.
  assert (Hfresh : forall tid p, pending_prepares s !! tid = Some p ->
    temp_path (temp_object p) = rs_temp k -> stale now age p = false).
  { intros tid p Hp Hk. apply (Hmine tid). by apply map_lookup_filter_Some. }
  split_and!; simpl.
  - apply drop_all_kept. intros p (kp & -> & Hkp)%list_elem_of_fmap.
    destruct kp as [tid p]. apply elem_of_map_to_list, map_lookup_filter_Some in Hkp as [Hp Hst].
    destruct (Hwf tid p Hp) as (rid & k' & _ & Hh). exists k'. split; [done|]. intros Heq. simpl in Hst.
    assert (stale now age p = false); [|congruence]. eapply Hfresh; [done|]. by rewrite Hh.
  - apply map_eq. intros tid. apply option_eq. intros p. unfold mine. simpl.
    rewrite !map_lookup_filter_Some. simpl. naive_solver.
  - intros tid p. simpl. intros [Hp _]%map_lookup_filter_Some. by apply Hwf.
Qed.
Lemma cleanup_leaves k t0 now age s : pending_wf s -> ~ touches k t0 (Cleanup now age) ->
  (forall tid p, mine k s !! tid = Some p -> prepared_at p = t0) ->
  leaves k s (cleanup_stale_prepares now age s).2.
Proof.
  simpl. intros Hwf Ht Hmine. apply cleanup_fresh_leaves; [done|]. intros tid p Hp. unfold stale.
  rewrite (Hmine tid p Hp). by apply N.leb_gt, N.lt_nge.
Qed.

(** A step that does not touch [k] leaves its files, its prepared writes and
    the invariant. *)
Lemma step_leaves k t0 q s : pending_wf s -> ~ touches k t0 q ->
  (forall tid p, mine k s !! tid = Some p -> prepared_at p = t0) -> leaves k s (step q s).
Proof.
  intros Hwf Ht Hmine. destruct q as [r|now r|now [|c cs]|r|r|r|r|r|now age]; simpl in *.
  - by apply write_leaves.
  - by apply prepare_leaves.
  - by split_and!.
  - by apply stream_prepare_leaves.
  - by apply commit_leaves.
  - by apply abort_leaves.
  - by apply read_leaves.
  - by apply exists_leaves.
  - by apply delete_leaves.
  - by eapply cleanup_leaves.
Qed.

Lemma run_leaves k t0 qs s : pending_wf s -> Forall (fun q => ~ touches k t0 q) qs ->
  (forall tid p, mine k s !! tid = Some p -> prepared_at p = t0) -> leaves k s (run qs s).
Proof.
  intros Hwf Hqs. revert s Hwf. induction Hqs as [|q qs Hq _ IH]; intros s Hwf Hm; simpl; [done|].
  destruct (step_leaves k t0 q s) as (Hk & Hmine & Hwf'); [done..|].
  destruct (IH (step q s)) as (Hk' & Hmine' & Hwf''); [done|by rewrite Hmine|].
  split_and!; [by trans (svc_fs (step q s))|unfold run in *; congruence|done].
Qed.

(** ** Prepare, commit, abort *)

(** The write [d] to [k] is prepared under [tid] since [t0], alone on [k]'s
    files, and the object is still the one of [s]. *)
Record prepared (k tid : string) (t0 : N) (d : bytes) s s' : Prop := {
  prep_mine : exists sum, mine k s' = {[ tid := mkPendingPrepare (handle k) sum t0 ]};
  prep_data : fs_view (svc_fs s') !! rs_temp k = Some d;
  prep_object : fs_view (svc_fs s') !! rs_final k = fs_view (svc_fs s) !! rs_final k;
  prep_wf : pending_wf s' }.

Lemma insert_prepared k rid sum t0 d s f : pending_wf s -> mine k s = ∅ ->
  fs_view f = <[rs_temp k := d]> (fs_view (svc_fs s)) ->
  prepared k (temp_id_of rid k) t0 d s
    (insert_pending (temp_id_of rid k) (mkPendingPrepare (handle k) sum t0) (set_fs s f)).
Proof.
  intros Hwf Hm Hf. pose proof (wf_insert s f rid k (mkPendingPrepare (handle k) sum t0) Hwf eq_refl).
  assert (Hold : pending_prepares s !! temp_id_of rid k = None).
  { apply eq_None_not_Some. intros [old Hold]. destruct (Hwf _ _ Hold) as (? & ? & <-%temp_id_inj & Hh).
    assert (Hin : mine k s !! temp_id_of rid k = Some old).
    { apply map_lookup_filter_Some. simpl. by rewrite Hh. }
    by rewrite Hm in Hin. }
  unfold insert_pending in *. simpl in *. rewrite Hold in *. split; [..|done].
  - exists sum. unfold mine in *. simpl. rewrite map_filter_insert_True by done. by rewrite Hm.
  - simpl. by rewrite Hf, lookup_insert_eq.
  - simpl. by rewrite Hf, lookup_insert_ne by apply rs_temp_not_final.
Qed.

Lemma bad_checksum_None expected d : bad_checksum expected d = None <->
  expected = "" \/ sha256_hex d = expected.
Proof.
  unfold bad_checksum, compute_sha256. case_bool_decide; [naive_solver|].
  case_bool_decide; naive_solver.
Qed.

Lemma prepare_prepared now r s resp s' : pending_wf s -> mine (pr_key r) s = ∅ ->
  prepare_object now r s = (resp, s') -> ps_success resp = true ->
  ps_temp_id resp = temp_id_of (pr_request_id r) (pr_key r) /\
  (pr_checksum r = "" \/ sha256_hex (pr_data r) = pr_checksum r) /\
  prepared (pr_key r) (ps_temp_id resp) now (pr_data r) s s'.
Proof.
  intros Hwf Hm. unfold prepare_object. destruct (bad_checksum _ _) eqn:Hsum; [by intros [= <- <-]|].
  destruct (rs_write_temp_object _ _ _) as [[t|e] f] eqn:Hw; intros [= <- <-]; [|done]. intros _.
  apply rs_write_temp_ok in Hw as [-> Hf]. split_and!; [done|by apply bad_checksum_None|].
  by apply insert_prepared.
Qed.

Lemma write_chunks_Ok path cs hasher expected f hasher' expected' f' b :
  fs_view f !! path = Some b ->
  write_chunks path cs hasher expected f = (Ok (hasher', expected'), f') ->
  hasher' = hasher ++ concat (pc_chunk <$> cs) /\
  fs_view f' = <[path := b ++ concat (pc_chunk <$> cs)]> (fs_view f).
Proof.
  revert hasher expected f b. induction cs as [|c cs IH]; intros hasher expected f b Hb; csimpl.
  { intros [= <- <- <-]. by rewrite !app_nil_r, insert_id. }
  assert (Hstep : forall x g, ((if bool_decide (pc_chunk c = []) then mret tt
      else fs_write_all path (pc_chunk c)) : M F io_error unit) f = (Ok x, g) ->
    fs_view g = <[path := b ++ pc_chunk c]> (fs_view f)).
  { intros [] g. case_bool_decide as Hc.
    - intros [= <-]. by rewrite Hc, app_nil_r, insert_id.
    - by apply fs_write_ok. }
  intros [(x & g & Hg%Hstep & Hr)|(e & _ & [=])]%bind_inv.
  apply (IH _ _ _ (b ++ pc_chunk c)) in Hr as [-> Hr]; [|by rewrite Hg, lookup_insert_eq].
  rewrite Hr, Hg, insert_insert_eq, <- !(assoc_L (++)). done.
Qed.

Lemma stream_prepare_prepared now c cs s resp s' : pending_wf s -> mine (pc_key c) s = ∅ ->
  stream_prepare_object now (c :: cs) s = (resp, s') -> ps_success resp = true ->
  ps_temp_id resp = temp_id_of (pc_request_id c) (pc_key c) /\
  prepared (pc_key c) (ps_temp_id resp) now (concat (pc_chunk <$> c :: cs)) s s'.
Proof.
  intros Hwf Hm. unfold stream_prepare_object. case_bool_decide; [by intros [= <- <-]|].
  destruct (rs_create_temp_object _ _) as [[t|e] f] eqn:Hc; [|by intros [= <- <-]].
  pose proof (rs_create_temp_view _ _ _ _ Hc) as Hv. apply rs_create_temp_ok in Hc as ->.
  change (TempObject_new _ _) with (handle (pc_key c)). change (temp_path (handle (pc_key c))) with (rs_temp (pc_key c)).
  destruct (fs_create _ f) as [[[]|e] f1] eqn:Hcr; [|by intros [= <- <-]]. apply fs_create_ok in Hcr.
  destruct (write_chunks _ (c :: cs) _ _ f1) as [[[hasher expected]|e] f2] eqn:Hw; [|by intros [= <- <-]].
  apply (write_chunks_Ok _ _ _ _ _ _ _ _ []) in Hw as [Hh Hw]; [|by rewrite Hcr, lookup_insert_eq].
  destruct (fs_flush _ f2) as [[[]|e] f3] eqn:Hf; [|by intros [= <- <-]]. apply fs_flush_view in Hf.
  destruct (bad_checksum _ _); [by intros [= <- <-]|]. intros [= <- <-] _. split; [done|].
  apply insert_prepared; [done..|]. by rewrite Hf, Hw, Hcr, insert_insert_eq, Hv.
Qed.

Lemma prepared_run k tid t0 d s s' qs : prepared k tid t0 d s s' ->
  Forall (fun q => ~ touches k t0 q) qs -> prepared k tid t0 d s (run qs s').
Proof.
  intros [[sum Hm] Hd Ho Hwf] Hqs.
  destruct (run_leaves k t0 qs s') as ([Ht Hf] & Hm' & Hwf'); [done..| |].
  { rewrite Hm. by intros tid' p [<- <-]%lookup_singleton_Some. }
  split; [exists sum; by rewrite Hm'|congruence..|done].
Qed.

Lemma prepared_lookup k tid t0 d s s' : prepared k tid t0 d s s' ->
  exists sum, pending_prepares s' !! tid = Some (mkPendingPrepare (handle k) sum t0).
Proof.
  intros [[sum Hm] _ _ _]. exists sum.
  assert (Hin : mine k s' !! tid = Some (mkPendingPrepare (handle k) sum t0))
    by by rewrite Hm, lookup_singleton_eq.
  by apply map_lookup_filter_Some in Hin as [? _].
Qed.

Lemma commit_prepared k tid t0 d s s' req resp s'' : prepared k tid t0 d s s' ->
  cr_temp_id req = tid -> commit_object req s' = (resp, s'') ->
  pending_prepares s'' = delete tid (pending_prepares s') /\
  (cs_success resp = true -> fs_view (svc_fs s'') !! rs_final k = Some d /\
     fs_view (svc_fs s'') !! rs_temp k = None) /\
  (cs_success resp = false -> fs_view (svc_fs s'') !! rs_final k = fs_view (svc_fs s) !! rs_final k \/
     fs_view (svc_fs s'') !! rs_final k = Some d).
Proof.
  intros Hp <-. destruct (prepared_lookup _ _ _ _ _ _ Hp) as [sum Hl]. destruct Hp as [_ Hd Ho _].
  unfold commit_object. rewrite Hl. simpl.
  assert (Hpub : forall g, fs_view g = <[rs_final k := d]> (delete (rs_temp k) (fs_view (svc_fs s'))) ->
    fs_view g !! rs_final k = Some d /\ fs_view g !! rs_temp k = None).
  { intros g ->. rewrite lookup_insert_eq, lookup_insert_ne by apply not_eq_sym, rs_temp_not_final.
    by rewrite lookup_delete_eq. }
  destruct (rs_commit_object _ _) as [[[]|e] f] eqn:Hc; intros [= <- <-]; (split; [done|]);
    (split; [intros [=]|intros [=]]).
  - eapply rs_commit_ok in Hc; [|done]. by apply Hpub.
  - apply rs_commit_err in Hc as [Hs|Hc]; [left|right].
    + rewrite <- Ho. eapply same_but_lookup; [done|]. apply not_eq_sym, rs_temp_not_final.
    + by apply Hpub, Hc.
Qed.

Lemma abort_prepared k tid t0 d s s' req resp s'' : prepared k tid t0 d s s' ->
  ar_temp_id req = tid -> abort_object req s' = (resp, s'') ->
  as_success resp = true /\ pending_prepares s'' = delete tid (pending_prepares s') /\
  fs_view (svc_fs s'') !! rs_final k = fs_view (svc_fs s) !! rs_final k /\
  (fs_view (svc_fs s'') !! rs_temp k = None \/
   exists e g, fs_remove_file (rs_temp k) (svc_fs s') = (Err e, g)).
Proof.
  intros Hp <-. destruct (prepared_lookup _ _ _ _ _ _ Hp) as [sum Hl]. destruct Hp as [_ Hd Ho _].
  unfold abort_object. rewrite Hl. simpl. intros [= <- <-]. split_and!; [done..| |]; simpl.
  - rewrite <- Ho. eapply same_but_lookup; [apply (drop_temp_frame (handle k))|].
    apply not_eq_sym, rs_temp_not_final.
  - unfold drop_temp. simpl. rewrite (fs_exists_ok _ _ _ Hd).
    destruct (fs_remove_file (rs_temp k) (svc_fs s')) as [[[]|e] g] eqn:Hr; [left|eauto].
    apply fs_remove_ok in Hr as [_ Hr]. simpl. by rewrite Hr, lookup_delete_eq.
Qed.

(** C11. Two-phase write.  On a service without another prepared write on the
    files of the key, a prepare that reports success keeps the data ready: after
    any requests that do not touch those files (and no cleanup late enough to
    count it stale) the object is still the old one; the commit then removes the
    prepared write, and if it reports success the object file holds exactly the
    prepared bytes and the temporary file is gone; if it reports failure the
    object is the old or the new one, never a mixture. *)
Theorem prepare_commit_publishes now r s resp s1 qs creq cresp s2 :
  pending_wf s -> mine (pr_key r) s = ∅ ->
  prepare_object now r s = (resp, s1) -> ps_success resp = true ->
  Forall (fun q => ~ touches (pr_key r) now q) qs ->
  cr_temp_id creq = ps_temp_id resp -> commit_object creq (run qs s1) = (cresp, s2) ->
  let obj x := fs_view (svc_fs x) !! rs_final (pr_key r) in
  obj (run qs s1) = obj s /\
  pending_prepares s2 !! ps_temp_id resp = None /\
  if cs_success cresp
  then obj s2 = Some (pr_data r) /\ fs_view (svc_fs s2) !! rs_temp (pr_key r) = None
  else obj s2 = obj s \/ obj s2 = Some (pr_data r).
Proof.
  intros Hwf Hm Hp Hok Hqs Hid Hc. apply prepare_prepared in Hp as (_ & _ & Hp); [|done..].
  apply prepared_run with (qs := qs) in Hp; [|done].
  destruct (commit_prepared _ _ _ _ _ _ _ _ _ Hp Hid Hc) as (Hpend & Hs & Hf).
  split_and!; [by eapply prep_object|by rewrite Hpend, lookup_delete_eq|].
  destruct (cs_success cresp); auto.
Qed.

(** The same for a streamed prepare: what the commit publishes is the
    concatenation of the chunks in the order they came. *)
Theorem stream_prepare_commit_publishes now c cs s resp s1 qs creq cresp s2 :
  pending_wf s -> mine (pc_key c) s = ∅ ->
  stream_prepare_object now (c :: cs) s = (resp, s1) -> ps_success resp = true ->
  Forall (fun q => ~ touches (pc_key c) now q) qs ->
  cr_temp_id creq = ps_temp_id resp -> commit_object creq (run qs s1) = (cresp, s2) ->
  let obj x := fs_view (svc_fs x) !! rs_final (pc_key c) in
  obj (run qs s1) = obj s /\
  pending_prepares s2 !! ps_temp_id resp = None /\
  if cs_success cresp
  then obj s2 = Some (concat (pc_chunk <$> c :: cs)) /\ fs_view (svc_fs s2) !! rs_temp (pc_key c) = None
  else obj s2 = obj s \/ obj s2 = Some (concat (pc_chunk <$> c :: cs)).
Proof.
  intros Hwf Hm Hp Hok Hqs Hid Hc. apply stream_prepare_prepared in Hp as (_ & Hp); [|done..].
  apply prepared_run with (qs := qs) in Hp; [|done].
  destruct (commit_prepared _ _ _ _ _ _ _ _ _ Hp Hid Hc) as (Hpend & Hs & Hf).
  split_and!; [by eapply prep_object|by rewrite Hpend, lookup_delete_eq|].
  destruct (cs_success cresp); auto.
Qed.

(** Rollback.  An abort of a prepared write always reports success, forgets
    it, leaves the object as it was before the prepare and removes the temporary
    file, unless the operating system refuses the removal; repeated, it reports
    success again and changes nothing. *)
Theorem prepare_abort_restores now r s resp s1 qs areq aresp s2 :
  pending_wf s -> mine (pr_key r) s = ∅ ->
  prepare_object now r s = (resp, s1) -> ps_success resp = true ->
  Forall (fun q => ~ touches (pr_key r) now q) qs ->
  ar_temp_id areq = ps_temp_id resp -> abort_object areq (run qs s1) = (aresp, s2) ->
  as_success aresp = true /\ pending_prepares s2 !! ps_temp_id resp = None /\
  fs_view (svc_fs s2) !! rs_final (pr_key r) = fs_view (svc_fs s) !! rs_final (pr_key r) /\
  (fs_view (svc_fs s2) !! rs_temp (pr_key r) = None \/
   exists e g, fs_remove_file (rs_temp (pr_key r)) (svc_fs (run qs s1)) = (Err e, g)) /\
  abort_object areq s2 = (mkAbortObjectResponse true "", s2).
Proof.
  intros Hwf Hm Hp Hok Hqs Hid Ha. apply prepare_prepared in Hp as (_ & _ & Hp); [|done..].
  apply prepared_run with (qs := qs) in Hp; [|done].
  destruct (abort_prepared _ _ _ _ _ _ _ _ _ Hp Hid Ha) as (Hs & Hpend & Ho & Ht).
  assert (Hnone : pending_prepares s2 !! ar_temp_id areq = None) by by rewrite Hpend, Hid, lookup_delete_eq.
  split_and!; [done|by rewrite <- Hid|done..|]. unfold abort_object. rewrite Hnone.
  f_equal. destruct s2 as [f2 st2 m2]. unfold set_pending. simpl in *. by rewrite delete_id.
Qed.

Lemma step_wf q s : pending_wf s -> pending_wf (step q s).
Proof.
  intros Hwf.
  assert (Hdel : forall tid f, pending_wf (set_fs (set_pending s (delete tid (pending_prepares s))) f)).
  { intros tid f tid' p. simpl. intros [_ Hp]%lookup_delete_Some. by apply Hwf. }
  destruct q as [r|now r|now [|c cs]|r|r|r|r|r|now age]; simpl.
  - unfold write_object. repeat case_match; done.
  - unfold prepare_object. destruct (bad_checksum _ _); [done|].
    destruct (rs_write_temp_object _ _ _) as [[t|e] f] eqn:Hw; [|done].
    apply rs_write_temp_ok in Hw as [-> _]. by apply wf_insert.
  - done.
  - unfold stream_prepare_object. case_bool_decide; [done|].
    destruct (rs_create_temp_object _ _) as [[t|e] f] eqn:Hc; [|done]. apply rs_create_temp_ok in Hc as ->.
    repeat case_match; try done; by apply wf_insert.
  - unfold commit_object. destruct (pending_prepares s !! _); [|by apply (Hdel _ (svc_fs s))].
    repeat case_match; apply Hdel.
  - unfold abort_object. destruct (pending_prepares s !! _); [apply Hdel|by apply (Hdel _ (svc_fs s))].
  - unfold read_object. repeat case_match; done.
  - unfold object_exists. repeat case_match; done.
  - unfold delete_object. repeat case_match; done.
  - intros tid p. simpl. intros [Hp _]%map_lookup_filter_Some. by apply Hwf.
Qed.

Lemma run_wf qs s : pending_wf s -> pending_wf (run qs s).
Proof. revert s. induction qs as [|q qs IH]; intros s Hwf; [done|]. by apply IH, step_wf. Qed.

(** Concurrent prepares of one key share its temporary file: if two
    requests prepare the same key before the first commits, the commit of the
    first publishes the bytes of the second. *)
Theorem concurrent_prepares_collide now1 r1 now2 r2 s resp1 s1 resp2 s2 creq cresp s3 :
  pending_wf s -> mine (pr_key r1) s = ∅ ->
  pr_key r2 = pr_key r1 -> pr_request_id r2 <> pr_request_id r1 ->
  prepare_object now1 r1 s = (resp1, s1) -> ps_success resp1 = true ->
  prepare_object now2 r2 s1 = (resp2, s2) -> ps_success resp2 = true ->
  cr_temp_id creq = ps_temp_id resp1 -> commit_object creq s2 = (cresp, s3) ->
  cs_success cresp = true ->
  fs_view (svc_fs s3) !! rs_final (pr_key r1) = Some (pr_data r2).
Proof.
  intros Hwf Hm Hkey Hrid Hp1 Hok1 Hp2 Hok2 Hid Hc Hok.
  apply prepare_prepared in Hp1 as (Hid1 & _ & Hp1); [|done..].
  destruct (prepared_lookup _ _ _ _ _ _ Hp1) as [sum Hl]. destruct Hp1 as [[sum1 Hm1] _ _ Hwf1].
  assert (Hne : temp_id_of (pr_request_id r2) (pr_key r1) <> ps_temp_id resp1).
  { rewrite Hid1. unfold temp_id_of. intros [Heq _]%(sep_app_inj ":"%char); [|by apply show_no_char..].
    apply Hrid. by apply show_inj. }
  revert Hp2. unfold prepare_object. destruct (bad_checksum _ _); [by intros [= <- <-]|]. rewrite Hkey.
  destruct (rs_write_temp_object _ _ _) as [[t|e] f] eqn:Hw; intros [= <- <-]; [|done].
  apply rs_write_temp_ok in Hw as [-> Hf]. revert Hc.
  assert (Hold : pending_prepares s1 !! temp_id_of (pr_request_id r2) (pr_key r1) = None).
  { apply eq_None_not_Some. intros [old Hold]. destruct (Hwf1 _ _ Hold) as (? & ? & <-%temp_id_inj & Hh).
    assert (Hin : mine (pr_key r1) s1 !! temp_id_of (pr_request_id r2) (pr_key r1) = Some old).
    { apply map_lookup_filter_Some. simpl. by rewrite Hh. }
    rewrite Hm1 in Hin. by apply lookup_singleton_Some in Hin as [? _]. }
  unfold insert_pending, commit_object. simpl. rewrite Hold, Hid. simpl.
  rewrite lookup_insert_ne, Hl by done. simpl.
  destruct (rs_commit_object _ _) as [[[]|e] g] eqn:Hcm; intros [= <- <-]; [|done].
  apply (rs_commit_ok _ _ _ (pr_data r2)) in Hcm; [|by rewrite Hf, lookup_insert_eq].
  simpl. by rewrite Hcm, lookup_insert_eq.
Qed.

(** A prepare that is delivered twice (the client retries it after a lost
    answer) destroys the data it prepared: the second delivery replaces the entry
    of the first, whose destructor removes the temporary file they share. *)
Theorem retried_prepare_loses_data now1 now2 r s resp1 s1 resp2 s2 :
  pending_wf s -> mine (pr_key r) s = ∅ ->
  prepare_object now1 r s = (resp1, s1) -> ps_success resp1 = true ->
  prepare_object now2 r s1 = (resp2, s2) -> ps_success resp2 = true ->
  ps_temp_id resp2 = ps_temp_id resp1 /\
  is_Some (pending_prepares s2 !! ps_temp_id resp2) /\
  (fs_view (svc_fs s2) !! rs_temp (pr_key r) = None \/
   exists e f g, fs_remove_file (rs_temp (pr_key r)) f = (Err e, g)).
Proof.
  intros Hwf Hm Hp1 Hok1 Hp2 Hok2. apply prepare_prepared in Hp1 as (Hid1 & _ & Hp1); [|done..].
  destruct (prepared_lookup _ _ _ _ _ _ Hp1) as [sum Hl].
  revert Hp2. unfold prepare_object. destruct (bad_checksum _ _); [by intros [= <- <-]|].
  destruct (rs_write_temp_object _ _ _) as [[t|e] f] eqn:Hw; intros [= <- <-]; [|done].
  apply rs_write_temp_ok in Hw as [-> Hf]. simpl. rewrite Hid1 in Hl. split; [done|].
  unfold insert_pending. simpl. rewrite Hl. simpl. split; [rewrite lookup_insert_eq; eauto|].
  unfold drop_temp. simpl.
  rewrite (fs_exists_ok (rs_temp (pr_key r)) f (pr_data r)) by by rewrite Hf, lookup_insert_eq. simpl.
  destruct (fs_remove_file (rs_temp (pr_key r)) f) as [[[]|e] g] eqn:Hr; [left|by eauto].
  apply fs_remove_ok in Hr as [_ Hr]. simpl. by rewrite Hr, lookup_delete_eq.
Qed.

(** In every state a service reaches from its start, every prepared write
    is filed under the identifier its request was given and owns exactly the two
    files of its key. *)
Theorem reachable_pending_wf qs f now : pending_wf (run qs (service_new f now)).
Proof. apply run_wf. intros tid p. simpl. by rewrite lookup_empty. Qed.

(** ** Reading *)

(** The stream [cs] carries [b]: its chunks make up [b], the first one announces
    the length, exactly the last one is marked. *)
Definition well_framed (b : bytes) (cs : list ReadObjectResponse) : Prop :=
  concat (chunk <$> cs) = b /\
  (forall c, cs !! 0 = Some c -> total_size c = N.of_nat (length b)) /\
  (forall i c, cs !! i = Some c -> is_last c = bool_decide (S i = length cs)).

Definition data_chunk (b : bytes) : ReadObjectResponse := mkReadObjectResponse b false 0.

Lemma read_loop_pieces ps acc total r : read_loop ((Ok <$> ps) ++ r) (data_chunk <$> acc) total =
  read_loop r (data_chunk <$> acc ++ ps) (total + N.of_nat (length (concat ps)))%N.
Proof.
  revert acc total. induction ps as [|b ps IH]; intros acc total; csimpl.
  - by rewrite app_nil_r, N.add_0_r.
  - change [mkReadObjectResponse b false 0] with (data_chunk <$> [b]).
    rewrite <- fmap_app, IH. rewrite <- (assoc_L (++)). f_equal. rewrite length_app. lia.
Qed.

(** The two patches applied to the collected chunks. *)
Definition frame_chunks (cs : list ReadObjectResponse) (n : N) : list ReadObjectResponse :=
  let cs := alter (set_total n) 0 cs in alter set_last (pred (length cs)) cs.

Lemma frame_chunks_ok ps b : concat ps = b ->
  well_framed b (frame_chunks (data_chunk <$> ps) (N.of_nat (length b))).
Proof.
  intros <-. unfold frame_chunks. set (n := N.of_nat (length (concat ps))). split_and!.
  - f_equal. apply list_eq. intros i. rewrite list_lookup_fmap.
    destruct (decide (i = pred (length (alter (set_total n) 0 (data_chunk <$> ps))))) as [->|Hi].
    + rewrite list_lookup_alter_eq, <- option_fmap_compose.
      destruct (decide (pred (length (alter (set_total n) 0 (data_chunk <$> ps))) = 0)) as [Hz|Hz].
      * rewrite Hz, list_lookup_alter_eq, list_lookup_fmap. by destruct (ps !! 0).
      * rewrite list_lookup_alter_ne, list_lookup_fmap by done. by destruct (ps !! _).
    + rewrite list_lookup_alter_ne by done.
      destruct (decide (i = 0)) as [->|Hz].
      * rewrite list_lookup_alter_eq, list_lookup_fmap. by destruct (ps !! 0).
      * rewrite list_lookup_alter_ne, list_lookup_fmap by done. by destruct (ps !! i).
  - intros c. destruct (decide (0 = pred (length (alter (set_total n) 0 (data_chunk <$> ps))))) as [<-|Hi].
    + rewrite list_lookup_alter_eq, list_lookup_alter_eq, list_lookup_fmap.
      destruct (ps !! 0); simpl; [by intros [= <-]|done].
    + rewrite list_lookup_alter_ne, list_lookup_alter_eq, list_lookup_fmap by done.
      destruct (ps !! 0); simpl; [by intros [= <-]|done].
  - intros i c. rewrite !length_alter, length_fmap.
    destruct (decide (i = pred (length ps))) as [->|Hi].
    + rewrite list_lookup_alter_eq. destruct ps as [|p ps]; [done|].
      rewrite bool_decide_eq_true_2 by done. by intros (c' & _ & ->)%fmap_Some.
    + rewrite list_lookup_alter_ne by done. intros Hc.
      assert (Hlen : i < length ps).
      { apply lookup_lt_Some in Hc. by rewrite length_alter, length_fmap in Hc. }
      rewrite bool_decide_eq_false_2 by lia. revert Hc. destruct (decide (i = 0)) as [->|Hz].
      * rewrite list_lookup_alter_eq, list_lookup_fmap. destruct (ps !! 0); simpl; [by intros [= <-]|done].
      * rewrite list_lookup_alter_ne, list_lookup_fmap by done.
        destruct (ps !! i); simpl; [by intros [= <-]|done].
Qed.

Lemma read_object_Ok req s cs s' : read_object req s = (Ok cs, s') ->
  exists r f, rs_get_object (rr_key req) (svc_fs s) = (Ok r, f) /\ s' = set_fs s f /\
    cs = frame_chunks (read_loop r [] 0).1 (read_loop r [] 0).2.
Proof.
  unfold read_object. destruct (rs_get_object _ _) as [[r|e] f]; [|done]. exists r, f.
  destruct (read_loop r [] 0). by simplify_eq.
Qed.

(** [read_object].  It changes nothing.  When the file reads to its end the
    stream carries exactly the object's bytes: at least one chunk, the length in
    the first, the last mark on the last only.  When a read fails half way the
    stream carries a beginning of the object, framed in the same way, as if it
    were complete. *)
Theorem read_object_exact req s cs s' : read_object req s = (Ok cs, s') ->
  s' = s /\
  exists r obj, rs_get_object (rr_key req) (svc_fs s) = (Ok r, svc_fs s) /\
    fs_view (svc_fs s) !! rs_final (rr_key req) = Some obj /\
    match read_to_end r with
    | Ok b => b = obj /\ cs <> [] /\ well_framed obj cs
    | Err _ => exists pre rest, obj = pre ++ rest /\ well_framed pre cs
    end.
Proof.
  intros (r & f & Hg & -> & ->)%read_object_Ok. pose proof (rs_get_pure _ _ _ _ Hg) as <-.
  split; [by destruct s|]. destruct (rs_get_ok _ _ _ _ Hg) as (obj & Ho & ps & _ & Hr).
  exists r, obj. split_and!; [done..|].
  assert (Hl : forall r', read_loop ((Ok <$> ps) ++ r') [] 0 =
    read_loop r' (data_chunk <$> ps) (N.of_nat (length (concat ps))))
    by (intros r'; apply (read_loop_pieces ps [])).
  destruct Hr as [[-> <-]|(e & rest & -> & <-)].
  - rewrite read_to_end_pieces. specialize (Hl []). rewrite app_nil_r in Hl. rewrite Hl. simpl.
    split; [done|]. destruct ps as [|p ps]; [|split; [|by apply (frame_chunks_ok (p :: ps))]].
    2: { unfold frame_chunks. intros Hn%(f_equal length). rewrite !length_alter in Hn. done. }
    split; [done|]. split_and!; [done|by intros c [= <-]|].
    intros [|i] c; [by intros [= <-]|done].
  - rewrite read_to_end_cut, Hl. exists (concat ps), rest. split; [done|]. by apply frame_chunks_ok.
Qed.
End theory.

(** ** Concrete runs *)
Module ReplWit.
Import MemFs ToySha.
#[local] Existing Instance object_storage_impl.
Definition st : ObjectStorage := mkObjectStorage (mkStorageLayout ["data"]) "data".
#[local] Instance impl : ReplicationStorage MemFs.t := object_storage_impl st.
#[local] Instance impl_laws : ReplicationStorageLaws MemFs.t := object_storage_laws st.

Definition data1 : bytes := String.list_byte_of_string "first".
Definition data2 : bytes := String.list_byte_of_string "second".
Definition s0 : ReplicationService (F := MemFs.t) := service_new MemFs.empty 0.
Definition req1 : PrepareObjectRequest := mkPrepareObjectRequest "b/k" data1 "" 7.
Definition req2 : PrepareObjectRequest := mkPrepareObjectRequest "b/k" data2 "" 8.
Definition chunks1 : list PrepareChunkRequest :=
  [mkPrepareChunkRequest "" 0 data2 false ""; mkPrepareChunkRequest "" 0 [] true ""].
Definition first_chunk : PrepareChunkRequest := mkPrepareChunkRequest "b/k" 7 data1 false "".
(** Requests for other keys in between. *)
Definition others : list Request :=
  [Prepare 6 (mkPrepareObjectRequest "b/other" data2 "" 9); Write (mkWriteObjectRequest "b/w" data1 "" 1);
   Commit (mkCommitObjectRequest "b/other" "9:b/other" 9); Cleanup 10 1].
Definition p1 := prepare_object 5 req1 s0.
Definition sp1 := stream_prepare_object 5 (first_chunk :: chunks1) s0.
Definition creq : CommitObjectRequest := mkCommitObjectRequest "b/k" "7:b/k" 7.
Definition areq : AbortObjectRequest := mkAbortObjectRequest "b/k" "7:b/k" 7.

(** A run is the pair of its answer, which is evaluated, and the state it
    leaves. *)
Ltac solve_run :=
  first [ discriminate | apply run_eq; vm_compute; reflexivity | reflexivity ].
Definition prep_ok (tid : string) : PrepareObjectResponse := mkPrepareObjectResponse true "" tid.
Definition commit_ok : CommitObjectResponse := mkCommitObjectResponse true "".

Lemma others_apart : Forall (fun q => ~ touches "b/k" 5 q) others.
Proof.
  assert (Hne : forall k', bool_decide (rs_temp "b/k" = rs_temp k') = false -> rs_temp "b/k" <> rs_temp k').
  { intros k' Hk'. by apply bool_decide_eq_false in Hk'. }
  apply Forall_cons_2; [simpl; apply Hne; vm_compute; reflexivity|].
  apply Forall_cons_2; [simpl; apply Hne; vm_compute; reflexivity|].
  apply Forall_cons_2; [|apply Forall_cons_2; [|apply Forall_nil_2]].
  - intros (rid & k' & Hid & Heq). apply (temp_id_inj 9 "b/other" rid k') in Hid as <-.
    revert Heq. apply Hne. vm_compute. reflexivity.
  - simpl. apply N.lt_nge. vm_compute. reflexivity.
Qed.

Lemma s0_wf : pending_wf s0.
Proof. intros tid p. simpl. by rewrite lookup_empty. Qed.

Lemma prepare_commit_publishes_witness :
  fs_view (svc_fs (commit_object creq (run others p1.2)).2) !! rs_final "b/k" = Some data1.
Proof.
  refine (proj1 (proj2 (proj2 (prepare_commit_publishes 5 req1 s0 (prep_ok "7:b/k") p1.2 others creq
    commit_ok (commit_object creq (run others p1.2)).2 s0_wf _ _ _ others_apart _ _)))); solve_run.
Defined.

Lemma stream_prepare_commit_publishes_witness :
  fs_view (svc_fs (commit_object creq (run others sp1.2)).2) !! rs_final "b/k" = Some (data1 ++ data2).
Proof.
  refine (proj1 (proj2 (proj2 (stream_prepare_commit_publishes 5 first_chunk chunks1 s0 (prep_ok "7:b/k")
    sp1.2 others creq commit_ok (commit_object creq (run others sp1.2)).2 s0_wf _ _ _ others_apart _ _))));
    solve_run.
Defined.

Lemma prepare_abort_restores_witness :
  abort_object areq (abort_object areq (run others p1.2)).2
  = (mkAbortObjectResponse true "", (abort_object areq (run others p1.2)).2).
Proof.
  refine (proj2 (proj2 (proj2 (proj2 (prepare_abort_restores 5 req1 s0 (prep_ok "7:b/k") p1.2 others areq
    (mkAbortObjectResponse true "") (abort_object areq (run others p1.2)).2 s0_wf _ _ _ others_apart _ _)))));
    solve_run.
Defined.

Definition p2 := prepare_object 6 req2 p1.2.
Lemma concurrent_prepares_collide_witness :
  fs_view (svc_fs (commit_object creq p2.2).2) !! rs_final "b/k" = Some data2.
Proof.
  refine (concurrent_prepares_collide 5 req1 6 req2 s0 (prep_ok "7:b/k") p1.2 (prep_ok "8:b/k") p2.2 creq
    commit_ok (commit_object creq p2.2).2 s0_wf _ eq_refl _ _ _ _ _ _ _ _); solve_run.
Defined.

Definition p1' := prepare_object 6 req1 p1.2.
(** After the retry the commit fails and the object does not exist. *)
Lemma retried_prepare_loses_data_witness :
  is_Some (pending_prepares p1'.2 !! "7:b/k") /\
  cs_success (commit_object creq p1'.2).1 = false /\
  fs_view (svc_fs (commit_object creq p1'.2).2) !! rs_final "b/k" = None.
Proof.
  split; [|split; vm_compute; reflexivity].
  refine (proj1 (proj2 (retried_prepare_loses_data 5 6 req1 s0 (prep_ok "7:b/k") p1.2
    (prep_ok "7:b/k") p1'.2 s0_wf _ _ _ _ _))); solve_run.
Defined.

Definition s1 := (write_object (mkWriteObjectRequest "b/k" data1 "" 1) s0).2.
Definition rreq : ReadObjectRequest := mkReadObjectRequest "b/k" 0 0.
Definition read_chunks : list ReadObjectResponse := [mkReadObjectResponse data1 true 5].
Lemma read_object_exact_witness : s1 = s1 /\
  exists r obj, rs_get_object "b/k" (svc_fs s1) = (Ok r, svc_fs s1) /\
    fs_view (svc_fs s1) !! rs_final "b/k" = Some obj /\
    match read_to_end r with
    | Ok b => b = obj /\ read_chunks <> [] /\ well_framed obj read_chunks
    | Err _ => exists pre rest, obj = pre ++ rest /\ well_framed pre read_chunks
    end.
Proof.
  split; [reflexivity|].
  refine (proj2 (read_object_exact rreq s1 read_chunks (read_object rreq s1).2 _)). solve_run.
Defined.

(** A read that fails at once yields an empty stream for a non-empty object. *)
Example read_error_looks_empty :
  let f := svc_fs s1 in
  let s := set_fs s1 (MemFs.mk (MemFs.files f) (MemFs.dirs f) ∅ ∅ {[ rs_final "b/k" := 0 ]}) in
  (read_object rreq s).1 = Ok [] /\ fs_view (svc_fs s) !! rs_final "b/k" = Some data1.
Proof. split; vm_compute; reflexivity. Qed.
End ReplWit.
