(* ===== verification/ReplicationClient.v ===== *)
(** * save-storage: the replication client

    Models [crates/save-storage/src/replication/client.rs] and
    [crates/save-common/src/tls.rs].  tonic's channels are the class
    [ReplTransport], whose calls act on the state [Net] of the network and the
    nodes behind it; a client with its cached channel is part of the state its
    calls run on.  A call may panic (in the computation of a retry delay), so
    calls are in the monad [PM].  [sample] is the random generator of
    [retry.rs]. *)
From Stdlib Require Import Strings.Byte Floats.SpecFloat.
From S2P Require Import Prelude Common Config Retry Kv Fs ObjectStorage ReplicationService.
From stdpp Require Import base gmap strings numbers list.
Import proto.

(** ** [tls.rs]: [read_file] is [std::fs::read] *)
Record ClientTlsConfig : Type := mkClientTlsConfig { identity : bytes * bytes; ca_certificate : bytes }.
Record ServerTlsConfig : Type := mkServerTlsConfig { s_identity : bytes * bytes; client_ca_root : bytes }.

Section tls.
Context (read_file : string -> result io_error bytes).

Definition load_file (path : string) : result Error.t bytes :=
  map_err (fun e => Error.config ("Failed to read TLS file '" +:+ path +:+ "': " +:+ io_msg e))
    (read_file path).

Definition load_server_tls_config (config : TlsConfig) : result Error.t ServerTlsConfig :=
  cert ← load_file (cert_path config);
  key ← load_file (key_path config);
  ca ← load_file (ca_cert_path config);
  Ok (mkServerTlsConfig (cert, key) ca).

Definition load_client_tls_config (config : TlsConfig) : result Error.t ClientTlsConfig :=
  cert ← load_file (cert_path config);
  key ← load_file (key_path config);
  ca ← load_file (ca_cert_path config);
  Ok (mkClientTlsConfig (cert, key) ca).
End tls.

(** ** tonic

    An error is its message.  [rt_connect] is [Channel::from_shared], the
    endpoint options and [connect]; the others are [ready] and one call per
    method.  A streamed answer is the sequence [Streaming::message] gives. *)
Class ReplTransport (Net Ch : Type) : Type := {
  rt_connect : string -> N -> N -> option ClientTlsConfig -> M Net string Ch;
  rt_ready : Ch -> M Net string unit;
  rt_prepare : Ch -> PrepareObjectRequest -> M Net string PrepareObjectResponse;
  rt_commit : Ch -> CommitObjectRequest -> M Net string CommitObjectResponse;
  rt_abort : Ch -> AbortObjectRequest -> M Net string AbortObjectResponse;
  rt_delete : Ch -> DeleteObjectRequest -> M Net string DeleteObjectResponse;
  rt_exists : Ch -> ObjectExistsRequest -> M Net string ObjectExistsResponse;
  rt_health : Ch -> M Net string HealthCheckResponse;
  rt_stream_prepare : Ch -> list PrepareChunkRequest -> M Net string PrepareObjectResponse;
  rt_read : Ch -> ReadObjectRequest -> M Net string (list (result string ReadObjectResponse));
}.

Definition DEFAULT_CONNECT_TIMEOUT : N := 5 * 1000000000.
Definition DEFAULT_RPC_TIMEOUT : N := 30 * 1000000000.

Record ReplicationClient (Ch : Type) : Type := mkClient {
  node_id : N; addr : string; connect_timeout : N; rpc_timeout : N;
  retry_config : RetryConfig; tls_config : option ClientTlsConfig; channel : option Ch }.
Arguments mkClient {Ch}. Arguments node_id {Ch}. Arguments addr {Ch}. Arguments connect_timeout {Ch}.
Arguments rpc_timeout {Ch}. Arguments retry_config {Ch}. Arguments tls_config {Ch}. Arguments channel {Ch}.

Definition client_with_timeouts {Ch} (id : N) (addr : string) (connect rpc : N) : ReplicationClient Ch :=
  mkClient id addr connect rpc RetryConfig_default None None.
Definition client_new {Ch} (id : N) (addr : string) : ReplicationClient Ch :=
  client_with_timeouts id addr DEFAULT_CONNECT_TIMEOUT DEFAULT_RPC_TIMEOUT.
Definition with_retry_config {Ch} (c : ReplicationClient Ch) (rc : RetryConfig) : ReplicationClient Ch :=
  mkClient (node_id c) (addr c) (connect_timeout c) (rpc_timeout c) rc (tls_config c) (channel c).
Definition with_tls {Ch} (read_file : string -> result io_error bytes) (c : ReplicationClient Ch)
    (config : TlsConfig) : result StorageError.t (ReplicationClient Ch) :=
  tls ← map_err (fun e => StorageError.Tls (Error.to_string e)) (load_client_tls_config read_file config);
  Ok (mkClient (node_id c) (addr c) (connect_timeout c) (rpc_timeout c) (retry_config c) (Some tls) (channel c)).
Definition set_channel {Ch} (c : ReplicationClient Ch) (ch : option Ch) : ReplicationClient Ch :=
  mkClient (node_id c) (addr c) (connect_timeout c) (rpc_timeout c) (retry_config c) (tls_config c) ch.

(** [StorageError::Io(std::io::Error::other(e))]. *)
Definition io_err (msg : string) : StorageError.t := StorageError.Io (io_other msg).

Definition is_transport_error (e : StorageError.t) : bool :=
  match e with
  | StorageError.Io io_err =>
      let msg := to_lowercase (io_msg io_err) in
      contains_str "connection" msg || contains_str "unavailable" msg || contains_str "transport" msg
      || contains_str "timeout" msg || contains_str "reset" msg || contains_str "broken pipe" msg
  | _ => false
  end.

Section client.
Context {Net Ch : Type} `{ReplTransport Net Ch} (sample : spec_float -> spec_float -> spec_float).
Abbreviation W := (ReplicationClient Ch * Net)%type.
Abbreviation Call := (PM W StorageError.t).

Definition on_net {A} (m : M Net string A) : M W StorageError.t A :=
  fun '(c, n) => let '(r, n') := m n in (map_err io_err r, (c, n')).

Definition reset_connection : M W StorageError.t unit :=
  fun '(c, n) => (Ok tt, (set_channel c None, n)).

Definition do_connect : M W StorageError.t Ch :=
  fun '(c, n) => on_net (rt_connect (addr c) (connect_timeout c) (rpc_timeout c) (tls_config c)) (c, n).

Definition get_channel : Call Ch := fun w =>
  match channel w.1 with
  | Some ch => (Some (Ok ch), w)
  | None =>
      match retry_with_backoff sample (retry_config w.1) (safe do_connect) is_transport_error w with
      | (Some (Ok ch), (c, n)) => (Some (Ok ch), (set_channel c (Some ch), n))
      | r => r
      end
  end.

Definition connect_with_timeouts (id : N) (addr : string) (connect rpc : N) (n : Net)
  : option (result StorageError.t Ch) * W :=
  get_channel (client_with_timeouts id addr connect rpc, n).

Definition do_call_unary {Req Resp} (send : Ch -> Req -> M Net string Resp) (req : Req) : Call Resp :=
  ch ← get_channel;
  safe (on_net (rt_ready ch)) ;;
  safe (on_net (send ch req)).

(** One run of a call: a transport error drops the cached channel. *)
Definition attempt {Req Resp} (send : Ch -> Req -> M Net string Resp) (req : Req) : Call Resp := fun w =>
  match do_call_unary send req w with
  | (Some (Err e), w') =>
      (Some (Err e), if is_transport_error e then (reset_connection w').2 else w')
  | r => r
  end.

Definition call_unary {Req Resp} (send : Ch -> Req -> M Net string Resp) (req : Req) : Call Resp :=
  fun w => retry_with_backoff sample (retry_config w.1) (attempt send req) is_transport_error w.

(** The answer of a call that carries [success] and [error_message]. *)
Definition answered {A} (success : bool) (a : A) (msg : string) : Call A :=
  safe (lift (if success then Ok a else Err (io_err msg))).

Definition prepare_object (key : string) (data : bytes) (checksum : string) (request_id : N) : Call string :=
  resp ← call_unary rt_prepare (mkPrepareObjectRequest key data checksum request_id);
  answered (ps_success resp) (ps_temp_id resp) (ps_error_message resp).

Definition commit_object (key temp_id : string) (request_id : N) : Call unit :=
  resp ← call_unary rt_commit (mkCommitObjectRequest key temp_id request_id);
  answered (cs_success resp) tt (cs_error_message resp).

Definition abort_object (key temp_id : string) (request_id : N) : Call unit :=
  resp ← call_unary rt_abort (mkAbortObjectRequest key temp_id request_id);
  answered (as_success resp) tt (as_error_message resp).

Definition delete_object (key : string) (request_id : N) : Call bool :=
  resp ← call_unary rt_delete (mkDeleteObjectRequest key request_id);
  answered (ds_success resp) (was_present resp) (ds_error_message resp).

Definition object_exists (key : string) : Call (bool * N * string) :=
  resp ← call_unary rt_exists (mkObjectExistsRequest key);
  mret (exists_ resp, es_size resp, es_checksum resp).

Definition health_check : Call HealthCheckResponse := call_unary (fun ch (_ : unit) => rt_health ch) tt.

(** The messages the sending task puts on the stream: one per piece read, the
    key and the request in the first, and the closing one with the checksum,
    also after a read error; none when the file does not open. *)
Fixpoint piece_chunks (is_first : bool) (key : string) (request_id : N) (r : Reader)
  : list PrepareChunkRequest :=
  match r with
  | [] | Err _ :: _ => []
  | Ok b :: r' =>
      mkPrepareChunkRequest (if is_first then key else "") (if is_first then request_id else 0%N) b false ""
      :: piece_chunks false key request_id r'
  end.
Definition stream_chunks (key : string) (request_id : N) (checksum : string)
    (file : result io_error Reader) : list PrepareChunkRequest :=
  match file with
  | Err _ => []
  | Ok r => piece_chunks true key request_id r ++ [mkPrepareChunkRequest "" 0 [] true checksum]
  end.

(** [file] is what opening the local file gives when the task runs. *)
Definition stream_prepare_object (key : string) (request_id : N) (file : result io_error Reader)
    (checksum : string) : Call string :=
  ch ← get_channel;
  safe (on_net (rt_ready ch)) ;;
  resp ← safe (on_net (rt_stream_prepare ch (stream_chunks key request_id checksum file)));
  answered (ps_success resp) (ps_temp_id resp) (ps_error_message resp).

(** The task behind a [StreamingReader]: what it puts on its channel. *)
Fixpoint streaming_items (msgs : list (result string ReadObjectResponse)) : Reader :=
  match msgs with
  | [] => []
  | Err e :: _ => [Err (io_other e)]
  | Ok c :: rest =>
      (if bool_decide (chunk c = []) then [] else [Ok (chunk c)])
      ++ (if proto.is_last c then [] else streaming_items rest)
  end.

Definition read_object_stream (key : string) : Call Reader :=
  ch ← get_channel;
  safe (on_net (rt_ready ch)) ;;
  msgs ← safe (on_net (rt_read ch (mkReadObjectRequest key 0 0)));
  mret (streaming_items msgs).
End client.

(** [poll_read] of a [StreamingReader] with room for [remaining] bytes: the
    state is the buffered rest of a message and the messages to come. *)
Definition poll_read (remaining : nat) (st : bytes * Reader) : result io_error bytes * (bytes * Reader) :=
  let '(buffer, rx) := st in
  if negb (bool_decide (buffer = [])) then (Ok (take remaining buffer), (drop remaining buffer, rx))
  else match rx with
       | Ok data :: rx' => (Ok (take remaining data), (drop remaining data, rx'))
       | Err e :: rx' => (Err e, ([], rx'))
       | [] => (Ok [], ([], []))
       end.

(** ** Streams end to end *)
Lemma piece_chunks_data first key rid r cs : r = Ok <$> cs \/ (exists e, r = (Ok <$> cs) ++ [Err e]) ->
  pc_chunk <$> piece_chunks first key rid r = cs /\
  Forall (fun c => pc_is_last c = false) (piece_chunks first key rid r).
Proof.
  revert first r. induction cs as [|b cs IH]; intros first r Hr.
  - destruct Hr as [->|[e ->]]; simpl; split; constructor.
  - destruct (IH false (tail r)) as [Hd Hl].
    { destruct Hr as [->|[e ->]]; csimpl; eauto. }
    destruct Hr as [->|[e ->]]; csimpl in *; rewrite Hd; (split; [done|by constructor]).
Qed.

Lemma write_chunks_expected {F} `{FileSystem F} path cs last hasher expected f hasher' expected' f' :
  Forall (fun c => pc_is_last c = false) cs -> pc_is_last last = true -> pc_checksum last <> "" ->
  write_chunks path (cs ++ [last]) hasher expected f = (Ok (hasher', expected'), f') ->
  expected' = pc_checksum last.
Proof.
  intros Hcs Hl Hn. revert hasher expected f. induction Hcs as [|c cs Hc _ IH]; intros hasher expected f.
  - cbn [write_chunks app]. intros [([] & g & _ & Hr)|(e & _ & [=])]%bind_inv.
    rewrite Hl, bool_decide_eq_false_2 in Hr by done.
    unfold mret, M_ret in Hr. by simplify_eq/=.
  - cbn [write_chunks app]. intros [([] & g & _ & Hr)|(e & _ & [=])]%bind_inv. by eapply IH.
Qed.

Section end_to_end.
Context {F : Type} `{FileSystemLaws F, Sha256, !Sha256Laws, !ReplicationStorage F, !ReplicationStorageLaws F}.
Implicit Types (s : ReplicationService (F := F)).

Lemma sha256_nonempty d : sha256_hex d <> "".
Proof. intros Hd%(f_equal String.length). rewrite sha256_len in Hd. done. Qed.

Lemma stream_prepare_checksum now c cs last s resp s' :
  Forall (fun c => pc_is_last c = false) (c :: cs) -> pc_is_last last = true -> pc_checksum last <> "" ->
  ReplicationService.stream_prepare_object now ((c :: cs) ++ [last]) s = (resp, s') ->
  ps_success resp = true ->
  sha256_hex (concat (pc_chunk <$> (c :: cs) ++ [last])) = pc_checksum last.
Proof.
  intros Hcs Hl Hn. unfold ReplicationService.stream_prepare_object. cbn [app].
  case_bool_decide; [by intros [= <- <-]|].
  destruct (rs_create_temp_object _ _) as [[t|e] f] eqn:Hc; [|by intros [= <- <-]].
  destruct (fs_create _ f) as [[[]|e] f1] eqn:Hcr; [|by intros [= <- <-]]. apply fs_create_ok in Hcr.
  destruct (write_chunks _ (c :: cs ++ [last]) _ _ f1) as [[[hasher expected]|e] f2] eqn:Hw;
    [|by intros [= <- <-]].
  change (c :: cs ++ [last]) with ((c :: cs) ++ [last]) in Hw.
  pose proof (write_chunks_expected _ _ _ _ _ _ _ _ _ Hcs Hl Hn Hw) as ->.
  apply (write_chunks_Ok _ _ _ _ _ _ _ _ []) in Hw as [-> _]; [|by rewrite Hcr, lookup_insert_eq].
  destruct (fs_flush _ f2) as [[[]|e] f3]; [|by intros [= <- <-]].
  destruct (bad_checksum _ _) eqn:Hb; [by intros [= <- <-]|]. intros _ _.
  by apply bad_checksum_None in Hb as [?|?].
Qed.

(** Streaming prepare end to end.  If the service accepts the stream a
    client makes of its file, the prepared data has the file's digest, and it is
    the file's content whenever the client could read it to the end: a file cut
    short by a read error is only accepted if the digests collide. *)
Theorem streamed_prepare_exact now key rid b r s resp s' :
  pending_wf s -> mine key s = ∅ -> is_reader b r ->
  ReplicationService.stream_prepare_object now (stream_chunks key rid (sha256_hex b) (Ok r)) s = (resp, s') ->
  ps_success resp = true ->
  ps_temp_id resp = temp_id_of rid key /\
  exists d, prepared key (ps_temp_id resp) now d s s' /\ sha256_hex d = sha256_hex b /\
    (is_ok (read_to_end r) = true -> d = b).
Proof.
  intros Hwf Hm (ps & _ & Hr) Hp Hok.
  assert (Hr' : r = Ok <$> ps \/ exists e, r = (Ok <$> ps) ++ [Err e]) by naive_solver.
  destruct (piece_chunks_data true key rid r ps Hr') as [Hd Hl].
  unfold stream_chunks in Hp. set (last := mkPrepareChunkRequest "" 0 [] true (sha256_hex b)) in *.
  destruct ps as [|p ps].
  { assert (piece_chunks true key rid r = []) as Hnil by (by destruct Hr' as [->|[e ->]]).
    rewrite Hnil in Hp. revert Hp Hok. by intros [= <- <-]. }
  assert (exists c cs, piece_chunks true key rid r = c :: cs /\ pc_key c = key /\ pc_request_id c = rid)
    as (c & cs & Hcs & Hkey & Hrid).
  { destruct Hr' as [->|[e ->]]; csimpl; eauto. }
  rewrite Hcs in Hp, Hl, Hd.
  pose proof (stream_prepare_checksum _ _ _ last _ _ _ Hl eq_refl (sha256_nonempty b) Hp Hok) as Hsum.
  cbn [app] in Hp. apply stream_prepare_prepared in Hp as [Hid Hp]; [|done|by rewrite Hkey|done].
  rewrite Hkey, Hrid in *. split; [done|]. eexists. split_and!; [done|done|].
  change (c :: cs ++ [last]) with ((c :: cs) ++ [last]). rewrite fmap_app, Hd, concat_app. simpl concat.
  rewrite !app_nil_r. destruct Hr as [[-> <-]|(e & rest & -> & _)]; [done|].
  by rewrite read_to_end_cut.
Qed.

(** An empty file cannot be prepared by streaming: its stream is the closing
    message alone, which carries no key, and the service refuses it. *)
Lemma empty_file_never_prepared now key rid checksum r s : is_reader [] r ->
  ReplicationService.stream_prepare_object now (stream_chunks key rid checksum (Ok r)) s
  = (prepare_failed "missing key in first chunk", s).
Proof.
  intros (ps & Hps & Hr). assert (ps = []) as ->.
  { destruct ps as [|p ps]; [done|]. apply list.Forall_cons in Hps as [[Hp _] _].
    assert (Hnil : p ++ concat ps = []).
    { destruct Hr as [[_ Hc]|(e & rest & _ & Hc)]; [done|]. by apply app_eq_nil in Hc as [Hc _]. }
    by apply app_eq_nil in Hnil as [? _]. }
  by destruct Hr as [[-> _]|(e & rest & -> & _)].
Qed.

Lemma streaming_items_framed b cs : well_framed b cs ->
  read_to_end (streaming_items (Ok <$> cs)) = Ok b.
Proof.
  intros (<- & _ & Hlast). revert Hlast. induction cs as [|c cs IH]; intros Hlast; [done|]. csimpl.
  pose proof (Hlast 0 c eq_refl) as Hc. simpl in Hc. rewrite Hc.
  assert (Htail : read_to_end (if bool_decide (1 = S (length cs)) then [] else streaming_items (Ok <$> cs))
    = Ok (concat (chunk <$> cs))).
  { case_bool_decide as Hl; [by destruct cs|]. apply IH. intros i c' Hi.
    rewrite (Hlast (S i) c' Hi). simpl. apply bool_decide_ext. lia. }
  destruct (decide (chunk c = [])) as [Hn|Hn].
  - rewrite bool_decide_eq_true_2 by done. cbn [app]. by rewrite Htail, Hn.
  - rewrite (bool_decide_eq_false_2 (chunk c = [])) by done. cbn [app read_to_end]. by rewrite Htail.
Qed.

(** C37. A remote read.  What a client reads from a replica's stream to its end is
    exactly the replica's object when the replica could read its file; when the
    replica's file failed half way the client gets a beginning of the object and
    no error. *)
Theorem remote_read_exact req s cs s' : ReplicationService.read_object req s = (Ok cs, s') ->
  exists r obj d, rs_get_object (rr_key req) (svc_fs s) = (Ok r, svc_fs s) /\
    fs_view (svc_fs s) !! rs_final (rr_key req) = Some obj /\
    read_to_end (streaming_items (Ok <$> cs)) = Ok d /\ d `prefix_of` obj /\
    (is_ok (read_to_end r) = true -> d = obj).
Proof.
  intros (r & f & Hg & -> & ->)%read_object_Ok. pose proof (rs_get_pure _ _ _ _ Hg) as <-.
  destruct (rs_get_ok _ _ _ _ Hg) as (obj & Ho & ps & _ & Hr). exists r, obj.
  assert (Hl : forall r', read_loop ((Ok <$> ps) ++ r') [] 0 =
    read_loop r' (data_chunk <$> ps) (N.of_nat (length (concat ps))))
    by (intros r'; apply (read_loop_pieces ps [])).
  destruct Hr as [[-> <-]|(e & rest & -> & <-)].
  - exists (concat ps). specialize (Hl []). rewrite app_nil_r in Hl. rewrite Hl. simpl.
    split_and!; [done..| |done|done]. destruct ps as [|p ps]; [done|].
    by apply streaming_items_framed, (frame_chunks_ok (p :: ps)).
  - exists (concat ps). rewrite Hl, read_to_end_cut. split_and!; [done..| |by apply prefix_app_r|done].
    by apply streaming_items_framed, frame_chunks_ok.
Qed.
End end_to_end.

(** ** [poll_read] *)
Fixpoint rx_data (rx : Reader) : bytes :=
  match rx with Ok b :: rx' => b ++ rx_data rx' | _ => [] end.
Definition unread (st : bytes * Reader) : bytes := st.1 ++ rx_data st.2.

(** [poll_read] hands out the data to come in order and loses none of it,
    whatever room each call has; with room it gives nothing only at the end of
    the data. *)
Theorem poll_read_exact remaining st out st' :
  Forall (fun x => x <> Ok []) st.2 -> poll_read remaining st = (Ok out, st') ->
  unread st = out ++ unread st' /\ Forall (fun x => x <> Ok []) st'.2 /\
  (out = [] -> remaining = 0 \/ unread st = []).
Proof.
  destruct st as [buffer rx]. unfold unread, poll_read. simpl. intros Hrx.
  assert (Htake : forall b : bytes, b <> [] -> take remaining b = [] -> remaining = 0).
  { intros b Hb Ht%(f_equal length). rewrite length_take in Ht. destruct b; simpl in *; [done|lia]. }
  case_bool_decide as Hb; simpl.
  - subst. destruct rx as [|[data|e] rx]; simpl; [intros [= <- <-]; naive_solver| |by intros [=]].
    apply list.Forall_cons in Hrx as [Hd Hrx]. intros [= <- <-]. simpl.
    split_and!; [by rewrite (assoc_L (++)), take_drop|done|]. intros Ht. left. eapply Htake; [|done].
    by intros ->.
  - intros [= <- <-]. simpl. split_and!; [by rewrite (assoc_L (++)), take_drop|done|].
    intros Ht. left. by eapply Htake.
Qed.

(** ** Concrete runs *)
Module ClientWit.
Import MemFs ToySha ReplWit.
#[local] Existing Instances ReplWit.impl ReplWit.impl_laws.

Definition sum1 : string := sha256_hex data1.
Definition sent := stream_chunks "b/k" 7 sum1 (Ok (slice_reader data1)).
Definition sp := ReplicationService.stream_prepare_object 5 sent s0.

Lemma streamed_prepare_exact_witness : exists d, prepared "b/k" "7:b/k" 5 d s0 sp.2 /\
  sha256_hex d = sha256_hex data1 /\ (is_ok (read_to_end (slice_reader data1)) = true -> d = data1).
Proof.
  refine (proj2 (streamed_prepare_exact 5 "b/k" 7 data1 (slice_reader data1) s0 (prep_ok "7:b/k") sp.2
    s0_wf _ (slice_reader_ok data1) _ _)); solve_run.
Defined.

Lemma remote_read_exact_witness :
  exists r obj d, rs_get_object "b/k" (svc_fs s1) = (Ok r, svc_fs s1) /\
    fs_view (svc_fs s1) !! rs_final "b/k" = Some obj /\
    read_to_end (streaming_items (Ok <$> read_chunks)) = Ok d /\ d `prefix_of` obj /\
    (is_ok (read_to_end r) = true -> d = obj).
Proof.
  refine (remote_read_exact rreq s1 read_chunks (ReplicationService.read_object rreq s1).2 _). solve_run.
Defined.

Lemma poll_read_exact_witness :
  unread ([], [Ok data1]) = take 2 data1 ++ unread (drop 2 data1, []) /\
  Forall (fun x => x <> Ok []) ([] : Reader) /\
  (take 2 data1 = [] -> 2 = 0 \/ unread ([], [Ok data1]) = []).
Proof.
  refine (poll_read_exact 2 ([], [Ok data1]) (take 2 data1) (drop 2 data1, []) _ _); [|reflexivity].
  repeat constructor. discriminate.
Defined.
End ClientWit.
