(* ===== verification/Coordinator.v ===== *)
(** * save-storage: the replication coordinator

    Models [crates/save-storage/src/replication/coordinator.rs] and
    [health.rs].  The state is the coordinator with its clients, the network and
    the nodes behind it ([Net]), the local file system and the background
    tasks.  Tasks that are spawned and awaited together run in the order
    [sched] gives, an arbitrary permutation; their results are collected in the
    order they were spawned, and a task that panicked gives none.  A [HashMap]
    is iterated in the order [hash_order] gives.  [elapsed] says whether a
    timeout fires before a call completes, and what the call has done by then. *)
From Stdlib Require Import Strings.Byte Floats.SpecFloat.
From S2P Require Import Prelude Common Config Retry Kv Fs ObjectStorage ReplicationService ReplicationClient.
From stdpp Require Import base gmap strings numbers list.
Import proto.

(** ** [QuorumConfig] *)
Record QuorumConfig : Type := mkQuorumConfig {
  replication_factor : nat; write_quorum : nat; read_quorum : nat }.
Definition with_replication_factor (n : nat) : QuorumConfig :=
  let quorum := n / 2 + 1 in mkQuorumConfig n quorum 1.
Definition QuorumConfig_default : QuorumConfig := with_replication_factor 3.

Record ReplicationResult : Type := mkReplicationResult {
  success_count : nat; failure_count : nat; quorum_achieved : bool;
  successful_nodes : list N; failed_nodes : list (N * string) }.

Record PreparedWrite : Type := mkPreparedWrite {
  pw_key : string; pw_checksum : string; pw_request_id : N; temp_ids : gmap N string }.

Record PreparePhaseResult : Type := mkPreparePhaseResult {
  pp_prepared : PreparedWrite; pp_success_count : nat;
  pp_successful_nodes : list N; pp_failed_nodes : list (N * string) }.

(** ** [health.rs] *)
Module Health.
Definition HEALTHY : Z := 0.
Definition DEGRADED : Z := 1.
Definition DEFAULT_HEALTH_CHECK_TIMEOUT : N := 2 * 1000000000.

Inductive HealthStatus : Type := Healthy | Degraded | Unhealthy.
Definition from_proto (status : Z) : HealthStatus :=
  if (status =? HEALTHY)%Z then Healthy else if (status =? DEGRADED)%Z then Degraded else Unhealthy.
Definition is_available (h : HealthStatus) : bool :=
  match h with Healthy | Degraded => true | Unhealthy => false end.
Record HealthCheckResult : Type := mkHealthCheckResult {
  hc_node_id : N; hc_status : HealthStatus; hc_error : option string }.

Section health.
Context {Net Ch : Type} `{ReplTransport Net Ch} (sample : spec_float -> spec_float -> spec_float)
  (elapsed : N -> ReplicationClient Ch * Net -> option (ReplicationClient Ch * Net)).

(** [tokio::time::timeout(t, client.health_check())]: [None] when it fired. *)
Definition timed_check (timeout : N)
  : PM (ReplicationClient Ch * Net) StorageError.t (option (result StorageError.t HealthCheckResponse)) :=
  fun w => match elapsed timeout w with
           | Some w' => (Some (Ok None), w')
           | None => match health_check sample w with
                     | (Some r, w') => (Some (Ok (Some r)), w')
                     | (None, w') => (None, w')
                     end
           end.

Definition is_healthy (timeout : N) : PM (ReplicationClient Ch * Net) StorageError.t bool :=
  r ← timed_check timeout;
  mret (match r with
        | Some (Ok resp) => (hs_status resp =? HEALTHY)%Z || (hs_status resp =? DEGRADED)%Z
        | _ => false
        end).

Definition check (timeout : N) : PM (ReplicationClient Ch * Net) StorageError.t HealthCheckResult :=
  fun w => (r ← timed_check timeout;
    mret (match r with
          | Some (Ok resp) => mkHealthCheckResult (node_id w.1) (from_proto (hs_status resp)) None
          | Some (Err e) => mkHealthCheckResult (node_id w.1) Unhealthy (Some (StorageError.to_string e))
          | None => mkHealthCheckResult (node_id w.1) Unhealthy (Some "timeout")
          end)) w.
End health.
End Health.

(** ** The coordinator *)
Record ReplicationCoordinator (Ch : Type) : Type := mkCoordinator {
  local_node_id : N; config : QuorumConfig; co_connect_timeout : N; co_rpc_timeout : N;
  co_retry_config : RetryConfig; co_tls_config : option TlsConfig; health_timeout : N;
  clients : gmap N (ReplicationClient Ch); request_counter : N }.
Arguments mkCoordinator {Ch}. Arguments local_node_id {Ch}. Arguments config {Ch}.
Arguments co_connect_timeout {Ch}. Arguments co_rpc_timeout {Ch}. Arguments co_retry_config {Ch}.
Arguments co_tls_config {Ch}. Arguments health_timeout {Ch}. Arguments clients {Ch}. Arguments request_counter {Ch}.

Definition coordinator_with_timeouts {Ch} (id : N) (cfg : QuorumConfig) (connect rpc : N)
  : ReplicationCoordinator Ch :=
  mkCoordinator id cfg connect rpc RetryConfig_default None Health.DEFAULT_HEALTH_CHECK_TIMEOUT ∅ 1.
Definition coordinator_new {Ch} (id : N) (cfg : QuorumConfig) : ReplicationCoordinator Ch :=
  coordinator_with_timeouts id cfg (5 * 1000000000) (30 * 1000000000).
Definition with_health_check_timeout {Ch} (c : ReplicationCoordinator Ch) (t : N) : ReplicationCoordinator Ch :=
  mkCoordinator (local_node_id c) (config c) (co_connect_timeout c) (co_rpc_timeout c) (co_retry_config c)
    (co_tls_config c) t (clients c) (request_counter c).
Definition coordinator_with_retry_config {Ch} (c : ReplicationCoordinator Ch) (r : RetryConfig)
  : ReplicationCoordinator Ch :=
  mkCoordinator (local_node_id c) (config c) (co_connect_timeout c) (co_rpc_timeout c) r
    (co_tls_config c) (health_timeout c) (clients c) (request_counter c).
Definition coordinator_with_tls {Ch} (c : ReplicationCoordinator Ch) (t : TlsConfig) : ReplicationCoordinator Ch :=
  mkCoordinator (local_node_id c) (config c) (co_connect_timeout c) (co_rpc_timeout c) (co_retry_config c)
    (Some t) (health_timeout c) (clients c) (request_counter c).
Definition set_clients {Ch} (c : ReplicationCoordinator Ch) (m : gmap N (ReplicationClient Ch))
  : ReplicationCoordinator Ch :=
  mkCoordinator (local_node_id c) (config c) (co_connect_timeout c) (co_rpc_timeout c) (co_retry_config c)
    (co_tls_config c) (health_timeout c) m (request_counter c).

(** An abort that was spawned and not awaited. *)
Record AbortTask : Type := mkAbortTask {
  at_node : N; at_key : string; at_temp_id : string; at_request_id : N }.

(** The future that writes locally: running it, or dropping it without having
    polled it, which drops what it owns. *)
Record LocalWrite (F : Type) : Type := mkLocalWrite {
  lw_run : M F StorageError.t unit; lw_drop : F -> F }.
Arguments mkLocalWrite {F}. Arguments lw_run {F}. Arguments lw_drop {F}.

Section coordinator.
Context {F Net Ch : Type} `{FileSystem F, Sha256, ReplTransport Net Ch}
  (sample : spec_float -> spec_float -> spec_float)
  (elapsed : N -> ReplicationClient Ch * Net -> option (ReplicationClient Ch * Net))
  (sched hash_order : list N -> list N) (read_file : string -> result io_error bytes).

Record St : Type := mkSt {
  coord : ReplicationCoordinator Ch; net : Net; local : F; background : list AbortTask }.
Abbreviation Co := (PM St StorageError.t).
Abbreviation ClientOp := (PM (ReplicationClient Ch * Net) StorageError.t).

Definition set_local (s : St) (f : F) : St := mkSt (coord s) (net s) f (background s).
Definition set_coord (s : St) (c : ReplicationCoordinator Ch) : St := mkSt c (net s) (local s) (background s).

(** A call of client [n]: its cached channel is shared by all its clones. *)
Definition on_client {A} (n : N) (op : ClientOp A) : Co A := fun s =>
  match clients (coord s) !! n with
  | None => (None, s)
  | Some c =>
      let '(r, (c', net')) := op (c, net s) in
      (r, mkSt (set_clients (coord s) (<[n := c']> (clients (coord s)))) net' (local s) (background s))
  end.

(** The clients' node ids, in the table's order. *)
Definition node_ids (s : St) : list N := hash_order (map_to_list (clients (coord s))).*1.

(** Spawned tasks, one per node of [ids], run in order; a task finds the local
    files as they are when it runs. *)
Fixpoint exec {A} (ids : list N) (op : N -> F -> ClientOp A) (s : St)
  : gmap N (option (result StorageError.t A)) * St :=
  match ids with
  | [] => (∅, s)
  | n :: ids' =>
      let '(r, s1) := on_client n (op n (local s)) s in
      let '(m, s2) := exec ids' op s1 in (<[n := r]> m, s2)
  end.

(** [for handle in handles { if let Ok(result) = handle.await { .. } }]. *)
Definition join {A} (ids : list N) (op : N -> F -> ClientOp A) : St -> list (N * result StorageError.t A) * St :=
  fun s => let '(m, s') := exec (sched ids) op s in
    (omap (fun n => match m !! n with Some (Some r) => Some (n, r) | _ => None end) ids, s').

(** [clients.get(node_id)] for each id. *)
Definition known (s : St) (ids : list N) : list N :=
  filter (fun n => is_Some (clients (coord s) !! n)) ids.

Definition add_node (n : N) (addr : string) : M St StorageError.t unit := fun s =>
  let c := coord s in
  if (n =? local_node_id c)%N then (Ok tt, s)
  else
    let client := with_retry_config
      (client_with_timeouts n addr (co_connect_timeout c) (co_rpc_timeout c)) (co_retry_config c) in
    match (match co_tls_config c with
           | Some tls => with_tls read_file client tls | None => Ok client end) with
    | Ok client => (Ok tt, set_coord s (set_clients c (<[n := client]> (clients c))))
    | Err e => (Err e, s)
    end.

Definition remove_node (n : N) (s : St) : St :=
  set_coord s (set_clients (coord s) (delete n (clients (coord s)))).

(** [if !current_nodes.contains(&node_id) { self.add_node(node_id, addr).await?; }]. *)
Definition add_missing (current : gmap N (ReplicationClient Ch)) (node : N * string)
  : M St StorageError.t unit :=
  let '(n, addr) := node in
  if bool_decide (is_Some (current !! n)) then mret tt else add_node n addr.

(** The current clients that are not in the new list go, in any order; the
    new nodes that have no client yet are added in the order given. *)
Definition sync_nodes (nodes : list (N * string)) : M St StorageError.t unit := fun s =>
  let current := clients (coord s) in
  let gone := filter (fun n => n ∉ nodes.*1) (node_ids s) in
  let s' := foldl (fun s n => remove_node n s) s gone in
  for_each (add_missing current) nodes s'.

Definition connected_nodes (s : St) : list N := node_ids s.

Definition health_of (n : N) : Co bool := fun s =>
  on_client n (Health.is_healthy sample elapsed (health_timeout (coord s))) s.

Fixpoint select_loop (needed : nat) (ids : list N) (healthy_nodes : list N) : Co (list N) :=
  match ids with
  | [] => mret healthy_nodes
  | n :: ids' =>
      if needed <=? length healthy_nodes then mret healthy_nodes
      else
        ok ← health_of n;
        select_loop needed ids' (if ok : bool then healthy_nodes ++ [n] else healthy_nodes)
  end.

Definition select_replica_nodes (count : nat) : Co (list N) := fun s =>
  let needed := count - 1 in
  if needed =? 0 then (Some (Ok []), s) else select_loop needed (node_ids s) [] s.

Definition health_check (n : N) : Co bool := fun s =>
  match clients (coord s) !! n with
  | Some _ => health_of n s
  | None => (Some (Err (io_err ("Node " +:+ show n +:+ " not found"))), s)
  end.

Fixpoint read_loop (required : nat) (key : string) (ids : list N) (attempts : nat) : Co (option Reader) :=
  match ids with
  | [] => mret None
  | n :: ids' =>
      ok ← health_of n;
      if negb (ok : bool) then read_loop required key ids' attempts
      else fun s =>
        match on_client n (read_object_stream sample key) s with
        | (Some (Ok reader), s') =>
            let attempts := S attempts in
            if required <=? attempts then (Some (Ok (Some reader)), s')
            else read_loop required key ids' attempts s'
        | (Some (Err _), s') => read_loop required key ids' attempts s'
        | (None, s') => (None, s')
        end
  end.

Definition read_from_replica (key : string) : Co (option Reader) := fun s =>
  read_loop (read_quorum (config (coord s))) key (node_ids s) 0 s.

(** [request_counter.fetch_add(1)]: wraps at 64 bits. *)
Definition next_request_id : Co N := fun s =>
  let c := coord s in
  (Some (Ok (request_counter c)),
   set_coord s (mkCoordinator (local_node_id c) (config c) (co_connect_timeout c) (co_rpc_timeout c)
     (co_retry_config c) (co_tls_config c) (health_timeout c) (clients c) (wrapN 64 (request_counter c + 1)))).

(** A computation that looks at the state it starts in. *)
Definition asking {A} (k : St -> Co A) : Co A := fun s => k s s.

Definition prepare_all (nodes : list N) (key : string) (data : bytes) (checksum : string) (request_id : N)
  : Co (list (N * result StorageError.t string)) := fun s =>
  let '(rs, s') := join (known s nodes)
    (fun _ _ => ReplicationClient.prepare_object sample key data checksum request_id) s in
  (Some (Ok rs), s').

Definition stream_prepare_all (nodes : list N) (key : string) (file_path : PathBuf) (checksum : string)
    (request_id : N) : Co (list (N * result StorageError.t string)) := fun s =>
  let '(rs, s') := join (known s nodes)
    (fun _ f => ReplicationClient.stream_prepare_object sample key request_id (fs_open f file_path) checksum) s in
  (Some (Ok rs), s').

(** The prepared nodes, in the order of the [HashMap] of their temporary ids. *)
Definition prepared_ids (p : PreparedWrite) : list N := hash_order (map_to_list (temp_ids p)).*1.
Definition temp_id_at (p : PreparedWrite) (n : N) : string := default "" (temp_ids p !! n).

Definition commit_all (p : PreparedWrite) : Co (list (N * result StorageError.t unit)) := fun s =>
  let '(rs, s') := join (known s (prepared_ids p))
    (fun n _ => ReplicationClient.commit_object sample (pw_key p) (temp_id_at p n) (pw_request_id p)) s in
  (Some (Ok rs), s').

Definition abort_all (p : PreparedWrite) (s : St) : St :=
  mkSt (coord s) (net s) (local s)
    (background s ++
     ((fun n => mkAbortTask n (pw_key p) (temp_id_at p n) (pw_request_id p)) <$> known s (prepared_ids p))).

(** The runtime gets to the first background task. *)
Definition run_background (s : St) : St :=
  match background s with
  | [] => s
  | t :: rest =>
      let s' := mkSt (coord s) (net s) (local s) rest in
      (on_client (at_node t)
         (ReplicationClient.abort_object sample (at_key t) (at_temp_id t) (at_request_id t)) s').2
  end.

Definition process_result (acc : PreparePhaseResult) (nr : N * result StorageError.t string)
  : PreparePhaseResult :=
  let '(n, r) := nr in
  let p := pp_prepared acc in
  match r with
  | Ok temp_id =>
      mkPreparePhaseResult
        (mkPreparedWrite (pw_key p) (pw_checksum p) (pw_request_id p) (<[n := temp_id]> (temp_ids p)))
        (pp_success_count acc + 1) (pp_successful_nodes acc ++ [n]) (pp_failed_nodes acc)
  | Err e =>
      mkPreparePhaseResult p (pp_success_count acc) (pp_successful_nodes acc)
        (pp_failed_nodes acc ++ [(n, StorageError.to_string e)])
  end.

Definition process_prepare_results (local_id : N) (key checksum : string) (request_id : N)
    (rs : list (N * result StorageError.t string)) : PreparePhaseResult :=
  foldl process_result
    (mkPreparePhaseResult (mkPreparedWrite key checksum request_id ∅) 1 [local_id] []) rs.

Definition complete_2pc_write (pr : PreparePhaseResult) (lw : LocalWrite F) : Co ReplicationResult := fun s =>
  let result q := mkReplicationResult (pp_success_count pr) (length (pp_failed_nodes pr)) q
    (pp_successful_nodes pr) (pp_failed_nodes pr) in
  if pp_success_count pr <? write_quorum (config (coord s)) then
    let s' := abort_all (pp_prepared pr) s in
    (Some (Ok (result false)), set_local s' (lw_drop lw (local s')))
  else
    match lw_run lw (local s) with
    | (Err e, f) => (Some (Err e), abort_all (pp_prepared pr) (set_local s f))
    | (Ok _, f) => (_ ← commit_all (pp_prepared pr); mret (result true)) (set_local s f)
    end.

(** The caller's future [lw] is also dropped when the write panics. *)
Definition holding {A} (lw : LocalWrite F) (c : Co A) : Co A := fun s =>
  match c s with
  | (None, s') => (None, set_local s' (lw_drop lw (local s')))
  | r => r
  end.

Definition replicate_write (key : string) (data : bytes) (lw : LocalWrite F) : Co ReplicationResult :=
  holding lw (
    request_id ← next_request_id;
    let checksum := compute_sha256 data in
    asking (fun s =>
      replica_nodes ← select_replica_nodes (replication_factor (config (coord s)));
      prepare_results ← prepare_all replica_nodes key data checksum request_id;
      complete_2pc_write
        (process_prepare_results (local_node_id (coord s)) key checksum request_id prepare_results) lw)).

Definition replicate_write_streaming (key : string) (file_path : PathBuf) (checksum : string)
    (lw : LocalWrite F) : Co ReplicationResult :=
  holding lw (
    request_id ← next_request_id;
    asking (fun s =>
      replica_nodes ← select_replica_nodes (replication_factor (config (coord s)));
      prepare_results ← stream_prepare_all replica_nodes key file_path checksum request_id;
      complete_2pc_write
        (process_prepare_results (local_node_id (coord s)) key checksum request_id prepare_results) lw)).

Definition node_ok {A} (nr : N * result StorageError.t A) : option N :=
  match nr.2 with Ok _ => Some nr.1 | Err _ => None end.
Definition node_err {A} (nr : N * result StorageError.t A) : option (N * string) :=
  match nr.2 with Ok _ => None | Err e => Some (nr.1, StorageError.to_string e) end.

Definition replicate_delete (key : string) (local_delete : M F StorageError.t unit) : Co ReplicationResult :=
  request_id ← next_request_id;
  asking (fun _ s =>
    match local_delete (local s) with
    | (Err e, f) => (Some (Err e), set_local s f)
    | (Ok _, f) =>
        let '(rs, s') := join (node_ids s)
          (fun _ _ => ReplicationClient.delete_object sample key request_id) (set_local s f) in
        let ok := omap node_ok rs in
        let bad := omap node_err rs in
        (Some (Ok (mkReplicationResult (1 + length ok) (length bad)
           (write_quorum (config (coord s)) <=? 1 + length ok) (local_node_id (coord s) :: ok) bad)), s')
    end).
End coordinator.

(** ** Lemmas *)
Section theory.
Context {F Net Ch : Type} `{FileSystem F, Sha256, ReplTransport Net Ch}
  (sample : spec_float -> spec_float -> spec_float)
  (elapsed : N -> ReplicationClient Ch * Net -> option (ReplicationClient Ch * Net))
  (sched hash_order : list N -> list N).
Context (hash_perm : forall l, hash_order l ≡ₚ l).
Implicit Types (s : St (F := F) (Net := Net) (Ch := Ch)).

(** What no call to a node changes. *)
Record same_cluster s s' : Prop := {
  sc_id : local_node_id (coord s') = local_node_id (coord s);
  sc_config : config (coord s') = config (coord s);
  sc_dom : forall n, is_Some (clients (coord s') !! n) <-> is_Some (clients (coord s) !! n);
  sc_local : local s' = local s;
  sc_background : background s' = background s }.
#[local] Instance same_cluster_preorder : PreOrder same_cluster.
Proof.
  split; [by intros s; split|]. intros s s1 s2 [] []. split; try congruence. intros n. naive_solver.
Qed.

Lemma on_client_cluster {A} n (op : PM (ReplicationClient Ch * Net) StorageError.t A) :
  pkeeps same_cluster (on_client (F := F) n op).
Proof.
  intros s r s'. unfold on_client. destruct (clients (coord s) !! n) as [c|] eqn:Hc; [|by intros [= _ <-]].
  destruct (op (c, net s)) as [r0 [c' net']]. intros [= _ <-]. split; try done. simpl. intros n'.
  destruct (decide (n' = n)) as [->|]; [rewrite lookup_insert_eq, Hc; split; eauto|].
  by rewrite lookup_insert_ne.
Qed.

Lemma exec_cluster {A} ids (op : N -> F -> PM (ReplicationClient Ch * Net) StorageError.t A) s m s' :
  exec ids op s = (m, s') -> same_cluster s s' /\ forall n, is_Some (m !! n) -> n ∈ ids.
Proof.
  revert s m. induction ids as [|n ids IH]; intros s m; simpl.
  - intros [= <- <-]. split; [done|]. intros n. rewrite lookup_empty. by intros [? ?].
  - destruct (on_client n (op n (local s)) s) as [r s1] eqn:Hr. destruct (exec ids op s1) as [m2 s2] eqn:He.
    intros [= <- <-]. apply on_client_cluster in Hr. apply IH in He as [Hs Hm].
    split; [by trans s1|]. intros n'. rewrite lookup_insert_is_Some, elem_of_cons.
    intros [->|[_ ?]]; [by left|right; auto].
Qed.

Lemma join_cluster {A} ids (op : N -> F -> PM (ReplicationClient Ch * Net) StorageError.t A) s rs s' :
  join sched ids op s = (rs, s') -> same_cluster s s' /\ rs.*1 `sublist_of` ids.
Proof.
  unfold join. destruct (exec (sched ids) op s) as [m s1] eqn:He. intros [= <- <-].
  apply exec_cluster in He as [Hs _]. split; [done|].
  induction ids as [|n ids IH]; csimpl; [constructor|].
  destruct (m !! n) as [[r|]|]; csimpl; [by constructor|by constructor|by constructor].
Qed.

Lemma health_of_cluster n : pkeeps same_cluster (health_of sample elapsed n : PM (St (F := F)) _ _).
Proof. intros s r s' Hh. unfold health_of in Hh. by eapply on_client_cluster. Qed.

Lemma select_loop_spec needed ids acc s r s' : select_loop sample elapsed needed ids acc s = (r, s') ->
  length acc <= needed ->
  same_cluster s s' /\ (forall e, r <> Some (Err e)) /\
  forall l, r = Some (Ok l) -> length l <= needed /\ exists l', l = acc ++ l' /\ l' `sublist_of` ids.
Proof.
  revert acc s. induction ids as [|n ids IH]; intros acc s; simpl.
  { intros [= <- <-] Hl. split_and!; [done..|]. intros l [= <-]. split; [done|].
    exists []. by rewrite app_nil_r. }
  destruct (Nat.leb_spec needed (length acc)).
  { intros [= <- <-] Hl. split_and!; [done..|]. intros l [= <-]. split; [done|].
    exists []. rewrite app_nil_r. split; [done|apply sublist_nil_l]. }
  intros [(ok & t & Hh & Hr)|[(e & Hh & ->)|[Hh ->]]]%pbind_inv Hl.
  - apply health_of_cluster in Hh. apply IH in Hr as (Hs & He & Hok).
    + split_and!; [by trans t|done|]. intros l Hlr. destruct (Hok l Hlr) as (Hlen & l' & -> & Hsub).
      split; [done|]. destruct ok; [|exists l'; split; [done|by constructor]].
      exists (n :: l'). rewrite <- (assoc_L (++)). split; [done|]. by constructor.
    + destruct ok; [rewrite length_app; simpl; lia|done].
  - exfalso. unfold health_of, on_client in Hh. destruct (clients (coord s) !! n) as [c|]; [|done].
    destruct (Health.is_healthy _ _ _ _) as [r0 [c' net']] eqn:Hi. simplify_eq.
    revert Hi. unfold Health.is_healthy, Health.timed_check, mbind, PM_bind.
    destruct (elapsed _ _); [done|]. by destruct (ReplicationClient.health_check _ _) as [[?|] ?].
  - apply health_of_cluster in Hh. split_and!; done.
Qed.

Lemma select_spec count s r s' : select_replica_nodes sample elapsed hash_order count s = (r, s') ->
  same_cluster s s' /\ (forall e, r <> Some (Err e)) /\
  forall l, r = Some (Ok l) -> length l <= count - 1 /\ NoDup l /\
    forall n, n ∈ l -> is_Some (clients (coord s) !! n).
Proof.
  unfold select_replica_nodes. destruct (Nat.eqb_spec (count - 1) 0) as [Hz|Hz].
  { intros [= <- <-]. split_and!; [done..|]. intros l [= <-]. split_and!; [simpl; lia|constructor|].
    intros n. by rewrite elem_of_nil. }
  intros (Hs & He & Hok)%select_loop_spec; [|simpl; lia]. split_and!; [done..|]. intros l Hl.
  destruct (Hok l Hl) as (Hlen & l' & -> & Hsub). simpl in *. split; [done|].
  assert (Hnd : NoDup (node_ids hash_order s)) by (unfold node_ids; rewrite hash_perm; apply NoDup_fst_map_to_list).
  split; [by eapply sublist_NoDup|]. intros n Hn.
  assert (Hin : n ∈ node_ids hash_order s) by by eapply elem_of_sublist.
  unfold node_ids in Hin. rewrite hash_perm in Hin.
  apply list_elem_of_fmap in Hin as ([n' c] & -> & Hin). apply elem_of_map_to_list in Hin. eauto.
Qed.

Lemma known_all s ids : (forall n, n ∈ ids -> is_Some (clients (coord s) !! n)) -> known s ids = ids.
Proof.
  intros Hids. unfold known. induction ids as [|n ids IH]; [done|].
  rewrite filter_cons_True by (apply Hids; set_solver). f_equal. apply IH. intros n' Hn'. apply Hids. set_solver.
Qed.

(** The nodes whose prepare was answered with success, with the temporary ids of
    the answers, and those whose prepare was answered with an error. *)
Definition prepared_on (rs : list (N * result StorageError.t string)) : list (N * string) :=
  omap (fun nr => match nr.2 with Ok t => Some (nr.1, t) | Err _ => None end) rs.
Definition refused_on (rs : list (N * result StorageError.t string)) : list (N * string) :=
  omap (fun nr => match nr.2 with Ok _ => None | Err e => Some (nr.1, StorageError.to_string e) end) rs.

Lemma prepared_sublist rs : (prepared_on rs).*1 `sublist_of` rs.*1.
Proof. induction rs as [|[n [a|e]] rs IH]; csimpl; by constructor. Qed.

(** What [process_prepare_results] makes of the answers. *)
Lemma process_results_spec rs acc : NoDup rs.*1 ->
  let r := foldl process_result acc rs in
  pp_success_count r = pp_success_count acc + length (prepared_on rs) /\
  pp_successful_nodes r = pp_successful_nodes acc ++ (prepared_on rs).*1 /\
  pp_failed_nodes r = pp_failed_nodes acc ++ refused_on rs /\
  temp_ids (pp_prepared r) = list_to_map (prepared_on rs) ∪ temp_ids (pp_prepared acc) /\
  pw_key (pp_prepared r) = pw_key (pp_prepared acc) /\
  pw_request_id (pp_prepared r) = pw_request_id (pp_prepared acc).
Proof.
  revert acc. induction rs as [|[n r] rs IH]; intros acc Hnd; cbv zeta.
  { csimpl. rewrite !app_nil_r, (left_id_L ∅ (∪)). split_and!; [lia|done..]. }
  change (foldl process_result acc ((n, r) :: rs)) with (foldl process_result (process_result acc (n, r)) rs).
  cbn [fmap list_fmap fst] in Hnd. apply list.NoDup_cons in Hnd as [Hn Hnd].
  destruct (IH (process_result acc (n, r))) as (Hc & Hs & Hf & Hp & Hk & Hi); [done|].
  rewrite Hc, Hs, Hf, Hp, Hk, Hi. destruct r as [tid|e]; csimpl.
  - split_and!; [lia|by rewrite <- (assoc_L (++))|done| |done|done].
    rewrite <- insert_union_r; [apply insert_union_l|]. apply not_elem_of_list_to_map_1.
    intros Hin. apply Hn. by eapply elem_of_sublist; [|apply prepared_sublist].
  - split_and!; [done..| |done|done|done]. by rewrite <- (assoc_L (++)).
Qed.

Lemma node_ok_err_length {A} (rs : list (N * result StorageError.t A)) :
  length (omap node_ok rs) + length (omap node_err rs) = length rs.
Proof. induction rs as [|[n [a|e]] rs IH]; csimpl; lia. Qed.

Lemma node_ok_sublist {A} (rs : list (N * result StorageError.t A)) : omap node_ok rs `sublist_of` rs.*1.
Proof. induction rs as [|[n [a|e]] rs IH]; csimpl; by constructor. Qed.

(** The outcome of a replicated write, in terms of the answers [rs] that the
    selected nodes gave to their prepares [op].  A commit or an abort goes to each
    node that answered with success, with the temporary id of its answer. *)
Definition two_phase_outcome (key : string) (op : N -> F -> PM (ReplicationClient Ch * Net) StorageError.t string)
    (lw : LocalWrite F) s (r : option (result StorageError.t ReplicationResult)) s' : Prop :=
  match r with
  | None => local s' = lw_drop lw (local s) /\ background s' = background s
  | Some x => exists nodes s1 rs s2,
      let rid := request_counter (coord s) in
      let oks := prepared_on rs in
      let aborts := (fun nt : N * string => mkAbortTask nt.1 key nt.2 rid) <$> oks in
      select_replica_nodes sample elapsed hash_order (replication_factor (config (coord s))) (next_request_id s).2
        = (Some (Ok nodes), s1) /\
      join sched nodes op s1 = (rs, s2) /\
      NoDup (local_node_id (coord s) :: rs.*1) /\ 1 + length rs <= 1 + (replication_factor (config (coord s)) - 1) /\
      match x with
      | Ok res =>
          successful_nodes res = local_node_id (coord s) :: oks.*1 /\ success_count res = 1 + length oks /\
          failed_nodes res = refused_on rs /\ failure_count res = length (refused_on rs) /\
          quorum_achieved res = (write_quorum (config (coord s)) <=? 1 + length oks) /\
          (if quorum_achieved res
           then exists f ids cs, lw_run lw (local s) = (Ok tt, f) /\ local s' = f /\ background s' = background s /\
             ids ≡ₚ oks.*1 /\
             join sched ids (fun n _ => ReplicationClient.commit_object sample key
               (default "" ((list_to_map oks : gmap N string) !! n)) rid) (set_local s2 f) = (cs, s')
           else local s' = lw_drop lw (local s) /\
             exists tasks, background s' = background s ++ tasks /\ tasks ≡ₚ aborts)
      | Err e => lw_run lw (local s) = (Err e, local s') /\
          exists tasks, background s' = background s ++ tasks /\ tasks ≡ₚ aborts
      end
  end.

(** Phase two, from the answers of distinct clients. *)
Lemma complete_2pc_outcome key checksum rid rs lw s r s' :
  NoDup rs.*1 -> (forall n, n ∈ rs.*1 -> is_Some (clients (coord s) !! n)) ->
  complete_2pc_write sample sched hash_order
    (process_prepare_results (local_node_id (coord s)) key checksum rid rs) lw s = (r, s') ->
  let oks := prepared_on rs in
  let aborts := (fun nt : N * string => mkAbortTask nt.1 key nt.2 rid) <$> oks in
  let result q := mkReplicationResult (1 + length oks) (length (refused_on rs)) q (local_node_id (coord s) :: oks.*1) (refused_on rs) in
  if 1 + length oks <? write_quorum (config (coord s)) then
    r = Some (Ok (result false)) /\ local s' = lw_drop lw (local s) /\
    exists tasks, background s' = background s ++ tasks /\ tasks ≡ₚ aborts
  else
    match lw_run lw (local s) with
    | (Ok _, f) => r = Some (Ok (result true)) /\ local s' = f /\ background s' = background s /\
        exists ids cs, ids ≡ₚ oks.*1 /\
        join sched ids (fun n _ => ReplicationClient.commit_object sample key
          (default "" ((list_to_map oks : gmap N string) !! n)) rid) (set_local s f) = (cs, s')
    | (Err e, f) => r = Some (Err e) /\ local s' = f /\ exists tasks, background s' = background s ++ tasks /\ tasks ≡ₚ aborts
    end.
Proof.
  intros Hnd Hin. cbv zeta. unfold process_prepare_results.
  destruct (process_results_spec rs
    (mkPreparePhaseResult (mkPreparedWrite key checksum rid ∅) 1 [local_node_id (coord s)] []) Hnd)
    as (Hc & Hok & Hbad & Hids & Hkey & Hrid).
  set (pr := foldl process_result _ rs) in *. simpl in Hc, Hok, Hbad, Hids, Hkey, Hrid. rewrite (right_id_L ∅ (∪)) in Hids.
  assert (Hnd' : NoDup (prepared_on rs).*1) by (eapply sublist_NoDup; [|apply prepared_sublist]; done).
  assert (Hp : prepared_ids hash_order (pp_prepared pr) ≡ₚ (prepared_on rs).*1).
  { unfold prepared_ids. rewrite hash_perm, Hids. by rewrite map_to_list_to_map. }
  assert (Hknown : forall t : St (F := F) (Net := Net) (Ch := Ch), (forall n, is_Some (clients (coord s) !! n) -> is_Some (clients (coord t) !! n)) ->
    known t (prepared_ids hash_order (pp_prepared pr)) = prepared_ids hash_order (pp_prepared pr)).
  { intros t Ht. apply known_all. intros n Hn. rewrite Hp in Hn. apply Ht, Hin. by eapply elem_of_sublist; [|apply prepared_sublist]. }
  assert (Htasks : forall t : St (F := F) (Net := Net) (Ch := Ch), (forall n, is_Some (clients (coord s) !! n) -> is_Some (clients (coord t) !! n)) ->
    exists tasks, background (abort_all hash_order (pp_prepared pr) t) = background t ++ tasks /\
      tasks ≡ₚ (fun nt : N * string => mkAbortTask nt.1 key nt.2 rid) <$> prepared_on rs).
  { intros t Ht. eexists. split; [done|]. rewrite Hknown, Hp by done. rewrite <- list_fmap_compose. apply Permutation_refl'.
    apply list_fmap_ext. intros i [n tid] Hi. unfold temp_id_at. simpl. rewrite Hids, Hkey, Hrid.
    rewrite (elem_of_list_to_map_1 _ n tid); [done|done|]. by eapply list_elem_of_lookup_2. }
  unfold complete_2pc_write. rewrite Hc, Hok, Hbad. simpl.
  destruct (_ <? _); [intros [= <- <-]; split_and!; [done|done|by apply (Htasks s)]|].
  destruct (lw_run lw (local s)) as [[[]|e] f].
  - unfold commit_all, mbind, PM_bind. rewrite Hknown by done. unfold temp_id_at. rewrite Hids, Hkey, Hrid.
    destruct (join _ _ _ _) as [cs s1] eqn:Hj. intros [= <- <-]. pose proof Hj as [[] _]%join_cluster.
    split_and!; [done..|]. exists (prepared_ids hash_order (pp_prepared pr)), cs. by split.
  - intros [= <- <-]. split_and!; [done..|]. by apply (Htasks (set_local s f)).
Qed.

Lemma holding_inv {A} lw (c : PM St StorageError.t A) s r s' : holding lw c s = (r, s') ->
  exists s0, c s = (r, s0) /\
    s' = match r with None => set_local s0 (lw_drop lw (local s0)) | Some _ => s0 end.
Proof. unfold holding. destruct (c s) as [[x|] s0]; intros [= <- <-]; eauto. Qed.

(** Both writes: a prepare phase that asks the selected nodes, then phase two. *)
Lemma two_phase_write_outcome key checksum lw (op : N -> N -> F -> PM (ReplicationClient Ch * Net) StorageError.t string) s r s' :
  clients (coord s) !! local_node_id (coord s) = None ->
  holding lw (
    request_id ← next_request_id;
    asking (fun s =>
      replica_nodes ← select_replica_nodes sample elapsed hash_order (replication_factor (config (coord s)));
      prepare_results ← (fun t => let '(rs, t') := join sched (known t replica_nodes) (op request_id) t in (Some (Ok rs), t'));
      complete_2pc_write sample sched hash_order
        (process_prepare_results (local_node_id (coord s)) key checksum request_id prepare_results) lw)) s
  = (r, s') -> two_phase_outcome key (op (request_counter (coord s))) lw s r s'.
Proof.
  intros Hself (s0 & Hrun & ->)%holding_inv.
  apply pbind_inv in Hrun as [(rid & s1 & Hn & Hrun)|[(e & [=] & _)|[[=] _]]].
  assert (Hs1 : same_cluster s s1) by (unfold next_request_id in Hn; simplify_eq; by split).
  assert (Hnext : (next_request_id s).2 = s1 /\ rid = request_counter (coord s)) by (rewrite Hn; unfold next_request_id in Hn; by simplify_eq).
  destruct Hnext as [Hnext ->]. unfold asking in Hrun.
  apply pbind_inv in Hrun as [(nodes & s2 & Hsel & Hrun)|[(e & Hsel & _)|[Hsel ->]]];
    pose proof Hsel as (Hs2 & Hne & Hok)%select_spec; [|by destruct (Hne e)|].
  2: { destruct Hs1 as [_ _ _ Hl1 Hb1], Hs2 as [_ _ _ Hl2 Hb2]. simpl. by rewrite Hl2, Hl1, Hb2, Hb1. }
  destruct (Hok nodes eq_refl) as (Hlen & Hnd & Hin).
  rewrite (sc_config _ _ Hs1) in Hsel, Hlen.
  assert (Hkn : known s2 nodes = nodes) by (apply known_all; intros n ?; by apply (sc_dom _ _ Hs2), Hin).
  apply pbind_inv in Hrun as [(rs & s3 & Hp & Hrun)|[(e & Hp & _)|[Hp _]]];
    destruct (join _ (known s2 nodes) _ s2) as [rs' s3'] eqn:Hj; [injection Hp as -> ->|discriminate Hp..].
  rewrite Hkn in Hj. pose proof Hj as [Hs3 Hsub]%join_cluster.
  assert (Hs : same_cluster s s3) by (trans s1; [done|]; by trans s2).
  assert (Hdom : forall n, n ∈ rs.*1 -> is_Some (clients (coord s3) !! n)).
  { intros n Hn'. eapply elem_of_sublist in Hn'; [|exact Hsub]. by apply (sc_dom _ _ Hs3), (sc_dom _ _ Hs2), Hin. }
  assert (Hnd' : NoDup rs.*1) by by eapply sublist_NoDup.
  rewrite <- (sc_id _ _ Hs2), <- (sc_id _ _ Hs3) in Hrun. apply complete_2pc_outcome in Hrun; [|done..]. cbv zeta in Hrun.
  rewrite (sc_id _ _ Hs), (sc_config _ _ Hs), (sc_local _ _ Hs), (sc_background _ _ Hs) in Hrun.
  assert (Hhead : exists nodes s1 rs' s2, select_replica_nodes sample elapsed hash_order (replication_factor (config (coord s)))
      (next_request_id s).2 = (Some (Ok nodes), s1) /\ join sched nodes (op (request_counter (coord s))) s1 = (rs', s2) /\
    NoDup (local_node_id (coord s) :: rs'.*1) /\ 1 + length rs' <= 1 + (replication_factor (config (coord s)) - 1) /\ rs' = rs /\ s2 = s3).
  { exists nodes, s2, rs, s3. rewrite Hnext. split_and!; [done..| | |done|done].
    - apply list.NoDup_cons. split; [|done]. intros Hl. destruct (Hdom _ Hl) as [c Hc].
      assert (Hx : is_Some (clients (coord s) !! local_node_id (coord s))) by (apply (sc_dom _ _ Hs); eauto). rewrite Hself in Hx. by destruct Hx.
    - apply sublist_length in Hsub. rewrite length_fmap in Hsub. lia. }
  destruct Hhead as (nodes' & s1' & rs' & s2' & Ha1 & Ha2 & Ha3 & Ha4 & -> & ->).
  destruct (Nat.ltb_spec (1 + length (prepared_on rs)) (write_quorum (config (coord s)))) as [Hq|Hq].
  - destruct Hrun as (-> & Hl & Htasks). exists nodes', s1', rs, s3. do 4 (split; [done|]). simpl.
    split_and!; try done; by symmetry; apply Nat.leb_gt.
  - destruct (lw_run lw (local s)) as [[[]|e] f] eqn:Hlw; destruct Hrun as (-> & Hl & Hrun); exists nodes', s1', rs, s3; do 4 (split; [done|]).
    + destruct Hrun as (Hb & ids & cs & Hids & Hcj). simpl. split_and!; try done; [by symmetry; apply Nat.leb_le|]. by exists f, ids, cs.
    + simpl. by rewrite Hlw, Hl.
Qed.

Lemma exec_results {A} ids (op : N -> F -> PM (ReplicationClient Ch * Net) StorageError.t A) s m s' n r :
  exec ids op s = (m, s') -> m !! n = Some (Some r) -> exists w w', op n (local s) w = (Some r, w').
Proof.
  revert s m. induction ids as [|i ids IH]; intros s m; simpl; [intros [= <- <-]; by rewrite lookup_empty|].
  destruct (on_client i (op i (local s)) s) as [x s1] eqn:Hr. destruct (exec ids op s1) as [m2 s2] eqn:He.
  intros [= <- <-]. rewrite lookup_insert_Some. pose proof (sc_local _ _ (on_client_cluster _ _ _ _ _ Hr)) as Hl.
  intros [[-> ->]|[_ Hm]]; [|rewrite <- Hl; by eapply IH].
  unfold on_client in Hr. destruct (clients (coord s) !! n) as [c|]; [|done].
  destruct (op n (local s) (c, net s)) as [y [c' net']] eqn:Hop. simplify_eq. eauto.
Qed.

Lemma join_results {A} ids (op : N -> F -> PM (ReplicationClient Ch * Net) StorageError.t A) s rs s' n r :
  join sched ids op s = (rs, s') -> (n, r) ∈ rs -> exists w w', op n (local s) w = (Some r, w').
Proof.
  unfold join. destruct (exec (sched ids) op s) as [m s1] eqn:He. intros [= <- <-].
  intros (n' & _ & Hm)%list_elem_of_omap. destruct (m !! n') as [[x|]|] eqn:Hn; simplify_eq.
  by eapply exec_results.
Qed.

Lemma streaming_outcome key path checksum lw s r s' :
  clients (coord s) !! local_node_id (coord s) = None ->
  replicate_write_streaming sample elapsed sched hash_order key path checksum lw s = (r, s') ->
  two_phase_outcome key (fun _ f => ReplicationClient.stream_prepare_object sample key (request_counter (coord s)) (fs_open f path) checksum)
    lw s r s'.
Proof.
  intros Hself. apply (two_phase_write_outcome key checksum lw
    (fun rid _ f => ReplicationClient.stream_prepare_object sample key rid (fs_open f path) checksum)); done.
Qed.

(** The temporary ids that the selected nodes answered, each asked once through
    its own client to prepare the file at [path]. *)
Definition prepare_answers (key : string) (path : PathBuf) (checksum : string) s (oks : list (N * string)) : Prop :=
  exists nodes s1 rs s2,
    select_replica_nodes sample elapsed hash_order (replication_factor (config (coord s))) (next_request_id s).2
      = (Some (Ok nodes), s1) /\
    join sched nodes (fun _ f => ReplicationClient.stream_prepare_object sample key (request_counter (coord s)) (fs_open f path) checksum) s1
      = (rs, s2) /\
    oks = prepared_on rs.

(** Every replica counted as successful has answered its prepare with success. *)
Lemma streaming_counted key path checksum lw s res s' :
  clients (coord s) !! local_node_id (coord s) = None ->
  replicate_write_streaming sample elapsed sched hash_order key path checksum lw s = (Some (Ok res), s') ->
  exists oks, successful_nodes res = local_node_id (coord s) :: oks.*1 /\ success_count res = 1 + length oks /\
    NoDup (successful_nodes res) /\ prepare_answers key path checksum s oks /\
    forall n tid, (n, tid) ∈ oks -> exists w w',
      ReplicationClient.stream_prepare_object sample key (request_counter (coord s)) (fs_open (local s) path) checksum w
      = (Some (Ok tid), w').
Proof.
  intros Hself (nodes & s1 & rs & s2 & Hsel & Hj & Hnd & _ & Hs & Hc & _)%streaming_outcome; [|done].
  exists (prepared_on rs). rewrite Hs. split_and!; [done..| |by exists nodes, s1, rs, s2|].
  - apply list.NoDup_cons in Hnd as [Hl Hnd]. pose proof (prepared_sublist rs) as Hsub. apply list.NoDup_cons.
    split; [intros ?; apply Hl; by eapply elem_of_sublist|by eapply sublist_NoDup].
  - intros n tid ([n' [t|e]] & Hin & Hok)%list_elem_of_omap; simplify_eq/=.
    destruct (join_results _ _ _ _ _ _ _ Hj Hin) as (w & w' & Hop). exists w, w'. simpl in Hop.
    apply select_spec in Hsel as (Hcl & _). by rewrite (sc_local _ _ Hcl) in Hop.
Qed.

(** C12. Replicated write (streamed, as the backend uses it), for any behaviour of
    the network, any order of the tasks and any order of the tables, on a node that
    is not its own client.  Each selected node is asked to prepare; the result
    counts the local node and exactly the nodes whose answer was a success, lists
    the others with their errors, and reports quorum exactly when the counted ones
    are at least [write_quorum].  Then the local write ran and succeeded and a
    commit was sent to each node that had prepared, with the temporary id of its
    answer.  Otherwise the local write did not run, what it owned was dropped, and
    an abort with that id is on its way to exactly the nodes that had prepared.  If
    the local write fails, its error is the result, and the aborts are on their
    way as well. *)
Theorem replicate_write_streaming_outcome key path checksum lw s r s' :
  clients (coord s) !! local_node_id (coord s) = None ->
  replicate_write_streaming sample elapsed sched hash_order key path checksum lw s = (r, s') ->
  two_phase_outcome key (fun _ f => ReplicationClient.stream_prepare_object sample key (request_counter (coord s)) (fs_open f path) checksum)
    lw s r s'.
Proof. apply streaming_outcome. Qed.

(** The same for a write whose data is sent in one message. *)
Theorem replicate_write_outcome key data lw s r s' :
  clients (coord s) !! local_node_id (coord s) = None ->
  replicate_write sample elapsed sched hash_order key data lw s = (r, s') ->
  two_phase_outcome key (fun _ _ => ReplicationClient.prepare_object sample key data (compute_sha256 data) (request_counter (coord s)))
    lw s r s'.
Proof.
  intros Hself. apply (two_phase_write_outcome key (compute_sha256 data) lw
    (fun rid _ _ => ReplicationClient.prepare_object sample key data (compute_sha256 data) rid)); done.
Qed.

(** Replicated delete.  A local failure is the result and no node is
    contacted.  Otherwise every client is asked once, the result counts the local
    node and the nodes that answered with success, and quorum is reported exactly
    when they are at least [write_quorum]. *)
Theorem replicate_delete_outcome key (local_delete : M F StorageError.t unit) s r s' :
  clients (coord s) !! local_node_id (coord s) = None ->
  replicate_delete sample sched hash_order key local_delete s = (r, s') ->
  match r with
  | Some (Ok res) =>
      local_delete (local s) = (Ok tt, local s') /\
      success_count res = length (successful_nodes res) /\
      failure_count res = length (failed_nodes res) /\
      NoDup (successful_nodes res ++ (failed_nodes res).*1) /\
      head (successful_nodes res) = Some (local_node_id (coord s)) /\
      (forall n, n ∈ tail (successful_nodes res) ++ (failed_nodes res).*1 ->
        is_Some (clients (coord s) !! n)) /\
      quorum_achieved res = (write_quorum (config (coord s)) <=? success_count res)
  | Some (Err e) => local_delete (local s) = (Err e, local s') /\ net s' = net s
  | None => False
  end.
Proof.
  intros Hself. unfold replicate_delete.
  intros [(rid & s1 & [= <- <-] & Hrun)|[(e & [=] & _)|[[=] _]]]%pbind_inv. unfold asking in Hrun. simpl in Hrun.
  destruct (local_delete (local s)) as [[[]|e] f] eqn:Hl; [|by simplify_eq].
  destruct (join _ _ _ _) as [rs s2] eqn:Hj. simplify_eq. apply join_cluster in Hj as [[_ _ _ Hloc _] Hsub].
  simpl in *. rewrite Hloc. unfold node_ids in Hsub. simpl in Hsub.
  assert (Hall : omap node_ok rs ++ (omap node_err rs).*1 ≡ₚ rs.*1).
  { clear. induction rs as [|[n [a|e]] rs IH]; csimpl; [done|by rewrite IH|].
    by rewrite <- Permutation_middle, IH. }
  assert (Hin : forall n, n ∈ rs.*1 -> is_Some (clients (coord s) !! n)).
  { intros n Hn. eapply elem_of_sublist in Hn; [|done]. rewrite hash_perm in Hn.
    apply list_elem_of_fmap in Hn as ([n' c] & -> & Hn). apply elem_of_map_to_list in Hn. eauto. }
  split_and!; try done.
  - apply list.NoDup_cons. rewrite Hall. split; [intros [? ?]%Hin; congruence|].
    eapply sublist_NoDup; [|done]. rewrite hash_perm. apply NoDup_fst_map_to_list.
  - intros n. rewrite Hall. apply Hin.
Qed.

End theory.

(** ** Membership *)
Section membership.
Context {F Net Ch : Type} (hash_order : list N -> list N) (hash_perm : forall l, hash_order l ≡ₚ l)
  (read_file : string -> result io_error bytes).
Implicit Types (s : St (F := F) (Net := Net) (Ch := Ch)).

(** Adding a node changes only its own entry, and only if it is not this node. *)
Lemma add_node_Ok n a s s' : add_node read_file n a s = (Ok tt, s') ->
  local_node_id (coord s') = local_node_id (coord s) /\
  (forall n', n' <> n -> clients (coord s') !! n' = clients (coord s) !! n') /\
  (n <> local_node_id (coord s) ->
   exists c, clients (coord s') !! n = Some c /\ node_id c = n /\ addr c = a) /\
  (n = local_node_id (coord s) -> s' = s).
Proof.
  unfold add_node. destruct (N.eqb_spec n (local_node_id (coord s))) as [->|Hne].
  { intros [= <-]. done. }
  set (client := with_retry_config _ _).
  assert (Hnew : forall c, (match co_tls_config (coord s) with
      | Some tls => with_tls read_file client tls | None => Ok client end) = Ok c -> node_id c = n /\ addr c = a).
  { intros c. destruct (co_tls_config (coord s)) as [tls|]; [|by intros [= <-]].
    unfold with_tls. intros (x & _ & [= <-])%result_bind_inv. done. }
  destruct (match co_tls_config (coord s) with Some _ => _ | None => _ end) as [c|e] eqn:Hc; intros [= <-].
  destruct (Hnew c eq_refl) as [Hn Ha]. simpl. split_and!; [done| | |done].
  - intros n' Hn'. by rewrite lookup_insert_ne.
  - intros _. exists c. by rewrite lookup_insert_eq.
Qed.

Lemma remove_nodes_spec ids s :
  let s' := foldl (fun s n => remove_node n s) s ids in
  local_node_id (coord s') = local_node_id (coord s) /\
  forall n, clients (coord s') !! n = if decide (n ∈ ids) then None else clients (coord s) !! n.
Proof.
  revert s. induction ids as [|i ids IH]; intros s; cbn [foldl].
  { split; [done|]. intros n. by rewrite decide_False by apply not_elem_of_nil. }
  destruct (IH (remove_node i s)) as [Hid Hc]. split; [done|]. intros n. rewrite Hc.
  unfold remove_node. cbn [set_coord set_clients coord clients].
  destruct (decide (n = i)) as [->|Hni].
  - rewrite lookup_delete_eq, (decide_True (P := i ∈ i :: ids)) by set_solver. by case_decide.
  - rewrite lookup_delete_ne by done. apply decide_ext. set_solver.
Qed.

Lemma add_missing_spec current nodes s s' : NoDup nodes.*1 ->
  for_each (add_missing read_file current) nodes s = (Ok tt, s') ->
  local_node_id (coord s') = local_node_id (coord s) /\
  (forall n, n ∉ nodes.*1 \/ is_Some (current !! n) \/ n = local_node_id (coord s) ->
     clients (coord s') !! n = clients (coord s) !! n) /\
  (forall n a, (n, a) ∈ nodes -> current !! n = None -> n <> local_node_id (coord s) ->
     exists c, clients (coord s') !! n = Some c /\ node_id c = n /\ addr c = a).
Proof.
  revert s. induction nodes as [|[i b] nodes IH]; intros s Hnd; simpl.
  { intros [= <-]. split_and!; [done..|]. by intros n a ?%not_elem_of_nil. }
  cbn [fmap list_fmap fst] in Hnd. apply list.NoDup_cons in Hnd as [Hi Hnd].
  intros [([] & t & Ht & Hr)|(e & _ & [=])]%bind_inv. apply IH in Hr as (Hid & Hold & Hnew); [|done].
  assert (Hstep : local_node_id (coord t) = local_node_id (coord s) /\
    (forall n, n <> i \/ is_Some (current !! n) \/ n = local_node_id (coord s) ->
       clients (coord t) !! n = clients (coord s) !! n) /\
    (current !! i = None -> i <> local_node_id (coord s) ->
       exists c, clients (coord t) !! i = Some c /\ node_id c = i /\ addr c = b)).
  { unfold add_missing in Ht. case_bool_decide as Hcur.
    - unfold mret, M_ret in Ht. simplify_eq. split_and!; [done..|]. intros Hn. rewrite Hn in Hcur. by destruct Hcur.
    - apply add_node_Ok in Ht as (Hl & Ho & Hc & Hs). split_and!; [done| |].
      + intros n Hn. destruct (decide (n = i)) as [->|]; [|by apply Ho].
        destruct Hn as [?|[?|?]]; [done..|]. by rewrite Hs.
      + intros _ Hne. by apply Hc. }
  destruct Hstep as (Hl & Ho & Hc). rewrite Hl in *. split_and!; [by rewrite Hid| |].
  - intros n Hn. rewrite Hold by (csimpl in *; set_solver). apply Ho. csimpl in *. set_solver.
  - intros n a [[= -> ->]|Hin]%elem_of_cons Hcur Hne; [|by apply Hnew].
    destruct (Hc Hcur Hne) as (c & Hci & ? & ?). exists c. split_and!; [|done..].
    rewrite Hold by (left; done). done.
Qed.

(** After [sync_nodes] succeeds there is a client for exactly the listed
    nodes other than this one: those that had one keep it as it is, address and
    channel included, and the new ones have the address of the list. *)
Theorem sync_nodes_exact nodes s s' :
  clients (coord s) !! local_node_id (coord s) = None -> NoDup nodes.*1 ->
  sync_nodes hash_order read_file nodes s = (Ok tt, s') ->
  (forall n, is_Some (clients (coord s') !! n) <-> n ∈ nodes.*1 /\ n <> local_node_id (coord s)) /\
  (forall n c, n ∈ nodes.*1 -> clients (coord s) !! n = Some c -> clients (coord s') !! n = Some c) /\
  (forall n a, (n, a) ∈ nodes -> n <> local_node_id (coord s) -> clients (coord s) !! n = None ->
     exists c, clients (coord s') !! n = Some c /\ node_id c = n /\ addr c = a).
Proof.
  intros Hself Hnd. unfold sync_nodes. set (gone := filter _ _). set (s1 := foldl _ s gone).
  destruct (remove_nodes_spec gone s) as [Hid1 Hc1]. fold s1 in Hid1, Hc1.
  assert (Hgone : forall n, n ∈ gone <-> n ∉ nodes.*1 /\ is_Some (clients (coord s) !! n)).
  { intros n. unfold gone, node_ids. rewrite list_elem_of_filter, hash_perm.
    split; intros [Hn Hx]; (split; [done|]).
    - apply list_elem_of_fmap in Hx as ([n' c] & -> & Hx%elem_of_map_to_list). eauto.
    - destruct Hx as [c Hx]. apply list_elem_of_fmap. exists (n, c). by rewrite elem_of_map_to_list. }
  assert (Hkeep : forall n, n ∈ nodes.*1 -> clients (coord s1) !! n = clients (coord s) !! n).
  { intros n Hn. rewrite Hc1. rewrite decide_False; [done|]. rewrite Hgone. naive_solver. }
  intros (Hid & Hold & Hnew)%add_missing_spec; [|done]. rewrite Hid1 in *.
  assert (Hexist : forall n c, n ∈ nodes.*1 -> clients (coord s) !! n = Some c -> clients (coord s') !! n = Some c).
  { intros n c Hn Hc. rewrite Hold, Hkeep by eauto. done. }
  split_and!; [|done|naive_solver]. intros n. destruct (decide (n ∈ nodes.*1)) as [Hn|Hn].
  - destruct (decide (n = local_node_id (coord s))) as [->|Hne].
    + rewrite Hold, Hkeep, Hself by auto. split; [by intros [? ?]|naive_solver].
    + split; [done|]. intros _. destruct (clients (coord s) !! n) as [c|] eqn:Hc; [eauto|].
      apply list_elem_of_fmap in Hn as ([n' a] & -> & Hn). simpl in *.
      destruct (Hnew n' a Hn Hc Hne) as (c & -> & _). eauto.
  - rewrite Hold, Hc1 by auto. split; [|naive_solver]. case_decide as Hg; [by intros [? ?]|].
    intros Hs. destruct Hg. by apply Hgone.
Qed.
End membership.

(** Majority quorums.  With [with_replication_factor n] a write quorum is
    at most [n] for [n > 0], and any two sets of that many among [n] nodes share
    a node: two writes that both reach quorum were both prepared on some node. *)
Theorem write_quorums_intersect n (nodes X Y : gset N) :
  let q := write_quorum (with_replication_factor n) in
  size nodes <= n -> X ⊆ nodes -> Y ⊆ nodes -> q <= size X -> q <= size Y ->
  (n > 0 -> q <= n) /\ exists x, x ∈ X /\ x ∈ Y.
Proof.
  intros q Hn HX HY HqX HqY. change q with (n / 2 + 1) in *. pose proof (Nat.div_mod_eq n 2). pose proof (Nat.mod_upper_bound n 2).
  split; [lia|]. destruct (decide (X ∩ Y = ∅)) as [He|He].
  - assert (Hd : size (X ∪ Y) = size X + size Y) by (apply size_union; set_solver).
    assert (size (X ∪ Y) <= size nodes) by (apply subseteq_size; set_solver). lia.
  - apply set_choose_L in He as [x Hx]. exists x. set_solver.
Qed.
