(* ===== verification/Backends.v ===== *)
(** * save-storage: the storage backends

    Models [crates/save-storage/src/backend.rs], [local_backend.rs] and
    [replicated_backend.rs].  A [Box<dyn TempHandle>] is one of the two handle
    types the crate has; the downcast of a commit tells them apart. *)
From Stdlib Require Import Strings.Byte Floats.SpecFloat.
From S2P Require Import Prelude Common Config Retry Kv Fs ObjectStorage ReplicationService ReplicationClient Coordinator.
From stdpp Require Import base gmap strings numbers list.
Import proto.

Inductive HealthStatus : Type :=
| Healthy
| Degraded (reason : string)
| Unhealthy (reason : string).

Inductive TempHandle : Type :=
| LocalTempHandle (inner : TempObject)
| ReplicatedTempHandle (inner : TempObject) (key : string).
Definition handle_inner (h : TempHandle) : TempObject :=
  match h with LocalTempHandle t => t | ReplicatedTempHandle t _ => t end.
Definition handle_temp_path (h : TempHandle) : PathBuf := temp_path (handle_inner h).

(** A handle of another backend is dropped with the error. *)
Definition foreign_handle {F} `{FileSystem F} {A} (msg : string) (h : TempHandle) : M F StorageError.t A :=
  fun f => (Err (io_err msg), drop_temp (handle_inner h) f).

(** The directory check both backends start with. *)
Definition temp_dir_status (m : result io_error Metadata) : option HealthStatus :=
  match m with
  | Ok m => if is_dir m then None
            else Some (Unhealthy "Temp directory path exists but is not a directory")
  | Err e => Some (Unhealthy ("Cannot access temp directory: " +:+ io_msg e))
  end.

(** ** [local_backend.rs] *)
Module Local.
Section local.
Context {F : Type} `{FileSystem F, Sha256} (storage : ObjectStorage).
Abbreviation IO := (M F StorageError.t).

Definition put_object (key : string) (r : Reader) : IO unit := ObjectStorage.put_object storage key r.
Definition get_object (key : string) : IO Reader := ObjectStorage.get_object storage key.
Definition delete_object (key : string) : IO unit := ObjectStorage.delete_object storage key.
Definition write_temp_object (key : string) (r : Reader) : IO TempHandle :=
  t ← ObjectStorage.write_temp_object storage key r; mret (LocalTempHandle t).
Definition commit_object (h : TempHandle) : IO unit :=
  match h with
  | LocalTempHandle t => ObjectStorage.commit_object storage t
  | _ => foreign_handle "TempHandle must be LocalTempHandle for LocalBackend" h
  end.
Definition health_check : IO HealthStatus :=
  reads (fun f => Ok (default Healthy (temp_dir_status (fs_metadata f (storage_temp_dir storage))))).
End local.
End Local.

(** ** [replicated_backend.rs] *)
Module Replicated.
Section replicated.
Context {F Net Ch : Type} `{FileSystem F, Sha256, ReplTransport Net Ch}
  (sample : spec_float -> spec_float -> spec_float)
  (elapsed : N -> ReplicationClient Ch * Net -> option (ReplicationClient Ch * Net))
  (sched hash_order : list N -> list N).
(** The backend's own copy of the quorum configuration, next to the
    coordinator's. *)
Context (storage : ObjectStorage) (quorum_config : QuorumConfig).
Abbreviation St := (Coordinator.St (F := F) (Net := Net) (Ch := Ch)).
Abbreviation Co := (PM St StorageError.t).

(** A local operation. *)
Definition locally {A} (c : M F StorageError.t A) : Co A := fun s =>
  let '(r, f) := c (local s) in (Some r, set_local s f).

Definition compute_file_checksum (p : PathBuf) : M F StorageError.t string :=
  file ← reads (fun f => map_err StorageError.Io (fs_open f p));
  lift (hash_loop file []).

(** The future [self.local.commit_object(temp)]: it owns [temp]. *)
Definition local_commit (t : TempObject) : LocalWrite F :=
  mkLocalWrite (ObjectStorage.commit_object storage t) (drop_temp t).

(** The part [put_object] and [commit_object] share: it owns [t] from the start. *)
Definition replicate_temp (key : string) (t : TempObject) : Co unit :=
  checksum ← locally (owning t (compute_file_checksum (temp_path t)));
  result ← replicate_write_streaming sample elapsed sched hash_order key (temp_path t) checksum (local_commit t);
  if negb (quorum_achieved result) then
    locally (throw (StorageError.QuorumNotAchieved (success_count result) (write_quorum quorum_config)))
  else mret tt.

Definition put_object (key : string) (r : Reader) : Co unit :=
  t ← locally (ObjectStorage.write_temp_object storage key r);
  replicate_temp key t.

Definition get_object (key : string) : Co Reader := fun s =>
  match locally (ObjectStorage.get_object storage key) s with
  | (Some (Err (StorageError.NotFound _)), s') =>
      (o ← read_from_replica sample elapsed hash_order key;
       locally (lift (ok_or (StorageError.NotFound key) o))) s'
  | r => r
  end.

Definition delete_object (key : string) : Co unit :=
  result ← replicate_delete sample sched hash_order key (ObjectStorage.delete_object storage key);
  if success_count result =? 0 then locally (throw (StorageError.NotFound key)) else mret tt.

Definition write_temp_object (key : string) (r : Reader) : Co TempHandle :=
  t ← locally (ObjectStorage.write_temp_object storage key r);
  mret (ReplicatedTempHandle t key).

Definition commit_object (h : TempHandle) : Co unit :=
  match h with
  | ReplicatedTempHandle t key => replicate_temp key t
  | _ => locally (foreign_handle "TempHandle must be ReplicatedTempHandle for ReplicatedBackend" h)
  end.

Definition health_check : Co HealthStatus := fun s =>
  (Some (Ok
     match temp_dir_status (fs_metadata (local s) (storage_temp_dir storage)) with
     | Some h => h
     | None =>
         let nodes := length (connected_nodes hash_order s) in
         let min_replicas := write_quorum quorum_config - 1 in
         if nodes <? min_replicas then
           Degraded ("Only " +:+ show_nat nodes +:+ " replica nodes connected, need "
                     +:+ show_nat min_replicas +:+ " for quorum")
         else Healthy
     end), s).
End replicated.
End Replicated.

(** ** Properties *)
Section theory.
Context {F Net Ch : Type} `{FileSystemLaws F, Sha256, ReplTransport Net Ch}
  (sample : spec_float -> spec_float -> spec_float)
  (elapsed : N -> ReplicationClient Ch * Net -> option (ReplicationClient Ch * Net))
  (sched hash_order : list N -> list N).
Context (hash_perm : forall l, hash_order l ≡ₚ l).
Context (storage : ObjectStorage) (quorum_config : QuorumConfig).
Implicit Types (s : Coordinator.St (F := F) (Net := Net) (Ch := Ch)).

Lemma locally_inv {A} (c : M F StorageError.t A) s r s' :
  Replicated.locally c s = (r, s') -> exists x f, c (local s) = (x, f) /\ r = Some x /\ s' = set_local s f.
Proof. unfold Replicated.locally. destruct (c (local s)) as [x f]. intros [= <- <-]. eauto. Qed.

Lemma checksum_view p : keeps same_view (Replicated.compute_file_checksum p : M F _ _).
Proof. unfold Replicated.compute_file_checksum. solve_frame. Qed.

Lemma checksum_pure p f c f' : Replicated.compute_file_checksum p f = (Ok c, f') -> f' = f.
Proof.
  unfold Replicated.compute_file_checksum.
  intros [(r & g & [= _ <-] & [_ ->]%lift_inv)|(e & _ & [=])]%bind_inv. done.
Qed.

Lemma checksum_exact p f c f' d : fs_view f !! p = Some d ->
  Replicated.compute_file_checksum p f = (Ok c, f') -> c = sha256_hex d.
Proof.
  intros Hd. unfold Replicated.compute_file_checksum.
  intros [(r & g & [= Ho <-] & [Hh _]%lift_inv)|(e & _ & [=])]%bind_inv.
  destruct (fs_open f p) as [rd|] eqn:Hopen; simplify_eq/=. apply fs_open_ok in Hopen as (b & Hb & Hr).
  rewrite Hd in Hb. injection Hb as <-. by eapply hash_loop_reader.
Qed.

(** The local effect of replicating a temporary object that holds [d]. *)
Lemma replicate_temp_outcome key d s r s' :
  clients (coord s) !! local_node_id (coord s) = None ->
  fs_view (local s) !! key_temp storage key = Some d ->
  Replicated.replicate_temp sample elapsed sched hash_order storage quorum_config key
    (key_handle storage key) s = (r, s') ->
  let published := fs_view (local s') =
    <[key_final storage key := d]> (delete (key_temp storage key) (fs_view (local s))) in
  match r with
  | Some (Ok _) => published /\
      exists res, replicate_write_streaming sample elapsed sched hash_order key (key_temp storage key) (sha256_hex d)
          (Replicated.local_commit storage (key_handle storage key)) s = (Some (Ok res), s') /\
        write_quorum (config (coord s)) <= success_count res
  | _ => same_but (key_temp storage key) (local s) (local s') \/ (fsync_mode storage = "full" /\ published)
  end.
Proof.
  intros Hself Hd. unfold Replicated.replicate_temp.
  intros [(sum & s1 & Hsum & Hrun)|[(e & Hsum & ->)|[Hsum ->]]]%pbind_inv;
    apply locally_inv in Hsum as (x & f & Hc & Hx & ->).
  2: { left. simpl. apply owning_inv in Hc as (g & Hg & Hs & _).
       trans g; [by eapply same_but_of_view, checksum_view|done]. }
  2: { done. }
  injection Hx as <-. apply owning_Ok in Hc. pose proof (checksum_exact _ _ _ _ _ Hd Hc) as ->. apply checksum_pure in Hc as ->.
  replace (set_local s (local s)) with s in Hrun by (by destruct s).
  apply pbind_inv in Hrun as [(res & s2 & Hw & Hrun)|[(e & Hw & ->)|[Hw ->]]];
    pose proof (streaming_outcome _ _ _ _ hash_perm _ _ _ _ _ _ _ Hself Hw) as Hout.
  - destruct Hout as (nodes & t1 & rs & t2 & _ & _ & _ & _ & _ & Hsc & _ & _ & Hq & Hout).
    destruct (quorum_achieved res); simpl in Hrun.
    + injection Hrun as <- <-. destruct Hout as (g & ids & cs & Hl & <- & _). split; [by eapply commit_Ok|].
      exists res. split; [done|]. rewrite Hsc. by apply Nat.leb_le.
    + apply locally_inv in Hrun as (x & g & [= <- <-] & -> & ->). left. simpl. destruct Hout as [-> _].
      apply (drop_temp_frame (key_handle storage key)).
  - destruct Hout as (nodes & t1 & rs & t2 & _ & _ & _ & _ & Hl & _). apply commit_Err in Hl as [?|[? Hl]]; [by left|right]. auto.
  - destruct Hout as [Hl _]. left. rewrite Hl. apply (drop_temp_frame (key_handle storage key)).
Qed.

Lemma stream_prepare_served key rid sum file (w w' : ReplicationClient Ch * Net) tid :
  ReplicationClient.stream_prepare_object sample key rid file sum w = (Some (Ok tid), w') ->
  exists ch n resp n', rt_stream_prepare ch (stream_chunks key rid sum file) n = (Ok resp, n') /\
    ps_success resp = true /\ ps_temp_id resp = tid.
Proof.
  unfold ReplicationClient.stream_prepare_object.
  intros [(ch & w1 & _ & Hrun)|[(e & _ & [=])|[_ [=]]]]%pbind_inv.
  apply pbind_inv in Hrun as [([] & w2 & _ & Hrun)|[(e & _ & [=])|[_ [=]]]].
  apply pbind_inv in Hrun as [(resp & w3 & Hsend & Hans)|[(e & _ & [=])|[_ [=]]]].
  destruct w2 as [c n]. unfold safe, on_net in Hsend.
  destruct (rt_stream_prepare ch _ n) as [[resp'|e] n'] eqn:Hr; simplify_eq/=.
  exists ch, n, resp, n'. split; [done|]. unfold answered, safe, lift in Hans.
  destruct (ps_success resp); by simplify_eq.
Qed.


(** An object of no bytes cannot be put on a cluster whose write quorum needs
    a replica: if every answer to a streamed prepare comes from a replication
    service, [put_object] never returns [Ok]. *)
Theorem replicated_put_empty_fails {F'} `{FileSystem F', !ReplicationStorage F'} key r s res s' :
  (forall ch cs (n : Net) resp n', rt_stream_prepare ch cs n = (Ok resp, n') ->
     exists now (svc : ReplicationService (F := F')),
       resp = (ReplicationService.stream_prepare_object now cs svc).1) ->
  clients (coord s) !! local_node_id (coord s) = None ->
  2 <= write_quorum (config (coord s)) -> read_to_end r = Ok [] ->
  Replicated.put_object sample elapsed sched hash_order storage quorum_config key r s = (res, s') ->
  res <> Some (Ok tt).
Proof.
  intros Hserved Hself Hq Hr Hput ->. unfold Replicated.put_object in Hput.
  apply pbind_inv in Hput as [(t & s1 & Hw & Hrun)|[(e & _ & [=])|[_ [=]]]].
  apply locally_inv in Hw as (x & f & Hw & [= <-] & ->).
  apply write_temp_Ok in Hw as (_ & -> & d & Hd & Hv). rewrite Hr in Hd. injection Hd as <-.
  apply (replicate_temp_outcome key []) in Hrun as (_ & rep & Hrep & Hcount);
    [|done|simpl; by rewrite Hv, lookup_insert_eq].
  apply streaming_counted in Hrep as ([|[n tid] oks] & _ & Hsc & _ & _ & Hoks); simpl in *; [lia| |done|done].
  destruct (Hoks n tid) as (w & w' & Hop); [set_solver|].
  apply stream_prepare_served in Hop as (ch & n0 & resp & n1 & Hsend & Hok & _).
  apply Hserved in Hsend as (now & svc & ->).
  assert (Hopen : forall rd, fs_open f (key_temp storage key) = Ok rd -> is_reader [] rd).
  { intros rd (b & Hb & Hrd)%fs_open_ok. by rewrite Hv, lookup_insert_eq in Hb; simplify_eq. }
  destruct (fs_open f (key_temp storage key)) as [rd|e]; [|done].
  by rewrite (empty_file_never_prepared now key _ _ rd svc (Hopen rd eq_refl)) in Hok.
Qed.
End theory.

(** ** A cluster in memory

    A network whose nodes run the replication service; the nodes of
    [broken_commit] fail every commit, those of [down] cannot be reached. *)
Module MemNet.
Import MemFs ToySha ReplWit.
#[local] Existing Instances ReplWit.impl ReplWit.impl_laws.
Record t : Type := mk {
  services : gmap string (ReplicationService (F := MemFs.t));
  broken_commit : gset string; down : gset string }.

Definition serve {A} (ch : string) (h : ReplicationService (F := MemFs.t) -> A * ReplicationService)
  : M t string A := fun n =>
  match services n !! ch with
  | Some svc => if bool_decide (ch ∈ down n) then (Err "transport error", n)
                else let '(a, svc') := h svc in (Ok a, mk (<[ch := svc']> (services n)) (broken_commit n) (down n))
  | None => (Err "transport error", n)
  end.

#[export] Instance transport : ReplTransport t string := {
  rt_connect addr _ _ _ n := if bool_decide (addr ∈ down n) then (Err "transport error", n) else (Ok addr, n);
  rt_ready _ n := (Ok tt, n);
  rt_prepare ch req := serve ch (ReplicationService.prepare_object 5 req);
  rt_commit ch req n :=
    if bool_decide (ch ∈ broken_commit n) then (Err "internal", n)
    else serve ch (ReplicationService.commit_object req) n;
  rt_abort ch req := serve ch (ReplicationService.abort_object req);
  rt_delete ch req := serve ch (ReplicationService.delete_object req);
  rt_exists ch req := serve ch (ReplicationService.object_exists req);
  rt_health ch := serve ch (fun svc => (ReplicationService.health_check 5 svc, svc));
  rt_stream_prepare ch cs := serve ch (ReplicationService.stream_prepare_object 5 cs);
  rt_read ch req n :=
    match serve ch (ReplicationService.read_object req) n with
    | (Ok (Ok cs), n') => (Ok (Ok <$> cs), n')
    | (Ok (Err e), n') => (Err (StorageError.to_string e), n')
    | (Err e, n') => (Err e, n')
    end;
}.

Lemma stream_prepare_answers ch cs (n : t) resp n' : rt_stream_prepare ch cs n = (Ok resp, n') ->
  exists now (svc : ReplicationService (F := MemFs.t)),
    resp = (ReplicationService.stream_prepare_object now cs svc).1.
Proof.
  simpl. unfold serve. destruct (services n !! ch) as [svc|]; [|done]. case_bool_decide; [done|].
  destruct (ReplicationService.stream_prepare_object 5 cs svc) as [a svc'] eqn:Hs.
  intros [= <- <-]. exists 5%N, svc. by rewrite Hs.
Qed.
End MemNet.

Module BackendWit.
Import MemFs ToySha ReplWit MemNet.
#[local] Existing Instances ReplWit.impl ReplWit.impl_laws.

Definition sample0 : spec_float -> spec_float -> spec_float := fun lo _ => lo.
Definition never : N -> ReplicationClient string * MemNet.t -> option (ReplicationClient string * MemNet.t) :=
  fun _ _ => None.
Definition cfg : QuorumConfig := with_replication_factor 3.
Definition nodes : list (N * string) := [(1, "n1"); (2, "n2"); (3, "n3")]%N.
Definition cluster (broken dead : gset string) : MemNet.t :=
  MemNet.mk {[ "n2" := service_new MemFs.empty 0; "n3" := service_new MemFs.empty 0 ]} broken dead.
Definition start (broken dead : gset string) : Coordinator.St (Ch := string) (Net := MemNet.t) (F := MemFs.t) :=
  mkSt (coordinator_new 1 cfg) (cluster broken dead) MemFs.empty [].
Definition backwards (l : list N) : list N := reverse l.
Definition no_files : string -> result io_error bytes := fun _ => Err MemFs.enoent.
Definition synced (broken dead : gset string) := sync_nodes backwards no_files nodes (start broken dead).
Definition put (broken dead : gset string) (d : bytes) :=
  Replicated.put_object sample0 never (fun l => l) backwards st cfg "b/k" (slice_reader d) (synced broken dead).2.

Lemma rev_perm (l : list N) : backwards l ≡ₚ l.
Proof. apply reverse_Permutation. Qed.

Lemma sync_nodes_exact_witness :
  (forall n, is_Some (clients (coord (synced ∅ ∅).2) !! n) <-> n ∈ nodes.*1 /\ n <> 1%N) /\
  (forall n c, n ∈ nodes.*1 -> clients (coord (start ∅ ∅)) !! n = Some c ->
     clients (coord (synced ∅ ∅).2) !! n = Some c) /\
  (forall n a, (n, a) ∈ nodes -> n <> 1%N -> clients (coord (start ∅ ∅)) !! n = None ->
     exists c, clients (coord (synced ∅ ∅).2) !! n = Some c /\ node_id c = n /\ addr c = a).
Proof.
  refine (sync_nodes_exact backwards rev_perm no_files nodes (start ∅ ∅) (synced ∅ ∅).2 _ _ _);
    [reflexivity| |apply run_eq; vm_compute; reflexivity].
  apply (bool_decide_unpack _). vm_compute. exact I.
Defined.

Lemma self_absent broken dead : broken = ∅ -> dead = ∅ \/ dead = {[ "n2"; "n3" ]} ->
  clients (coord (synced broken dead).2) !! local_node_id (coord (synced broken dead).2) = None.
Proof. intros -> [->| ->]; vm_compute; reflexivity. Qed.

(** All nodes up: the object is on every node. *)
Example put_all_nodes : (put ∅ ∅ data1).1 = Some (Ok tt) /\
  fs_view (local (put ∅ ∅ data1).2) !! rs_final "b/k" = Some data1 /\
  (forall a, a ∈ ["n2"; "n3"] ->
    (fun svc => fs_view (svc_fs svc) !! rs_final "b/k") <$> services (net (put ∅ ∅ data1).2) !! a = Some (Some data1)).
Proof.
  split_and!; [vm_compute; reflexivity..|]. intros a [->|[->|[]%not_elem_of_nil]%elem_of_cons]%elem_of_cons;
    vm_compute; reflexivity.
Qed.

Definition lw : LocalWrite MemFs.t :=
  mkLocalWrite (ObjectStorage.put_object st "b/k" (slice_reader data1)) (fun f => f).
Definition s_up := (synced ∅ ∅).2.
Definition rw := replicate_write sample0 never (fun l => l) backwards "b/k" data1 lw s_up.
Definition rws :=
  replicate_write_streaming sample0 never (fun l => l) backwards "b/k" (rs_temp "b/k") "" lw s_up.
Definition rdel := replicate_delete sample0 (fun l => l) backwards "b/k"
  (ObjectStorage.delete_object st "b/k") (put ∅ ∅ data1).2.

Lemma replicate_write_outcome_witness :
  two_phase_outcome sample0 never (fun l => l) backwards "b/k"
    (fun _ _ => ReplicationClient.prepare_object sample0 "b/k" data1 (compute_sha256 data1) (request_counter (coord s_up))) lw s_up (Some (Ok (mkReplicationResult 3 0 true [1; 3; 2]%N []))) rw.2.
Proof.
  refine (replicate_write_outcome sample0 never (fun l => l) backwards rev_perm "b/k" data1 lw s_up _ rw.2 _ _);
    [vm_compute; reflexivity|apply run_eq; vm_compute; reflexivity].
Defined.

(** No file to stream: nothing is prepared, quorum is missed. *)
Lemma replicate_write_streaming_outcome_witness :
  two_phase_outcome sample0 never (fun l => l) backwards "b/k"
    (fun _ f => ReplicationClient.stream_prepare_object sample0 "b/k" (request_counter (coord s_up)) (fs_open f (rs_temp "b/k")) "")
    lw s_up
    (Some (Ok (mkReplicationResult 1 2 false [1]%N
      [(3, "IO error: no chunks received"); (2, "IO error: no chunks received")]%N))) rws.2.
Proof.
  refine (replicate_write_streaming_outcome sample0 never (fun l => l) backwards rev_perm "b/k"
    (rs_temp "b/k") "" lw s_up _ rws.2 _ _);
    [vm_compute; reflexivity|apply run_eq; vm_compute; reflexivity].
Defined.

Lemma replicate_delete_outcome_witness :
  ObjectStorage.delete_object st "b/k" (local (put ∅ ∅ data1).2) = (Ok tt, local rdel.2).
Proof.
  refine (proj1 (replicate_delete_outcome sample0 never (fun l => l) backwards rev_perm "b/k"
    (ObjectStorage.delete_object st "b/k") (put ∅ ∅ data1).2
    (Some (Ok (mkReplicationResult 3 0 true [1; 3; 2]%N []))) rdel.2 _ _));
    [vm_compute; reflexivity|apply run_eq; vm_compute; reflexivity].
Defined.


Lemma replicated_put_empty_fails_witness : (put ∅ ∅ []).1 <> Some (Ok tt).
Proof.
  refine (replicated_put_empty_fails sample0 never (fun l => l) backwards rev_perm st cfg "b/k" (slice_reader [])
    s_up (put ∅ ∅ []).1 (put ∅ ∅ []).2 MemNet.stream_prepare_answers _ _ _ _);
    [vm_compute; reflexivity|apply Nat.leb_le; vm_compute; reflexivity|reflexivity|apply surjective_pairing].
Defined.

Lemma write_quorums_intersect_witness : exists x : N, x ∈ ({[1; 2]}%N : gset N) /\ x ∈ ({[2; 3]}%N : gset N).
Proof.
  refine (proj2 (write_quorums_intersect 3 {[1; 2; 3]}%N {[1; 2]}%N {[2; 3]}%N _ _ _ _ _));
    first [apply Nat.leb_le; vm_compute; reflexivity | set_solver].
Defined.

(** Commit failures are not reported: with the commits of both replicas
    failing, a put that needs two copies returns [Ok], and only the local node
    has the object. *)
Theorem commit_failures_unreported :
  write_quorum cfg = 2 /\ (put {[ "n2"; "n3" ]} ∅ data1).1 = Some (Ok tt) /\
  (forall a, a ∈ ["n2"; "n3"] ->
    (fun svc => fs_view (svc_fs svc) !! rs_final "b/k")
      <$> services (net (put {[ "n2"; "n3" ]} ∅ data1).2) !! a = Some None).
Proof.
  split_and!; [reflexivity|vm_compute; reflexivity|].
  intros a [->|[->|[]%not_elem_of_nil]%elem_of_cons]%elem_of_cons; vm_compute; reflexivity.
Qed.
End BackendWit.
