(* ===== verification/Factory.v ===== *)
(** * save-storage: the backend factory

    Models [crates/save-storage/src/factory.rs] and the conversion of the retry
    settings of [crates/save-common/src/lib.rs]. *)
From Stdlib Require Import SpecFloat.
From S2P Require Import Prelude Common Config Retry Kv Fs ObjectStorage ReplicationClient Coordinator.
From stdpp Require Import base gmap strings numbers list.

(** [From<&RetrySettings> for RetryConfig]. *)
Definition RetryConfig_from (s : RetrySettings) : RetryConfig :=
  mkRetryConfig (max_attempts s) (from_millis (initial_delay_ms s)) (from_millis (max_delay_ms s)) (F64.of_N 2) (jitter s).

(** [StorageSetup]: the backend over its storage, with the coordinator of a
    replicated one, which shares the storage with the replication service. *)
Inductive StorageSetup (Ch : Type) : Type :=
| LocalSetup (storage : ObjectStorage)
| ReplicatedSetup (storage : ObjectStorage) (coordinator : ReplicationCoordinator Ch) (quorum_config : QuorumConfig).
Arguments LocalSetup {Ch}. Arguments ReplicatedSetup {Ch}.

Section factory.
Context {F : Type} `{FileSystem F, Sha256} {Ch : Type}.

Definition secs (n : N) : N := (n * 1000000000)%N.

Definition create_storage_backend (data_path : PathBuf) (fsync_mode : string) (cluster_config : ClusterConfig)
  : M F StorageError.t (StorageSetup Ch) :=
  let factor := Config.replication_factor (replication cluster_config) in
  if (factor <=? 1)%N then
    storage ← new_with_fsync_mode data_path fsync_mode;
    mret (LocalSetup storage)
  else
    storage ← new_with_fsync_mode data_path fsync_mode;
    let quorum_config := with_replication_factor (N.to_nat factor) in
    let coordinator := coordinator_with_retry_config
      (coordinator_with_timeouts (cluster_node_id cluster_config) quorum_config
         (secs (connect_timeout_secs cluster_config)) (secs (rpc_timeout_secs cluster_config)))
      (RetryConfig_from (retry (replication cluster_config))) in
    mret (ReplicatedSetup storage coordinator quorum_config).
End factory.

(** The backend that is made: a local one when the factor is at most one;
    otherwise a replicated one whose coordinator has the same quorum, a majority
    of the factor, no clients yet, and no TLS, whatever the configuration says.
    Making it changes no file. *)
Theorem create_storage_backend_exact {F} `{FileSystemLaws F, Sha256} {Ch} p mode cfg (f : F) r f' :
  create_storage_backend (Ch := Ch) p mode cfg f = (r, f') ->
  fs_view f' = fs_view f /\
  match r with
  | Ok (LocalSetup st) => (Config.replication_factor (replication cfg) <= 1)%N /\ base_path (layout st) = p
  | Ok (ReplicatedSetup st co q) => (1 < Config.replication_factor (replication cfg))%N /\ base_path (layout st) = p /\
      config co = q /\ N.to_nat (Config.replication_factor (replication cfg)) < 2 * write_quorum q /\
      clients co = ∅ /\ co_tls_config co = None
  | Err _ => True
  end.
Proof.
  assert (Hk : keeps (fun f f' : F => fs_view f' = fs_view f) (new_with_fsync_mode p mode)).
  { unfold new_with_fsync_mode. apply keeps_bind; [apply _|apply keeps_io, fs_create_dir_all_view|intros _].
    apply keeps_bind; [apply _|apply keeps_io, fs_create_dir_all_view|intros _]. apply keeps_ret, _. }
  assert (Hb : forall f st f', new_with_fsync_mode p mode f = (Ok st, f') -> base_path (layout st) = p).
  { intros g st g' [(u & g1 & _ & [(u' & g2 & _ & [= <- _])|(e & _ & [=])]%bind_inv)|(e & _ & [=])]%bind_inv. done. }
  unfold create_storage_backend. destruct (N.leb_spec (Config.replication_factor (replication cfg)) 1) as [Hf|Hf];
    intros [(st & f1 & Hn & [= <- <-])|(e & Hn & ->)]%bind_inv; (split; [by eapply Hk|]); try done.
  - split; [done|by eapply Hb].
  - split_and!; [done|by eapply Hb|done| |done|done]. set (n := N.to_nat _). change (write_quorum _) with (n / 2 + 1).
    pose proof (Nat.div_mod_eq n 2). pose proof (Nat.mod_upper_bound n 2). lia.
Qed.

(** ** Witness *)
Module FactoryWit.
Import MemFs ToySha.
Definition cfg3 : ClusterConfig :=
  let d := ClusterConfig_default in
  mkClusterConfig 1 (raft_bind_addr d) [] (consistency_mode d) (connect_timeout_secs d)
    (rpc_timeout_secs d) (heartbeat_interval_ms d) (election_timeout_min_ms d) (election_timeout_max_ms d)
    (join_timeout_secs d) (leave_timeout_secs d) (learner_catchup_delay_ms d) (join_max_retries d)
    (mkReplicationConfig 3 DEFAULT_REPLICATION_BIND (Some (mkTlsConfig "c" "k" "a")) RetrySettings_default 300 3600)
    (internal_api d).
Lemma create_storage_backend_exact_witness : exists st co q f,
  create_storage_backend (Ch := unit) ["data"] "data" cfg3 MemFs.empty = (Ok (ReplicatedSetup st co q), f) /\
  3 < 2 * write_quorum q /\ co_tls_config co = None.
Proof.
  destruct (create_storage_backend (Ch := unit) ["data"] "data" cfg3 MemFs.empty) as [r f] eqn:Hrun.
  pose proof (create_storage_backend_exact ["data"] "data" cfg3 MemFs.empty r f Hrun) as [_ Hr].
  vm_compute in Hrun. injection Hrun as <- <-. destruct Hr as (_ & _ & _ & Hq & _ & Ht).
  do 4 eexists. split; [reflexivity|]. split; [exact Hq|exact Ht].
Defined.
End FactoryWit.
