(* ===== verification/StorageBackend.v ===== *)
(** * save-storage: the trait [StorageBackend]

    The interface of [crates/save-storage/src/backend.rs] that the HTTP handlers
    are written against, its contract ([StorageBackendLaws]), and the proofs that
    both backends of Backends.v meet it.  [None] as an answer is a panic. *)
From Stdlib Require Import Strings.Byte Floats.SpecFloat.
From S2P Require Import Prelude Common Config Retry Kv Fs ObjectStorage ReplicationService ReplicationClient.
From S2P Require Import Coordinator Backends.
From stdpp Require Import base gmap strings numbers list.

Class StorageBackend (B F : Type) : Type := {
  sb_put_object : string -> Reader -> PM B StorageError.t unit;
  sb_get_object : string -> PM B StorageError.t Reader;
  sb_delete_object : string -> PM B StorageError.t unit;
  sb_write_temp_object : string -> Reader -> PM B StorageError.t TempHandle;
  sb_commit_object : TempHandle -> PM B StorageError.t unit;
  sb_health_check : PM B StorageError.t Backends.HealthStatus;
  sb_temp_dir : PathBuf;
  (** The node's file system, which the multipart handlers use as well. *)
  sb_fs : B -> F;
  sb_set_fs : B -> F -> B;
}.

(** The contract, for the states [sb_ok] that the backend keeps.  A key's object
    is the file [sb_final], written through [sb_temp]. *)
Class StorageBackendLaws (B F : Type) `{FileSystemLaws F, StorageBackend B F} : Type := {
  sb_ok : B -> Prop;
  sb_final : string -> PathBuf;
  sb_temp : string -> PathBuf;
  sb_handle : string -> TempHandle;
  sb_temp_not_final : forall k k', sb_temp k <> sb_final k';
  sb_fs_set : forall b f, sb_fs (sb_set_fs b f) = f;
  sb_ok_set : forall b f, sb_ok b -> sb_ok (sb_set_fs b f);
  sb_write_temp_keeps : forall k r b x b', sb_ok b -> sb_write_temp_object k r b = (x, b') ->
    sb_ok b' /\ same_but (sb_temp k) (sb_fs b) (sb_fs b');
  sb_write_temp_ok : forall k r b h b', sb_ok b -> sb_write_temp_object k r b = (Some (Ok h), b') ->
    h = sb_handle k /\ exists d, read_to_end r = Ok d /\
    fs_view (sb_fs b') = <[sb_temp k := d]> (fs_view (sb_fs b));
  sb_commit_keeps : forall k b x b', sb_ok b -> sb_commit_object (sb_handle k) b = (x, b') -> sb_ok b';
  sb_commit_done : forall k b b' d, sb_ok b -> fs_view (sb_fs b) !! sb_temp k = Some d ->
    sb_commit_object (sb_handle k) b = (Some (Ok tt), b') ->
    fs_view (sb_fs b') = <[sb_final k := d]> (delete (sb_temp k) (fs_view (sb_fs b)));
  sb_commit_failed : forall k b x b' d, sb_ok b -> fs_view (sb_fs b) !! sb_temp k = Some d ->
    sb_commit_object (sb_handle k) b = (x, b') -> x <> Some (Ok tt) ->
    same_but (sb_temp k) (sb_fs b) (sb_fs b') \/
    fs_view (sb_fs b') = <[sb_final k := d]> (delete (sb_temp k) (fs_view (sb_fs b)));
  sb_get_keeps : forall k b x b', sb_ok b -> sb_get_object k b = (x, b') ->
    sb_ok b' /\ same_view (sb_fs b) (sb_fs b');
  sb_get_ok : forall k b r b' d, sb_ok b -> sb_get_object k b = (Some (Ok r), b') ->
    fs_view (sb_fs b) !! sb_final k = Some d -> is_reader d r;
  sb_delete_keeps : forall k b x b', sb_ok b -> sb_delete_object k b = (x, b') ->
    sb_ok b' /\ (x <> Some (Ok tt) -> same_view (sb_fs b) (sb_fs b'));
  sb_delete_ok : forall k b b', sb_ok b -> sb_delete_object k b = (Some (Ok tt), b') ->
    fs_view (sb_fs b') = delete (sb_final k) (fs_view (sb_fs b));
}.

Lemma safe_inv {S E A} (c : M S E A) s r s' : safe c s = (r, s') -> exists x, r = Some x /\ c s = (x, s').
Proof. unfold safe. destruct (c s) as [x t]. intros [= <- <-]. eauto. Qed.

Lemma storage_delete_spec {F} `{FileSystemLaws F, Sha256} (st : ObjectStorage) k f r f' :
  ObjectStorage.delete_object st k f = (r, f') ->
  match r with Ok _ => fs_view f' = delete (key_final st k) (fs_view f) | Err _ => same_view f f' end.
Proof.
  unfold delete_object.
  intros [(p & ? & [Hp%object_path_Ok ->]%lift_inv & Hr)|(e & [_ ->]%lift_inv & ->)]%bind_inv; [|done].
  subst p. apply with_err_inv in Hr as ([[]|e] & Hr & ->); simpl; [by apply fs_remove_ok in Hr as [_ ?]|].
  by apply fs_remove_err in Hr.
Qed.

(** ** The local backend *)
Section local.
Context {F : Type} `{FileSystemLaws F, Sha256} (st : ObjectStorage).

Definition local_backend : StorageBackend F F := {|
  sb_put_object k r := safe (Local.put_object st k r);
  sb_get_object k := safe (Local.get_object st k);
  sb_delete_object k := safe (Local.delete_object st k);
  sb_write_temp_object k r := safe (Local.write_temp_object st k r);
  sb_commit_object h := safe (Local.commit_object st h);
  sb_health_check := safe (Local.health_check st);
  sb_temp_dir := storage_temp_dir st;
  sb_fs f := f;
  sb_set_fs _ f := f;
|}.

Lemma local_write_temp_inv k r (f : F) x f' : Local.write_temp_object st k r f = (x, f') ->
  same_but (key_temp st k) f f' /\ forall h, x = Ok h -> h = LocalTempHandle (key_handle st k) /\
    exists d, read_to_end r = Ok d /\ fs_view f' = <[key_temp st k := d]> (fs_view f).
Proof.
  intros [(t & g & Ht & [= <- <-])|(e & Ht & ->)]%bind_inv.
  - split; [by eapply write_temp_frame|]. apply write_temp_Ok in Ht as (_ & -> & d & Hd & Hv).
    intros h [= <-]. eauto.
  - split; [by eapply write_temp_frame|done].
Qed.

#[local] Existing Instance local_backend.
Definition local_backend_laws : StorageBackendLaws F F.
Proof.
  refine {| sb_ok _ := True; sb_final := key_final st; sb_temp := key_temp st;
            sb_handle k := LocalTempHandle (key_handle st k) |}; simpl.
  - apply key_temp_not_final.
  - done.
  - done.
  - intros k r f x f' _ (y & -> & Hw)%safe_inv. split; [done|]. by eapply local_write_temp_inv.
  - intros k r f h f' _ (y & [= <-] & Hw)%safe_inv. by apply local_write_temp_inv in Hw as [_ ?]; auto.
  - done.
  - intros k f f' d _ Hd (y & [= <-] & Hc)%safe_inv. by eapply commit_Ok.
  - intros k f x f' d _ Hd (y & -> & Hc)%safe_inv Hne. destruct y as [[]|e]; [done|].
    apply commit_Err in Hc as [?|[_ Hc]]; [by left|right; auto].
  - intros k f x f' _ (y & -> & Hg)%safe_inv. split; [done|].
    destruct y; [by apply get_object_Ok in Hg as [-> _]|by apply get_object_Err in Hg as [-> _]].
  - intros k f r f' d _ (y & [= <-] & Hg)%safe_inv Hd.
    apply get_object_Ok in Hg as (_ & b & Hb & ?). by rewrite Hd in Hb; simplify_eq.
  - intros k f x f' _ (y & -> & Hd)%safe_inv. split; [done|]. intros Hne.
    apply storage_delete_spec in Hd. by destruct y as [[]|].
  - intros k f f' _ (y & [= <-] & Hd)%safe_inv. by apply storage_delete_spec in Hd.
Defined.
End local.

(** ** The replicated backend *)
Section replicated.
Context {F Net Ch : Type} `{FileSystemLaws F, Sha256, ReplTransport Net Ch}
  (sample : spec_float -> spec_float -> spec_float)
  (elapsed : N -> ReplicationClient Ch * Net -> option (ReplicationClient Ch * Net))
  (sched hash_order : list N -> list N) (hash_perm : forall l, hash_order l ≡ₚ l)
  (st : ObjectStorage) (quorum_config : QuorumConfig).
Abbreviation St := (Coordinator.St (F := F) (Net := Net) (Ch := Ch)).
Implicit Types s : St.

Definition replicated_backend : StorageBackend St F := {|
  sb_put_object := Replicated.put_object sample elapsed sched hash_order st quorum_config;
  sb_get_object := Replicated.get_object sample elapsed hash_order st;
  sb_delete_object := Replicated.delete_object sample sched hash_order st;
  sb_write_temp_object := Replicated.write_temp_object st;
  sb_commit_object := Replicated.commit_object sample elapsed sched hash_order st quorum_config;
  sb_health_check := Replicated.health_check hash_order st quorum_config;
  sb_temp_dir := storage_temp_dir st;
  sb_fs := local;
  sb_set_fs := set_local;
|}.

(** What no operation changes: the node's id and the set of its clients. *)
Definition same_members s s' : Prop :=
  local_node_id (coord s') = local_node_id (coord s) /\
  forall n, is_Some (clients (coord s') !! n) <-> is_Some (clients (coord s) !! n).
#[local] Instance same_members_preorder : PreOrder same_members.
Proof. split; [done|]. intros s s1 s2 [? Ha] [? Hb]. split; [congruence|]. intros n. by rewrite Hb. Qed.

Lemma self_kept s s' : same_members s s' -> clients (coord s) !! local_node_id (coord s) = None ->
  clients (coord s') !! local_node_id (coord s') = None.
Proof. intros [-> Hd] Hn. apply eq_None_not_Some. rewrite Hd, Hn. by intros [? ?]. Qed.
Lemma members_of_cluster s s' : same_cluster s s' -> same_members s s'.
Proof. by intros []. Qed.
Lemma locally_members {A} (c : M F StorageError.t A) : pkeeps same_members (Replicated.locally c).
Proof. intros s r s' (x & f & _ & _ & ->)%locally_inv. done. Qed.
Lemma join_members {A} ids (op : N -> F -> PM (ReplicationClient Ch * Net) StorageError.t A) s rs s' :
  Coordinator.join sched ids op s = (rs, s') -> same_members s s'.
Proof. intros Hj. apply (join_cluster elapsed) in Hj as [? _]. by apply members_of_cluster. Qed.

Lemma complete_members pr (lw : LocalWrite F) : pkeeps same_members (complete_2pc_write sample sched hash_order pr lw).
Proof.
  intros s r s'. unfold complete_2pc_write. case_match; [by intros [= _ <-]|].
  destruct (lw_run lw (local s)) as [[[]|e] f]; [|by intros [= _ <-]].
  unfold commit_all, mbind, PM_bind. destruct (Coordinator.join _ _ _ _) as [cs s1] eqn:Hj. intros [= _ <-].
  apply join_members in Hj. by trans (set_local s f).
Qed.

Lemma streaming_members key p sum (lw : LocalWrite F) :
  pkeeps same_members (replicate_write_streaming sample elapsed sched hash_order key p sum lw).
Proof.
  intros s r s'. unfold replicate_write_streaming, holding.
  destruct ((request_id ← next_request_id; _) s) as [r0 s0] eqn:Hrun.
  assert (Hs : same_members s s0).
  { clear r s'. revert s r0 s0 Hrun. apply pkeeps_bind; [apply _|by intros s r s' [= _ <-]|intros rid].
    intros s r s'. unfold asking. revert s r s'.
    intros s r s' [(ns & s1 & Hsel & Hrun)|[(e & Hsel & _)|[Hsel _]]]%pbind_inv;
      apply (select_spec _ _ _ hash_perm) in Hsel as [Hs _]; [|by apply members_of_cluster..].
    trans s1; [by apply members_of_cluster|].
    apply pbind_inv in Hrun as [(rs & s2 & Hp & Hrun)|[(e & Hp & _)|[Hp _]]];
      unfold stream_prepare_all in Hp; destruct (Coordinator.join _ _ _ _) as [rs' s3] eqn:Hj; simplify_eq.
    apply join_members in Hj. trans s2; [done|]. by eapply complete_members. }
  destruct r0 as [r0|]; intros [= _ <-]; done.
Qed.

Lemma replicate_temp_members key t :
  pkeeps same_members (Replicated.replicate_temp sample elapsed sched hash_order st quorum_config key t).
Proof.
  unfold Replicated.replicate_temp. apply pkeeps_bind; [apply _|apply locally_members|intros sum].
  apply pkeeps_bind; [apply _|apply streaming_members|intros res].
  destruct (negb _); [apply locally_members|apply pkeeps_ret, _].
Qed.

#[local] Instance cluster_preorder : PreOrder (same_cluster (F := F) (Net := Net) (Ch := Ch)) :=
  same_cluster_preorder elapsed.
Lemma read_loop_cluster req key ids att : pkeeps same_cluster (read_loop sample elapsed req key ids att : PM St _ _).
Proof.
  revert att. induction ids as [|n ids IH]; intros att; simpl; [by intros s r s' [= _ <-]|].
  apply pkeeps_bind; [apply _|apply health_of_cluster|intros ok].
  destruct (negb ok); [apply IH|]. intros s r s'.
  destruct (on_client n (read_object_stream sample key) s) as [[[rd|e]|] s1] eqn:Hc; apply (on_client_cluster elapsed) in Hc.
  - case_match; [by intros [= _ <-]|]. intros Hr%IH. by trans s1.
  - intros Hr%IH. by trans s1.
  - by intros [= _ <-].
Qed.

Lemma replicated_get_inv k s x s' : Replicated.get_object sample elapsed hash_order st k s = (x, s') ->
  same_members s s' /\ same_view (local s) (local s') /\
  forall r d, x = Some (Ok r) -> fs_view (local s) !! key_final st k = Some d -> is_reader d r.
Proof.
  unfold Replicated.get_object.
  destruct (Replicated.locally (ObjectStorage.get_object st k) s) as [y s1] eqn:Hl.
  apply locally_inv in Hl as (z & f & Hg & -> & ->). destruct z as [rd|e].
  - intros [= <- <-]. apply get_object_Ok in Hg as (-> & b & Hb & Hr). split_and!; [done..|].
    intros r d [= <-] Hd. by rewrite Hd in Hb; simplify_eq.
  - apply get_object_Err in Hg as [-> He]. replace (set_local s (local s)) with s by by destruct s.
    destruct e; try (intros [= <- <-]; by split_and!).
    destruct He as [(? & _ & [=])|[[_ Hn]|(? & [=] & _)]].
    intros Hrun. assert (Hc : same_cluster s s').
    { apply pbind_inv in Hrun as [(o & s1 & Hr & Hrun)|[(e & Hr & _)|[Hr _]]];
        apply read_loop_cluster in Hr; [|done..].
      apply locally_inv in Hrun as (? & f & Hf & _ & ->). injection Hf as _ <-.
      by replace (set_local s1 (local s1)) with s1 by by destruct s1. }
    split_and!; [by apply members_of_cluster|destruct Hc as [_ _ _ Hl _]; by rewrite Hl|]. congruence.
Qed.

Lemma replicated_delete_inv k s x s' : Replicated.delete_object sample sched hash_order st k s = (x, s') ->
  same_members s s' /\
  match x with
  | Some (Ok _) => fs_view (local s') = delete (key_final st k) (fs_view (local s))
  | _ => same_view (local s) (local s')
  end.
Proof.
  assert (Hrun : forall x s', replicate_delete sample sched hash_order k (ObjectStorage.delete_object st k) s = (x, s') ->
    same_members s s' /\
    match x with
    | Some (Ok res) => 0 < success_count res /\
        fs_view (local s') = delete (key_final st k) (fs_view (local s))
    | Some (Err _) => same_view (local s) (local s')
    | None => False
    end).
  { clear x s'. intros x s'. unfold replicate_delete.
    intros [(rid & s1 & [= _ <-] & Hrun)|[(e & [=] & _)|[[=] _]]]%pbind_inv. unfold asking in Hrun. simpl in Hrun.
    destruct (ObjectStorage.delete_object st k (local s)) as [[[]|e] f] eqn:Hd; apply storage_delete_spec in Hd.
    - destruct (Coordinator.join _ _ _ _) as [rs s2] eqn:Hj. simplify_eq.
      apply (join_cluster elapsed) in Hj as [[? ? ? Hloc ?] _]. simpl in *. split; [done|].
      split; [lia|]. by rewrite Hloc.
    - simplify_eq. done. }
  unfold Replicated.delete_object.
  intros [(res & s1 & Hr%Hrun & Hend)|[(e & Hr%Hrun & ->)|[Hr%Hrun ->]]]%pbind_inv; [|done|by destruct Hr].
  destruct Hr as [Hm [Hpos Hv]]. destruct (Nat.eqb_spec (success_count res) 0); [lia|].
  injection Hend as <- <-. done.
Qed.

#[local] Existing Instance replicated_backend.
Definition replicated_backend_laws : StorageBackendLaws St F.
Proof.
  refine {| sb_ok s := clients (coord s) !! local_node_id (coord s) = None;
            sb_final := key_final st; sb_temp := key_temp st;
            sb_handle k := ReplicatedTempHandle (key_handle st k) k |}; simpl.
  - apply key_temp_not_final.
  - done.
  - done.
  - intros k r s x s' Hok.
    intros [(t & s1 & Hw & [= _ <-])|[(e & Hw & _)|[Hw _]]]%pbind_inv;
      apply locally_inv in Hw as (y & f & Hw & _ & ->); (split; [done|]); by eapply write_temp_frame.
  - intros k r s h s' Hok.
    intros [(t & s1 & Hw & [= <- <-])|[(e & _ & [=])|[_ [=]]]]%pbind_inv.
    apply locally_inv in Hw as (y & f & Hw & [= <-] & ->). by apply write_temp_Ok in Hw as (_ & -> & ?).
  - intros k s x s' Hok Hc%replicate_temp_members. by apply (self_kept s).
  - intros k s s' d Hok Hd Hc. by apply (replicate_temp_outcome _ _ _ _ hash_perm _ _ k d) in Hc as [? _].
  - intros k s x s' d Hok Hd Hc Hne. apply (replicate_temp_outcome _ _ _ _ hash_perm _ _ k d) in Hc; [|done..].
    destruct x as [[[]|e]|]; [done|..]; naive_solver.
  - intros k s x s' Hok (Hm & ? & _)%replicated_get_inv. split; [by apply (self_kept s)|done].
  - intros k s r s' d Hok (_ & _ & Hr)%replicated_get_inv. by apply Hr.
  - intros k s x s' Hok [Hm Hx]%replicated_delete_inv. split; [by apply (self_kept s)|].
    destruct x as [[[]|]|]; done.
  - intros k s s' Hok Hd. by apply replicated_delete_inv in Hd as [_ ?].
Defined.
End replicated.
