(* ===== verification/FsDirs.v ===== *)
(** * Directories

    The calls on directories, as a second interface next to [FileSystem]: the
    handlers of multipart uploads and the garbage collector use them.  The last
    section models [list_temp_files] of [crates/save-storage/src/lib.rs], whose
    walk over the directory tree is bounded by the number of directories. *)
From Stdlib Require Import Strings.Byte Ascii.
From S2P Require Import Prelude Kv Fs ObjectStorage.
From stdpp Require Import base gmap strings numbers list.

(** An entry of a directory: its path, what [metadata] and [modified] give
    (times are nanoseconds since the epoch). *)
Record DirEntry : Type := mkDirEntry {
  de_path : PathBuf; de_metadata : result io_error Metadata; de_modified : option N }.

Definition entry_path (r : result io_error DirEntry) : option PathBuf :=
  match r with Ok e => Some (de_path e) | Err _ => None end.

Class DirFs (F : Type) : Type := {
  fs_read_dir : F -> PathBuf -> result io_error (list (result io_error DirEntry));
  fs_remove_dir : PathBuf -> M F io_error unit;
  fs_remove_dir_all : PathBuf -> M F io_error unit;
}.

Class DirFsLaws (F : Type) `{FileSystemLaws F, DirFs F} : Type := {
  fs_dirs : F -> gset PathBuf;
  fs_mtime : F -> PathBuf -> option N;
  fs_read_dir_child : forall f p es e, fs_read_dir f p = Ok es -> Ok e ∈ es ->
    exists name, de_path e = path_join p name;
  fs_read_dir_is_dir : forall f p es, fs_read_dir f p = Ok es -> p ∈ fs_dirs f;
  fs_read_dir_distinct : forall f p es, fs_read_dir f p = Ok es -> NoDup (omap entry_path es);
  fs_read_dir_file : forall f p es e m, fs_read_dir f p = Ok es -> Ok e ∈ es ->
    de_metadata e = Ok m -> is_file m = true ->
    is_Some (fs_view f !! de_path e) /\ de_modified e = fs_mtime f (de_path e);
  fs_read_dir_dir : forall f p es e m, fs_read_dir f p = Ok es -> Ok e ∈ es ->
    de_metadata e = Ok m -> is_file m = false -> is_dir m = true -> de_path e ∈ fs_dirs f;
  fs_read_dir_has_file : forall f p es name, fs_read_dir f p = Ok es -> Forall (fun e => is_ok e = true) es ->
    is_Some (fs_view f !! path_join p name) ->
    exists e, Ok e ∈ es /\ de_path e = path_join p name /\ forall m, de_metadata e = Ok m -> is_file m = true;
  fs_read_dir_has_dir : forall f p es name, fs_read_dir f p = Ok es -> Forall (fun e => is_ok e = true) es ->
    path_join p name ∈ fs_dirs f -> fs_view f !! path_join p name = None ->
    exists e, Ok e ∈ es /\ de_path e = path_join p name /\
      forall m, de_metadata e = Ok m -> is_file m = false /\ is_dir m = true;
  fs_dirs_exist : forall f p, p ∈ fs_dirs f -> fs_exists f p = true;
  fs_remove_dir_view : forall p, keeps (fun f f' => fs_view f' = fs_view f) (fs_remove_dir p);
  fs_remove_dir_all_ok : forall p f f', fs_remove_dir_all p f = (Ok tt, f') ->
    fs_view f' = filter (fun kv => ~ p `prefix_of` kv.1) (fs_view f);
  fs_remove_dir_all_frame : forall p f r f' x, fs_remove_dir_all p f = (r, f') ->
    ~ p `prefix_of` x -> fs_view f' !! x = fs_view f !! x;
}.

(** Every file lies in a directory, up to the root. *)
Definition tree_wf {F} `{DirFsLaws F} (f : F) : Prop :=
  forall p q, q <> [] -> is_Some (fs_view f !! (p ++ q)) -> p ∈ fs_dirs f.
(** A path is not both a file and a directory. *)
Definition kinds_wf {F} `{DirFsLaws F} (f : F) : Prop :=
  forall p, p ∈ fs_dirs f -> fs_view f !! p = None.

(** ** [list_temp_files] *)
Section list_temp.
Context {F : Type} `{FileSystem F, DirFs F}.

(** The entries of one directory: the files with their times, and the
    directories pushed on the stack. *)
Fixpoint scan_entries (entries : list (result io_error DirEntry)) (files : list (PathBuf * N))
    (stack : list PathBuf) : result StorageError.t (list (PathBuf * N) * list PathBuf) :=
  match entries with
  | [] => Ok (files, stack)
  | Err e :: _ => Err (StorageError.Io e)
  | Ok entry :: rest =>
      m ← map_err StorageError.Io (de_metadata entry);
      if is_file m then
        scan_entries rest
          match de_modified entry with
          | Some t => files ++ [(de_path entry, t)] | None => files end stack
      else if is_dir m then scan_entries rest files (de_path entry :: stack)
      else scan_entries rest files stack
  end.

(** [while let Some(dir) = dirs_to_process.pop()]: the stack's top is its head. *)
Fixpoint list_loop (fuel : nat) (f : F) (stack : list PathBuf) (files : list (PathBuf * N))
  : option (result StorageError.t (list (PathBuf * N))) :=
  match fuel with
  | O => None
  | S fuel' =>
      match stack with
      | [] => Some (Ok files)
      | dir :: stack' =>
          match fs_read_dir f dir with
          | Err e => Some (Err match kind e with
                               | NotFoundKind => StorageError.NotFound ("/" +:+ join_str "/" dir)
                               | OtherKind => StorageError.Io e end)
          | Ok entries =>
              match scan_entries entries files stack' with
              | Ok (files', stack'') => list_loop fuel' f stack'' files'
              | Err e => Some (Err e)
              end
          end
      end
  end.

Definition list_temp_files (fuel : nat) (f : F) (temp_dir : PathBuf)
  : option (result StorageError.t (list (PathBuf * N))) :=
  if negb (fs_exists f temp_dir) then Some (Ok []) else list_loop fuel f [temp_dir] [].
End list_temp.

(** ** The walk ends, and finds the files *)
Section walk.
Context {F : Type} `{DirFsLaws F}.
Implicit Types (f : F) (files : list (PathBuf * N)).

(** The directories below [d]. *)
Definition below f (d : PathBuf) : gset PathBuf := filter (fun p => d `prefix_of` p) (fs_dirs f).
Fixpoint weight f (stack : list PathBuf) : nat :=
  match stack with [] => 0 | d :: s => size (below f d) + weight f s end.

Lemma weight_app f s t : weight f (s ++ t) = weight f s + weight f t.
Proof. induction s as [|d s IH]; simpl; [done|]. rewrite IH. lia. Qed.

Definition entry_dir (r : result io_error DirEntry) : option PathBuf :=
  match r with
  | Ok e => match de_metadata e with
            | Ok m => if is_file m then None else if is_dir m then Some (de_path e) else None
            | Err _ => None end
  | Err _ => None
  end.
Definition entry_file (r : result io_error DirEntry) : option (PathBuf * N) :=
  match r with
  | Ok e => match de_metadata e with
            | Ok m => if is_file m then (fun t => (de_path e, t)) <$> de_modified e else None
            | Err _ => None end
  | Err _ => None
  end.
Definition entry_ok (r : result io_error DirEntry) : bool :=
  match r with Ok e => is_ok (de_metadata e) | Err _ => false end.

Lemma scan_entries_spec es files stack files' stack' :
  scan_entries es files stack = Ok (files', stack') ->
  files' = files ++ omap entry_file es /\ stack' = reverse (omap entry_dir es) ++ stack /\
  Forall (fun r => entry_ok r = true) es.
Proof.
  revert files stack. induction es as [|[e|e] es IH]; intros files stack; simpl.
  - intros [= <- <-]. by rewrite app_nil_r.
  - destruct (de_metadata e) as [m|] eqn:Hm; simpl; [|done]. destruct (is_file m) eqn:Hf.
    + intros (-> & -> & Hall)%IH. split_and!; [|done|constructor; [simpl; by rewrite Hm|done]].
      destruct (de_modified e); simpl; [by rewrite <- app_assoc|done].
    + destruct (is_dir m); intros (-> & -> & Hall)%IH;
        (split_and!; [done| |constructor; [simpl; by rewrite Hm|done]]); [|done].
      rewrite reverse_cons. by rewrite <- app_assoc.
  - done.
Qed.

Lemma omap_dir_inv (es : list (result io_error DirEntry)) p : p ∈ omap entry_dir es -> exists e m, Ok e ∈ es /\ de_metadata e = Ok m /\
  is_file m = false /\ is_dir m = true /\ de_path e = p.
Proof.
  intros (r & Hr & Hp)%list_elem_of_omap. destruct r as [e|]; [|done]. simpl in Hp.
  destruct (de_metadata e) as [m|] eqn:Hm; [|done]. destruct (is_file m) eqn:?; [done|].
  destruct (is_dir m) eqn:?; [|done]. exists e, m. by simplify_eq.
Qed.
Lemma omap_file_inv (es : list (result io_error DirEntry)) p t : (p, t) ∈ omap entry_file es -> exists e m, Ok e ∈ es /\ de_metadata e = Ok m /\
  is_file m = true /\ de_path e = p /\ de_modified e = Some t.
Proof.
  intros (r & Hr & Hp)%list_elem_of_omap. destruct r as [e|]; [|done]. simpl in Hp.
  destruct (de_metadata e) as [m|] eqn:Hm; [|done]. destruct (is_file m) eqn:?; [|done].
  destruct (de_modified e) eqn:?; [|done]. exists e, m. by simplify_eq/=.
Qed.

Lemma prefix_snoc_cases (p : PathBuf) x y q :
  p ++ [x] `prefix_of` q -> p ++ [y] `prefix_of` q -> x = y.
Proof. intros [k ->] [k' Hk]. rewrite <- !app_assoc in Hk. by simplify_eq/=. Qed.

(** The subdirectories of a directory weigh less than it. *)
Lemma children_weight f d (ps : list PathBuf) : d ∈ fs_dirs f -> NoDup ps ->
  (forall p, p ∈ ps -> p ∈ fs_dirs f /\ exists name, p = path_join d name) ->
  weight f ps < size (below f d).
Proof.
  intros Hd Hnd Hps.
  assert (Hsub : forall p q, p ∈ ps -> q ∈ below f p -> q ∈ below f d ∖ {[ d ]}).
  { intros p q Hp [Hq Hqd]%elem_of_filter. destruct (Hps p Hp) as [_ [n ->]]. unfold path_join in Hq.
    apply elem_of_difference. split.
    - apply elem_of_filter. split; [|done]. etrans; [|exact Hq]. by apply prefix_app_r.
    - intros ->%elem_of_singleton. apply prefix_length in Hq. rewrite length_app in Hq. simpl in Hq. lia. }
  assert (Hle : weight f ps <= size (below f d ∖ {[ d ]})).
  { clear Hd. generalize dependent (below f d ∖ {[ d ]}). intros X Hsub.
    revert X Hsub. induction ps as [|p ps IH]; intros X Hsub; simpl; [lia|].
    apply NoDup_cons in Hnd as [Hp Hnd].
    assert (Hle : weight f ps <= size (X ∖ below f p)).
    { apply IH; [done|intros q Hq; apply Hps; by right|]. intros q x Hq Hx.
      apply elem_of_difference. split; [apply (Hsub q); [by right|done]|].
      intros Hx'. apply elem_of_filter in Hx as [Hx _]. apply elem_of_filter in Hx' as [Hx' _].
      destruct (Hps p) as [_ [n Hn]]; [by left|]. destruct (Hps q) as [_ [n' Hn']]; [by right|]. subst p q.
      rewrite (prefix_snoc_cases _ _ _ _ Hx Hx') in Hq. done. }
    assert (Hsubp : below f p ⊆ X) by (intros x Hx; apply (Hsub p); [by left|done]).
    rewrite (union_difference_L _ _ Hsubp), size_union by set_solver. lia. }
  assert (Hin : d ∈ below f d) by by apply elem_of_filter.
  rewrite size_difference in Hle by set_solver. rewrite size_singleton in Hle.
  assert (size (below f d) <> 0) by (intros He%size_empty_inv; set_solver). lia.
Qed.

Lemma entry_dirs_sublist es : omap entry_dir es `sublist_of` omap entry_path es.
Proof.
  induction es as [|[e|e] es IH]; csimpl; [done| |done].
  destruct (de_metadata e) as [m|]; [|by constructor]. destruct (is_file m); [by constructor|].
  destruct (is_dir m); by constructor.
Qed.

Lemma dirs_weight f d es : fs_read_dir f d = Ok es -> weight f (reverse (omap entry_dir es)) < size (below f d).
Proof.
  intros Hes. apply children_weight; [by eapply fs_read_dir_is_dir| |].
  - rewrite reverse_Permutation. eapply sublist_NoDup; [by eapply fs_read_dir_distinct|apply entry_dirs_sublist].
  - intros p Hp. rewrite elem_of_reverse in Hp. apply omap_dir_inv in Hp as (e & m & He & Hm & Hf & Hdir & <-). split.
    + by eapply fs_read_dir_dir.
    + by eapply fs_read_dir_child.
Qed.
Lemma scan_weight f d es files stack files' stack' : fs_read_dir f d = Ok es ->
  scan_entries es files stack = Ok (files', stack') ->
  weight f stack' < size (below f d) + weight f stack.
Proof. intros Hes (_ & -> & _)%scan_entries_spec. rewrite weight_app. pose proof (dirs_weight _ _ _ Hes). lia. Qed.

Lemma list_loop_total fuel f stack files : weight f stack < fuel ->
  exists r, list_loop fuel f stack files = Some r.
Proof.
  revert stack files. induction fuel as [|fuel IH]; intros stack files Hw; [lia|]. simpl.
  destruct stack as [|d stack]; [by eauto|]. destruct (fs_read_dir f d) as [es|e] eqn:Hes; [|by eauto].
  destruct (scan_entries es files stack) as [[files' stack']|e] eqn:Hsc; [|by eauto].
  apply IH. pose proof (scan_weight _ _ _ _ _ _ _ Hes Hsc). simpl in Hw. lia.
Qed.

(** What the walk returns: the files it had, and files below the stack. *)
Lemma list_loop_sound fuel f stack files res : list_loop fuel f stack files = Some (Ok res) ->
  forall p t, (p, t) ∈ res -> (p, t) ∈ files \/
    exists d, d ∈ stack /\ d `prefix_of` p /\ is_Some (fs_view f !! p) /\ fs_mtime f p = Some t.
Proof.
  revert stack files. induction fuel as [|fuel IH]; intros stack files; simpl; [done|].
  destruct stack as [|d stack]; [intros [= <-]; by left|].
  destruct (fs_read_dir f d) as [es|e] eqn:Hes; [|done].
  destruct (scan_entries es files stack) as [[files' stack']|e] eqn:Hsc; [|done].
  intros Hl p t [Hin|(d' & Hd' & Hrest)]%(IH _ _ Hl); apply scan_entries_spec in Hsc as (-> & -> & _).
  - apply elem_of_app in Hin as [?|(e & m & He & Hm & Hf & <- & Ht)%omap_file_inv]; [by left|]. right. exists d.
    destruct (fs_read_dir_child _ _ _ _ Hes He) as [n Hn].
    destruct (fs_read_dir_file _ _ _ _ _ Hes He Hm Hf) as [? Hmt].
    split_and!; [by left| |done|by rewrite <- Hmt]. rewrite Hn. by apply prefix_app_r.
  - right. apply elem_of_app in Hd' as [Hd'|Hd']; [|exists d'; split; [by right|done]].
    rewrite elem_of_reverse in Hd'. apply omap_dir_inv in Hd' as (e & m & He & _ & _ & _ & <-).
    destruct (fs_read_dir_child _ _ _ _ Hes He) as [n Hn]. exists d. destruct Hrest as (Hp & ? & ?).
    split_and!; [by left| |done..]. etrans; [|exact Hp]. rewrite Hn. by apply prefix_app_r.
Qed.

(** Every file below the stack is found. *)
Lemma list_loop_complete fuel f stack files res : tree_wf f -> kinds_wf f ->
  list_loop fuel f stack files = Some (Ok res) ->
  (forall x, x ∈ files -> x ∈ res) /\
  forall d q t, d ∈ stack -> q <> [] -> is_Some (fs_view f !! (d ++ q)) -> fs_mtime f (d ++ q) = Some t ->
    (d ++ q, t) ∈ res.
Proof.
  intros Hwf Hk. revert stack files. induction fuel as [|fuel IH]; intros stack files; simpl; [done|].
  destruct stack as [|d stack]; [intros [= <-]; split; [done|set_solver]|].
  destruct (fs_read_dir f d) as [es|e] eqn:Hes; [|done].
  destruct (scan_entries es files stack) as [[files' stack']|e] eqn:Hsc; [|done].
  intros [Hmono Hdeep]%IH. apply scan_entries_spec in Hsc as (-> & -> & Hall).
  assert (Hoks : Forall (fun e => is_ok e = true) es).
  { eapply Forall_impl; [exact Hall|]. by intros [e|e]. }
  split; [intros x Hx; apply Hmono, elem_of_app; by left|].
  intros d' q t [->|Hd']%elem_of_cons Hq Hf Ht; [|apply Hdeep; [apply elem_of_app; by right|done..]].
  destruct q as [|n q]; [done|]. rewrite cons_middle, app_assoc in *. destruct q as [|n' q].
  - rewrite app_nil_r in *. apply Hmono, elem_of_app. right.
    destruct (fs_read_dir_has_file _ _ _ n Hes Hoks Hf) as (e & He & Hp & Hm).
    apply list_elem_of_omap. exists (Ok e). split; [done|]. simpl.
    rewrite list.Forall_forall in Hall. specialize (Hall _ He). simpl in Hall.
    destruct (de_metadata e) as [m|] eqn:Hme; [|done]. rewrite (Hm m eq_refl).
    destruct (fs_read_dir_file _ _ _ _ _ Hes He Hme (Hm m eq_refl)) as [_ ->]. unfold path_join in Hp.
    by rewrite Hp, Ht.
  - apply Hdeep; [|done..]. apply elem_of_app. left. rewrite elem_of_reverse.
    assert (Hdir : path_join d n ∈ fs_dirs f) by (apply (Hwf _ (n' :: q)); done).
    destruct (fs_read_dir_has_dir _ _ _ n Hes Hoks Hdir (Hk _ Hdir)) as (e & He & Hp & Hm).
    apply list_elem_of_omap. exists (Ok e). split; [done|]. simpl.
    rewrite list.Forall_forall in Hall. specialize (Hall _ He). simpl in Hall.
    destruct (de_metadata e) as [m|] eqn:Hme; [|done]. destruct (Hm m eq_refl) as [-> ->]. by rewrite Hp.
Qed.

Lemma list_temp_files_bound fuel f dir : size (fs_dirs f) < fuel ->
  exists r, list_temp_files fuel f dir = Some r /\
  forall files, r = Ok files ->
    (forall p t, (p, t) ∈ files -> dir `prefix_of` p /\ is_Some (fs_view f !! p) /\ fs_mtime f p = Some t) /\
    (tree_wf f -> kinds_wf f -> forall q t, q <> [] -> is_Some (fs_view f !! (dir ++ q)) ->
       fs_mtime f (dir ++ q) = Some t -> (dir ++ q, t) ∈ files).
Proof.
  intros Hfuel. unfold list_temp_files. destruct (fs_exists f dir) eqn:Hex; simpl.
  - destruct (list_loop_total fuel f [dir] []) as [r Hr].
    { simpl. assert (size (below f dir) <= size (fs_dirs f)) by (apply subseteq_size; unfold below; set_solver). lia. }
    exists r. split; [done|]. intros files ->. split.
    + intros p t Hp. apply (list_loop_sound _ _ _ _ _ Hr) in Hp as [?|(d & Hd & ?)]; [set_solver|].
      apply list_elem_of_singleton in Hd as ->. done.
    + intros Hwf Hk q t. apply (list_loop_complete _ _ _ _ _ Hwf Hk Hr). by left.
  - exists (Ok []). split; [done|]. intros files [= <-]. split; [set_solver|].
    intros Hwf _ q t Hq Hf _. by rewrite (fs_dirs_exist f dir (Hwf _ _ Hq Hf)) in Hex.
Qed.

(** [list_temp_files] ends, within as many turns as there are directories; what
    it returns are files below [dir] with their times, and when every file lies
    in a directory it returns all of them. *)
Theorem list_temp_files_exact fuel f dir : size (fs_dirs f) < fuel ->
  exists r, list_temp_files fuel f dir = Some r /\
  forall files, r = Ok files ->
    (forall p t, (p, t) ∈ files -> dir `prefix_of` p /\ is_Some (fs_view f !! p) /\ fs_mtime f p = Some t) /\
    (tree_wf f -> kinds_wf f -> forall q t, q <> [] -> is_Some (fs_view f !! (dir ++ q)) ->
       fs_mtime f (dir ++ q) = Some t -> (dir ++ q, t) ∈ files).
Proof. apply list_temp_files_bound. Qed.
End walk.

(** ** Directories of the in-memory file system

    [mt] gives the files their times. *)
Module MemDirs.
Import MemFs.
Section mem.
Context (mt : PathBuf -> option N).

Definition file_entry (kv : PathBuf * bytes) : DirEntry :=
  mkDirEntry kv.1 (Ok (mkMetadata false true (N.of_nat (length kv.2)))) (mt kv.1).
Definition dir_entry (p : PathBuf) : DirEntry := mkDirEntry p (Ok (mkMetadata true false 0)) None.
Definition files_in (f : t) (p : PathBuf) : list (PathBuf * bytes) :=
  filter (fun kv => parent kv.1 = Some p) (map_to_list (files f)).
Definition dirs_in (f : t) (p : PathBuf) : list PathBuf :=
  filter (fun q => parent q = Some p /\ files f !! q = None) (elements (dirs f)).

#[export] Instance dirfs : DirFs t := {
  fs_read_dir f p :=
    if bool_decide (p ∈ denied f) then Err eacces
    else if bool_decide (p ∈ dirs f) then
      Ok ((Ok ∘ file_entry <$> files_in f p) ++ (Ok ∘ dir_entry <$> dirs_in f p))
    else Err enoent;
  fs_remove_dir p f :=
    if bool_decide (p ∈ denied f) then (Err eacces, f)
    else if bool_decide (p ∈ dirs f) then
      if bool_decide (files_in f p = [] /\ dirs_in f p = []) then
        (Ok tt, mk (files f) (dirs f ∖ {[ p ]}) (denied f) (unsynced f) (flaky f))
      else (Err (io_other "Directory not empty (os error 39)"), f)
    else (Err enoent, f);
  fs_remove_dir_all p f :=
    if bool_decide (p ∈ denied f) then (Err eacces, f)
    else if bool_decide (p ∈ dirs f) then
      (Ok tt, mk (filter (fun kv => ~ p `prefix_of` kv.1) (files f)) (filter (fun q => ~ p `prefix_of` q) (dirs f))
         (denied f) (unsynced f) (flaky f))
    else (Err enoent, f);
}.

Lemma read_dir_Ok f p es : fs_read_dir f p = Ok es ->
  p ∈ dirs f /\ es = (Ok ∘ file_entry <$> files_in f p) ++ (Ok ∘ dir_entry <$> dirs_in f p).
Proof. simpl. case_bool_decide; [done|]. case_bool_decide; [|done]. by intros [= <-]. Qed.

Lemma entry_inv f p es e : fs_read_dir f p = Ok es -> Ok e ∈ es ->
  (exists kv, e = file_entry kv /\ parent kv.1 = Some p /\ files f !! kv.1 = Some kv.2) \/
  (exists q, e = dir_entry q /\ parent q = Some p /\ q ∈ dirs f).
Proof.
  intros [_ ->]%read_dir_Ok. rewrite elem_of_app, !list_elem_of_fmap. intros [([k b] & [= ->] & Hk)|(q & [= ->] & Hq)].
  - left. apply list_elem_of_filter in Hk as [? ?%elem_of_map_to_list]. by exists (k, b).
  - right. apply list_elem_of_filter in Hq as [[? ?] ?%elem_of_elements]. eauto.
Qed.

Lemma parent_child p q : parent q = Some p -> exists n, q = path_join p n.
Proof.
  unfold parent, path_join. destruct q as [|x q]; [done|]. intros [= <-].
  exists (List.last (x :: q) x). by apply app_removelast_last.
Qed.

#[export] Instance laws : DirFsLaws t.
Proof.
  refine {| fs_dirs := dirs; fs_mtime := fun _ => mt |}.
  - intros f p es e Hes He. destruct (entry_inv _ _ _ _ Hes He) as [(kv & -> & Hp & _)|(q & -> & Hp & _)];
      by apply parent_child.
  - by intros f p es [? _]%read_dir_Ok.
  - intros f p es [_ ->]%read_dir_Ok. rewrite omap_app.
    replace (omap entry_path (Ok ∘ file_entry <$> files_in f p)) with (files_in f p).*1
      by (induction (files_in f p); csimpl; congruence).
    replace (omap entry_path (Ok ∘ dir_entry <$> dirs_in f p)) with (dirs_in f p)
      by (induction (dirs_in f p); csimpl; congruence).
    apply NoDup_app. split_and!.
    + apply NoDup_fmap_fst; [|apply NoDup_filter, NoDup_map_to_list].
      intros x y1 y2 [_ ?%elem_of_map_to_list]%list_elem_of_filter [_ ?%elem_of_map_to_list]%list_elem_of_filter.
      congruence.
    + intros q ([k b] & -> & Hk)%list_elem_of_fmap Hq. apply list_elem_of_filter in Hk as [_ Hk%elem_of_map_to_list].
      apply list_elem_of_filter in Hq as [[_ Hq] _]. simpl in *. congruence.
    + apply NoDup_filter, NoDup_elements.
  - intros f p es e m Hes He. destruct (entry_inv _ _ _ _ Hes He) as [(kv & -> & _ & Hf)|(q & -> & _)];
      intros [= <-]; [|done]. intros _. simpl. eauto.
  - intros f p es e m Hes He. destruct (entry_inv _ _ _ _ Hes He) as [(kv & -> & _)|(q & -> & _ & Hq)];
      intros [= <-]; done.
  - intros f p es name [_ ->]%read_dir_Ok _ [b Hb]. exists (file_entry (path_join p name, b)). split_and!; [|done|by intros m [= <-]].
    apply elem_of_app. left. apply list_elem_of_fmap. eexists. split; [reflexivity|].
    apply list_elem_of_filter. split; [apply parent_path_join|by apply elem_of_map_to_list].
  - intros f p es name [_ ->]%read_dir_Ok _ Hd Hf. exists (dir_entry (path_join p name)). split_and!; [|done|by intros m [= <-]].
    apply elem_of_app. right. apply list_elem_of_fmap. eexists. split; [reflexivity|].
    apply list_elem_of_filter. split; [split; [apply parent_path_join|done]|by apply elem_of_elements].
  - intros f p Hp. simpl. rewrite (bool_decide_eq_true_2 (p ∈ dirs f)) by done. apply orb_true_r.
  - intros p f r f'. simpl. repeat case_bool_decide; by intros [= _ <-].
  - intros p f f'. simpl. repeat case_bool_decide; try done. by intros [= <-].
  - intros p f r f' x. simpl. repeat case_bool_decide; intros [= _ <-]; try done.
    intros Hx. simpl. destruct (files f !! x) as [b|] eqn:Hb.
    + by apply map_lookup_filter_Some.
    + apply map_lookup_filter_None. by left.
Defined.
End mem.
End MemDirs.

(** ** Witness *)
Module DirsWit.
Import MemFs.
Definition mt (p : PathBuf) : option N := Some 7%N.
#[local] Instance dirs : DirFs MemFs.t := MemDirs.dirfs mt.
#[local] Instance dirs_laws : DirFsLaws MemFs.t := MemDirs.laws mt.
Definition f0 : MemFs.t :=
  MemFs.mk (<[ ["temp"; "parts"; "u"; "1"] := [x01] ]> (<[ ["temp"; "o"] := [x02] ]> ∅))
    (list_to_set [[]; ["temp"]; ["temp"; "parts"]; ["temp"; "parts"; "u"]]) ∅ ∅ ∅.

Lemma list_temp_files_exact_witness :
  exists r, list_temp_files 9 f0 ["temp"] = Some r /\
  forall files, r = Ok files ->
    forall p t, (p, t) ∈ files -> ["temp"] `prefix_of` p /\ is_Some (MemFs.files f0 !! p) /\ t = 7%N.
Proof.
  destruct (list_temp_files_exact 9 f0 ["temp"]) as (r & Hr & Hs); [vm_compute; lia|].
  exists r. split; [exact Hr|]. intros files Hf p t Hp. destruct (proj1 (Hs files Hf) p t Hp) as (Hd & Hv & Ht).
  split; [exact Hd|]. split; [exact Hv|]. injection Ht as <-. reflexivity.
Defined.

Example list_temp_files_finds :
  list_temp_files 9 f0 ["temp"] = Some (Ok [(["temp"; "o"], 7%N); (["temp"; "parts"; "u"; "1"], 7%N)]).
Proof. vm_compute. reflexivity. Qed.
End DirsWit.
