(* ===== verification/Grpc.v ===== *)
(** * save-common and save-metadata: gRPC frames

    Models the frame functions of [crates/save-common/src/grpc.rs] and of
    [crates/save-metadata/src/raft/server.rs].  A protobuf message type has a
    [Codec] (prost).  [None] is a panic: an index or slice out of range, an
    [unwrap] of an error. *)
From Stdlib Require Import Strings.Byte.
From S2P Require Import Prelude Common Kv.
From stdpp Require Import base gmap strings numbers list.

(** [tonic::Code] and [tonic::Status]. *)
Inductive Code : Type :=
| Ok_ | Cancelled | Unknown | InvalidArgument | DeadlineExceeded | NotFound | AlreadyExists
| PermissionDenied | ResourceExhausted | FailedPrecondition | Aborted | OutOfRange | Unimplemented
| Internal | Unavailable | DataLoss | Unauthenticated.
Definition code_i32 (c : Code) : N :=
  match c with
  | Ok_ => 0 | Cancelled => 1 | Unknown => 2 | InvalidArgument => 3 | DeadlineExceeded => 4
  | NotFound => 5 | AlreadyExists => 6 | PermissionDenied => 7 | ResourceExhausted => 8
  | FailedPrecondition => 9 | Aborted => 10 | OutOfRange => 11 | Unimplemented => 12
  | Internal => 13 | Unavailable => 14 | DataLoss => 15 | Unauthenticated => 16
  end.
Record Status : Type := mkStatus { code : Code; message : string }.
#[export] Instance Code_eq_dec : EqDecision Code.
Proof. solve_decision. Defined.
#[export] Instance Status_eq_dec : EqDecision Status.
Proof. solve_decision. Defined.
Definition invalid_argument : string -> Status := mkStatus InvalidArgument.
Definition internal : string -> Status := mkStatus Internal.
Definition unavailable : string -> Status := mkStatus Unavailable.
Definition unimplemented : string -> Status := mkStatus Unimplemented.

(** [u32::to_be_bytes] and [u32::from_be_bytes]. *)
Definition byte_of_N (n : N) : Byte.byte := default x00 (Byte.of_N (n mod 256)).
Definition u32_to_be (n : N) : bytes :=
  [byte_of_N (n / 16777216); byte_of_N (n / 65536); byte_of_N (n / 256); byte_of_N n].
Definition u32_from_be (a b c d : Byte.byte) : N :=
  (Byte.to_N a * 16777216 + Byte.to_N b * 65536 + Byte.to_N c * 256 + Byte.to_N d)%N.

(** [&body[a..b]]. *)
Definition slice (body : bytes) (a b : nat) : option bytes :=
  if Nat.leb a b && Nat.leb b (length body) then Some (take (b - a) (drop a body)) else None.

Definition GRPC_HEADER_LEN : nat := 5.

Definition parse_grpc_frame (body : bytes) : option (result Status bytes) :=
  if Nat.ltb (length body) GRPC_HEADER_LEN then
    Some (Err (invalid_argument "incomplete grpc frame header"))
  else
    _ ← body !! 0; b1 ← body !! 1; b2 ← body !! 2; b3 ← body !! 3; b4 ← body !! 4;
    let len := N.to_nat (u32_from_be b1 b2 b3 b4) in
    if Nat.ltb (length body) (GRPC_HEADER_LEN + len) then
      Some (Err (invalid_argument "incomplete grpc frame body"))
    else Ok <$> slice body GRPC_HEADER_LEN (GRPC_HEADER_LEN + len).

Record HttpResponse : Type := mkHttpResponse {
  http_status : N; headers : list (string * string); resp_body : bytes; trailers : list (string * string) }.

(** [Result::unwrap]. *)
Definition unwrap {E A} (r : result E A) : option A :=
  match r with Ok a => Some a | Err _ => None end.

Section frames.
Context {A : Type} `{Codec A}.

(** One frame: the flag byte, the length as [u32], the message. *)
Definition encode_frame (msg : A) : option bytes :=
  data ← unwrap (enc msg);
  Some (x00 :: u32_to_be (wrapN 32 (N.of_nat (length data))) ++ data).

Definition create_grpc_response (msg : A) : option HttpResponse :=
  buf ← encode_frame msg;
  Some (mkHttpResponse 200 [("content-type", "application/grpc")] buf [("grpc-status", "0")]).

Definition create_grpc_streaming_response (msgs : list A) : option HttpResponse :=
  bufs ← mapM encode_frame msgs;
  Some (mkHttpResponse 200 [("content-type", "application/grpc")] (concat bufs) [("grpc-status", "0")]).

(** [create_response] of [raft/server.rs]: the status is a header. *)
Definition create_response (msg : A) : option HttpResponse :=
  buf ← encode_frame msg;
  Some (mkHttpResponse 200 [("content-type", "application/grpc"); ("grpc-status", "0")] buf []).

(** The loop of [parse_streaming_frames] at [offset]; an iteration consumes at
    least the header, so one step per byte of the body is enough. *)
Fixpoint parse_frames_loop (fuel : nat) (body : bytes) (offset : nat) : option (result Status (list A)) :=
  match fuel with
  | 0 => None
  | S fuel' =>
      if negb (Nat.ltb offset (length body)) then Some (Ok []) else
      if Nat.ltb (length body - offset) GRPC_HEADER_LEN then
        Some (Err (invalid_argument "incomplete grpc frame header"))
      else
        _ ← body !! offset; b1 ← body !! (offset + 1); b2 ← body !! (offset + 2);
        b3 ← body !! (offset + 3); b4 ← body !! (offset + 4);
        let len := N.to_nat (u32_from_be b1 b2 b3 b4) in
        if Nat.ltb (length body - offset) (GRPC_HEADER_LEN + len) then
          Some (Err (invalid_argument "incomplete grpc frame body"))
        else
          data ← slice body (offset + GRPC_HEADER_LEN) (offset + GRPC_HEADER_LEN + len);
          match dec data with
          | Err e => Some (Err (invalid_argument e))
          | Ok req =>
              rest ← parse_frames_loop fuel' body (offset + (GRPC_HEADER_LEN + len));
              Some (match rest with Ok reqs => Ok (req :: reqs) | Err e => Err e end)
          end
  end.
Definition parse_streaming_frames (body : bytes) : option (result Status (list A)) :=
  parse_frames_loop (S (length body)) body 0.
End frames.

Section errors.
(** The http crate's check of a header value. *)
Context (header_value_ok : string -> bool).

Definition create_grpc_error_response (status : Status) : option HttpResponse :=
  let hs := [("content-type", "application/grpc"); ("grpc-status", show (code_i32 (code status)))] in
  if bool_decide (message status = "") then Some (mkHttpResponse 200 hs [] [])
  else if header_value_ok (message status)
  then Some (mkHttpResponse 200 (hs ++ [("grpc-message", message status)]) [] [])
  else None.

(** [create_error_response] of [raft/server.rs]. *)
Definition create_error_response (status : Status) : option HttpResponse :=
  if header_value_ok (message status)
  then Some (mkHttpResponse 200 [("content-type", "application/grpc");
    ("grpc-status", show (code_i32 (code status))); ("grpc-message", message status)] [] [])
  else None.
End errors.

(** ** [GrpcBody]: a response body that ends with trailers *)
Inductive Frame : Type := DataFrame (b : bytes) | TrailersFrame (t : list (string * string)).
Record GrpcBody : Type := mkGrpcBody { gb_data : option bytes; gb_trailers : option (list (string * string)) }.
Definition GrpcBody_new (data : bytes) (trailers : list (string * string)) : GrpcBody := mkGrpcBody (Some data) (Some trailers).
Definition poll_frame (b : GrpcBody) : option Frame * GrpcBody :=
  match gb_data b with
  | Some data => (Some (DataFrame data), mkGrpcBody None (gb_trailers b))
  | None => match gb_trailers b with
            | Some t => (Some (TrailersFrame t), mkGrpcBody None None)
            | None => (None, b)
            end
  end.
Definition is_end_stream (b : GrpcBody) : bool := bool_decide (gb_data b = None) && bool_decide (gb_trailers b = None).
Definition size_hint (b : GrpcBody) : N := match gb_data b with Some d => N.of_nat (length d) | None => 0%N end.

(** ** [ProstCodec]: prost's messages for tonic *)
Definition ProstEncoder_encode {A} `{Codec A} (item : A) : result Status bytes := map_err internal (enc item).
Definition ProstDecoder_decode {A} `{Codec A} (src : bytes) : result Status (option A) :=
  item ← map_err internal (dec src); Ok (Some item).

(** ** Frames round trip *)
Lemma byte_of_N_to_N n : Byte.to_N (byte_of_N n) = (n mod 256)%N.
Proof.
  unfold byte_of_N. destruct (Byte.of_N (n mod 256)) as [b|] eqn:Hb; simpl.
  - by apply Byte.to_of_N_iff in Hb.
  - exfalso. apply Byte.of_N_None_iff in Hb. pose proof (N.mod_lt n 256). lia.
Qed.

Lemma u32_be_roundtrip n : (n < 2 ^ 32)%N ->
  u32_from_be (byte_of_N (n / 16777216)) (byte_of_N (n / 65536)) (byte_of_N (n / 256)) (byte_of_N n) = n.
Proof.
  intros Hn. unfold u32_from_be. rewrite !byte_of_N_to_N.
  pose proof (N.div_mod n 256 ltac:(lia)).
  pose proof (N.div_mod (n / 256) 256 ltac:(lia)).
  pose proof (N.div_mod (n / 65536) 256 ltac:(lia)).
  assert (H65 : (n / 65536 = n / 256 / 256)%N) by (by rewrite N.Div0.div_div).
  assert (H16 : (n / 16777216 = n / 65536 / 256)%N) by (by rewrite N.Div0.div_div).
  assert (Hlt : (n / 16777216 < 256)%N) by (apply N.Div0.div_lt_upper_bound; lia).
  rewrite (N.mod_small (n / 16777216) 256) by done. lia.
Qed.

Section roundtrip.
Context {A : Type} `{CodecLaws A}.

Lemma frame_header data pre rest :
  (N.of_nat (length data) < 2 ^ 32)%N ->
  let body := pre ++ (x00 :: u32_to_be (wrapN 32 (N.of_nat (length data))) ++ data) ++ rest in
  exists b1 b2 b3 b4,
    body !! length pre = Some x00 /\ body !! (length pre + 1) = Some b1 /\
    body !! (length pre + 2) = Some b2 /\ body !! (length pre + 3) = Some b3 /\
    body !! (length pre + 4) = Some b4 /\
    N.to_nat (u32_from_be b1 b2 b3 b4) = length data /\
    slice body (length pre + 5) (length pre + 5 + length data) = Some data.
Proof.
  intros Hlen body0. set (n := N.of_nat (length data)) in *.
  assert (Hw : wrapN 32 n = n) by (unfold wrapN; by rewrite N.mod_small).
  set (body := pre ++ (x00 :: u32_to_be n ++ data) ++ rest).
  assert (body0 = body) as -> by (unfold body0, body; by rewrite Hw). exists (byte_of_N (n / 16777216)), (byte_of_N (n / 65536)), (byte_of_N (n / 256)), (byte_of_N n).
  assert (Hat : forall i, body !! (length pre + i) = (x00 :: u32_to_be n ++ data ++ rest) !! i).
  { intros i. unfold body. rewrite lookup_app_r by lia. replace (length pre + i - length pre) with i by lia.
    unfold u32_to_be. done. }
  split_and!; [rewrite <- (Nat.add_0_r (length pre)), Hat; done|by rewrite Hat..| |].
  - rewrite u32_be_roundtrip by done. unfold n. lia.
  - unfold slice. assert (Hl : length body = length pre + 5 + length data + length rest).
    { unfold body, u32_to_be. rewrite !length_app. simpl. rewrite ?length_app. simpl. lia. }
    rewrite Hl. rewrite (proj2 (Nat.leb_le _ _)) by lia. rewrite (proj2 (Nat.leb_le _ _)) by lia. simpl.
    f_equal. replace (length pre + 5 + length data - (length pre + 5)) with (length data) by lia.
    unfold body. rewrite drop_app_add.
    cbn [drop u32_to_be app].
    by rewrite drop_0, take_app_length.
Qed.

Lemma encode_frame_inv (msg : A) f : encode_frame msg = Some f ->
  exists data, enc msg = Ok data /\ f = x00 :: u32_to_be (wrapN 32 (N.of_nat (length data))) ++ data.
Proof. unfold encode_frame. destruct (enc msg); simpl; [|done]. intros [= <-]. eauto. Qed.

(** A message fits a frame: its encoding is shorter than [2^32] bytes. *)
Definition fits (msg : A) : Prop := forall b, enc msg = Ok b -> (N.of_nat (length b) < 2 ^ 32)%N.

Lemma parse_frames_loop_spec msgs bufs pre fuel :
  Forall2 (fun m f => encode_frame m = Some f) msgs bufs -> Forall fits msgs ->
  length (concat bufs) < fuel ->
  parse_frames_loop fuel (pre ++ concat bufs) (length pre) = Some (Ok msgs).
Proof.
  intros Hall. revert pre fuel. induction Hall as [|m f msgs bufs Hm _ IH]; intros pre fuel Hfits Hfuel.
  { simpl. rewrite app_nil_r. destruct fuel; [simpl in *; lia|]. simpl.
    by rewrite (proj2 (Nat.ltb_ge _ _)) by lia. }
  apply list.Forall_cons in Hfits as [Hfm Hfits]. destruct fuel as [|fuel]; [lia|].
  destruct (encode_frame_inv _ _ Hm) as (data & Hd & Hf).
  destruct (frame_header data pre (concat bufs) (Hfm _ Hd)) as (b1 & b2 & b3 & b4 & E0 & E1 & E2 & E3 & E4 & Hn & Hs).
  rewrite <- Hf in *. change (concat (f :: bufs)) with (f ++ concat bufs) in *.
  assert (Hlf : length f = 5 + length data) by (rewrite Hf; simpl; lia).
  rewrite length_app in Hfuel. cbn [parse_frames_loop]. rewrite E0, E1, E2, E3, E4. simpl. rewrite Hn.
  rewrite !length_app, Hlf. rewrite (proj2 (Nat.ltb_lt _ _)) by lia. simpl.
  rewrite (proj2 (Nat.ltb_ge _ 5)) by (unfold GRPC_HEADER_LEN; lia).
  rewrite (proj2 (Nat.ltb_ge _ _)) by (unfold GRPC_HEADER_LEN; lia).
  unfold GRPC_HEADER_LEN in *. rewrite Hs. simpl. rewrite (codec_roundtrip _ _ Hd).
  replace (length pre + S (S (S (S (S (length data)))))) with (length (pre ++ f)) by (rewrite length_app; lia).
  rewrite (assoc_L app), (IH (pre ++ f) fuel); [done|done|lia].
Qed.
End roundtrip.

Lemma parse_frame_ok (data : bytes) : (N.of_nat (length data) < 2 ^ 32)%N ->
  parse_grpc_frame (x00 :: u32_to_be (wrapN 32 (N.of_nat (length data))) ++ data) = Some (Ok data).
Proof.
  intros Hlen. destruct (frame_header data [] [] Hlen) as (b1 & b2 & b3 & b4 & E0 & E1 & E2 & E3 & E4 & Hn & Hs).
  rewrite app_nil_r in *. simpl app in *. set (f := x00 :: _) in *.
  assert (Hlf : length f = 5 + length data) by (unfold f; simpl; lia).
  unfold parse_grpc_frame. rewrite Hlf. simpl. cbn in E1, E2, E3, E4. injection E1 as ->. injection E2 as ->.
  injection E3 as ->. injection E4 as ->. rewrite Hn, (proj2 (Nat.ltb_ge _ _)) by lia. by setoid_rewrite Hs.
Qed.

(** The message of a response can be read back. *)
Lemma response_readable {A} `{CodecLaws A} (msg : A) r : fits msg -> create_grpc_response msg = Some r ->
  exists data, parse_grpc_frame (resp_body r) = Some (Ok data) /\ dec data = Ok msg.
Proof.
  intros Hfit Hr. unfold create_grpc_response in Hr. destruct (encode_frame msg) as [b|] eqn:Hb; [|done].
  injection Hr as <-. apply encode_frame_inv in Hb as (data & Hd & ->). exists data. simpl resp_body.
  split; [apply parse_frame_ok; by apply Hfit|by apply codec_roundtrip].
Qed.

(** A sequence of messages written as frames, each shorter than [2^32] bytes,
    is parsed back to exactly those messages, in order. *)
Theorem streaming_frames_roundtrip {A} `{CodecLaws A} (msgs : list A) r :
  Forall fits msgs -> create_grpc_streaming_response msgs = Some r ->
  parse_streaming_frames (resp_body r) = Some (Ok msgs).
Proof.
  intros Hf. unfold create_grpc_streaming_response.
  destruct (mapM encode_frame msgs) as [bufs|] eqn:Hm; simpl; [|done]. intros [= <-]. simpl.
  apply mapM_Some in Hm. unfold parse_streaming_frames.
  apply (parse_frames_loop_spec msgs bufs []); [done|done|lia].
Qed.
Lemma lookup_lt (b : bytes) i : i < length b -> exists x, b !! i = Some x.
Proof. intros Hi. destruct (lookup_lt_is_Some_2 b i Hi) as [x ?]. eauto. Qed.

Lemma slice_Some b i j : i <= j -> j <= length b -> exists x, slice b i j = Some x.
Proof.
  intros Hij Hj. unfold slice. rewrite (proj2 (Nat.leb_le i j)), (proj2 (Nat.leb_le j _)) by done. simpl. eauto.
Qed.

Lemma parse_frames_loop_total {A} `{Codec A} fuel body offset :
  length body - offset < fuel -> exists r, parse_frames_loop (A := A) fuel body offset = Some r.
Proof.
  revert offset. induction fuel as [|fuel IH]; intros offset Hf; [lia|]. cbn [parse_frames_loop].
  destruct (Nat.ltb_spec offset (length body)) as [Ho|Ho]; cbn [negb]; [|eauto].
  destruct (Nat.ltb_spec (length body - offset) GRPC_HEADER_LEN) as [Hh|Hh]; [eauto|].
  unfold GRPC_HEADER_LEN in *.
  destruct (lookup_lt body offset) as [? ->]; [lia|]. destruct (lookup_lt body (offset + 1)) as [b1 ->]; [lia|].
  destruct (lookup_lt body (offset + 2)) as [b2 ->]; [lia|]. destruct (lookup_lt body (offset + 3)) as [b3 ->]; [lia|].
  destruct (lookup_lt body (offset + 4)) as [b4 ->]; [lia|]. cbn [mbind option_bind].
  destruct (Nat.ltb_spec (length body - offset) (5 + N.to_nat (u32_from_be b1 b2 b3 b4)))
    as [Hb|Hb]; [eauto|].
  destruct (slice_Some body (offset + 5) (offset + 5 + N.to_nat (u32_from_be b1 b2 b3 b4))) as [data ->]; [lia..|].
  cbn [mbind option_bind]. destruct (dec data) as [a|]; [|eauto].
  destruct (IH (offset + (5 + N.to_nat (u32_from_be b1 b2 b3 b4)))) as [r Hr]; [lia|].
  rewrite Hr. simpl. eauto.
Qed.

(** The frame parsers never read out of range: on every body, however
    truncated or malformed, [parse_grpc_frame] and [parse_streaming_frames]
    return a message or a status, and a parsed frame is a part of the body. *)
Theorem frame_parsers_total {A} `{Codec A} (body : bytes) :
  (exists r, parse_grpc_frame body = Some r /\
     forall data, r = Ok data -> exists h rest, body = h ++ data ++ rest /\ length h = 5) /\
  (exists r, parse_streaming_frames (A := A) body = Some r).
Proof.
  split; [|apply parse_frames_loop_total; lia].
  unfold parse_grpc_frame. destruct (Nat.ltb_spec (length body) GRPC_HEADER_LEN) as [Hh|Hh]; [eexists; split; [done|by intros]|].
  unfold GRPC_HEADER_LEN in *.
  destruct (lookup_lt body 0) as [? ->]; [lia|]. destruct (lookup_lt body 1) as [b1 ->]; [lia|].
  destruct (lookup_lt body 2) as [b2 ->]; [lia|]. destruct (lookup_lt body 3) as [b3 ->]; [lia|].
  destruct (lookup_lt body 4) as [b4 ->]; [lia|]. cbn [mbind option_bind].
  set (len := N.to_nat (u32_from_be b1 b2 b3 b4)).
  destruct (Nat.ltb_spec (length body) (5 + len)) as [Hb|Hb]; [eexists; split; [done|by intros]|].
  unfold slice. rewrite (proj2 (Nat.leb_le (5 + len) _)) by done. rewrite (proj2 (Nat.leb_le 5 _)) by lia. simpl.
  eexists. split; [done|]. intros data [= <-]. exists (take 5 body), (drop (5 + len) body).
  replace (5 + len - 5) with len by lia. rewrite length_take. split; [|lia].
  rewrite <- (take_drop 5 body) at 1. f_equal.
  trans (take len (drop 5 body) ++ drop len (drop 5 body)); [by rewrite take_drop|]. by rewrite drop_drop, Nat.sub_0_r.
Qed.

(** A reader that stops at the end of the stream gets the data and the trailers,
    whatever they are: the body does not end before its trailers were read. *)
Fixpoint read_frames (fuel : nat) (b : GrpcBody) : list Frame :=
  match fuel with
  | 0 => []
  | S fuel' => if is_end_stream b then []
               else match poll_frame b with
                    | (Some f, b') => f :: read_frames fuel' b'
                    | (None, _) => []
                    end
  end.
Lemma body_frames_exact data t fuel : 2 <= fuel ->
  read_frames fuel (GrpcBody_new data t) = [DataFrame data; TrailersFrame t] /\
  size_hint (GrpcBody_new data t) = N.of_nat (length data) /\ poll_frame (mkGrpcBody None None) = (None, mkGrpcBody None None).
Proof. intros Hf. destruct fuel as [|[|[|fuel]]]; [lia|lia|done|done]. Qed.

(** What tonic's encoder writes its decoder reads back. *)
Lemma prost_codec_roundtrip {A} `{CodecLaws A} (item : A) b :
  ProstEncoder_encode item = Ok b -> ProstDecoder_decode b = Ok (Some item).
Proof.
  unfold ProstEncoder_encode, ProstDecoder_decode. destruct (enc item) as [x|] eqn:He; [|done]. intros [= ->].
  by rewrite (codec_roundtrip _ _ He).
Qed.

Module GrpcWit.
Import Mem.
Definition resp : HttpResponse := default (mkHttpResponse 0 [] [] []) (create_grpc_streaming_response [3%N; 5%N]).
Lemma streaming_frames_roundtrip_witness :
  parse_streaming_frames (resp_body resp) = Some (Ok [3%N; 5%N]).
Proof.
  refine (streaming_frames_roundtrip [3%N; 5%N] resp _ _); [|vm_compute; reflexivity].
  repeat constructor; intros b [= <-]; vm_compute; reflexivity.
Defined.
End GrpcWit.
