(* ===== verification/ReplicationServer.v ===== *)
(** * save-storage: the gRPC server in front of the replication service

    Models [crates/save-storage/src/replication/server.rs]: decoding of the
    requests, dispatch by path and the answers, over the frames of [Grpc] and
    the handlers of [ReplicationService].  [None] is a panic: a message that
    cannot be encoded or a status message that is no header value. *)
From Stdlib Require Import Strings.Byte.
From S2P Require Import Prelude Common Kv Fs ObjectStorage ReplicationService Grpc.
From stdpp Require Import base gmap strings numbers list.
Import ReplicationService.proto.

(** [GetStatsRequest] has no field. *)
Abbreviation GetStatsRequest := unit.

Section chunks.
Context `{Codec PrepareChunkRequest}.

(** The loop of [handle_stream_prepare_object]: a frame that is cut off ends it
    without an error.  An iteration consumes at least the header. *)
Fixpoint parse_chunks_loop (fuel : nat) (body : bytes) (offset : nat) : option (result Status (list PrepareChunkRequest)) :=
  match fuel with
  | 0 => None
  | S fuel' =>
      if negb (Nat.ltb offset (length body)) then Some (Ok []) else
      if Nat.ltb (length body - offset) GRPC_HEADER_LEN then Some (Ok [])
      else
        b1 ← body !! (offset + 1); b2 ← body !! (offset + 2); b3 ← body !! (offset + 3); b4 ← body !! (offset + 4);
        let len := N.to_nat (u32_from_be b1 b2 b3 b4) in
        if Nat.ltb (length body - offset) (GRPC_HEADER_LEN + len) then Some (Ok [])
        else
          data ← slice body (offset + GRPC_HEADER_LEN) (offset + GRPC_HEADER_LEN + len);
          match dec data with
          | Err e => Some (Err (invalid_argument e))
          | Ok chunk =>
              rest ← parse_chunks_loop fuel' body (offset + (GRPC_HEADER_LEN + len));
              Some (match rest with Ok chunks => Ok (chunk :: chunks) | Err e => Err e end)
          end
  end.
Definition parse_chunks (body : bytes) : option (result Status (list PrepareChunkRequest)) :=
  parse_chunks_loop (S (length body)) body 0.
End chunks.

Section server.
Context {F : Type} `{FileSystem F, Sha256, ReplicationStorage F}.
Context `{Codec WriteObjectRequest, Codec WriteObjectResponse, Codec PrepareObjectRequest, Codec PrepareObjectResponse,
  Codec PrepareChunkRequest, Codec CommitObjectRequest, Codec CommitObjectResponse, Codec AbortObjectRequest,
  Codec AbortObjectResponse, Codec ReadObjectRequest, Codec ReadObjectResponse, Codec ObjectExistsRequest,
  Codec ObjectExistsResponse, Codec DeleteObjectRequest, Codec DeleteObjectResponse, Codec HealthCheckResponse,
  Codec GetStatsRequest, Codec GetStatsResponse}.
Context (header_value_ok : string -> bool).
Abbreviation Svc := (ReplicationService (F := F)).
Abbreviation error_response := (create_grpc_error_response header_value_ok).

(** The handlers of the unary calls are this one at their message types. *)
Definition handle_unary {Req Resp} `{Codec Req} `{Codec Resp} (service : Req -> Svc -> Resp * Svc) (body : bytes) (s : Svc)
  : option HttpResponse * Svc :=
  match parse_grpc_frame body with
  | None => (None, s)
  | Some (Err status) => (error_response status, s)
  | Some (Ok data) =>
      match dec data with
      | Ok req => let '(resp, s') := service req s in (create_grpc_response resp, s')
      | Err e => (error_response (invalid_argument e), s)
      end
  end.

Definition handle_write_object : bytes -> Svc -> option HttpResponse * Svc := handle_unary write_object.
Definition handle_prepare_object (now : N) : bytes -> Svc -> option HttpResponse * Svc := handle_unary (prepare_object now).
Definition handle_commit_object : bytes -> Svc -> option HttpResponse * Svc := handle_unary commit_object.
Definition handle_abort_object : bytes -> Svc -> option HttpResponse * Svc := handle_unary abort_object.
Definition handle_object_exists : bytes -> Svc -> option HttpResponse * Svc := handle_unary object_exists.
Definition handle_delete_object : bytes -> Svc -> option HttpResponse * Svc := handle_unary delete_object.
Definition handle_get_stats : bytes -> Svc -> option HttpResponse * Svc :=
  handle_unary (fun (_ : GetStatsRequest) s => (get_stats s, s)).
Definition handle_health_check (now : N) (s : Svc) : option HttpResponse * Svc :=
  (create_grpc_response (health_check now s), s).

Definition handle_stream_prepare_object (now : N) (body : bytes) (s : Svc) : option HttpResponse * Svc :=
  match parse_chunks body with
  | None => (None, s)
  | Some (Err status) => (error_response status, s)
  | Some (Ok chunks) => let '(resp, s') := stream_prepare_object now chunks s in (create_grpc_response resp, s')
  end.

Definition handle_read_object (body : bytes) (s : Svc) : option HttpResponse * Svc :=
  match parse_grpc_frame body with
  | None => (None, s)
  | Some (Err status) => (error_response status, s)
  | Some (Ok data) =>
      match dec data with
      | Err e => (error_response (invalid_argument e), s)
      | Ok req =>
          match read_object req s with
          | (Ok chunks, s') => (create_grpc_streaming_response chunks, s')
          | (Err (StorageError.NotFound key), s') => (error_response (mkStatus NotFound ("Object not found: " +:+ key)), s')
          | (Err e, s') => (error_response (internal (StorageError.to_string e)), s')
          end
      end
  end.

(** [call] of the four servers, which differ only in their name: the body, [Err]
    when it could not be read. *)
Definition call (now : N) (path : string) (body : result string bytes) (s : Svc) : option HttpResponse * Svc :=
  match body with
  | Err _ => (error_response (internal "failed to read body"), s)
  | Ok body =>
      if bool_decide (path = "/replication.WriteReplica/WriteObject") then handle_write_object body s
      else if bool_decide (path = "/replication.WriteReplica/PrepareObject") then handle_prepare_object now body s
      else if bool_decide (path = "/replication.WriteReplica/CommitObject") then handle_commit_object body s
      else if bool_decide (path = "/replication.WriteReplica/AbortObject") then handle_abort_object body s
      else if bool_decide (path = "/replication.WriteReplica/StreamPrepareObject") then handle_stream_prepare_object now body s
      else if bool_decide (path = "/replication.ReadReplica/ReadObject") then handle_read_object body s
      else if bool_decide (path = "/replication.ReadReplica/ObjectExists") then handle_object_exists body s
      else if bool_decide (path = "/replication.DeleteReplica/DeleteObject") then handle_delete_object body s
      else if bool_decide (path = "/replication.ReplicationHealth/HealthCheck") then handle_health_check now s
      else if bool_decide (path = "/replication.ReplicationHealth/GetStats") then handle_get_stats body s
      else (error_response (unimplemented "unknown method"), s)
  end.
End server.

(** ** Lemmas *)
Lemma slice_take (b : bytes) i j n : j <= n -> j <= length b -> slice (take n b) i j = slice b i j.
Proof.
  intros Hn Hb. unfold slice. rewrite length_take.
  rewrite (proj2 (Nat.leb_le j (n `min` length b))), (proj2 (Nat.leb_le j (length b))) by lia.
  destruct (Nat.leb_spec i j) as [Hij|]; [|done]. simpl. f_equal.
  rewrite !take_drop_commute, take_take. f_equal. f_equal. lia.
Qed.

Section transparent.
Context {F : Type} `{FileSystem F, Sha256, ReplicationStorage F} (header_value_ok : string -> bool).
Abbreviation Svc := (ReplicationService (F := F)).

(** A request that fits a frame reaches the service as it was sent, and what the
    service answers can be read back from the response. *)
Definition transparent {Req Resp} `{Codec Req} `{Codec Resp} (server : result string bytes -> Svc -> option HttpResponse * Svc)
    (service : Req -> Svc -> Resp * Svc) : Prop :=
  forall req body s resp s', fits req -> encode_frame req = Some body -> service req s = (resp, s') ->
    server (Ok body) s = (create_grpc_response resp, s') /\
    forall r, fits resp -> create_grpc_response resp = Some r ->
      exists data, parse_grpc_frame (resp_body r) = Some (Ok data) /\ dec data = Ok resp.

Lemma unary_transparent {Req Resp} `{CodecLaws Req} `{CodecLaws Resp} (server : result string bytes -> Svc -> option HttpResponse * Svc)
    (service : Req -> Svc -> Resp * Svc) :
  (forall body, server (Ok body) = handle_unary header_value_ok service body) -> transparent server service.
Proof.
  intros Hsrv req body s resp s' Hfit (data & Hd & ->)%encode_frame_inv Hsvc. rewrite Hsrv. unfold handle_unary.
  rewrite parse_frame_ok by (by apply Hfit). rewrite (codec_roundtrip _ _ Hd), Hsvc. split; [done|].
  intros r. apply response_readable.
Qed.
End transparent.

(** ** Properties *)
Section chunks_cut.
Context `{CodecLaws PrepareChunkRequest}.

(** The first [k] bytes of the frames are read as the frames that lie in them. *)
Definition whole_frames (k : nat) (bufs : list bytes) (n : nat) : Prop :=
  n <= length bufs /\ length (concat (take n bufs)) <= k /\
  (n < length bufs -> k < length (concat (take (S n) bufs))).

Lemma parse_chunks_cut cs bufs pre k fuel :
  Forall2 (fun m f => encode_frame m = Some f) cs bufs -> Forall fits cs -> k <= length (concat bufs) -> k < fuel ->
  exists n, whole_frames k bufs n /\
    parse_chunks_loop fuel (take (length pre + k) (pre ++ concat bufs)) (length pre) = Some (Ok (take n cs)).
Proof.
  intros Hall. revert pre k fuel. induction Hall as [|m f cs bufs Hm _ IH]; intros pre k fuel Hfits Hk Hfuel.
  { exists 0. split; [by split_and!; simpl; lia|]. simpl in *. assert (k = 0) as -> by lia. rewrite app_nil_r, Nat.add_0_r, take_ge by lia.
    destruct fuel as [|fuel]; [lia|]. simpl. by rewrite (proj2 (Nat.ltb_ge _ _)) by lia. }
  apply list.Forall_cons in Hfits as [Hfm Hfits]. destruct fuel as [|fuel]; [lia|].
  destruct (encode_frame_inv _ _ Hm) as (data & Hd & Hf).
  destruct (frame_header data pre (concat bufs) (Hfm _ Hd)) as (b1 & b2 & b3 & b4 & _ & E1 & E2 & E3 & E4 & Hn & Hs).
  rewrite <- Hf in *. change (concat (f :: bufs)) with (f ++ concat bufs) in *.
  assert (Hlf : length f = 5 + length data) by (rewrite Hf; simpl; lia). clear Hf.
  set (whole := pre ++ f ++ concat bufs) in *.
  assert (Hlw : length whole = length pre + length f + length (concat bufs)) by (unfold whole; rewrite !length_app; lia).
  rewrite length_app in Hk.
  assert (Hlen : length (take (length pre + k) whole) = length pre + k) by (rewrite length_take; lia).
  cbn [parse_chunks_loop]. rewrite Hlen. replace (length pre + k - length pre) with k by lia. unfold GRPC_HEADER_LEN.
  assert (Hnone : k < length f -> whole_frames k (f :: bufs) 0).
  { intros Hl. split_and!; simpl; [lia|lia|]. intros _. rewrite app_nil_r. lia. }
  destruct (Nat.ltb_spec (length pre) (length pre + k)) as [Hpos|Hpos]; cbn [negb]; [|exists 0; split; [apply Hnone; lia|done]].
  destruct (Nat.ltb_spec k 5) as [H5|H5]; [exists 0; split; [apply Hnone; lia|done]|].
  rewrite !lookup_take_lt by lia. rewrite E1, E2, E3, E4. cbn [mbind option_bind]. rewrite Hn.
  destruct (Nat.ltb_spec k (5 + length data)) as [Hc|Hc]; [exists 0; split; [apply Hnone; lia|done]|].
  rewrite slice_take by lia. rewrite Hs. cbn [mbind option_bind]. rewrite (codec_roundtrip _ _ Hd).
  destruct (IH (pre ++ f) (k - length f) fuel) as (n & (Hn1 & Hn2 & Hn3) & Hrun); [done|lia..|].
  replace (length (pre ++ f) + (k - length f)) with (length pre + k) in Hrun by (rewrite length_app; lia).
  rewrite <- (assoc_L app) in Hrun. fold whole in Hrun.
  replace (length (pre ++ f)) with (length pre + (5 + length data)) in Hrun by (rewrite length_app; lia).
  exists (S n). rewrite Hrun. split; [|done]. split_and!; cbn [take concat length]; rewrite ?length_app; [lia|lia|].
  intros Hlt. specialize (Hn3 ltac:(lia)). lia.
Qed.

(** C39. A streamed prepare whose body is cut off is taken for a shorter one: of the
    first [k] bytes of the stream's frames the server hands exactly the chunks
    whose frames are complete to the service, without an error; the whole body
    gives all of them. *)
Theorem stream_cut_exact {F} `{FileSystem F, Sha256, ReplicationStorage F} `{Codec PrepareObjectResponse}
    (header_value_ok : string -> bool) now cs bufs k (s : ReplicationService (F := F)) :
  Forall2 (fun m f => encode_frame m = Some f) cs bufs -> Forall fits cs -> k <= length (concat bufs) ->
  exists n, whole_frames k bufs n /\ (k = length (concat bufs) -> n = length cs) /\
    handle_stream_prepare_object header_value_ok now (take k (concat bufs)) s
    = (create_grpc_response (stream_prepare_object now (take n cs) s).1, (stream_prepare_object now (take n cs) s).2).
Proof.
  intros Hall Hf Hk. destruct (parse_chunks_cut cs bufs [] k (S (length (take k (concat bufs)))) Hall Hf Hk)
    as (n & Hn & Hrun); [rewrite length_take; lia|]. exists n. split_and!; [done| |].
  - intros ->. destruct Hn as (Hn1 & Hn2 & Hn3). apply Forall2_length in Hall.
    destruct (decide (n < length bufs)) as [Hlt|]; [|lia]. specialize (Hn3 Hlt).
    assert (length (concat (take (S n) bufs)) <= length (concat bufs)); [|lia].
    rewrite <- (take_drop (S n) bufs) at 2. rewrite concat_app, length_app. lia.
  - unfold handle_stream_prepare_object, parse_chunks. cbn [length app Nat.add] in Hrun. rewrite Hrun.
    by destruct (stream_prepare_object now (take n cs) s).
Qed.
End chunks_cut.

Section calls.
Context {F : Type} `{FileSystem F, Sha256, ReplicationStorage F}.
Context `{CodecLaws WriteObjectRequest} `{CodecLaws WriteObjectResponse} `{CodecLaws PrepareObjectRequest}
  `{CodecLaws PrepareObjectResponse} `{Codec PrepareChunkRequest} `{CodecLaws CommitObjectRequest}
  `{CodecLaws CommitObjectResponse} `{CodecLaws AbortObjectRequest} `{CodecLaws AbortObjectResponse}
  `{Codec ReadObjectRequest, Codec ReadObjectResponse} `{CodecLaws ObjectExistsRequest} `{CodecLaws ObjectExistsResponse}
  `{CodecLaws DeleteObjectRequest} `{CodecLaws DeleteObjectResponse} `{Codec HealthCheckResponse, Codec GetStatsRequest,
    Codec GetStatsResponse}.

(** The calls of a client reach the service as they were sent, under the names
    the client uses, and the answers come back as they were given. *)
Theorem replication_calls_transparent (header_value_ok : string -> bool) now :
  let call := call (F := F) header_value_ok now in
  transparent (call "/replication.WriteReplica/WriteObject") write_object /\
  transparent (call "/replication.WriteReplica/PrepareObject") (prepare_object now) /\
  transparent (call "/replication.WriteReplica/CommitObject") commit_object /\
  transparent (call "/replication.WriteReplica/AbortObject") abort_object /\
  transparent (call "/replication.ReadReplica/ObjectExists") object_exists /\
  transparent (call "/replication.DeleteReplica/DeleteObject") delete_object.
Proof. split_and!; by apply (unary_transparent header_value_ok). Qed.
End calls.

(** ** Witnesses *)
Module ServerWit.
Import MemFs ToySha.
Definition st : ObjectStorage := mkObjectStorage (mkStorageLayout ["data"]) "data".
#[local] Instance impl : ReplicationStorage MemFs.t := object_storage_impl st.

(** A codec for each message, by its fields. *)
Definition by_fields {A B} `{Countable B} (f : A -> B) (g : B -> A) : Codec A :=
  {| enc a := enc (Codec := Mem.codec) (f a);
     dec b := match dec (Codec := Mem.codec) b with Ok x => Ok (g x) | Err e => Err e end |}.
Lemma by_fields_laws {A B} `{Countable B} (f : A -> B) (g : B -> A) :
  (forall a, g (f a) = a) -> @CodecLaws A (by_fields f g).
Proof. intros Hgf a b Hb. unfold dec, by_fields. rewrite (Mem.codec_laws _ _ Hb). by rewrite Hgf. Qed.
#[local] Instance c1 : Codec WriteObjectRequest :=
  by_fields (fun r => (wr_key r, wr_data r, wr_checksum r, wr_request_id r)) (fun '(a, b, c, d) => mkWriteObjectRequest a b c d).
#[local] Instance c2 : Codec WriteObjectResponse :=
  by_fields (fun r => (ws_success r, ws_error_message r, bytes_written r)) (fun '(a, b, c) => mkWriteObjectResponse a b c).
#[local] Instance c3 : Codec PrepareObjectRequest :=
  by_fields (fun r => (pr_key r, pr_data r, pr_checksum r, pr_request_id r)) (fun '(a, b, c, d) => mkPrepareObjectRequest a b c d).
#[local] Instance c4 : Codec PrepareObjectResponse :=
  by_fields (fun r => (ps_success r, ps_error_message r, ps_temp_id r)) (fun '(a, b, c) => mkPrepareObjectResponse a b c).
#[local] Instance c5 : Codec PrepareChunkRequest :=
  by_fields (fun r => (pc_key r, pc_request_id r, pc_chunk r, pc_is_last r, pc_checksum r))
    (fun '(a, b, c, d, e) => mkPrepareChunkRequest a b c d e).
#[local] Instance c6 : Codec CommitObjectRequest :=
  by_fields (fun r => (cr_key r, cr_temp_id r, cr_request_id r)) (fun '(a, b, c) => mkCommitObjectRequest a b c).
#[local] Instance c7 : Codec CommitObjectResponse :=
  by_fields (fun r => (cs_success r, cs_error_message r)) (fun '(a, b) => mkCommitObjectResponse a b).
#[local] Instance c8 : Codec AbortObjectRequest :=
  by_fields (fun r => (ar_key r, ar_temp_id r, ar_request_id r)) (fun '(a, b, c) => mkAbortObjectRequest a b c).
#[local] Instance c9 : Codec AbortObjectResponse :=
  by_fields (fun r => (as_success r, as_error_message r)) (fun '(a, b) => mkAbortObjectResponse a b).
#[local] Instance c10 : Codec ObjectExistsRequest := by_fields er_key mkObjectExistsRequest.
#[local] Instance c11 : Codec ObjectExistsResponse :=
  by_fields (fun r => (exists_ r, es_size r, es_checksum r)) (fun '(a, b, c) => mkObjectExistsResponse a b c).
#[local] Instance c12 : Codec DeleteObjectRequest :=
  by_fields (fun r => (dr_key r, dr_request_id r)) (fun '(a, b) => mkDeleteObjectRequest a b).
#[local] Instance c13 : Codec DeleteObjectResponse :=
  by_fields (fun r => (ds_success r, ds_error_message r, was_present r)) (fun '(a, b, c) => mkDeleteObjectResponse a b c).
Ltac by_fields := apply by_fields_laws; by intros [].
#[local] Instance l1 : CodecLaws WriteObjectRequest.
Proof. by_fields. Qed.
#[local] Instance l2 : CodecLaws WriteObjectResponse.
Proof. by_fields. Qed.
#[local] Instance l3 : CodecLaws PrepareObjectRequest.
Proof. by_fields. Qed.
#[local] Instance l4 : CodecLaws PrepareObjectResponse.
Proof. by_fields. Qed.
#[local] Instance l5 : CodecLaws PrepareChunkRequest.
Proof. by_fields. Qed.
#[local] Instance l6 : CodecLaws CommitObjectRequest.
Proof. by_fields. Qed.
#[local] Instance l7 : CodecLaws CommitObjectResponse.
Proof. by_fields. Qed.
#[local] Instance l8 : CodecLaws AbortObjectRequest.
Proof. by_fields. Qed.
#[local] Instance l9 : CodecLaws AbortObjectResponse.
Proof. by_fields. Qed.
#[local] Instance l10 : CodecLaws ObjectExistsRequest.
Proof. by_fields. Qed.
#[local] Instance l11 : CodecLaws ObjectExistsResponse.
Proof. by_fields. Qed.
#[local] Instance l12 : CodecLaws DeleteObjectRequest.
Proof. by_fields. Qed.
#[local] Instance l13 : CodecLaws DeleteObjectResponse.
Proof. by_fields. Qed.
(** The other messages are not sent here. *)
Definition unused {A} : Codec A := {| enc _ := Err "unused"; dec _ := Err "unused" |}.
#[local] Instance c14 : Codec ReadObjectRequest := unused.
#[local] Instance c15 : Codec ReadObjectResponse := unused.
#[local] Instance c16 : Codec HealthCheckResponse := unused.
#[local] Instance c17 : Codec GetStatsRequest := unused.
#[local] Instance c18 : Codec GetStatsResponse := unused.

Lemma replication_calls_transparent_witness :
  transparent (F := MemFs.t) (call (fun _ => true) 5 "/replication.WriteReplica/PrepareObject") (prepare_object 5).
Proof. exact (proj1 (proj2 (replication_calls_transparent (F := MemFs.t) (fun _ => true) 5))). Defined.

(** A stream of two chunks and its closing chunk with the checksum, cut in the
    closing chunk: the service is given the first two, prepares them without a
    check and publishes them. *)
Definition chunks : list PrepareChunkRequest :=
  [mkPrepareChunkRequest "b/k" 7 [x01; x02] false ""; mkPrepareChunkRequest "" 0 [x03] false "";
   mkPrepareChunkRequest "" 0 [] true "checksum of four bytes"].
Definition frames : list bytes := default [] (mapM encode_frame chunks).
Definition cut : nat := length (concat (take 2 frames)) + 9.
Definition s0 : ReplicationService (F := MemFs.t) := service_new MemFs.empty 0.
Lemma frames_are : Forall2 (fun m f => encode_frame m = Some f) chunks frames.
Proof. apply mapM_Some. vm_compute. reflexivity. Qed.
Lemma chunks_fit : Forall fits chunks.
Proof. repeat constructor; intros b [= <-]; vm_compute; reflexivity. Qed.
Lemma stream_cut_exact_witness : exists n, whole_frames cut frames n /\
  handle_stream_prepare_object (fun _ => true) 5 (take cut (concat frames)) s0
  = (create_grpc_response (stream_prepare_object 5 (take n chunks) s0).1, (stream_prepare_object 5 (take n chunks) s0).2).
Proof.
  destruct (stream_cut_exact (fun _ => true) 5 chunks frames cut s0 frames_are chunks_fit
    ltac:(apply Nat.leb_le; vm_compute; reflexivity)) as (n & Hn & _ & Hrun).
  exists n. by split.
Defined.
Example cut_stream_published :
  let s1 := (handle_stream_prepare_object (fun _ => true) 5 (take cut (concat frames)) s0).2 in
  let '(r, s2) := commit_object (mkCommitObjectRequest "b/k" "7:b/k" 7) s1 in
  cs_success r = true /\ fs_view (svc_fs s2) !! rs_final "b/k" = Some [x01; x02; x03].
Proof. vm_compute. done. Qed.
End ServerWit.
