(* ===== verification/Buckets.v ===== *)
(** * save-metadata: errors, key prefixes and buckets

    Models [crates/save-metadata/src/error.rs], [keys.rs] and [bucket.rs] over
    an arbitrary [RocksDB] and an arbitrary codec of [Bucket]. *)
From Stdlib Require Import Ascii.
From S2P Require Import Prelude Common Kv.
From stdpp Require Import base gmap strings numbers sorting list.

(** ** [error.rs] *)
Inductive MetadataError : Type :=
| Database (msg : string)
| Encode (msg : string)
| Decode (msg : string)
| BucketNotFound (name : string)
| BucketAlreadyExists (name : string)
| ObjectNotFound (bucket key : string)
| MultipartUploadNotFound (upload_id : string)
| InvalidOperation (msg : string)
| TaskCancelled (msg : string)
| Raft (msg : string)
| AlreadyInitialized
| NotLeader (leader_id : option N) (leader_addr : option string)
| Storage (msg : string).

#[export] Instance MetadataError_eq_dec : EqDecision MetadataError.
Proof. solve_decision. Defined.

(** The [Display] implementation that [thiserror] derives; [{:?}] prints an
    option with its constructor and a string in quotes. *)
Definition debug_option {A} (pr : A -> string) (o : option A) : string :=
  match o with Some a => "Some(" +:+ pr a +:+ ")" | None => "None" end.
Definition debug_str (s : string) : string :=
  let q := String (Ascii.ascii_of_nat 34) EmptyString in q +:+ s +:+ q.
Definition MetadataError_to_string (e : MetadataError) : string :=
  match e with
  | Database m => "Database error: " +:+ m
  | Encode m => "Serialization encode error: " +:+ m
  | Decode m => "Serialization decode error: " +:+ m
  | BucketNotFound n => "Bucket not found: " +:+ n
  | BucketAlreadyExists n => "Bucket already exists: " +:+ n
  | ObjectNotFound b k => "Object not found: " +:+ b +:+ "/" +:+ k
  | MultipartUploadNotFound u => "Multipart upload not found: " +:+ u
  | InvalidOperation m => "Invalid operation: " +:+ m
  | TaskCancelled m => "Task cancelled: " +:+ m
  | Raft m => "Raft error: " +:+ m
  | AlreadyInitialized => "Cluster already initialized"
  | NotLeader l a => "Not leader, leader is node " +:+ debug_option show l +:+ " at " +:+ debug_option debug_str a
  | Storage m => "Storage error: " +:+ m
  end.

Definition is_recoverable_raft_corruption (e : MetadataError) : bool :=
  match e with
  | Raft msg =>
      contains_str "missing field" msg || contains_str "invalid type" msg
      || contains_str "expected" msg || contains_str "JSON" msg
      || contains_str "deserialize" msg
  | _ => false
  end.

(** [map_err(|e| MetadataError::InvalidOperation(e.to_string()))]. *)
Definition invalid_operation {A} (r : result Error.t A) : result MetadataError A :=
  map_err (fun e => InvalidOperation (Error.to_string e)) r.

(** ** [keys.rs] *)
Definition BUCKET_PREFIX : string := "bkt:".
Definition OBJECT_PREFIX : string := "obj:".
Definition MULTIPART_PREFIX : string := "mpu:".
Definition DATA_PREFIXES : list string := [BUCKET_PREFIX; OBJECT_PREFIX; MULTIPART_PREFIX].

(** ** The calls on the default column family *)
Section raw.
Context {DB : Type} `{RocksDB DB}.

Definition get_raw (k : string) : M DB MetadataError (option bytes) :=
  reads (fun d => map_err Database (db_get d "default" k)).
Definition put_raw (k : string) (v : bytes) : M DB MetadataError unit :=
  writes (fun d => map_err Database (db_put d "default" k v)).
Definition delete_raw (k : string) : M DB MetadataError unit :=
  writes (fun d => map_err Database (db_delete d "default" k)).
(** A prefix loop over the default column family. *)
Definition scan_raw {A} (p : string) (f : string * bytes -> result MetadataError (option A))
  : M DB MetadataError (list A) :=
  reads (fun d => scan Database p f (db_iter d "default" p)).
(** [bincode::serde::decode_from_slice(&data, ...)?] and its inverse. *)
Definition decode_m {A} `{Codec A} (v : bytes) : result MetadataError A := map_err Decode (dec v).
Definition encode_m {A} `{Codec A} (a : A) : result MetadataError bytes := map_err Encode (enc a).

(** Encode a value, then put it. *)
Definition put_enc {A} `{Codec A} (k : string) (a : A) : M DB MetadataError unit :=
  value ← lift (encode_m a); put_raw k value.

Context `{!RocksDBLaws DB}.

(** The metadata: the content of the default column family. *)
Definition meta (d : DB) : gmap string bytes := db_view d "default".

(** [e] is an error that a call on [d], or the encoder of [B], reports. *)
Definition fault (B : Type) `{Codec B} (d : DB) (e : MetadataError) : Prop :=
  match e with
  | Database m =>
      (exists k, db_get d "default" k = Err m) \/ (exists k v, db_put d "default" k v = Err m) \/
      (exists k, db_delete d "default" k = Err m)
  | Encode m => exists b : B, enc b = Err m
  | _ => False
  end.

Lemma get_raw_spec k d r d' : get_raw k d = (r, d') ->
  d' = d /\ (r = Ok (meta d !! k) \/ exists m, r = Err (Database m) /\ db_get d "default" k = Err m).
Proof.
  unfold get_raw, reads. intros [= <- <-]. split; [done|].
  destruct (db_get d "default" k) as [o|m] eqn:Hg; simpl; [|by eauto].
  left. by rewrite (db_get_ok _ _ _ _ Hg).
Qed.

Lemma put_raw_spec k v d r d' : put_raw k v d = (r, d') ->
  (r = Ok tt /\ meta d' = <[k := v]> (meta d)) \/
  (d' = d /\ exists m, r = Err (Database m) /\ db_put d "default" k v = Err m).
Proof.
  unfold put_raw, writes. destruct (db_put d "default" k v) as [d1|m] eqn:Hp; simpl.
  - intros [= <- <-]. left. split; [done|]. by apply db_put_ok.
  - intros [= <- <-]. right. eauto.
Qed.

(** [d'] is [d] after an error of the store or of the codec. *)
Definition infra_err (B : Type) `{Codec B} {A} (d d' : DB) (r : result MetadataError A) : Prop :=
  d' = d /\ exists e, r = Err e /\ fault B d e.

Lemma put_enc_spec {A} `{CodecLaws A} k (a : A) d r d' : put_enc k a d = (r, d') ->
  (r = Ok tt /\ exists v, dec v = Ok a /\ meta d' = <[k := v]> (meta d)) \/ infra_err A d d' r.
Proof.
  intros [(v & t & [Hv ->]%lift_inv & Hp)|(e & [Hv ->]%lift_inv & ->)]%bind_inv;
    unfold encode_m in Hv; destruct (enc a) as [v'|m] eqn:He; simplify_eq/=.
  - apply put_raw_spec in Hp as [[-> Hm]|[-> (m & -> & ?)]];
      [left|right; split; [done|]; eexists; split; [done|simpl; eauto]].
    split; [done|]. exists v. split; [by apply codec_roundtrip|done].
  - right. split; [done|]. eexists. split; [done|simpl; eauto].
Qed.

Lemma delete_raw_spec k d r d' : delete_raw k d = (r, d') ->
  (r = Ok tt /\ meta d' = delete k (meta d)) \/
  (d' = d /\ exists m, r = Err (Database m) /\ db_delete d "default" k = Err m).
Proof.
  unfold delete_raw, writes. destruct (db_delete d "default" k) as [d1|m] eqn:Hp; simpl.
  - intros [= <- <-]. left. split; [done|]. by apply db_delete_ok.
  - intros [= <- <-]. right. eauto.
Qed.

Lemma scan_raw_spec {A} p (f : string * bytes -> result MetadataError (option A)) d xs d' :
  scan_raw p f d = (Ok xs, d') ->
  d' = d /\ exists l, is_entries (meta d) p l /\ scan_list f l = Ok xs.
Proof. unfold scan_raw, reads. intros [= Hs <-]. split; [done|]. by eapply scan_spec. Qed.

(** The value at a key, decoded, is the abstract value. *)
Definition stored {A} `{Codec A} (v : option bytes) (a : option A) : Prop :=
  option_Forall2 (fun v a => dec v = Ok a) v a.

Lemma stored_Some {A} `{Codec A} v (a : option A) : stored (Some v) a ->
  exists x, a = Some x /\ dec v = Ok x.
Proof. intros Hst. inversion Hst; subst. eauto. Qed.
Lemma stored_None {A} `{Codec A} (a : option A) : stored None a -> a = None.
Proof. intros Hst. by inversion Hst. Qed.
Lemma stored_fun {A} `{Codec A} v (a b : option A) : stored v a -> stored v b -> a = b.
Proof.
  destruct v as [v|]; [|by intros ->%stored_None ->%stored_None].
  intros (x & -> & Hx)%stored_Some (y & -> & Hy)%stored_Some. congruence.
Qed.

(** The entry at [k] is now [s], every other key is as it was. *)
Definition entry_is {A} `{Codec A} (d d' : DB) (k : string) (s : option A) : Prop :=
  stored (meta d' !! k) s /\ forall k', k' <> k -> meta d' !! k' = meta d !! k'.

Lemma put_enc_entry {A} `{CodecLaws A} k (a : A) d r d' : put_enc k a d = (r, d') ->
  (r = Ok tt /\ entry_is d d' k (Some a)) \/ infra_err A d d' r.
Proof.
  intros [(-> & v & Hv & Hm)|?]%put_enc_spec; [left|by right]. split; [done|].
  unfold entry_is. rewrite Hm, lookup_insert_eq. split; [by constructor|].
  intros k' ?. by rewrite lookup_insert_ne.
Qed.

Lemma delete_raw_entry {A} `{Codec A} k d r d' : delete_raw k d = (r, d') ->
  (r = Ok tt /\ entry_is (A := A) d d' k None) \/ infra_err A d d' r.
Proof.
  intros [[-> Hm]|[-> (m & -> & ?)]]%delete_raw_spec;
    [left|right; split; [done|]; eexists; split; [done|simpl; eauto]]. split; [done|].
  unfold entry_is. rewrite Hm, lookup_delete_eq. split; [by constructor|].
  intros k' ?. by rewrite lookup_delete_ne.
Qed.

(** A read of a key whose decoded value is [s]. *)
Lemma get_raw_stored {A} `{Codec A} k d (s : option A) o d' :
  stored (meta d !! k) s -> get_raw k d = (Ok o, d') -> d' = d /\ stored o s.
Proof. intros Hs [-> [[= ->]|(m & ? & _)]]%get_raw_spec; done. Qed.
Lemma get_raw_infra {B} `{Codec B} k (d : DB) e d' : get_raw k d = (Err e, d') -> d' = d /\ fault B d e.
Proof. intros [-> [?|(m & [= ->] & ?)]]%get_raw_spec; [done|]. split; [done|]. simpl. eauto. Qed.
End raw.


(** ** [bucket.rs] *)
Section bucket.
Context {DB : Type} `{RocksDB DB} `{Codec Bucket}.

Definition bucket_key (name : string) : string := "bkt:" +:+ name.

Definition create_bucket (now : Z) (name : string) : M DB MetadataError Bucket :=
  lift (invalid_operation (validate_bucket_name name)) ;;
  o ← get_raw (bucket_key name);
  match o with
  | Some _ => throw (BucketAlreadyExists name)
  | None =>
      let bucket := Bucket_new now name in
      put_enc (bucket_key name) bucket ;;
      mret bucket
  end.

Definition get_bucket (name : string) : M DB MetadataError Bucket :=
  lift (invalid_operation (validate_bucket_name name)) ;;
  o ← get_raw (bucket_key name);
  match o with
  | Some data => lift (decode_m data)
  | None => throw (BucketNotFound name)
  end.

Definition delete_bucket (name : string) : M DB MetadataError unit :=
  lift (invalid_operation (validate_bucket_name name)) ;;
  delete_raw (bucket_key name) ;;
  mret tt.

Definition list_buckets : M DB MetadataError (list Bucket) :=
  scan_raw "bkt:" (fun kv => b ← decode_m kv.2; Ok (Some b)).
End bucket.

#[export] Instance bucket_key_inj : Inj (=) (=) bucket_key.
Proof. intros a b. unfold bucket_key. by intros ?%(inj _). Qed.

(** ** Loops that decode and push every entry *)
Lemma scan_list_decode {A} `{Codec A} l xs :
  scan_list (fun kv : string * bytes => b ← decode_m kv.2; Ok (Some b)) l = Ok xs ->
  Forall2 (fun (kv : string * bytes) (a : A) => dec kv.2 = Ok a) l xs.
Proof.
  revert xs. induction l as [|kv l IH]; intros xs; simpl; [intros [= <-]; constructor|].
  change (decode_m kv.2) with (map_err Decode (dec (A := A) kv.2)). destruct (dec kv.2) as [a|] eqn:Hd; simpl; [|done].
  destruct (scan_list _ l) as [xs'|]; simpl; [|done]. intros [= <-]. constructor; auto.
Qed.

(** A loop over the keys [pre ++ k] with [k] starting with [p] returns the
    values of the family [m] in key order, all of them and nothing else. *)
Lemma scan_family {DB} `{RocksDBLaws DB} {A} `{!Codec A} (d : DB) pre (m : string -> option A) p xs d' :
  (forall k, stored (meta d !! (pre +:+ k)) (m k)) ->
  scan_raw (pre +:+ p) (fun kv => b ← decode_m kv.2; Ok (Some b)) d = (Ok xs, d') ->
  exists ks, StronglySorted str_lt ks /\ Forall2 (fun k x => m k = Some x) ks xs /\
    forall k, k ∈ ks <-> is_Some (m k) /\ starts_with p k = true.
Proof.
  intros Hm (-> & l & [Hs Hl] & Hscan)%scan_raw_spec. apply scan_list_decode in Hscan.
  assert (Hk : exists ks, l.*1 = (String.append pre) <$> ks).
  { clear -Hl. assert (Hp : forall kv, kv ∈ l -> starts_with pre kv.1 = true).
    { intros [k v] [_ Hk]%Hl. by eapply starts_with_trans; [apply starts_with_app|]. }
    clear Hl. induction l as [|kv l IH]; [by exists []|]. destruct IH as [ks Hks]; [set_solver|].
    assert (Hkv : starts_with pre kv.1 = true) by (apply Hp; set_solver).
    apply starts_with_spec in Hkv as [t Ht]. exists (t :: ks). csimpl. by rewrite Hks, Ht. }
  destruct Hk as [ks Hks]. exists ks. split_and!.
  - rewrite Hks in Hs. clear -Hs. induction ks as [|k ks IH]; [constructor|]. simpl in Hs.
    apply StronglySorted_inv in Hs as [Hs Hk]. constructor; [by apply IH|].
    rewrite Forall_fmap in Hk. eapply Forall_impl; [exact Hk|]. intros k' ?. by eapply str_lt_app_l.
  - assert (Hin : forall kv, kv ∈ l -> meta d !! kv.1 = Some kv.2) by (intros [k v] [? _]%Hl; done).
    clear Hl Hs. revert ks Hks. induction Hscan as [|[k v] x l xs Hd _ IH]; intros [|k' ks] Hks;
      csimpl in Hks; simplify_eq/=; [constructor|]. constructor; [|apply IH; [set_solver|done]].
    specialize (Hm k'). assert (Hv : meta d !! (pre +:+ k') = Some v) by (apply (Hin (_, _)); set_solver).
    rewrite Hv in Hm. apply stored_Some in Hm as (x' & -> & Hx'). congruence.
  - intros k. trans ((pre +:+ k) ∈ l.*1).
    { rewrite Hks. split; [apply list_elem_of_fmap_2|].
      by intros (k' & ->%(inj (String.append pre)) & ?)%list_elem_of_fmap. }
    rewrite list_elem_of_fmap. split.
    + intros ([k' v] & Heq & [Hv Hp]%Hl). simpl in Heq. subst k'. rewrite starts_with_app_l in Hp.
      split; [|done]. specialize (Hm k). rewrite Hv in Hm. apply stored_Some in Hm as (x & -> & _). eauto.
    + intros [[x Hx] Hp]. specialize (Hm k). rewrite Hx in Hm.
      destruct (meta d !! (pre +:+ k)) as [v|] eqn:Hv; [|inversion Hm].
      exists (pre +:+ k, v). split; [done|]. apply Hl. by rewrite starts_with_app_l.
Qed.

(** ** What the bucket operations do *)
Section bucket_spec.
Context {DB : Type} `{RocksDBLaws DB} `{!Codec Bucket} `{!CodecLaws Bucket}.


Lemma create_bucket_spec now n d s r d' :
  stored (meta d !! bucket_key n) s -> create_bucket now n d = (r, d') ->
  infra_err Bucket d d' r \/
  match invalid_operation (validate_bucket_name n), s with
  | Err e, _ => r = Err e /\ d' = d
  | Ok _, Some _ => r = Err (BucketAlreadyExists n) /\ d' = d
  | Ok _, None => r = Ok (Bucket_new now n) /\ entry_is d d' (bucket_key n) (Some (Bucket_new now n))
  end.
Proof.
  intros Hst Hr. unfold create_bucket in Hr.
  apply bind_inv in Hr as [([] & t & [Hv ->]%lift_inv & Hr)|(e & [Hv ->]%lift_inv & ->)];
    rewrite Hv; [|right; by destruct s].
  apply bind_inv in Hr as [(o & t & Hg & Hr)|(e & Hg & ->)];
    [|apply (get_raw_infra (B := Bucket)) in Hg as [-> ?]; left; split; eauto].
  destruct (get_raw_stored _ _ _ _ _ Hst Hg) as [-> Ho]. destruct o as [v|].
  - apply stored_Some in Ho as (x & -> & _). injection Hr as <- <-. by right.
  - apply stored_None in Ho as ->.
    apply bind_inv in Hr as [([] & t & Hp & [= <- <-])|(e & Hp & ->)];
      apply put_enc_entry in Hp as [[? ?]|[-> (e' & ? & ?)]]; simplify_eq; [by right|].
    left; split; eauto.
Qed.

Lemma delete_bucket_spec n d r d' :
  delete_bucket n d = (r, d') ->
  infra_err Bucket d d' r \/
  match invalid_operation (validate_bucket_name n) with
  | Err e => r = Err e /\ d' = d
  | Ok _ => r = Ok tt /\ entry_is (A := Bucket) d d' (bucket_key n) None
  end.
Proof.
  intros Hr. unfold delete_bucket in Hr.
  apply bind_inv in Hr as [([] & t & [Hv ->]%lift_inv & Hr)|(e & [Hv ->]%lift_inv & ->)];
    rewrite Hv; [|by right].
  apply bind_inv in Hr as [([] & t & Hp & [= <- <-])|(e & Hp & ->)];
    apply (delete_raw_entry (A := Bucket)) in Hp as [[? ?]|[-> (e' & ? & ?)]]; simplify_eq;
    [by right|left; split; eauto].
Qed.

Lemma get_bucket_spec n d s r d' :
  stored (meta d !! bucket_key n) s -> get_bucket n d = (r, d') ->
  d' = d /\ ((exists e, r = Err e /\ fault Bucket d e) \/
    r = (_ ← invalid_operation (validate_bucket_name n); ok_or (BucketNotFound n) s)).
Proof.
  intros Hst Hr. unfold get_bucket in Hr.
  apply bind_inv in Hr as [([] & t & [Hv ->]%lift_inv & Hr)|(e & [Hv ->]%lift_inv & ->)];
    rewrite Hv; [|split; [done|by right]].
  apply bind_inv in Hr as [(o & t & Hg & Hr)|(e & Hg & ->)];
    [|apply (get_raw_infra (B := Bucket)) in Hg as [-> ?]; split; eauto].
  destruct (get_raw_stored _ _ _ _ _ Hst Hg) as [-> Ho]. destruct o as [v|].
  - apply stored_Some in Ho as (x & -> & Hx). apply lift_inv in Hr as [<- ->].
    unfold decode_m. rewrite Hx. split; [done|by right].
  - apply stored_None in Ho as ->. injection Hr as <- <-. split; [done|by right].
Qed.
End bucket_spec.
