(* ===== verification/Objects.v ===== *)
(** * save-metadata: object metadata

    Models [crates/save-metadata/src/object.rs]. *)
From Stdlib Require Import Ascii.
From S2P Require Import Prelude Common Kv Buckets.
From stdpp Require Import base gmap strings numbers list.

Record ObjectMetadata : Type := mkObjectMetadata {
  om_bucket : string;
  om_key : string;
  om_size : N;
  om_etag : string;
  om_content_type : option string;
  om_created_at : Z;
  om_modified_at : Z;
  om_replica_nodes : list N;
}.

#[export] Instance ObjectMetadata_eq_dec : EqDecision ObjectMetadata.
Proof. solve_decision. Defined.
#[export] Instance ObjectMetadata_countable : Countable ObjectMetadata.
Proof.
  apply (inj_countable'
    (fun m => (om_bucket m, om_key m, om_size m, om_etag m, om_content_type m,
               om_created_at m, om_modified_at m, om_replica_nodes m))
    (fun '(b, k, s, e, c, cr, mo, r) => mkObjectMetadata b k s e c cr mo r)).
  by intros [].
Defined.

Definition ObjectMetadata_new (now : Z) (bucket key : string) (size : N) (etag : string)
  : ObjectMetadata :=
  mkObjectMetadata bucket key size etag None now now [].

Definition with_replicas (m : ObjectMetadata) (nodes : list N) : ObjectMetadata :=
  mkObjectMetadata (om_bucket m) (om_key m) (om_size m) (om_etag m) (om_content_type m)
    (om_created_at m) (om_modified_at m) nodes.

Definition object_db_key (bucket key : string) : string :=
  "obj:" +:+ bucket +:+ "/" +:+ key.

Section object.
Context {DB : Type} `{RocksDB DB} `{Codec ObjectMetadata}.

Definition prepare_metadata_write (m : ObjectMetadata) : result MetadataError (string * bytes) :=
  _ ← invalid_operation (validate_object_key (om_key m));
  let key := object_db_key (om_bucket m) (om_key m) in
  value ← encode_m m;
  Ok (key, value).

Definition put_object_metadata (m : ObjectMetadata) : M DB MetadataError unit :=
  '(key, value) ← lift (prepare_metadata_write m);
  put_raw key value ;;
  mret tt.

(** The write batch holds the one put; [sync] makes it durable before the call
    returns, which the store's state does not distinguish. *)
Definition commit_object_metadata (m : ObjectMetadata) : M DB MetadataError unit :=
  '(key, value) ← lift (prepare_metadata_write m);
  put_raw key value ;;
  mret tt.

Definition get_object_metadata (bucket key : string) : M DB MetadataError ObjectMetadata :=
  lift (invalid_operation (validate_object_key key)) ;;
  o ← get_raw (object_db_key bucket key);
  match o with
  | Some data => lift (decode_m data)
  | None => throw (ObjectNotFound bucket key)
  end.

Definition delete_object_metadata (bucket key : string) : M DB MetadataError unit :=
  lift (invalid_operation (validate_object_key key)) ;;
  delete_raw (object_db_key bucket key) ;;
  mret tt.

Definition list_objects (bucket : string) (prefix : option string)
  : M DB MetadataError (list ObjectMetadata) :=
  let key_prefix := match prefix with
                    | Some p => "obj:" +:+ bucket +:+ "/" +:+ p
                    | None => "obj:" +:+ bucket +:+ "/"
                    end in
  scan_raw key_prefix (fun kv => m ← decode_m kv.2; Ok (Some m)).
End object.

(** Bucket names hold no slash, so the database key determines both parts. *)
Lemma object_db_key_inj b b' k k' :
  contains_char "/"%char b = false -> contains_char "/"%char b' = false ->
  object_db_key b k = object_db_key b' k' -> b = b' /\ k = k'.
Proof.
  unfold object_db_key. intros Hb Hb' Heq%(inj (String.append "obj:")).
  by apply sep_app_inj in Heq.
Qed.

Lemma list_prefix_db_key b p :
  "obj:" +:+ b +:+ "/" +:+ p = object_db_key b p.
Proof. done. Qed.

Lemma object_db_key_prefix b p k :
  starts_with (object_db_key b p) (object_db_key b k) = starts_with p k.
Proof. unfold object_db_key. by rewrite !starts_with_app_l. Qed.

Lemma list_prefix_none b : "obj:" +:+ b +:+ "/" = object_db_key b "".
Proof. unfold object_db_key. simpl. by rewrite ?string_app_nil_r. Qed.

(** ** What the object operations do *)
Section object_spec.
Context {DB : Type} `{RocksDBLaws DB} `{!Codec ObjectMetadata} `{!CodecLaws ObjectMetadata}.

Lemma put_object_metadata_spec m d r d' :
  put_object_metadata m d = (r, d') ->
  infra_err ObjectMetadata d d' r \/
  match invalid_operation (validate_object_key (om_key m)) with
  | Err e => r = Err e /\ d' = d
  | Ok _ => r = Ok tt /\ entry_is d d' (object_db_key (om_bucket m) (om_key m)) (Some m)
  end.
Proof.
  intros Hr. unfold put_object_metadata, prepare_metadata_write in Hr.
  destruct (invalid_operation (validate_object_key (om_key m))) as [[]|e] eqn:Hv; simpl in Hr;
    [|right; by injection Hr as <- <-].
  assert (Hp : (put_enc (object_db_key (om_bucket m) (om_key m)) m ;; mret tt) d = (r, d')).
  { rewrite <- Hr. unfold put_enc, mbind, M_bind, result_bind, lift.
    by destruct (encode_m m). }
  apply bind_inv in Hp as [([] & t & Hp & [= <- <-])|(e & Hp & ->)];
    apply put_enc_entry in Hp as [[? ?]|[-> (e' & ? & ?)]]; simplify_eq;
    [by right|left; split; eauto].
Qed.

Lemma delete_object_metadata_spec b k d r d' :
  delete_object_metadata b k d = (r, d') ->
  infra_err ObjectMetadata d d' r \/
  match invalid_operation (validate_object_key k) with
  | Err e => r = Err e /\ d' = d
  | Ok _ => r = Ok tt /\ entry_is (A := ObjectMetadata) d d' (object_db_key b k) None
  end.
Proof.
  intros Hr. unfold delete_object_metadata in Hr.
  apply bind_inv in Hr as [([] & t & [Hv ->]%lift_inv & Hr)|(e & [Hv ->]%lift_inv & ->)];
    rewrite Hv; [|by right].
  apply bind_inv in Hr as [([] & t & Hp & [= <- <-])|(e & Hp & ->)];
    apply (delete_raw_entry (A := ObjectMetadata)) in Hp as [[? ?]|[-> (e' & ? & ?)]]; simplify_eq;
    [by right|left; split; eauto].
Qed.

Lemma get_object_metadata_spec b k d s r d' :
  stored (meta d !! object_db_key b k) s -> get_object_metadata b k d = (r, d') ->
  d' = d /\ ((exists e, r = Err e /\ fault ObjectMetadata d e) \/
    r = (_ ← invalid_operation (validate_object_key k); ok_or (ObjectNotFound b k) s)).
Proof.
  intros Hst Hr. unfold get_object_metadata in Hr.
  apply bind_inv in Hr as [([] & t & [Hv ->]%lift_inv & Hr)|(e & [Hv ->]%lift_inv & ->)];
    rewrite Hv; [|split; [done|by right]].
  apply bind_inv in Hr as [(o & t & Hg & Hr)|(e & Hg & ->)];
    [|apply (get_raw_infra (B := ObjectMetadata)) in Hg as [-> ?]; split; eauto].
  destruct (get_raw_stored _ _ _ _ _ Hst Hg) as [-> Ho]. destruct o as [v|].
  - apply stored_Some in Ho as (x & -> & Hx). apply lift_inv in Hr as [<- ->].
    unfold decode_m. rewrite Hx. split; [done|by right].
  - apply stored_None in Ho as ->. injection Hr as <- <-. split; [done|by right].
Qed.
End object_spec.
