(* ===== verification/Multipart.v ===== *)
(** * save-metadata: multipart uploads

    Models [crates/save-metadata/src/multipart.rs].  The metadata of an upload is
    stored under [mpu:bucket:key:id], each part under the same key followed by
    [:part:n]; the [BTreeMap] of parts is a [gmap]. *)
From Stdlib Require Import Ascii.
From S2P Require Import Prelude Common Kv Buckets.
From stdpp Require Import base gmap strings numbers sorting list.

Definition validate_upload_id (upload_id : string) : result MetadataError unit :=
  if bool_decide (upload_id = "") then Err (InvalidOperation "Upload ID cannot be empty")
  else if Nat.ltb 256 (String.length upload_id) then
    Err (InvalidOperation ("Upload ID too long: " +:+ show_nat (String.length upload_id)
           +:+ " bytes (max 256)"))
  else Ok tt.

Record MultipartPart : Type := mkPart { part_number : N; part_etag : string; part_size : N }.
Record MultipartUpload : Type := mkUpload {
  up_upload_id : string; up_bucket : string; up_key : string;
  up_parts : gmap N MultipartPart; up_initiated_at : Z; up_content_type : option string }.
Record MultipartMetadata : Type := mkMultipartMetadata {
  mm_upload_id : string; mm_bucket : string; mm_key : string;
  mm_initiated_at : Z; mm_content_type : option string }.

#[export] Instance MultipartPart_eq_dec : EqDecision MultipartPart.
Proof. solve_decision. Defined.
#[export] Instance MultipartPart_countable : Countable MultipartPart.
Proof.
  by apply (inj_countable' (fun p => (part_number p, part_etag p, part_size p))
    (fun '(a, b, c) => mkPart a b c)); intros [].
Defined.
#[export] Instance MultipartUpload_eq_dec : EqDecision MultipartUpload.
Proof. solve_decision. Defined.
#[export] Instance MultipartMetadata_eq_dec : EqDecision MultipartMetadata.
Proof. solve_decision. Defined.
#[export] Instance MultipartMetadata_countable : Countable MultipartMetadata.
Proof.
  by apply (inj_countable' (fun p => (mm_upload_id p, mm_bucket p, mm_key p, mm_initiated_at p, mm_content_type p))
    (fun '(a, b, c, d, e) => mkMultipartMetadata a b c d e)); intros [].
Defined.

Definition MultipartUpload_new (now : Z) (upload_id bucket key : string) (content_type : option string)
  : MultipartUpload := mkUpload upload_id bucket key ∅ now content_type.

Definition mpu_db_key (bucket key upload_id : string) : string :=
  "mpu:" +:+ bucket +:+ ":" +:+ key +:+ ":" +:+ upload_id.
(** [format!("mpu:{}:{}:{}:part:", ...)]. *)
Definition part_prefix (bucket key upload_id : string) : string :=
  "mpu:" +:+ bucket +:+ ":" +:+ key +:+ ":" +:+ upload_id +:+ ":part:".
Definition part_key (bucket key upload_id : string) (n : N) : string :=
  "mpu:" +:+ bucket +:+ ":" +:+ key +:+ ":" +:+ upload_id +:+ ":part:" +:+ show n.

(** [parts.insert(part.part_number, part)] for each part read. *)
Definition add_part (m : gmap N MultipartPart) (p : MultipartPart) : gmap N MultipartPart :=
  <[part_number p := p]> m.

Definition upload_of (m : MultipartMetadata) (parts : gmap N MultipartPart) : MultipartUpload :=
  mkUpload (mm_upload_id m) (mm_bucket m) (mm_key m) parts (mm_initiated_at m) (mm_content_type m).

Section multipart.
Context {DB : Type} `{RocksDB DB} `{Codec MultipartPart} `{Codec MultipartMetadata}.

Definition check_names (key upload_id : string) : M DB MetadataError unit :=
  lift (invalid_operation (validate_object_key key)) ;; lift (validate_upload_id upload_id).

Definition initiate_multipart_upload (now : Z) (bucket key upload_id : string) (content_type : option string)
  : M DB MetadataError MultipartUpload :=
  check_names key upload_id ;;
  let metadata := mkMultipartMetadata upload_id bucket key now content_type in
  put_enc (mpu_db_key bucket key upload_id) metadata ;;
  mret (mkUpload upload_id bucket key ∅ now content_type).

Definition read_parts (prefix : string) : M DB MetadataError (gmap N MultipartPart) :=
  ps ← scan_raw prefix (fun kv => p ← decode_m kv.2; Ok (Some p));
  mret (foldl add_part ∅ ps).

Definition get_multipart_upload (bucket key upload_id : string) : M DB MetadataError MultipartUpload :=
  check_names key upload_id ;;
  o ← get_raw (mpu_db_key bucket key upload_id);
  metadata ← match o with
             | Some data => lift (decode_m data)
             | None => throw (MultipartUploadNotFound upload_id)
             end;
  parts ← read_parts (part_prefix bucket key upload_id);
  mret (upload_of metadata parts).

Definition record_part (bucket key upload_id : string) (n : N) (etag : string) (size : N)
  : M DB MetadataError unit :=
  check_names key upload_id ;;
  o ← get_raw (mpu_db_key bucket key upload_id);
  match o with
  | None => throw (MultipartUploadNotFound upload_id)
  | Some _ => put_enc (part_key bucket key upload_id n) (mkPart n etag size) ;; mret tt
  end.

(** Collect the keys with the prefix, then delete them. *)
Definition delete_prefix (prefix : string) : M DB MetadataError unit :=
  keys ← scan_raw prefix (fun kv => Ok (Some kv.1));
  for_each delete_raw keys.

Definition complete_multipart_upload (bucket key upload_id : string) : M DB MetadataError MultipartUpload :=
  check_names key upload_id ;;
  upload ← get_multipart_upload bucket key upload_id;
  delete_raw (mpu_db_key bucket key upload_id) ;;
  delete_prefix (part_prefix bucket key upload_id) ;;
  mret upload.

Definition abort_multipart_upload (bucket key upload_id : string) : M DB MetadataError unit :=
  check_names key upload_id ;;
  delete_raw (mpu_db_key bucket key upload_id) ;;
  delete_prefix (part_prefix bucket key upload_id) ;;
  mret tt.

Definition list_multipart_uploads_with_prefix (prefix : string) : M DB MetadataError (list MultipartUpload) :=
  reads (fun d =>
    scan Database prefix (fun kv =>
      if contains_str ":part:" kv.1 then Ok None else
      metadata ← decode_m kv.2;
      let pp := part_prefix (mm_bucket metadata) (mm_key metadata) (mm_upload_id metadata) in
      ps ← scan Database pp (fun kv => p ← decode_m kv.2; Ok (Some p)) (db_iter d "default" pp);
      Ok (Some (upload_of metadata (foldl add_part ∅ ps))))
      (db_iter d "default" prefix)).

Definition list_multipart_uploads (bucket : string) : M DB MetadataError (list MultipartUpload) :=
  list_multipart_uploads_with_prefix ("mpu:" +:+ bucket +:+ ":").
Definition list_all_multipart_uploads : M DB MetadataError (list MultipartUpload) :=
  list_multipart_uploads_with_prefix "mpu:".
End multipart.

Lemma part_key_prefix b k u n : part_key b k u n = part_prefix b k u +:+ show n.
Proof. unfold part_key, part_prefix. by rewrite <- !(assoc_L String.append). Qed.
Lemma part_prefix_key b k u : part_prefix b k u = mpu_db_key b k u +:+ ":part:".
Proof. unfold mpu_db_key, part_prefix. by rewrite <- !(assoc_L String.append). Qed.
#[export] Instance part_key_inj b k u : Inj (=) (=) (part_key b k u).
Proof. intros n m. rewrite !part_key_prefix. by intros ?%(inj _)%(inj show). Qed.

Lemma app_cons_ne s c t : s <> s +:+ String c t.
Proof. induction s as [|d s IH]; simpl; [done|]. by intros [= ?]. Qed.

Lemma db_key_not_part b k u : starts_with (part_prefix b k u) (mpu_db_key b k u) = false.
Proof.
  apply not_true_is_false. rewrite starts_with_spec. intros (t & Ht).
  rewrite part_prefix_key, <- (assoc_L String.append) in Ht. by eapply app_cons_ne.
Qed.

Section spec.
Context {DB : Type} `{RocksDBLaws DB} `{!Codec MultipartPart} `{!Codec MultipartMetadata}
  `{!CodecLaws MultipartPart} `{!CodecLaws MultipartMetadata}.

(** The parts stored for an upload: every key with the part prefix is a part
    key and holds its part. *)
Definition parts_are (d : DB) (b k u : string) (parts : gmap N MultipartPart) : Prop :=
  (forall key v, meta d !! key = Some v -> starts_with (part_prefix b k u) key = true ->
     exists n p, key = part_key b k u n /\ dec v = Ok p /\ parts !! n = Some p) /\
  (forall n p, parts !! n = Some p -> part_number p = n /\
     exists v, meta d !! part_key b k u n = Some v /\ dec v = Ok p).

Lemma check_names_Ok key u (d : DB) x d' : check_names key u d = (Ok x, d') -> d' = d.
Proof.
  by intros [(? & t & [_ ->]%lift_inv & [_ ->]%lift_inv)|(? & _ & ?)]%bind_inv.
Qed.

Lemma foldl_add_part ps m n :
  (forall p q, p ∈ ps -> q ∈ ps -> part_number p = part_number q -> p = q) ->
  foldl add_part m ps !! n =
  match list_find (fun p => part_number p = n) ps with Some (_, p) => Some p | None => m !! n end.
Proof.
  revert m. induction ps as [|p ps IH]; intros m Hu; [done|]. simpl.
  rewrite IH by (intros; apply Hu; set_solver).
  case_decide as Hp; simpl.
  - destruct (list_find _ ps) as [[i q]|] eqn:Hf; simpl.
    + apply list_find_Some in Hf as (Hi & Hq & _). f_equal. symmetry. apply Hu; [set_solver| |congruence].
      apply elem_of_cons. right. by eapply list_elem_of_lookup_2.
    + unfold add_part. by rewrite Hp, lookup_insert_eq.
  - destruct (list_find _ ps) as [[i q]|] eqn:Hf; simpl; [done|].
    unfold add_part. by rewrite lookup_insert_ne.
Qed.

(** Reading the parts gives the parts that are stored. *)
Lemma read_parts_spec b k u parts (d : DB) r d' :
  parts_are d b k u parts -> read_parts (part_prefix b k u) d = (Ok r, d') -> d' = d /\ r = parts.
Proof.
  intros [Hk Hn] [(ps & t & Hs & [= <- <-])|(? & _ & ?)]%bind_inv; [|done].
  apply scan_raw_spec in Hs as (-> & l & [_ Hl] & Hps%scan_list_decode). split; [done|].
  assert (Hin : forall p, p ∈ ps <-> exists n, parts !! n = Some p).
  { intros p. split.
    - intros (i & Hi)%list_elem_of_lookup. destruct (Forall2_lookup_r _ _ _ _ _ Hps Hi) as ([key v] & Hkv & Hd).
      apply list_elem_of_lookup_2, Hl in Hkv as [Hkv Hp]. simpl in Hd.
      destruct (Hk _ _ Hkv Hp) as (n & q & -> & Hq & ?). exists n. congruence.
    - intros (n & Hp). destruct (Hn _ _ Hp) as (_ & v & Hv & Hd).
      assert (Hkv : (part_key b k u n, v) ∈ l).
      { apply Hl. split; [done|]. rewrite part_key_prefix. apply starts_with_app. }
      apply list_elem_of_lookup in Hkv as [i Hi].
      destruct (Forall2_lookup_l _ _ _ _ _ Hps Hi) as (q & Hq & Hd'). simpl in Hd'.
      assert (q = p) as -> by congruence. by eapply list_elem_of_lookup_2. }
  assert (Hnum : forall p q, p ∈ ps -> q ∈ ps -> part_number p = part_number q -> p = q).
  { intros p q (n & Hp)%Hin (m & Hq)%Hin Heq. destruct (Hn _ _ Hp) as [<- _], (Hn _ _ Hq) as [<- _].
    congruence. }
  apply map_eq. intros n. rewrite foldl_add_part by done.
  destruct (list_find _ ps) as [[i p]|] eqn:Hf.
  - apply list_find_Some in Hf as (Hi & Hp & _). apply list_elem_of_lookup_2, Hin in Hi as (m & Hm).
    destruct (Hn _ _ Hm) as [Hpm _]. congruence.
  - rewrite lookup_empty. symmetry. apply eq_None_not_Some. intros (p & Hp).
    apply list_find_None in Hf. rewrite list.Forall_forall in Hf.
    apply (Hf p); [apply Hin; eauto|]. by destruct (Hn _ _ Hp).
Qed.

Lemma get_upload_spec b k u md parts (d : DB) r d' :
  stored (meta d !! mpu_db_key b k u) md -> parts_are d b k u parts ->
  get_multipart_upload b k u d = (Ok r, d') ->
  d' = d /\ exists m, md = Some m /\ r = upload_of m parts.
Proof.
  intros Hmd Hp [([] & t & ->%check_names_Ok & Hr)|(? & _ & ?)]%bind_inv; [|done].
  apply bind_inv in Hr as [(o & t & Hg & Hr)|(? & _ & ?)]; [|done].
  destruct (get_raw_stored _ _ _ _ _ Hmd Hg) as [-> Ho].
  apply bind_inv in Hr as [(m & t & Hm & Hr)|(? & _ & ?)]; [|done].
  destruct o as [v|]; [|done]. apply stored_Some in Ho as (x & -> & Hx).
  apply lift_inv in Hm as [Hm ->]. unfold decode_m in Hm. rewrite Hx in Hm. simplify_eq/=.
  apply bind_inv in Hr as [(ps & t & Hps & [= <- <-])|(? & _ & ?)]; [|done].
  apply (read_parts_spec _ _ _ _ _ _ _ Hp) in Hps as [-> ->]. eauto.
Qed.

Lemma scan_list_keys l : scan_list (fun kv : string * bytes => Ok (Some kv.1)) l = Ok (E := MetadataError) l.*1.
Proof. induction l as [|kv l IH]; [done|]. csimpl. by rewrite IH. Qed.

Lemma delete_all ks (d d' : DB) : for_each delete_raw ks d = (Ok tt, d') ->
  forall k, meta d' !! k = if decide (k ∈ ks) then None else meta d !! k.
Proof.
  revert d. induction ks as [|k0 ks IH]; intros d.
  { intros [= <-] k. by rewrite decide_False by set_solver. }
  intros [([] & t & Hd & Hr)|(? & _ & ?)]%bind_inv; [|done]. intros k. rewrite (IH _ Hr).
  apply delete_raw_spec in Hd as [[_ Hm]|[_ (? & ? & _)]]; [|done]. rewrite Hm.
  destruct (decide (k ∈ ks)); [by rewrite decide_True by set_solver|].
  destruct (decide (k = k0)) as [->|]; [rewrite lookup_delete_eq, decide_True by set_solver; done|].
  rewrite lookup_delete_ne, decide_False by set_solver. done.
Qed.

Lemma delete_prefix_spec p (d d' : DB) : delete_prefix p d = (Ok tt, d') ->
  forall k, meta d' !! k = if starts_with p k then None else meta d !! k.
Proof.
  intros [(ks & t & Hs & Hr)|(? & _ & ?)]%bind_inv; [|done].
  apply scan_raw_spec in Hs as (-> & l & [_ Hl] & Hks). rewrite scan_list_keys in Hks. injection Hks as <-.
  intros k. rewrite (delete_all _ _ _ Hr). destruct (starts_with p k) eqn:Hp; case_decide as Hd; try done.
  - destruct (meta d !! k) as [v|] eqn:Hv; [|done]. destruct Hd. apply list_elem_of_fmap.
    exists (k, v). split; [done|]. by apply Hl.
  - apply list_elem_of_fmap in Hd as ([k' v] & -> & [_ ?]%Hl). simpl in *. congruence.
Qed.

(** Both ends of an upload's life remove its metadata and every key under its
    part prefix, and nothing else. *)
Lemma remove_upload b k u (d d1 d' : DB) :
  delete_raw (mpu_db_key b k u) d = (Ok tt, d1) -> delete_prefix (part_prefix b k u) d1 = (Ok tt, d') ->
  forall key, meta d' !! key =
    if starts_with (part_prefix b k u) key || bool_decide (key = mpu_db_key b k u) then None else meta d !! key.
Proof.
  intros Hd Hp key. rewrite (delete_prefix_spec _ _ _ Hp). destruct (starts_with _ key); [done|]. simpl.
  apply delete_raw_spec in Hd as [[_ Hm]|[_ (? & ? & _)]]; [|done]. rewrite Hm.
  case_bool_decide; [subst; by rewrite lookup_delete_eq|by rewrite lookup_delete_ne].
Qed.
End spec.

(** ** Properties *)
Section properties.
Context {DB : Type} `{RocksDBLaws DB} `{!Codec MultipartPart} `{!Codec MultipartMetadata}
  `{!CodecLaws MultipartPart} `{!CodecLaws MultipartMetadata}.

Lemma record_part_inv b k u n etag size (d d' : DB) :
  record_part b k u n etag size d = (Ok tt, d') ->
  entry_is d d' (part_key b k u n) (Some (mkPart n etag size)).
Proof.
  intros [([] & t & ->%check_names_Ok & Hr)|(? & _ & ?)]%bind_inv; [|done].
  apply bind_inv in Hr as [(o & t & Hg & Hr)|(? & _ & ?)]; [|done].
  apply get_raw_spec in Hg as [-> _]. destruct o as [v|]; [|done].
  apply bind_inv in Hr as [([] & t & Hp & [= <-])|(? & _ & ?)]; [|done].
  by apply put_enc_entry in Hp as [[_ ?]|(_ & e & ? & _)].
Qed.

Lemma parts_are_record b k u n p (d d' : DB) parts : part_number p = n ->
  parts_are d b k u parts -> entry_is d d' (part_key b k u n) (Some p) ->
  parts_are d' b k u (<[n := p]> parts).
Proof.
  intros Hnum [Hk Hn] [Hs Hf]. split.
  - intros key v Hv Hpre. destruct (decide (key = part_key b k u n)) as [->|Hne].
    + exists n, p. rewrite Hv in Hs. apply stored_Some in Hs as (x & [= <-] & Hx).
      by rewrite lookup_insert_eq.
    + rewrite Hf in Hv by done. destruct (Hk _ _ Hv Hpre) as (m & q & -> & Hq & Hm).
      exists m, q. split_and!; [done..|]. rewrite lookup_insert_ne; [done|]. by intros <-.
  - intros m q. destruct (decide (m = n)) as [->|Hne].
    + rewrite lookup_insert_eq. intros [= <-]. split; [done|].
      destruct (meta d' !! part_key b k u n) as [v|]; [|by inversion Hs].
      apply stored_Some in Hs as (x & [= <-] & Hx). eauto.
    + rewrite lookup_insert_ne by done. intros Hm. destruct (Hn _ _ Hm) as (? & v & Hv & Hd).
      split; [done|]. exists v. rewrite Hf; [done|]. by intros ?%(inj (part_key b k u)).
Qed.

(** Recording a part adds it to the upload, replacing an earlier part of the
    same number, and leaves the upload's other parts and its metadata as they
    were; the next read returns exactly that. *)
Theorem record_part_then_get b k u n etag size md parts (d d1 d2 : DB) r :
  stored (meta d !! mpu_db_key b k u) (Some md) -> parts_are d b k u parts ->
  record_part b k u n etag size d = (Ok tt, d1) ->
  get_multipart_upload b k u d1 = (Ok r, d2) ->
  r = upload_of md (<[n := mkPart n etag size]> parts) /\ d2 = d1 /\
  forall key, key <> part_key b k u n -> meta d1 !! key = meta d !! key.
Proof.
  intros Hmd Hp Hrec%record_part_inv Hg. pose proof Hrec as [_ Hf].
  apply (parts_are_record _ _ _ n (mkPart n etag size) _ _ parts) in Hrec; [|done..].
  apply (get_upload_spec _ _ _ (Some md) (<[n := mkPart n etag size]> parts)) in Hg
    as (-> & m & [= <-] & ->); [done| |done].
  rewrite Hf; [done|]. intros Heq. pose proof (db_key_not_part b k u) as Hn.
  by rewrite Heq, part_key_prefix, starts_with_app in Hn.
Qed.

(** Completing an upload returns its metadata with all its parts and then
    removes its metadata and every key under its part prefix, and nothing else. *)
Theorem complete_upload_exact b k u md parts (d d' : DB) r :
  stored (meta d !! mpu_db_key b k u) md -> parts_are d b k u parts ->
  complete_multipart_upload b k u d = (Ok r, d') ->
  (exists m, md = Some m /\ r = upload_of m parts) /\
  forall key, meta d' !! key =
    if starts_with (part_prefix b k u) key || bool_decide (key = mpu_db_key b k u) then None else meta d !! key.
Proof.
  intros Hmd Hp [([] & t & ->%check_names_Ok & Hr)|(? & _ & ?)]%bind_inv; [|done].
  apply bind_inv in Hr as [(up & t & Hg & Hr)|(? & _ & ?)]; [|done].
  apply (get_upload_spec _ _ _ _ _ _ _ _ Hmd Hp) in Hg as (-> & m & -> & ->).
  apply bind_inv in Hr as [([] & t & Hd & Hr)|(? & _ & ?)]; [|done].
  apply bind_inv in Hr as [([] & t1 & Hdp & [= <- <-])|(? & _ & ?)]; [|done].
  split; [by eauto|]. by eapply remove_upload.
Qed.

Lemma abort_removes b k u (d d' : DB) : abort_multipart_upload b k u d = (Ok tt, d') -> forall key, meta d' !! key =
  if starts_with (part_prefix b k u) key || bool_decide (key = mpu_db_key b k u) then None else meta d !! key.
Proof.
  intros [([] & t & ->%check_names_Ok & Hr)|(? & _ & ?)]%bind_inv; [|done].
  apply bind_inv in Hr as [([] & t & Hd & Hr)|(? & _ & ?)]; [|done].
  apply bind_inv in Hr as [([] & t1 & Hdp & [= <-])|(? & _ & ?)]; [|done].
  by eapply remove_upload.
Qed.

(** Aborting an upload, also one that does not exist, removes its metadata
    and every key under its part prefix, and nothing else; aborting it again
    changes nothing. *)
Theorem abort_upload_exact b k u (d d' : DB) :
  abort_multipart_upload b k u d = (Ok tt, d') ->
  (forall key, meta d' !! key =
    if starts_with (part_prefix b k u) key || bool_decide (key = mpu_db_key b k u) then None else meta d !! key)
  /\ forall d'', abort_multipart_upload b k u d' = (Ok tt, d'') -> meta d'' = meta d'.
Proof.
  intros Ha. split; [by apply abort_removes|]. intros d'' Ha'. apply map_eq. intros key.
  rewrite (abort_removes _ _ _ _ _ Ha'), (abort_removes _ _ _ _ _ Ha). by destruct (_ || _).
Qed.

(** A listing shows only uploads whose database key has no [:part:] in it:
    an upload of an object whose key contains [:part:] is never listed. *)
Theorem list_uploads_hides_part_keys p (d d' : DB) ups :
  (forall key v m, meta d !! key = Some v -> dec v = Ok m ->
     key = mpu_db_key (mm_bucket m) (mm_key m) (mm_upload_id m)) ->
  list_multipart_uploads_with_prefix p d = (Ok ups, d') ->
  Forall (fun up => contains_str ":part:" (up_key up) = false) ups.
Proof.
  intros Hwf [= Hs _]. apply scan_spec in Hs as (l & [_ Hl] & Hs).
  assert (Hin : forall kv, kv ∈ l -> meta d !! kv.1 = Some kv.2) by (intros [] [? _]%Hl; done). clear Hl.
  revert ups Hs. induction l as [|[key v] l IH]; intros ups Hs; simpl in Hs; [injection Hs as <-; constructor|].
  specialize (IH ltac:(set_solver)).
  destruct (contains_str ":part:" key) eqn:Hc; simpl in Hs.
  { apply result_bind_inv in Hs as (xs & Hxs & [= <-]). by apply IH. }
  apply result_bind_inv in Hs as (x & Hx & Hs). apply result_bind_inv in Hx as (m & Hm & Hx).
  apply result_bind_inv in Hx as (ps & _ & [= <-]). apply result_bind_inv in Hs as (xs & Hxs & [= <-]).
  constructor; [|by apply IH]. simpl. apply not_true_is_false. intros Hk.
  unfold decode_m in Hm. destruct (dec v) as [m'|] eqn:Hd; simplify_eq/=.
  rewrite (Hwf key v m (Hin (key, v) ltac:(set_solver)) Hd) in Hc. apply not_true_iff_false in Hc.
  destruct Hc. unfold mpu_db_key. do 3 apply contains_str_app_l. by apply contains_str_app_r.
Qed.
End properties.

(** ** Witnesses *)
Module MpWit.
Import Mem.
Definition st {A} (c : M Mem.t MetadataError A) (d : Mem.t) : Mem.t := (c d).2.
Definition m0 : MultipartMetadata := mkMultipartMetadata "u1" "photos" "a:b" 9 None.
Definition d0 : Mem.t := st (initiate_multipart_upload 9 "photos" "a:b" "u1" None) Mem.empty.
Definition d1 : Mem.t := st (record_part "photos" "a:b" "u1" 12 "e12" 5) d0.

Lemma meta_d0 : meta d0 = {[ mpu_db_key "photos" "a:b" "u1" := pos_bytes (countable.encode m0) ]}.
Proof. vm_compute. reflexivity. Qed.
Lemma stored_d0 : stored (meta d0 !! mpu_db_key "photos" "a:b" "u1") (Some m0).
Proof. vm_compute. constructor. vm_compute. reflexivity. Qed.
Lemma parts_d0 : parts_are d0 "photos" "a:b" "u1" ∅.
Proof.
  split; [|intros n p; by rewrite lookup_empty]. intros key v. rewrite meta_d0.
  intros [<- <-]%lookup_singleton_Some Hp. by vm_compute in Hp.
Qed.

Lemma record_part_then_get_witness :
  mkUpload "u1" "photos" "a:b" {[ 12%N := mkPart 12 "e12" 5 ]} 9 None
    = upload_of m0 (<[12%N := mkPart 12 "e12" 5]> ∅) /\ d1 = d1 /\
  forall key, key <> part_key "photos" "a:b" "u1" 12 -> meta d1 !! key = meta d0 !! key.
Proof.
  refine (record_part_then_get "photos" "a:b" "u1" 12 "e12" 5 m0 ∅ d0 d1 d1 _ stored_d0 parts_d0 _ _);
    vm_compute; reflexivity.
Defined.

Lemma complete_upload_exact_witness :
  let d' := st (complete_multipart_upload "photos" "a:b" "u1") d0 in
  (exists m, Some m0 = Some m /\ upload_of m0 ∅ = upload_of m ∅) /\
  forall key, meta d' !! key =
    if starts_with (part_prefix "photos" "a:b" "u1") key || bool_decide (key = mpu_db_key "photos" "a:b" "u1")
    then None else meta d0 !! key.
Proof.
  intros d'. refine (complete_upload_exact "photos" "a:b" "u1" (Some m0) ∅ d0 d' (upload_of m0 ∅)
    stored_d0 parts_d0 _). vm_compute. reflexivity.
Defined.

Lemma abort_upload_exact_witness :
  let d' := st (abort_multipart_upload "photos" "a:b" "u1") d1 in
  (forall key, meta d' !! key =
    if starts_with (part_prefix "photos" "a:b" "u1") key || bool_decide (key = mpu_db_key "photos" "a:b" "u1")
    then None else meta d1 !! key)
  /\ forall d'', abort_multipart_upload "photos" "a:b" "u1" d' = (Ok tt, d'') -> meta d'' = meta d'.
Proof.
  intros d'. refine (abort_upload_exact "photos" "a:b" "u1" d1 d' _). vm_compute. reflexivity.
Defined.

Definition dp : Mem.t := st (initiate_multipart_upload 9 "photos" "a:part:b" "u1" None) Mem.empty.
Definition mp : MultipartMetadata := mkMultipartMetadata "u1" "photos" "a:part:b" 9 None.
Lemma list_uploads_hides_part_keys_witness :
  Forall (fun up => contains_str ":part:" (up_key up) = false) ([] : list MultipartUpload).
Proof.
  refine (list_uploads_hides_part_keys "mpu:" dp dp [] _ _); [|vm_compute; reflexivity].
  assert (Hdp : meta dp = {[ mpu_db_key "photos" "a:part:b" "u1" := pos_bytes (countable.encode mp) ]})
    by (vm_compute; reflexivity).
  intros key v m. rewrite Hdp. intros [<- <-]%lookup_singleton_Some Hd.
  assert (Hd' : dec (pos_bytes (countable.encode mp)) = Ok mp) by (vm_compute; reflexivity).
  rewrite Hd' in Hd. by injection Hd as <-.
Defined.
End MpWit.
