(* ===== verification/Locks.v ===== *)
(** * save-metadata: distributed object locks

    Models [crates/save-metadata/src/lock.rs] and the lock types of
    [raft/commands.rs].  The lock table lives in the replicated database under
    [lock:bucket/key]; [acquire_lock] and [release_lock] run when the Raft
    command is applied.  [Manager] is [DistributedLockManager]. *)
From Stdlib Require Import Ascii.
From S2P Require Import Prelude Common Kv Buckets.
From stdpp Require Import base gmap strings numbers list.

Inductive LockType : Type := Read | Write.
Record LockHolder : Type := mkLockHolder { node_id : N; lock_id : N }.
Record LockState : Type := mkLockState { lock_type : LockType; holders : list LockHolder }.

#[export] Instance LockType_eq_dec : EqDecision LockType.
Proof. solve_decision. Defined.
#[export] Instance LockHolder_eq_dec : EqDecision LockHolder.
Proof. solve_decision. Defined.
#[export] Instance LockState_eq_dec : EqDecision LockState.
Proof. solve_decision. Defined.
#[export] Instance LockType_countable : Countable LockType.
Proof.
  by apply (inj_countable' (fun t => match t with Read => true | Write => false end)
    (fun b : bool => if b then Read else Write)); intros [].
Defined.
#[export] Instance LockHolder_countable : Countable LockHolder.
Proof.
  by apply (inj_countable' (fun h => (node_id h, lock_id h)) (fun p => mkLockHolder p.1 p.2));
    intros [].
Defined.
#[export] Instance LockState_countable : Countable LockState.
Proof.
  by apply (inj_countable' (fun s => (lock_type s, holders s)) (fun p => mkLockState p.1 p.2));
    intros [].
Defined.

Definition lock_key (bucket key : string) : string := "lock:" +:+ bucket +:+ "/" +:+ key.

Definition is_held_by (s : LockState) (h : LockHolder) : bool :=
  existsb (fun h' => bool_decide (h' = h)) (holders s).

Definition can_acquire (s : LockState) (t : LockType) (h : LockHolder) : bool :=
  if existsb (fun h' => bool_decide (h' = h)) (holders s) then true
  else match lock_type s, t with
       | Read, Read => true
       | Read, Write => false
       | Write, _ => false
       end.

Section lock.
Context {DB : Type} `{RocksDB DB} `{Codec LockState}.

Definition get_lock_state (bucket key : string) : M DB MetadataError (option LockState) :=
  o ← get_raw (lock_key bucket key);
  match o with
  | Some data => s ← lift (decode_m data); mret (Some s)
  | None => mret None
  end.

Definition acquire_lock (bucket key : string) (t : LockType) (h : LockHolder)
  : M DB MetadataError bool :=
  let db_key := lock_key bucket key in
  current_state ← get_lock_state bucket key;
  match current_state with
  | None =>
      let state := mkLockState t [h] in
      put_enc db_key state ;;
      mret true
  | Some state =>
      if is_held_by state h then mret true
      else if negb (can_acquire state t h) then mret false
      else
        let state' := mkLockState (lock_type state) (holders state ++ [h]) in
        put_enc db_key state' ;;
        mret true
  end.

Definition release_lock (bucket key : string) (h : LockHolder) : M DB MetadataError unit :=
  let db_key := lock_key bucket key in
  o ← get_lock_state bucket key;
  match o with
  | Some state =>
      let hs := filter (fun h' => h' <> h) (holders state) in
      match hs with
      | [] => delete_raw db_key
      | _ => put_enc db_key (mkLockState (lock_type state) hs)
      end ;;
      mret tt
  | None => mret tt
  end.
End lock.

(** ** The lock table entry as an abstract object *)

Definition abs_acquire (s : option LockState) (t : LockType) (h : LockHolder)
  : bool * option LockState :=
  match s with
  | None => (true, Some (mkLockState t [h]))
  | Some st =>
      if decide (h ∈ holders st) then (true, s)
      else match lock_type st, t with
           | Read, Read => (true, Some (mkLockState Read (holders st ++ [h])))
           | _, _ => (false, s)
           end
  end.

Definition abs_release (s : option LockState) (h : LockHolder) : option LockState :=
  match s with
  | None => None
  | Some st => match filter (fun h' => h' <> h) (holders st) with
               | [] => None
               | hs => Some (mkLockState (lock_type st) hs)
               end
  end.

(** A lock entry has a holder, lists no holder twice, and a write lock has
    exactly one. *)
Definition lock_wf (s : LockState) : Prop :=
  holders s <> [] /\ NoDup (holders s) /\ (lock_type s = Write -> length (holders s) = 1).

Lemma is_held_by_spec s h : is_held_by s h = true <-> h ∈ holders s.
Proof.
  unfold is_held_by. rewrite existsb_exists. setoid_rewrite bool_decide_eq_true.
  split; [intros (x & Hx & ->); by apply list_elem_of_In|].
  intros Hh. exists h. split; [by apply list_elem_of_In|done].
Qed.

Lemma abs_acquire_wf s t h b s' :
  (forall st, s = Some st -> lock_wf st) -> abs_acquire s t h = (b, s') ->
  forall st, s' = Some st -> lock_wf st.
Proof.
  intros Hwf. unfold abs_acquire. destruct s as [st|].
  - destruct (Hwf st eq_refl) as (Hne & Hnd & Hw). case_decide as Hh; [intros [= <- <-]; naive_solver|].
    destruct (lock_type st) eqn:Ht, t; intros [= <- <-] st' [= <-]; try naive_solver.
    split_and!; simpl; [by destruct (holders st)| |done].
    apply list.NoDup_app. split_and!; [done|set_solver|apply NoDup_singleton].
  - intros [= <- <-] st [= <-]. split_and!; simpl; [done|apply NoDup_singleton|done].
Qed.

Lemma abs_release_wf s h : (forall st, s = Some st -> lock_wf st) ->
  forall st, abs_release s h = Some st -> lock_wf st.
Proof.
  intros Hwf st'. unfold abs_release. destruct s as [st|]; [|done].
  destruct (Hwf st eq_refl) as (Hne & Hnd & Hw).
  destruct (filter _ _) as [|x hs] eqn:Hf; [done|]. intros [= <-].
  assert (Hnd' : NoDup (x :: hs)) by (rewrite <- Hf; by apply NoDup_filter).
  split_and!; simpl; [done|done|]. intros Ht. specialize (Hw Ht).
  destruct (holders st) as [|y [|]]; simpl in Hw; try lia.
  rewrite filter_cons in Hf. case_decide; [|done]. rewrite filter_nil in Hf. by simplify_eq.
Qed.

Lemma abs_acquire_holds s t h s' : abs_acquire s t h = (true, s') ->
  exists st, s' = Some st /\ h ∈ holders st.
Proof.
  unfold abs_acquire. destruct s as [st|]; [|intros [= <-]; eexists; split; [done|set_solver]].
  case_decide; [intros [= <-]; eauto|].
  destruct (lock_type st), t; intros [= <-]. eexists. split; [done|]. set_solver.
Qed.

Lemma abs_release_gone s h st : abs_release s h = Some st -> h ∉ holders st.
Proof.
  unfold abs_release. destruct s as [st0|]; [|done].
  destruct (filter _ _) as [|x hs] eqn:Hf; [done|]. intros [= <-]. simpl. rewrite <- Hf.
  rewrite list_elem_of_filter. naive_solver.
Qed.

Section refine.
Context {DB : Type} `{RocksDBLaws DB} `{!Codec LockState} `{!CodecLaws LockState}.

Lemma get_lock_state_spec b k d s r d' :
  stored (meta d !! lock_key b k) s -> get_lock_state b k d = (r, d') ->
  d' = d /\ (r = Ok s \/ exists e, r = Err e /\ fault LockState d e).
Proof.
  intros Hst [(o & t & Hg & Hr)|(e & Hg & ->)]%bind_inv;
    [|apply (get_raw_infra (B := LockState)) in Hg as [-> ?]; by eauto].
  apply get_raw_spec in Hg as [-> [[= ->]|(m & ? & _)]]; [|done].
  destruct (meta d !! lock_key b k) as [v|].
  - apply stored_Some in Hst as (x & -> & Hx). revert Hr.
    unfold decode_m, mbind, M_bind, lift. rewrite Hx. intros [= <- <-]. auto.
  - apply stored_None in Hst as ->. injection Hr as <- <-. auto.
Qed.

(** The outcome of a lock operation: an infrastructure error that changed
    nothing, or the abstract outcome with the new entry stored. *)
Lemma acquire_lock_spec b k t h d s r d' :
  stored (meta d !! lock_key b k) s -> acquire_lock b k t h d = (r, d') ->
  infra_err LockState d d' r \/
  exists x s', r = Ok x /\ abs_acquire s t h = (x, s') /\ entry_is d d' (lock_key b k) s'.
Proof.
  intros Hst [(o & t0 & Hg & Hr)|(e & Hg & ->)]%bind_inv;
    destruct (get_lock_state_spec _ _ _ _ _ _ Hst Hg) as [-> [Ho|(e' & Ho & He)]]; simplify_eq;
    [|by left; split; eauto].
  assert (Hput : forall st, (put_enc (lock_key b k) st ;; mret true) d = (r, d') ->
    infra_err LockState d d' r \/ r = Ok true /\ entry_is d d' (lock_key b k) (Some st)).
  { intros st [([] & t1 & Hp & [= <- <-])|(e & Hp & ->)]%bind_inv;
      apply put_enc_entry in Hp as [[? ?]|[-> (e' & ? & ?)]]; simplify_eq;
      [by right|left; split; eauto]. }
  destruct s as [st|]; [|apply Hput in Hr as [?|[-> ?]]; [by left|right; by eauto]].
  destruct (is_held_by st h) eqn:Hh.
  { injection Hr as <- <-. right. exists true, (Some st). simpl.
    apply is_held_by_spec in Hh. by rewrite decide_True. }
  assert (Hnh : h ∉ holders st) by (rewrite <- is_held_by_spec; congruence).
  unfold can_acquire in Hr. unfold is_held_by in Hh. rewrite Hh in Hr. simpl.
  rewrite decide_False by done.
  destruct (lock_type st) eqn:Hlt, t; simpl in Hr;
    try (injection Hr as <- <-; right; by exists false, (Some st)).
  apply Hput in Hr as [?|[-> ?]]; [by left|right; by eauto].
Qed.

Lemma release_lock_spec b k h d s r d' :
  stored (meta d !! lock_key b k) s -> release_lock b k h d = (r, d') ->
  infra_err LockState d d' r \/ (r = Ok tt /\ entry_is d d' (lock_key b k) (abs_release s h)).
Proof.
  intros Hst [(o & t0 & Hg & Hr)|(e & Hg & ->)]%bind_inv;
    destruct (get_lock_state_spec _ _ _ _ _ _ Hst Hg) as [-> [Ho|(e' & Ho & He)]]; simplify_eq;
    [|by left; split; eauto].
  destruct s as [st|]; [|injection Hr as <- <-; right; by split]. simpl.
  destruct (filter (fun h' => h' <> h) (holders st)) as [|x hs] eqn:Hf;
    apply bind_inv in Hr as [([] & t1 & Hp & [= <- <-])|(e & Hp & ->)];
    [apply delete_raw_entry in Hp|apply delete_raw_entry in Hp
    |apply put_enc_entry in Hp|apply put_enc_entry in Hp];
    destruct Hp as [[? ?]|[-> (e' & ? & ?)]]; simplify_eq;
    solve [by right|by left; split; eauto].
Qed.

(** A holder that already reads is told it has the write lock: [acquire_lock]
    in write mode returns [true] for a current reader, leaves the entry a read
    lock and keeps the other readers. *)
Theorem write_granted_to_reader (d d' : DB) b k h r st :
  stored (meta d !! lock_key b k) (Some st) -> lock_type st = Read -> h ∈ holders st ->
  acquire_lock b k Write h d = (Ok r, d') ->
  r = true /\ stored (meta d' !! lock_key b k) (Some st).
Proof.
  intros Hst Ht Hh Hr.
  destruct (acquire_lock_spec _ _ _ _ _ _ _ _ Hst Hr) as [(_ & e & ? & _)|(x & s' & [= ->] & Ha & Hs & _)];
    [done|].
  simpl in Ha. rewrite decide_True in Ha by done. injection Ha as <- <-. done.
Qed.
End refine.

(** ** Witness: two readers, one of which asks for the write lock *)
Module LockWit.
Import Mem.

Definition h1 : LockHolder := mkLockHolder 1 0.
Definition h2 : LockHolder := mkLockHolder 2 0.
Definition d1 : Mem.t := (acquire_lock "photos" "k" Read h1 Mem.empty).2.
Definition d2 : Mem.t := (acquire_lock "photos" "k" Read h2 d1).2.

Lemma write_granted_to_reader_witness :
  true = true /\ stored (meta d2 !! lock_key "photos" "k") (Some (mkLockState Read [h1; h2])).
Proof.
  refine (write_granted_to_reader d2 d2 "photos" "k" h1 true (mkLockState Read [h1; h2]) _ _ _ _).
  - vm_compute. constructor. vm_compute. reflexivity.
  - reflexivity.
  - apply elem_of_cons. by left.
  - vm_compute. reflexivity.
Defined.
End LockWit.

(** ** [DistributedLockManager] *)
Module Manager.

Inductive LockError : Type := Timeout | AcquisitionFailed (msg : string).

Record t : Type := mk {
  mgr_node_id : N;
  lock_counter : N;
  timeout : N;          (* milliseconds *)
  retry_interval : N;   (* milliseconds *)
}.

Definition new (node_id : N) : t := mk node_id 0 30000 50.
Definition with_timeout (m : t) (timeout : N) : t :=
  mk (mgr_node_id m) (lock_counter m) timeout (retry_interval m).

(** [fetch_add] on an [AtomicU64] wraps. *)
Definition next_holder (m : t) : LockHolder * t :=
  (mkLockHolder (mgr_node_id m) (lock_counter m),
   mk (mgr_node_id m) (wrapN 64 (lock_counter m + 1)) (timeout m) (retry_interval m)).

Record Guard : Type := mkGuard { g_bucket : string; g_key : string; g_holder : LockHolder }.

(** What the manager uses of [RaftNode]: [acquire_lock] and [release_lock]
    replicate the command and return when it was applied; [elapse] is what the
    other commands do to the local database while a task sleeps; a future that
    is dropped while the command is in flight leaves [abandoned]. *)
Class LockRaft (DB : Type) : Type := {
  raft_acquire_lock : string -> string -> LockType -> LockHolder -> M DB MetadataError unit;
  raft_release_lock : string -> string -> LockHolder -> M DB MetadataError unit;
  abandoned : string -> string -> LockType -> LockHolder -> DB -> DB;
  elapse : DB -> DB;
}.

Section manager.
Context {DB : Type} `{RocksDB DB} `{Codec LockState} `{LockRaft DB}.
Context (to_string : MetadataError -> string).

Let failed (e : MetadataError) : LockError := AcquisitionFailed (to_string e).

(** The local database and the number of awaits that complete before
    [tokio::time::timeout] fires.  Which number that is depends on the timeout, the
    retry interval and how long the Raft writes take; every theorem holds for every
    number, so for every timing. *)
Abbreviation W := (DB * nat)%type.

Definition local {A} (c : M DB MetadataError A) : M W LockError A :=
  fun w => let '(r, d) := c w.1 in (map_err failed r, (d, w.2)).

Definition await {A} (drop : DB -> DB) (c : M DB MetadataError A) : M W LockError A :=
  fun w => match w.2 with
           | 0 => (Err Timeout, (drop w.1, 0))
           | S n => local c (w.1, n)
           end.

Definition sleep : M W LockError unit := await (fun d => d) (fun d => (Ok tt, elapse d)).

Definition can_acquire_locally (bucket key : string) (ty : LockType) (h : LockHolder)
  : M W LockError bool :=
  state ← local (get_lock_state bucket key);
  match state with
  | None => mret true
  | Some s => mret (can_acquire s ty h)
  end.

Definition try_acquire_lock (bucket key : string) (ty : LockType) (h : LockHolder)
  : M W LockError bool :=
  can ← can_acquire_locally bucket key ty h;
  if negb can then mret false else
  await (abandoned bucket key ty h) (raft_acquire_lock bucket key ty h) ;;
  state ← local (get_lock_state bucket key);
  mret (match state with Some s => is_held_by s h | None => false end).

(** [loop { if try_acquire_lock()? { return guard } sleep }]: an iteration that
    does not return awaits at least once, so [S n] iterations are enough for
    [n] awaits. *)
Fixpoint acquire_loop (fuel : nat) (bucket key : string) (ty : LockType) (h : LockHolder)
  : M W LockError Guard :=
  match fuel with
  | 0 => throw Timeout
  | S fuel' =>
      ok ← try_acquire_lock bucket key ty h;
      if ok : bool then mret (mkGuard bucket key h)
      else sleep ;; acquire_loop fuel' bucket key ty h
  end.

Definition acquire_lock_internal (m : t) (bucket key : string) (ty : LockType) (w : W)
  : result LockError Guard * W * t :=
  let '(h, m') := next_holder m in
  (acquire_loop (S w.2) bucket key ty h w, m').

Definition acquire_read_lock (m : t) (bucket key : string) := acquire_lock_internal m bucket key Read.
Definition acquire_write_lock (m : t) (bucket key : string) := acquire_lock_internal m bucket key Write.

(** Dropping a guard spawns the release; its error is logged and ignored. *)
Definition drop_guard (g : Guard) (d : DB) : DB :=
  (raft_release_lock (g_bucket g) (g_key g) (g_holder g) d).2.

(** *** The loop *)
Context `{!RocksDBLaws DB}.

Lemma await_budget {A} drop (c : M DB MetadataError A) w r w' :
  await drop c w = (r, w') -> r <> Err Timeout -> w.2 = S w'.2.
Proof.
  unfold await, local. destruct w as [d [|n]]; simpl; [by intros [= <- <-]|].
  destruct (c d) as [r0 d0]. intros [= <- <-] _. done.
Qed.

Lemma local_budget {A} (c : M DB MetadataError A) w r w' : local c w = (r, w') -> w'.2 = w.2.
Proof. unfold local. destruct (c w.1). by intros [= <- <-]. Qed.

Lemma try_acquire_budget b k ty h w r w' :
  try_acquire_lock b k ty h w = (Ok r, w') -> w'.2 <= w.2.
Proof.
  intros [(can & w1 & Hc & Hr)|(e & _ & ?)]%bind_inv; [|done].
  assert (w1.2 = w.2) as <-.
  { apply bind_inv in Hc as [(st & w2 & Hl & Hc)|(e & _ & ?)]; [|done].
    apply local_budget in Hl. by destruct st; injection Hc as _ <-. }
  destruct can; simpl in Hr; [|by injection Hr as _ <-].
  apply bind_inv in Hr as [([] & w2 & Ha & Hr)|(e & _ & ?)]; [|done].
  apply await_budget in Ha; [|done].
  apply bind_inv in Hr as [(st & w3 & Hl & Hr)|(e & _ & ?)]; [|done].
  apply local_budget in Hl. injection Hr as _ <-. lia.
Qed.

(** Any fuel above the number of awaits gives the same run. *)
Lemma acquire_loop_fuel n m b k ty h w : w.2 < n -> w.2 < m ->
  acquire_loop n b k ty h w = acquire_loop m b k ty h w.
Proof.
  revert m w. induction n as [|n IH]; intros [|m] w Hn Hm; try lia. simpl.
  unfold mbind at 1 3, M_bind at 1 3.
  destruct (try_acquire_lock b k ty h w) as [[[]|e] w1] eqn:Ht; try done.
  apply try_acquire_budget in Ht. unfold mbind, M_bind.
  destruct (sleep w1) as [[[]|e] w2] eqn:Hs; [|done].
  apply await_budget in Hs; [|done]. apply IH; lia.
Qed.

(** A guard is handed out only for a holder that the local lock table lists at
    that moment. *)
Lemma acquire_loop_holds n b k ty h w g w' :
  acquire_loop n b k ty h w = (Ok g, w') ->
  g = mkGuard b k h /\
  exists v s, meta w'.1 !! lock_key b k = Some v /\ dec v = Ok s /\ h ∈ holders s.
Proof.
  revert w. induction n as [|n IH]; intros w; [done|].
  intros [(ok & w1 & Ht & Hr)|(e & _ & ?)]%bind_inv; [|done]. destruct ok.
  - injection Hr as <- <-. split; [done|]. revert Ht.
    intros [(can & w2 & Hc & Hr)|(e & _ & ?)]%bind_inv; [|done]. destruct can; [|done].
    apply bind_inv in Hr as [([] & w3 & Ha & Hr)|(e & _ & ?)]; [|done].
    apply bind_inv in Hr as [(st & w4 & Hl & Hr)|(e & _ & ?)]; [|done].
    injection Hr as Hheld <-. destruct st as [s|]; [|done]. apply is_held_by_spec in Hheld.
    unfold local in Hl. destruct (get_lock_state b k w3.1) as [r d] eqn:Hg.
    destruct r as [os|e]; [|done]. injection Hl as -> <-. simpl.
    apply bind_inv in Hg as [(o & t1 & Hraw & Hr)|(e & _ & ?)]; [|done].
    apply get_raw_spec in Hraw as [-> [[= ->]|(m & ? & _)]]; [|done].
    destruct (meta w3.1 !! lock_key b k) as [v|] eqn:Hv; [|done].
    apply bind_inv in Hr as [(s' & t2 & [Hd ->]%lift_inv & [= <- <-])|(e & _ & ?)]; [|done].
    unfold decode_m in Hd. destruct (dec v) eqn:Hdv; simplify_eq/=. eauto.
  - apply bind_inv in Hr as [([] & w2 & _ & Hr)|(e & _ & ?)]; [|done]. by eapply IH.
Qed.

(** A lock guard is given only to the holder whose number the counter had, and only
    when the node's lock table lists it at that moment.  The bound on the iterations
    is no restriction: any number above that of the awaits gives the same run. *)
Theorem guard_is_listed m b k ty w g w' m' :
  acquire_lock_internal m b k ty w = (Ok g, w', m') ->
  g = mkGuard b k (mkLockHolder (mgr_node_id m) (lock_counter m)) /\
  (exists v s, meta w'.1 !! lock_key b k = Some v /\ dec v = Ok s /\ g_holder g ∈ holders s) /\
  lock_counter m' = wrapN 64 (lock_counter m + 1) /\
  forall n, w.2 < n ->
    acquire_loop n b k ty (mkLockHolder (mgr_node_id m) (lock_counter m)) w = (Ok g, w').
Proof.
  unfold acquire_lock_internal. simpl next_holder. cbv iota. intros [= Hl <-].
  change (acquire_loop (S w.2) b k ty (mkLockHolder (mgr_node_id m) (lock_counter m)) w = (Ok g, w')) in Hl.
  destruct (acquire_loop_holds _ _ _ _ _ _ _ _ Hl) as [-> Hlisted].
  split_and!; [done|done|done|]. intros n Hn. rewrite <- Hl. apply acquire_loop_fuel; lia.
Qed.
End manager.

(** On a store of its own the command is applied at once. *)
Module ManagerWit.
Import Mem.
#[local] Instance direct : LockRaft Mem.t := {
  raft_acquire_lock b k ty h := _ ← acquire_lock b k ty h; mret tt;
  raft_release_lock b k h := release_lock b k h;
  abandoned _ _ _ _ d := d;
  elapse d := d;
}.
Definition run := acquire_lock_internal (fun _ => "") (new 3) "photos" "a.jpg" Write (Mem.empty, 5).
Definition holder0 : LockHolder := mkLockHolder 3 0.
Lemma guard_is_listed_witness :
  exists v s, meta run.1.2.1 !! lock_key "photos" "a.jpg" = Some v /\ dec v = Ok s /\ holder0 ∈ holders s.
Proof.
  assert (Hr : run.1.1 = Ok (mkGuard "photos" "a.jpg" holder0)) by (vm_compute; reflexivity).
  refine (proj1 (proj2 (guard_is_listed (fun _ => "") (new 3) "photos" "a.jpg" Write (Mem.empty, 5)
    (mkGuard "photos" "a.jpg" holder0) run.1.2 run.2 _))).
  rewrite <- Hr. change (acquire_lock_internal (fun _ => "") (new 3) "photos" "a.jpg" Write (Mem.empty, 5)) with run.
  rewrite (surjective_pairing run) at 1. by rewrite (surjective_pairing run.1) at 1.
Defined.
End ManagerWit.
End Manager.
