(* ===== verification/StateMachine.v ===== *)
(** * save-metadata: the replicated state machine

    Models [raft/commands.rs] and [raft/state_machine.rs].  [apply_command]
    runs one committed command on the database.  [Abs] is the specification:
    three maps and a pure transition function; [R] relates a database to it. *)
From Stdlib Require Import Ascii.
From S2P Require Import Prelude Common Kv Buckets Objects Locks.
From stdpp Require Import base gmap strings numbers sorting list.

Inductive Command : Type :=
| CreateBucket (bucket : Bucket)
| DeleteBucket (name : string)
| PutObjectMetadata (metadata : ObjectMetadata)
| DeleteObjectMetadata (bucket key : string)
| AcquireLock (bucket key : string) (lock_type : LockType) (holder : LockHolder)
| ReleaseLock (bucket key : string) (holder : LockHolder).

#[export] Instance Command_eq_dec : EqDecision Command.
Proof. solve_decision. Defined.

(** openraft's [StorageError]: [StorageIOError::read] and [::write] of a
    message.  [ApplyErr e] is [StorageIOError::write] of the display of [e]. *)
Inductive StorageError : Type :=
| ReadErr (msg : string)
| WriteErr (msg : string)
| ApplyErr (e : MetadataError).

#[export] Instance StorageError_eq_dec : EqDecision StorageError.
Proof. solve_decision. Defined.

(** [apply_command]: [now] is [Utc::now()] read while applying, which only
    [CreateBucket] uses; the boolean of [acquire_lock] is dropped. *)
Definition apply_command {DB} `{RocksDB DB} `{Codec Bucket} `{Codec ObjectMetadata}
    `{Codec LockState} (now : Z) (cmd : Command) : M DB StorageError unit :=
  match cmd with
  | CreateBucket bucket =>
      with_err ApplyErr (create_bucket now (bucket_name bucket)) ;; mret tt
  | DeleteBucket name => with_err ApplyErr (delete_bucket name) ;; mret tt
  | PutObjectMetadata metadata => with_err ApplyErr (put_object_metadata metadata) ;; mret tt
  | DeleteObjectMetadata bucket key =>
      with_err ApplyErr (delete_object_metadata bucket key) ;; mret tt
  | AcquireLock bucket key lock_type holder =>
      with_err ApplyErr (acquire_lock bucket key lock_type holder) ;; mret tt
  | ReleaseLock bucket key holder =>
      with_err ApplyErr (release_lock bucket key holder) ;; mret tt
  end.

(** ** The specification *)
Module Abs.
Record t : Type := mk {
  buckets : gmap string Bucket;
  objects : gmap (string * string) ObjectMetadata;
  locks : gmap (string * string) LockState;
}.
Definition init : t := mk ∅ ∅ ∅.

Definition set_buckets (f : gmap string Bucket -> gmap string Bucket) (a : t) : t :=
  mk (f (buckets a)) (objects a) (locks a).
Definition set_objects f (a : t) : t := mk (buckets a) (f (objects a)) (locks a).
Definition set_lock (bk : string * string) (s : option LockState) (a : t) : t :=
  mk (buckets a) (objects a) (partial_alter (fun _ => s) bk (locks a)).

Definition apply (now : Z) (cmd : Command) (a : t) : result MetadataError t :=
  match cmd with
  | CreateBucket b =>
      _ ← invalid_operation (validate_bucket_name (bucket_name b));
      match buckets a !! bucket_name b with
      | Some _ => Err (BucketAlreadyExists (bucket_name b))
      | None => Ok (set_buckets <[bucket_name b := Bucket_new now (bucket_name b)]> a)
      end
  | DeleteBucket n =>
      _ ← invalid_operation (validate_bucket_name n); Ok (set_buckets (delete n) a)
  | PutObjectMetadata m =>
      _ ← invalid_operation (validate_object_key (om_key m));
      Ok (set_objects <[(om_bucket m, om_key m) := m]> a)
  | DeleteObjectMetadata b k =>
      _ ← invalid_operation (validate_object_key k); Ok (set_objects (delete (b, k)) a)
  | AcquireLock b k ty h =>
      Ok (set_lock (b, k) (abs_acquire (locks a !! (b, k)) ty h).2 a)
  | ReleaseLock b k h => Ok (set_lock (b, k) (abs_release (locks a !! (b, k)) h) a)
  end.

(** A sequence of commands, each with the clock reading it was applied at; the
    replica stops at the first command that fails. *)
Fixpoint apply_all (l : list (Z * Command)) (a : t) : result MetadataError t :=
  match l with
  | [] => Ok a
  | (now, c) :: l' => a' ← apply now c a; apply_all l' a'
  end.

(** Equal up to the creation times of buckets. *)
Definition forget (a : t) : gset string * gmap (string * string) ObjectMetadata
    * gmap (string * string) LockState := (dom (buckets a), objects a, locks a).
#[global] Instance equiv_abs : Equiv t := fun a b => forget a = forget b.
#[global] Instance equiv_equivalence : Equivalence (≡@{t}).
Proof. split; unfold equiv, equiv_abs; [intros a; done|intros a b ?; done|intros a b c ??; congruence]. Qed.

Definition names_ok (a : t) : Prop := forall n b, buckets a !! n = Some b -> bucket_name b = n.
End Abs.

(** A slash-free bucket, as every validated bucket name is. *)
Abbreviation no_slash b := (contains_char "/"%char b = false).

Definition wf_command (c : Command) : bool :=
  match c with
  | CreateBucket _ | DeleteBucket _ => true
  | PutObjectMetadata m => negb (contains_char "/"%char (om_bucket m))
  | DeleteObjectMetadata b _ | AcquireLock b _ _ _ | ReleaseLock b _ _ =>
      negb (contains_char "/"%char b)
  end.

Section refinement.
Context {DB : Type} `{RocksDBLaws DB} `{!Codec Bucket} `{!Codec ObjectMetadata} `{!Codec LockState}.

(** The database holds exactly the abstract state, encoded under the keys of
    [bucket.rs], [object.rs] and [lock.rs]. *)
Record R (d : DB) (a : Abs.t) : Prop := {
  R_bucket : forall n, stored (meta d !! bucket_key n) (Abs.buckets a !! n);
  R_object : forall b k, no_slash b ->
    stored (meta d !! object_db_key b k) (Abs.objects a !! (b, k));
  R_lock : forall b k, no_slash b -> stored (meta d !! lock_key b k) (Abs.locks a !! (b, k));
}.

Context `{!CodecLaws Bucket} `{!CodecLaws ObjectMetadata} `{!CodecLaws LockState}.

(** Keys of different kinds differ. *)
Lemma bucket_object_key n b k : bucket_key n <> object_db_key b k. Proof. done. Qed.
Lemma bucket_lock_key n b k : bucket_key n <> lock_key b k. Proof. done. Qed.
Lemma object_lock_key b k b' k' : object_db_key b k <> lock_key b' k'. Proof. done. Qed.

Lemma lock_key_inj b b' k k' : no_slash b -> no_slash b' ->
  lock_key b k = lock_key b' k' -> (b, k) = (b', k').
Proof.
  unfold lock_key. intros Hb Hb' Heq%(inj (String.append "lock:")).
  apply sep_app_inj in Heq as [-> ->]; done.
Qed.

Lemma R_put_bucket d d' a n s : R d a -> entry_is d d' (bucket_key n) s ->
  R d' (Abs.set_buckets (partial_alter (fun _ => s) n) a).
Proof.
  intros HR [Hs Hf]. split; simpl.
  - intros n'. destruct (decide (n = n')) as [<-|Hn]; [by rewrite lookup_partial_alter_eq|].
    rewrite lookup_partial_alter_ne by done.
    rewrite Hf by (by intros ?%(inj bucket_key)). apply HR.
  - intros b k Hb. rewrite Hf by done. by apply HR.
  - intros b k Hb. rewrite Hf by done. by apply HR.
Qed.

Lemma R_put_object d d' a b k s : no_slash b -> R d a -> entry_is d d' (object_db_key b k) s ->
  R d' (Abs.set_objects (partial_alter (fun _ => s) (b, k)) a).
Proof.
  intros Hb HR [Hs Hf]. split; simpl.
  - intros n. rewrite Hf by done. apply HR.
  - intros b' k' Hb'. destruct (decide ((b, k) = (b', k'))) as [[= <- <-]|Hn].
    + by rewrite lookup_partial_alter_eq.
    + rewrite lookup_partial_alter_ne by done. rewrite Hf; [by apply HR|].
      intros Heq. destruct (object_db_key_inj b b' k k'); [done..|]. by subst.
  - intros b' k' Hb'. rewrite Hf by done. by apply HR.
Qed.

Lemma R_put_lock d d' a b k s : no_slash b -> R d a -> entry_is d d' (lock_key b k) s ->
  R d' (Abs.set_lock (b, k) s a).
Proof.
  intros Hb HR [Hs Hf]. split; simpl.
  - intros n. rewrite Hf by done. apply HR.
  - intros b' k' Hb'. rewrite Hf by done. by apply HR.
  - intros b' k' Hb'. destruct (decide ((b, k) = (b', k'))) as [[= <- <-]|Hn].
    + by rewrite lookup_partial_alter_eq.
    + rewrite lookup_partial_alter_ne by done. rewrite Hf; [by apply HR|].
      intros Heq. by apply Hn, lock_key_inj.
Qed.

(** The outcome of a command: an error that the store or an encoder reported,
    which changed nothing, or exactly the specified outcome. *)
Definition refines (d d' : DB) (r : result StorageError unit) (o : result MetadataError Abs.t)
  : Prop :=
  (d' = d /\ exists e, r = Err (ApplyErr e) /\
     (fault Bucket d e \/ fault ObjectMetadata d e \/ fault LockState d e)) \/
  match o with
  | Ok a' => r = Ok tt /\ R d' a'
  | Err e => r = Err (ApplyErr e) /\ d' = d
  end.

Lemma apply_branch {A} (c : M DB MetadataError A) d r d' :
  (with_err ApplyErr c ;; mret tt) d = (r, d') ->
  exists r0, c d = (r0, d') /\ r = match r0 with Ok _ => Ok tt | Err e => Err (ApplyErr e) end.
Proof.
  unfold mbind, M_bind, with_err. destruct (c d) as [[x|e] t]; intros [= <- <-]; eauto.
Qed.

Lemma refines_infra B (cB : Codec B) {A} (d d' : DB) (r0 : result MetadataError A) o :
  (forall e, fault B d e -> fault Bucket d e \/ fault ObjectMetadata d e \/ fault LockState d e) ->
  infra_err B d d' r0 ->
  refines d d' (match r0 with Ok _ => Ok tt | Err e => Err (ApplyErr e) end) o.
Proof. intros Hf (-> & e & -> & He%Hf). left. eauto. Qed.

Ltac infra :=
  match goal with Hi : infra_err ?B _ _ _ |- _ => apply (refines_infra B _); [auto|exact Hi] end.

Lemma apply_command_R now c d a r d' :
  wf_command c = true -> R d a -> apply_command now c d = (r, d') ->
  refines d d' r (Abs.apply now c a).
Proof.
  intros Hwf HR. destruct c as [b|n|m|b k|b k ty h|b k h]; simpl in *;
    intros (r0 & Hc & ->)%apply_branch; rewrite ?negb_true_iff in Hwf.
  - destruct (create_bucket_spec _ _ _ _ _ _ (R_bucket _ _ HR _) Hc) as [?|Hs];
      [by infra|]. right.
    destruct (invalid_operation _); simpl; [|by destruct Hs as [-> ->]].
    destruct (Abs.buckets a !! bucket_name b); destruct Hs as [-> Hs]; split; try done.
    by apply (R_put_bucket d d' a _ (Some _)).
  - destruct (delete_bucket_spec _ _ _ _ Hc) as [?|Hs]; [by infra|]. right.
    destruct (invalid_operation _); simpl; destruct Hs as [-> Hs]; split; try done.
    by apply (R_put_bucket d d' a _ None).
  - destruct (put_object_metadata_spec _ _ _ _ Hc) as [?|Hs]; [by infra|]. right.
    destruct (invalid_operation _); simpl; destruct Hs as [-> Hs]; split; try done.
    by apply (R_put_object d d' a _ _ (Some _)).
  - destruct (delete_object_metadata_spec _ _ _ _ _ Hc) as [?|Hs]; [by infra|]. right.
    destruct (invalid_operation _); simpl; destruct Hs as [-> Hs]; split; try done.
    by apply (R_put_object d d' a _ _ None).
  - destruct (acquire_lock_spec _ _ _ _ _ _ _ _ (R_lock _ _ HR _ _ Hwf) Hc)
      as [?|(x & s' & -> & Ha & He)]; [by infra|]. right.
    rewrite Ha. split; [done|]. by eapply R_put_lock.
  - destruct (release_lock_spec _ _ _ _ _ _ _ (R_lock _ _ HR _ _ Hwf) Hc) as [?|[-> He]];
      [by infra|]. right. split; [done|]. by eapply R_put_lock.
Qed.
End refinement.

(** ** Replicas *)
Lemma forget_dom a b : a ≡ b -> dom (Abs.buckets a) = dom (Abs.buckets b).
Proof. by intros [=]. Qed.

Lemma abs_apply_equiv now now' c a b : a ≡ b ->
  match Abs.apply now c a, Abs.apply now' c b with
  | Ok a', Ok b' => a' ≡ b'
  | Err e, Err e' => e = e'
  | _, _ => False
  end.
Proof.
  intros Hab. pose proof (forget_dom _ _ Hab) as Hd.
  assert (Ho : Abs.objects a = Abs.objects b) by (by injection Hab).
  assert (Hl : Abs.locks a = Abs.locks b) by (by injection Hab).
  destruct c as [bk|n|m|n k|n k ty h|n k h]; simpl;
    try (destruct (invalid_operation _); simpl; [|done]);
    unfold equiv, Abs.equiv_abs, Abs.forget; simpl; try by rewrite ?Ho, ?Hl, ?Hd.
  - assert (Hlk : forall n, is_Some (Abs.buckets a !! n) <-> is_Some (Abs.buckets b !! n)).
    { intros n. by rewrite <- !elem_of_dom, Hd. }
    specialize (Hlk (bucket_name bk)).
    destruct (Abs.buckets a !! bucket_name bk) eqn:Ha, (Abs.buckets b !! bucket_name bk) eqn:Hb;
      [done|destruct Hlk as [[? ?] _]; [eauto|done]|destruct Hlk as [_ [? ?]]; [eauto|done]|].
    simpl. by rewrite !dom_insert_L, Hd, Ho, Hl.
  - by rewrite !dom_delete_L, Hd, Ho, Hl.
Qed.

(** ** Locks over a run of the state machine

    [exec d l d']: the replica applied the commands [l], in order; a command
    that returned an error is followed by the next one all the same. *)
Section runs.
Context {DB : Type} `{RocksDB DB} `{Codec Bucket} `{Codec ObjectMetadata} `{Codec LockState}.
Inductive exec (d : DB) : list Command -> DB -> Prop :=
| exec_nil : exec d [] d
| exec_snoc l d1 now c r d2 :
    exec d l d1 -> wf_command c = true -> apply_command now c d1 = (r, d2) -> exec d (l ++ [c]) d2.
End runs.

(** Every lock is well formed and every holder asked for the lock in the mode
    the entry has. *)
Definition locks_ok (l : list Command) (a : Abs.t) : Prop :=
  forall b k s, Abs.locks a !! (b, k) = Some s ->
    lock_wf s /\ forall h, h ∈ holders s -> AcquireLock b k (lock_type s) h ∈ l.

Lemma locks_ok_more l c a : locks_ok l a -> locks_ok (l ++ [c]) a.
Proof. intros Hl b k s Hs. destruct (Hl b k s Hs) as [? Hh]. set_solver. Qed.

Lemma locks_ok_set l c a b k s : locks_ok l a ->
  (forall st, s = Some st -> lock_wf st /\
     forall h, h ∈ holders st -> AcquireLock b k (lock_type st) h ∈ l ++ [c]) ->
  locks_ok (l ++ [c]) (Abs.set_lock (b, k) s a).
Proof.
  intros Hl Hs b' k' st. simpl. destruct (decide ((b, k) = (b', k'))) as [[= <- <-]|Hne].
  - rewrite lookup_partial_alter_eq. apply Hs.
  - rewrite lookup_partial_alter_ne by done. by apply locks_ok_more.
Qed.

Lemma locks_ok_apply l now c a a' :
  locks_ok l a -> Abs.apply now c a = Ok a' -> locks_ok (l ++ [c]) a'.
Proof.
  intros Hl. destruct c as [bk|n|m|b k|b k ty h|b k h]; simpl;
    try (destruct (invalid_operation _); simpl; [|done]).
  - destruct (Abs.buckets a !! _); [done|]. intros [= <-]. by apply locks_ok_more.
  - intros [= <-]. by apply locks_ok_more.
  - intros [= <-]. by apply locks_ok_more.
  - intros [= <-]. by apply locks_ok_more.
  - intros [= <-]. apply locks_ok_set; [done|]. intros st Hst. split.
    + eapply abs_acquire_wf; [|apply surjective_pairing|exact Hst]. intros st0 ?. by apply (Hl b k).
    + intros h' Hh'. unfold abs_acquire in Hst. destruct (Abs.locks a !! (b, k)) as [s0|] eqn:Hs0.
      * destruct (Hl b k s0 Hs0) as [_ Hold]. case_decide; [simplify_eq/=; apply elem_of_app; left; by apply Hold|].
        destruct (lock_type s0) eqn:Ht, ty; simplify_eq/=; rewrite ?Ht; apply elem_of_app; auto.
        apply elem_of_app in Hh' as [?| ->%list_elem_of_singleton]; [auto|right; by left].
      * simplify_eq/=. apply list_elem_of_singleton in Hh' as ->. apply elem_of_app. right. by left.
  - intros [= <-]. apply locks_ok_set; [done|]. intros st Hst. split.
    + eapply abs_release_wf; [|exact Hst]. intros st0 ?. by apply (Hl b k).
    + intros h' Hh'. unfold abs_release in Hst. destruct (Abs.locks a !! (b, k)) as [s0|] eqn:Hs0; [|done].
      destruct (Hl b k s0 Hs0) as [_ Hold].
      destruct (filter _ _) as [|x hs] eqn:Hf; [done|]. injection Hst as <-. simpl in *.
      rewrite <- Hf in Hh'. apply list_elem_of_filter in Hh' as [_ ?].
      apply elem_of_app. left. by apply Hold.
Qed.

Section theorems.
Context {DB : Type} `{RocksDBLaws DB} `{!Codec Bucket} `{!Codec ObjectMetadata} `{!Codec LockState}
  `{!CodecLaws Bucket} `{!CodecLaws ObjectMetadata} `{!CodecLaws LockState}.

Lemma exec_locks_ok (d0 d : DB) l a0 : R d0 a0 -> locks_ok [] a0 -> exec d0 l d ->
  exists a, R d a /\ locks_ok l a.
Proof.
  intros HR Hl. induction 1 as [|l d1 now c r d2 _ IH Hwf Hc]; [by eauto|].
  destruct IH as (a & HRa & Hla).
  destruct (apply_command_R _ _ _ _ _ _ Hwf HRa Hc) as [[-> _]|Ho].
  { exists a. split; [done|by apply locks_ok_more]. }
  destruct (Abs.apply now c a) as [a'|e] eqn:Ha; destruct Ho as [? Ho].
  - exists a'. split; [done|]. by eapply locks_ok_apply.
  - subst. exists a. split; [done|by apply locks_ok_more].
Qed.

Lemma list_buckets_R d a bs d' : R d a -> list_buckets d = (Ok bs, d') ->
  exists ns, StronglySorted str_lt ns /\ Forall2 (fun n b => Abs.buckets a !! n = Some b) ns bs /\
    forall n, n ∈ ns <-> n ∈ dom (Abs.buckets a).
Proof.
  intros HR Hl. destruct (scan_family d "bkt:" (fun n => Abs.buckets a !! n) "" bs d') as (ns & ? & ? & Hns);
    [intros n; apply (R_bucket _ _ HR)|by rewrite string_app_nil_r|].
  exists ns. split_and!; [done..|]. intros n. rewrite Hns, elem_of_dom. destruct n; naive_solver.
Qed.

Lemma list_objects_R d a b p ms d' : no_slash b -> R d a -> list_objects b p d = (Ok ms, d') ->
  exists ks, StronglySorted str_lt ks /\ Forall2 (fun k m => Abs.objects a !! (b, k) = Some m) ks ms /\
    forall k, k ∈ ks <-> is_Some (Abs.objects a !! (b, k)) /\ starts_with (default "" p) k = true.
Proof.
  intros Hb HR Hl.
  apply (scan_family d ("obj:" +:+ b +:+ "/") (fun k => Abs.objects a !! (b, k)) (default "" p) ms d').
  - intros k. rewrite <- !(assoc_L String.append). by apply (R_object _ _ HR).
  - unfold list_objects in Hl. destruct p; simpl in *;
      by rewrite ?string_app_nil_r, <- ?(assoc_L String.append).
Qed.
End theorems.

(** ** Properties *)
Section properties.
Context {DB : Type} `{RocksDBLaws DB} `{!Codec Bucket} `{!Codec ObjectMetadata} `{!Codec LockState}
  `{!CodecLaws Bucket} `{!CodecLaws ObjectMetadata} `{!CodecLaws LockState}.

(** C3. [apply_command] implements the specification: on a database that holds
    the abstract state [a] it either reports an error that RocksDB or an encoder
    reported and changes nothing, or returns what [Abs.apply] returns and leaves
    a database that holds the resulting state (the same one after an error). *)
Theorem apply_command_refines now c (d : DB) a r d' :
  wf_command c = true -> R d a -> apply_command now c d = (r, d') ->
  refines d d' r (Abs.apply now c a).
Proof. apply apply_command_R. Qed.

(** C4. Mutual exclusion.  Whatever commands a replica applies, in whatever
    order and with whatever failures, every lock entry in its database has a
    holder, no holder twice, exactly one when it is a write lock, and each
    holder requested the lock in the mode the entry has. *)
Theorem lock_table_exclusive (d0 d : DB) l b k v s :
  R d0 Abs.init -> exec d0 l d -> no_slash b ->
  meta d !! lock_key b k = Some v -> dec v = Ok s ->
  lock_wf s /\ forall h, h ∈ holders s -> AcquireLock b k (lock_type s) h ∈ l.
Proof.
  intros HR Hex Hb Hv Hs.
  destruct (exec_locks_ok _ _ _ _ HR ltac:(done) Hex) as (a & HRa & Hl).
  apply (Hl b k). apply (stored_fun (Some v)); [rewrite <- Hv; by apply (R_lock _ _ HRa)|by constructor].
Qed.

(** [list_objects] returns the metadata of exactly the objects of the bucket
    whose key starts with the prefix, in key order. *)
Theorem list_objects_exact (d : DB) a b p ms d' :
  no_slash b -> R d a -> list_objects b p d = (Ok ms, d') ->
  exists ks, StronglySorted str_lt ks /\
    Forall2 (fun k m => Abs.objects a !! (b, k) = Some m) ks ms /\
    forall k, k ∈ ks <-> is_Some (Abs.objects a !! (b, k)) /\ starts_with (default "" p) k = true.
Proof. apply list_objects_R. Qed.

(** [list_buckets] returns exactly the buckets of the store, in name order. *)
Theorem list_buckets_exact (d : DB) a bs d' :
  R d a -> list_buckets d = (Ok bs, d') ->
  exists ns, StronglySorted str_lt ns /\
    Forall2 (fun n b => Abs.buckets a !! n = Some b) ns bs /\
    forall n, n ∈ ns <-> n ∈ dom (Abs.buckets a).
Proof. apply list_buckets_R. Qed.

(** A read after the writes sees the abstract state: [get_object_metadata]
    returns the stored metadata, [ObjectNotFound] for an absent key and
    [InvalidOperation] for an invalid one, and never changes the database; its
    only other errors are those RocksDB reports. *)
Theorem get_object_metadata_exact (d : DB) a b k r d' :
  no_slash b -> R d a -> get_object_metadata b k d = (r, d') ->
  d' = d /\ ((exists e, r = Err e /\ fault ObjectMetadata d e) \/
    r = (_ ← invalid_operation (validate_object_key k);
         ok_or (ObjectNotFound b k) (Abs.objects a !! (b, k)))).
Proof. intros Hb HR. apply get_object_metadata_spec. by apply (R_object _ _ HR). Qed.

(** The creation time of a bucket is the clock of the replica that applies
    the command, not the time the command carries: two replicas that apply the
    same [CreateBucket] at different times store different buckets. *)
Theorem create_bucket_time_diverges now now' b (d1 d2 : DB) d1' d2' v1 v2 b1 b2 :
  now <> now' ->
  apply_command now (CreateBucket b) d1 = (Ok tt, d1') ->
  apply_command now' (CreateBucket b) d2 = (Ok tt, d2') ->
  R d1 Abs.init -> R d2 Abs.init ->
  meta d1' !! bucket_key (bucket_name b) = Some v1 -> dec v1 = Ok b1 ->
  meta d2' !! bucket_key (bucket_name b) = Some v2 -> dec v2 = Ok b2 ->
  created_at b1 = now /\ created_at b2 = now' /\ b1 <> b2.
Proof.
  intros Hne H1 H2 HR1 HR2 Hv1 Hb1 Hv2 Hb2.
  assert (Hgen : forall t d d' v x, apply_command t (CreateBucket b) d = (Ok tt, d') -> R d Abs.init ->
    meta d' !! bucket_key (bucket_name b) = Some v -> dec v = Ok x -> created_at x = t).
  { intros t d d' v x Hc HR Hv Hx.
    destruct (apply_command_R _ (CreateBucket b) _ _ _ _ eq_refl HR Hc) as [(_ & e & ? & _)|Ho]; [done|].
    simpl in Ho. destruct (invalid_operation _); simpl in Ho; [|by destruct Ho].
    rewrite lookup_empty in Ho. destruct Ho as [_ HR'].
    pose proof (R_bucket _ _ HR' (bucket_name b)) as Hs. simpl in Hs.
    rewrite Hv, lookup_insert_eq in Hs. apply stored_Some in Hs as (y & [= <-] & Hy).
    rewrite Hx in Hy. by injection Hy as ->. }
  rewrite <- (Hgen _ _ _ _ _ H1 HR1 Hv1 Hb1), <- (Hgen _ _ _ _ _ H2 HR2 Hv2 Hb2) in *.
  split_and!; [done..|congruence].
Qed.
End properties.

(** ** Witnesses *)
Module Wit.
Import Mem.

Lemma R_empty : R Mem.empty Abs.init.
Proof. split; intros; simpl; rewrite lookup_empty; constructor. Qed.

Definition bkt : Bucket := mkBucket "photos" 7.
Definition obj : ObjectMetadata := ObjectMetadata_new 5 "photos" "a/cat.png" 10 "etag".
Definition h1 : LockHolder := mkLockHolder 1 0.
Definition h2 : LockHolder := mkLockHolder 2 0.
Definition run (c : Command) (d : Mem.t) : Mem.t := (apply_command 100 c d).2.
Definition d1 : Mem.t := run (CreateBucket bkt) Mem.empty.
Definition d2 : Mem.t := run (PutObjectMetadata obj) d1.
Definition d3 : Mem.t := run (AcquireLock "photos" "k" Read h1) d2.
Definition d4 : Mem.t := run (AcquireLock "photos" "k" Read h2) d3.
Definition a1 : Abs.t := Abs.set_buckets <["photos" := mkBucket "photos" 100]> Abs.init.
Definition a2 : Abs.t := Abs.set_objects <[("photos", "a/cat.png") := obj]> a1.

Lemma step_R c d a a' : wf_command c = true -> R d a -> Abs.apply 100 c a = Ok a' ->
  is_ok (apply_command 100 c d).1 = true -> R (run c d) a'.
Proof.
  intros Hwf HR Ha Hok. unfold run. destruct (apply_command 100 c d) as [r d'] eqn:Hc. simpl in *.
  destruct (apply_command_R _ _ _ _ _ _ Hwf HR Hc) as [(_ & e & -> & _)|Ho]; [done|].
  rewrite Ha in Ho. apply Ho.
Qed.
Lemma R_d1 : R d1 a1.
Proof. apply (step_R _ _ Abs.init); [done|apply R_empty|by vm_compute..]. Qed.
Lemma R_d2 : R d2 a2.
Proof. apply (step_R _ _ a1); [done|apply R_d1|by vm_compute..]. Qed.

Lemma apply_command_refines_witness :
  refines Mem.empty d1 (Ok tt) (Ok a1).
Proof.
  apply (apply_command_refines 100 (CreateBucket bkt) Mem.empty Abs.init (Ok tt) d1);
    [reflexivity|apply R_empty|vm_compute; reflexivity].
Defined.

Lemma exec_run d0 l c d : exec d0 l d -> wf_command c = true -> exec d0 (l ++ [c]) (run c d).
Proof. intros. eapply (exec_snoc _ _ _ 100); [done..|apply surjective_pairing]. Qed.
Lemma exec_d4 : exec Mem.empty (((([] ++ [CreateBucket bkt]) ++ [PutObjectMetadata obj])
    ++ [AcquireLock "photos" "k" Read h1]) ++ [AcquireLock "photos" "k" Read h2]) d4.
Proof. do 4 (apply exec_run; [|reflexivity]). apply exec_nil. Qed.

Lemma lock_table_exclusive_witness :
  lock_wf (mkLockState Read [h1; h2]) /\
  forall h, h ∈ [h1; h2] -> AcquireLock "photos" "k" Read h ∈
    [CreateBucket bkt; PutObjectMetadata obj; AcquireLock "photos" "k" Read h1;
     AcquireLock "photos" "k" Read h2].
Proof.
  exact (lock_table_exclusive Mem.empty d4 _ "photos" "k" _ (mkLockState Read [h1; h2]) R_empty exec_d4
    eq_refl eq_refl eq_refl).
Defined.

Lemma list_objects_exact_witness :
  exists ks, StronglySorted str_lt ks /\
    Forall2 (fun k m => Abs.objects a2 !! ("photos", k) = Some m) ks [obj] /\
    forall k, k ∈ ks <-> is_Some (Abs.objects a2 !! ("photos", k)) /\ starts_with "a/" k = true.
Proof.
  exact (list_objects_exact d2 a2 "photos" (Some "a/") [obj] d2 eq_refl R_d2 ltac:(vm_compute; reflexivity)).
Defined.

Lemma list_buckets_exact_witness :
  exists ns, StronglySorted str_lt ns /\
    Forall2 (fun n b => Abs.buckets a1 !! n = Some b) ns [mkBucket "photos" 100] /\
    forall n, n ∈ ns <-> n ∈ dom (Abs.buckets a1).
Proof.
  exact (list_buckets_exact d1 a1 _ d1 R_d1 ltac:(vm_compute; reflexivity)).
Defined.

Lemma get_object_metadata_exact_witness :
  d2 = d2 /\ ((exists e, Ok obj = Err e /\ fault ObjectMetadata d2 e) \/
    Ok obj = (_ ← invalid_operation (validate_object_key "a/cat.png");
         ok_or (ObjectNotFound "photos" "a/cat.png") (Abs.objects a2 !! ("photos", "a/cat.png")))).
Proof.
  exact (get_object_metadata_exact d2 a2 "photos" "a/cat.png" (Ok obj) d2 eq_refl R_d2
    ltac:(vm_compute; reflexivity)).
Defined.

Lemma create_bucket_time_diverges_witness :
  created_at (mkBucket "photos" 100) = 100%Z /\ created_at (mkBucket "photos" 200) = 200%Z /\
  mkBucket "photos" 100 <> mkBucket "photos" 200.
Proof.
  refine (create_bucket_time_diverges 100 200 bkt Mem.empty Mem.empty
    (apply_command 100 (CreateBucket bkt) Mem.empty).2 (apply_command 200 (CreateBucket bkt) Mem.empty).2
    _ _ _ _ _ _ _ R_empty R_empty _ _ _ _); try (vm_compute; reflexivity). done.
Defined.
End Wit.
