(* ===== verification/RaftTypes.v ===== *)
(** * save-metadata: the Raft data types

    Models [raft/types.rs] and the openraft types the code builds and reads
    ([LogId], [Vote], [Membership], [Entry], [SnapshotMeta]), as records of
    their public fields; and the calls on the Raft column families. *)
From Stdlib Require Import Ascii.
From S2P Require Import Prelude Common Kv Buckets Objects Locks StateMachine.
From stdpp Require Import base gmap strings numbers sorting list.

Record SaveNode : Type := mkSaveNode {
  raft_addr : string; http_addr : string; replication_addr : string }.
Definition SaveNode_new (raft http replication : string) : SaveNode :=
  mkSaveNode raft http replication.
Definition SaveNode_display (n : SaveNode) : string :=
  "raft=" +:+ raft_addr n +:+ ", http=" +:+ http_addr n +:+ ", replication=" +:+ replication_addr n.

(** openraft is built with [single-term-leader]: a committed leader is its term,
    and a vote names its candidate or nobody. *)
Record CommittedLeaderId : Type := mkCommittedLeaderId { cl_term : N }.
Record LeaderId : Type := mkLeaderId { term : N; voted_for : option N }.
Record LogId : Type := mkLogId { leader_id : CommittedLeaderId; log_index : N }.
Record Vote : Type := mkVote { vote_leader : LeaderId; committed : bool }.
Record Membership : Type := mkMembership { configs : list (gset N); nodes : gmap N SaveNode }.
Record StoredMembership : Type := mkStoredMembership {
  sm_log_id : option LogId; sm_membership : Membership }.
Definition StoredMembership_default : StoredMembership :=
  mkStoredMembership None (mkMembership [] ∅).
Inductive EntryPayload : Type :=
| Blank
| Normal (cmd : Command)
| MembershipEntry (m : Membership).
Record Entry : Type := mkEntry { log_id : LogId; payload : EntryPayload }.
Record SnapshotMeta : Type := mkSnapshotMeta {
  last_log_id : option LogId; last_membership : StoredMembership; snapshot_id : string }.

#[export] Instance SaveNode_eq_dec : EqDecision SaveNode.
Proof. solve_decision. Defined.
#[export] Instance CommittedLeaderId_eq_dec : EqDecision CommittedLeaderId.
Proof. solve_decision. Defined.
#[export] Instance LeaderId_eq_dec : EqDecision LeaderId.
Proof. solve_decision. Defined.
#[export] Instance LogId_eq_dec : EqDecision LogId.
Proof. solve_decision. Defined.
#[export] Instance Vote_eq_dec : EqDecision Vote.
Proof. solve_decision. Defined.
#[export] Instance Membership_eq_dec : EqDecision Membership.
Proof. solve_decision. Defined.
#[export] Instance StoredMembership_eq_dec : EqDecision StoredMembership.
Proof. solve_decision. Defined.
#[export] Instance EntryPayload_eq_dec : EqDecision EntryPayload.
Proof. solve_decision. Defined.
#[export] Instance Entry_eq_dec : EqDecision Entry.
Proof. solve_decision. Defined.
#[export] Instance SnapshotMeta_eq_dec : EqDecision SnapshotMeta.
Proof. solve_decision. Defined.

(** Countable instances: what the in-memory codecs need. *)
#[export] Instance Command_countable : Countable Command.
Proof.
  apply (inj_countable'
    (fun c => match c with
     | CreateBucket b => inl (inl (inl b))
     | DeleteBucket n => inl (inl (inr n))
     | PutObjectMetadata m => inl (inr (inl m))
     | DeleteObjectMetadata b k => inl (inr (inr (b, k)))
     | AcquireLock b k t h => inr (inl (b, k, t, h))
     | ReleaseLock b k h => inr (inr (b, k, h))
     end)
    (fun x => match x with
     | inl (inl (inl b)) => CreateBucket b
     | inl (inl (inr n)) => DeleteBucket n
     | inl (inr (inl m)) => PutObjectMetadata m
     | inl (inr (inr (b, k))) => DeleteObjectMetadata b k
     | inr (inl (b, k, t, h)) => AcquireLock b k t h
     | inr (inr (b, k, h)) => ReleaseLock b k h
     end)).
  by intros [].
Defined.
#[export] Instance SaveNode_countable : Countable SaveNode.
Proof.
  by apply (inj_countable' (fun n => (raft_addr n, http_addr n, replication_addr n))
    (fun '(a, b, c) => mkSaveNode a b c)); intros [].
Defined.
#[export] Instance CommittedLeaderId_countable : Countable CommittedLeaderId.
Proof. by apply (inj_countable' cl_term mkCommittedLeaderId); intros []. Defined.
#[export] Instance LeaderId_countable : Countable LeaderId.
Proof.
  by apply (inj_countable' (fun n => (term n, voted_for n)) (fun '(a, b) => mkLeaderId a b)); intros [].
Defined.
#[export] Instance LogId_countable : Countable LogId.
Proof.
  by apply (inj_countable' (fun n => (leader_id n, log_index n)) (fun '(a, b) => mkLogId a b)); intros [].
Defined.
#[export] Instance Vote_countable : Countable Vote.
Proof.
  by apply (inj_countable' (fun n => (vote_leader n, committed n)) (fun '(a, b) => mkVote a b)); intros [].
Defined.
#[export] Instance Membership_countable : Countable Membership.
Proof.
  by apply (inj_countable' (fun n => (configs n, nodes n)) (fun '(a, b) => mkMembership a b)); intros [].
Defined.
#[export] Instance StoredMembership_countable : Countable StoredMembership.
Proof.
  by apply (inj_countable' (fun n => (sm_log_id n, sm_membership n))
    (fun '(a, b) => mkStoredMembership a b)); intros [].
Defined.
#[export] Instance EntryPayload_countable : Countable EntryPayload.
Proof.
  by apply (inj_countable'
    (fun p => match p with Blank => inl tt | Normal c => inr (inl c) | MembershipEntry m => inr (inr m) end)
    (fun x => match x with inl _ => Blank | inr (inl c) => Normal c | inr (inr m) => MembershipEntry m end));
    intros [].
Defined.
#[export] Instance Entry_countable : Countable Entry.
Proof.
  by apply (inj_countable' (fun n => (log_id n, payload n)) (fun '(a, b) => mkEntry a b)); intros [].
Defined.
#[export] Instance SnapshotMeta_countable : Countable SnapshotMeta.
Proof.
  by apply (inj_countable' (fun n => (last_log_id n, last_membership n, snapshot_id n))
    (fun '(a, b, c) => mkSnapshotMeta a b c)); intros [].
Defined.

(** ** Calls on a column family

    [cf_handle] with the error of its [ok_or_else], and [get_cf], [put_cf],
    [delete_cf] with the [map_err] that follows them. *)
Section cf.
Context {DB : Type} `{RocksDB DB}.

Definition cf_handle (cf : string) (e : StorageError) : M DB StorageError unit :=
  reads (fun d => if db_has_cf d cf then Ok tt else Err e).
Definition get_cf (cf k : string) : M DB StorageError (option bytes) :=
  reads (fun d => map_err ReadErr (db_get d cf k)).
Definition put_cf (cf k : string) (v : bytes) : M DB StorageError unit :=
  writes (fun d => map_err WriteErr (db_put d cf k v)).
Definition delete_cf (cf k : string) : M DB StorageError unit :=
  writes (fun d => map_err WriteErr (db_delete d cf k)).
(** [serde_json::from_slice] and [to_vec] with their [map_err]. *)
Definition from_json {A} `{Codec A} (v : bytes) : result StorageError A := map_err ReadErr (dec v).
Definition to_json {A} `{Codec A} (a : A) : result StorageError bytes := map_err WriteErr (enc a).

(** A typed read: get, then decode what is there. *)
Definition read_json {A} `{Codec A} (cf k : string) : M DB StorageError (option A) :=
  o ← get_cf cf k;
  match o with
  | Some v => a ← lift (from_json v); mret (Some a)
  | None => mret None
  end.
(** A typed write: encode, then put. *)
Definition write_json {A} `{Codec A} (cf k : string) (a : A) : M DB StorageError unit :=
  v ← lift (to_json a); put_cf cf k v.

Context `{!RocksDBLaws DB}.

Lemma cf_handle_inv cf e d r d' : cf_handle cf e d = (r, d') ->
  d' = d /\ (r = Ok tt /\ db_has_cf d cf = true \/ r = Err e /\ db_has_cf d cf = false).
Proof. unfold cf_handle, reads. destruct (db_has_cf d cf); intros [= <- <-]; auto. Qed.

Lemma get_cf_inv cf k d o d' : get_cf cf k d = (Ok o, d') -> d' = d /\ o = db_view d cf !! k.
Proof.
  unfold get_cf, reads. destruct (db_get d cf k) eqn:Hg; intros [= <- <-]. by apply db_get_ok in Hg.
Qed.

Lemma put_cf_inv cf k v d d' : put_cf cf k v d = (Ok tt, d') ->
  db_view d' cf = <[k := v]> (db_view d cf) /\
  (forall cf', cf' <> cf -> db_view d' cf' = db_view d cf').
Proof.
  unfold put_cf, writes. destruct (db_put d cf k v) eqn:Hp; intros [= <-].
  split; [by apply db_put_ok|]. intros cf' ?. by eapply db_put_frame.
Qed.

Lemma put_cf_err cf k v d e d' : put_cf cf k v d = (Err e, d') -> d' = d.
Proof. unfold put_cf, writes. destruct (db_put d cf k v); simpl; intros Hp; by simplify_eq. Qed.

Lemma delete_cf_inv cf k d d' : delete_cf cf k d = (Ok tt, d') ->
  db_view d' cf = delete k (db_view d cf) /\
  (forall cf', cf' <> cf -> db_view d' cf' = db_view d cf').
Proof.
  unfold delete_cf, writes. destruct (db_delete d cf k) eqn:Hp; intros [= <-].
  split; [by apply db_delete_ok|]. intros cf' ?. by eapply db_delete_frame.
Qed.

Lemma read_json_inv {A} `{Codec A} cf k d (o : option A) d' :
  read_json cf k d = (Ok o, d') -> d' = d /\ stored (db_view d cf !! k) o.
Proof.
  intros [(v & t & [-> ->]%get_cf_inv & Hr)|(? & _ & ?)]%bind_inv; [|done].
  destruct (db_view d cf !! k) as [v|]; [|injection Hr as <- <-; by repeat constructor].
  apply bind_inv in Hr as [(a & t & [Ha ->]%lift_inv & [= <- <-])|(? & _ & ?)]; [|done].
  unfold from_json in Ha. destruct (dec v) eqn:Hd; simplify_eq/=. by repeat constructor.
Qed.

Lemma write_json_inv {A} `{CodecLaws A} cf k (a : A) d d' :
  write_json cf k a d = (Ok tt, d') ->
  (exists v, dec v = Ok a /\ db_view d' cf = <[k := v]> (db_view d cf)) /\
  (forall cf', cf' <> cf -> db_view d' cf' = db_view d cf').
Proof.
  intros [(v & t & [Hv ->]%lift_inv & [Hp ?]%put_cf_inv)|(? & _ & ?)]%bind_inv; [|done].
  split; [|done]. exists v. split; [|done]. unfold to_json in Hv.
  destruct (enc a) eqn:He; simplify_eq/=. by apply codec_roundtrip.
Qed.

(** *** Frames: the column families an operation does not write *)
Definition same_cf (cf : string) (d d' : DB) : Prop := db_view d' cf = db_view d cf.
#[global] Instance same_cf_preorder cf : PreOrder (same_cf cf).
Proof. split; [intros d; done|intros a b c; unfold same_cf; congruence]. Qed.

Lemma keeps_cf_handle P `{!PreOrder P} cf e : keeps P (cf_handle cf e).
Proof. by apply keeps_reads. Qed.
Lemma keeps_get_cf P `{!PreOrder P} cf k : keeps P (get_cf cf k).
Proof. by apply keeps_reads. Qed.
Lemma keeps_put_cf cf' cf k v : cf' <> cf -> keeps (same_cf cf') (put_cf cf k v).
Proof.
  intros Hne. apply keeps_writes; [apply _|]. intros s s'.
  destruct (db_put s cf k v) eqn:Hp; intros [= <-]. by eapply db_put_frame.
Qed.
Lemma keeps_delete_cf cf' cf k : cf' <> cf -> keeps (same_cf cf') (delete_cf cf k).
Proof.
  intros Hne. apply keeps_writes; [apply _|]. intros s s'.
  destruct (db_delete s cf k) eqn:Hp; intros [= <-]. by eapply db_delete_frame.
Qed.
Lemma keeps_read_json P `{!PreOrder P} {A} `{Codec A} cf k : keeps P (read_json (A := A) cf k).
Proof. unfold read_json. apply keeps_bind; [done|by apply keeps_get_cf|]. solve_frame. Qed.
Lemma keeps_write_json {A} `{Codec A} cf' cf k (a : A) :
  cf' <> cf -> keeps (same_cf cf') (write_json cf k a).
Proof. intros ?. apply keeps_bind; [apply _|solve_frame|]. intros v. by apply keeps_put_cf. Qed.
Lemma keeps_put_raw cf k v : cf <> "default" -> keeps (same_cf cf) (put_raw k v).
Proof.
  intros Hne. apply keeps_writes; [apply _|]. intros s s'.
  destruct (db_put s "default" k v) eqn:Hp; intros [= <-]. by eapply db_put_frame.
Qed.
Lemma keeps_delete_raw cf k : cf <> "default" -> keeps (same_cf cf) (delete_raw k).
Proof.
  intros Hne. apply keeps_writes; [apply _|]. intros s s'.
  destruct (db_delete s "default" k) eqn:Hp; intros [= <-]. by eapply db_delete_frame.
Qed.
End cf.

#[export] Hint Resolve keeps_cf_handle keeps_get_cf keeps_put_cf keeps_delete_cf keeps_read_json
  keeps_write_json keeps_put_raw keeps_delete_raw : frame.

(** A command writes the default column family only. *)
Lemma apply_command_frame {DB} `{RocksDBLaws DB} `{!Codec Bucket} `{!Codec ObjectMetadata}
    `{!Codec LockState} cf now c : cf <> "default" ->
  keeps (same_cf cf) (apply_command now c : M DB StorageError unit).
Proof.
  intros Hcf. destruct c; unfold apply_command, create_bucket, delete_bucket, put_object_metadata,
    delete_object_metadata, acquire_lock, release_lock, get_lock_state, put_enc, get_raw;
    solve_frame.
Qed.
#[export] Hint Resolve apply_command_frame : frame.
