(* ===== verification/RaftRpc.v ===== *)
(** * save-metadata: Raft RPC

    Models [raft/rpc.rs] and the request handlers of [raft/server.rs]: the
    messages of [save-proto/proto/raft.proto], the conversions to and from
    openraft's types, the server that hands requests to the Raft core, and the
    client with its cached channel.  openraft's core and the transport are the
    classes [RaftCore] and [Transport]. *)
From Stdlib Require Import Ascii.
From S2P Require Import Prelude Common Kv Grpc Buckets Objects Locks StateMachine RaftTypes.
From stdpp Require Import base gmap strings numbers list.

(** ** openraft's requests and responses *)
Record AppendEntriesRequest : Type := mkAppendEntriesRequest {
  ae_vote : Vote; ae_prev_log_id : option LogId; ae_entries : list Entry; ae_leader_commit : option LogId }.
Inductive AppendEntriesResponse : Type :=
| Success | PartialSuccess (matching : option LogId) | HigherVote (vote : Vote) | Conflict.
Record VoteRequest : Type := mkVoteRequest { vr_vote : Vote; vr_last_log_id : option LogId }.
Record VoteResponse : Type := mkVoteResponse {
  vs_vote : Vote; vs_vote_granted : bool; vs_last_log_id : option LogId }.
Record InstallSnapshotRequest : Type := mkInstallSnapshotRequest {
  is_vote : Vote; is_meta : SnapshotMeta; is_offset : N; is_data : bytes; is_done : bool }.
Record InstallSnapshotResponse : Type := mkInstallSnapshotResponse { ir_vote : Vote }.

(** ** [raft.proto] *)
Module proto.
Record LogId : Type := mkLogId { term : N; node_id : N; index : N }.
Record Vote : Type := mkVote { vterm : N; vnode_id : option N; committed : bool }.
Record LogEntry : Type := mkLogEntry { log_id : option LogId; payload : bytes }.
Record Membership : Type := mkMembership { config : bytes }.
Record AppendEntriesRequest : Type := mkAppendEntriesRequest {
  ae_vote : option Vote; ae_prev_log_id : option LogId; ae_entries : list LogEntry;
  ae_leader_commit : option LogId }.
Record AppendEntriesResponse : Type := mkAppendEntriesResponse {
  as_vote : option Vote; as_success : bool; as_conflict : option LogId }.
Record VoteRequest : Type := mkVoteRequest { vr_vote : option Vote; vr_last_log_id : option LogId }.
Record VoteResponse : Type := mkVoteResponse {
  vs_vote : option Vote; vs_vote_granted : bool; vs_last_log_id : option LogId }.
Record SnapshotMeta : Type := mkSnapshotMeta {
  last_log_id : option LogId; last_membership : option Membership; snapshot_id : string }.
Record InstallSnapshotRequest : Type := mkInstallSnapshotRequest {
  is_vote : option Vote; is_meta : option SnapshotMeta; is_offset : N; is_data : bytes; is_done : bool }.
Record InstallSnapshotResponse : Type := mkInstallSnapshotResponse { ir_vote : option Vote }.
End proto.

(** ** Conversions *)
Definition convert_vote (v : proto.Vote) : Vote :=
  let node_id := default 0%N (proto.vnode_id v) in
  if proto.committed v
  then mkVote (mkLeaderId (proto.vterm v) (Some node_id)) true
  else mkVote (mkLeaderId (proto.vterm v) (Some node_id)) false.

(** [CommittedLeaderId::new(term, node_id)] keeps the term only. *)
Definition convert_log_id (id : proto.LogId) : LogId :=
  mkLogId (mkCommittedLeaderId (proto.term id)) (proto.index id).

Definition to_proto_vote (v : Vote) : proto.Vote :=
  proto.mkVote (term (vote_leader v)) (voted_for (vote_leader v)) (committed v).

Definition to_proto_log_id (id : LogId) : proto.LogId :=
  proto.mkLogId (cl_term (leader_id id)) 0 (log_index id).

Definition missing (what : string) : Status := invalid_argument ("missing " +:+ what).

Section conversions.
Context `{Codec EntryPayload} `{Codec StoredMembership}.

Definition convert_entry (e : proto.LogEntry) : result Status Entry :=
  id ← ok_or (missing "log_id") (convert_log_id <$> proto.log_id e);
  p ← map_err (fun m => invalid_argument ("invalid payload: " +:+ m)) (dec (proto.payload e));
  Ok (mkEntry id p).

Definition convert_append_entries_request (req : proto.AppendEntriesRequest)
  : result Status AppendEntriesRequest :=
  vote ← ok_or (missing "vote") (proto.ae_vote req);
  entries ← collect_results convert_entry (proto.ae_entries req);
  Ok (mkAppendEntriesRequest (convert_vote vote) (convert_log_id <$> proto.ae_prev_log_id req) entries
        (convert_log_id <$> proto.ae_leader_commit req)).

Definition convert_vote_request (req : proto.VoteRequest) : result Status VoteRequest :=
  vote ← ok_or (missing "vote") (proto.vr_vote req);
  Ok (mkVoteRequest (convert_vote vote) (convert_log_id <$> proto.vr_last_log_id req)).

Definition convert_install_snapshot_request (vote : proto.Vote) (meta : proto.SnapshotMeta) (data : bytes)
  : result Status InstallSnapshotRequest :=
  membership ← match proto.last_membership meta with
               | Some m => map_err (fun e => invalid_argument ("invalid membership: " +:+ e)) (dec (proto.config m))
               | None => Ok StoredMembership_default
               end;
  let snapshot_meta := mkSnapshotMeta (convert_log_id <$> proto.last_log_id meta) membership
                         (proto.snapshot_id meta) in
  Ok (mkInstallSnapshotRequest (convert_vote vote) snapshot_meta 0 data true).

Definition convert_append_entries_response (resp : AppendEntriesResponse) : proto.AppendEntriesResponse :=
  match resp with
  | Success => proto.mkAppendEntriesResponse None true None
  | PartialSuccess opt => proto.mkAppendEntriesResponse None true (to_proto_log_id <$> opt)
  | HigherVote vote => proto.mkAppendEntriesResponse (Some (to_proto_vote vote)) false None
  | Conflict => proto.mkAppendEntriesResponse None false None
  end.

Definition convert_vote_response (resp : VoteResponse) : proto.VoteResponse :=
  proto.mkVoteResponse (Some (to_proto_vote (vs_vote resp))) (vs_vote_granted resp)
    (to_proto_log_id <$> vs_last_log_id resp).

Definition convert_install_snapshot_response (resp : InstallSnapshotResponse) : proto.InstallSnapshotResponse :=
  proto.mkInstallSnapshotResponse (Some (to_proto_vote (ir_vote resp))).

Definition to_proto_entry (e : Entry) : result Status proto.LogEntry :=
  p ← map_err (fun m => internal ("serialize error: " +:+ m)) (enc (payload e));
  Ok (proto.mkLogEntry (Some (to_proto_log_id (log_id e))) p).

Definition to_proto_append_entries_request (req : AppendEntriesRequest)
  : result Status proto.AppendEntriesRequest :=
  entries ← collect_results to_proto_entry (ae_entries req);
  Ok (proto.mkAppendEntriesRequest (Some (to_proto_vote (ae_vote req)))
        (to_proto_log_id <$> ae_prev_log_id req) entries (to_proto_log_id <$> ae_leader_commit req)).

Definition to_proto_vote_request (req : VoteRequest) : proto.VoteRequest :=
  proto.mkVoteRequest (Some (to_proto_vote (vr_vote req))) (to_proto_log_id <$> vr_last_log_id req).

Definition convert_proto_append_entries_response (resp : proto.AppendEntriesResponse)
  : result Status AppendEntriesResponse :=
  if proto.as_success resp then Ok Success
  else match proto.as_vote resp with
       | Some vote => Ok (HigherVote (convert_vote vote))
       | None => Ok Conflict
       end.

Definition convert_proto_vote_response (resp : proto.VoteResponse) : result Status VoteResponse :=
  vote ← ok_or (missing "vote") (proto.vs_vote resp);
  Ok (mkVoteResponse (convert_vote vote) (proto.vs_vote_granted resp)
        (convert_log_id <$> proto.vs_last_log_id resp)).

Definition convert_proto_install_snapshot_response (resp : proto.InstallSnapshotResponse)
  : result Status InstallSnapshotResponse :=
  vote ← ok_or (missing "vote") (proto.ir_vote resp);
  Ok (mkInstallSnapshotResponse (convert_vote vote)).

(** The message [RaftRpcClient::do_install_snapshot] sends:
    [serde_json::to_vec(..).unwrap_or_default()] for the membership. *)
Definition to_proto_install_snapshot_request (req : InstallSnapshotRequest) : proto.InstallSnapshotRequest :=
  let m := is_meta req in
  proto.mkInstallSnapshotRequest (Some (to_proto_vote (is_vote req)))
    (Some (proto.mkSnapshotMeta (to_proto_log_id <$> last_log_id m)
             (Some (proto.mkMembership (match enc (last_membership m) with Ok b => b | Err _ => [] end)))
             (snapshot_id m)))
    0 (is_data req) true.
End conversions.

(** ** The server *)
Class RaftCore (RS : Type) : Type := {
  raft_append_entries : AppendEntriesRequest -> M RS string AppendEntriesResponse;
  raft_vote : VoteRequest -> M RS string VoteResponse;
  raft_install_snapshot : InstallSnapshotRequest -> M RS string InstallSnapshotResponse;
}.

Section server.
Context {RS : Type} `{RaftCore RS} `{Codec EntryPayload} `{Codec StoredMembership}.

Definition rpc_append_entries (req : proto.AppendEntriesRequest) : M RS Status proto.AppendEntriesResponse :=
  raft_req ← lift (convert_append_entries_request req);
  resp ← with_err internal (raft_append_entries raft_req);
  mret (convert_append_entries_response resp).

Definition rpc_vote (req : proto.VoteRequest) : M RS Status proto.VoteResponse :=
  raft_req ← lift (convert_vote_request req);
  resp ← with_err internal (raft_vote raft_req);
  mret (convert_vote_response resp).

(** The loop of [do_install_snapshot]: the metadata and the vote are taken
    together until a chunk has metadata; the data is concatenated. *)
Fixpoint gather_chunks (chunks : list proto.InstallSnapshotRequest) (meta : option proto.SnapshotMeta)
    (vote : option proto.Vote) (data : bytes) : option proto.SnapshotMeta * option proto.Vote * bytes :=
  match chunks with
  | [] => (meta, vote, data)
  | chunk :: rest =>
      let '(meta', vote') := match meta with
                             | None => (proto.is_meta chunk, proto.is_vote chunk)
                             | Some _ => (meta, vote)
                             end in
      gather_chunks rest meta' vote' (data ++ proto.is_data chunk)
  end.

Definition do_install_snapshot (chunks : list proto.InstallSnapshotRequest)
  : M RS Status proto.InstallSnapshotResponse :=
  let '(meta, vote, data) := gather_chunks chunks None None [] in
  vote ← lift (ok_or (missing "vote") vote);
  meta ← lift (ok_or (missing "snapshot meta") meta);
  raft_req ← lift (convert_install_snapshot_request vote meta data);
  resp ← with_err internal (raft_install_snapshot raft_req);
  mret (convert_install_snapshot_response resp).

(** [chunk?] in the loop of the streaming entry point. *)
Definition rpc_install_snapshot (stream : list (result Status proto.InstallSnapshotRequest))
  : M RS Status proto.InstallSnapshotResponse :=
  chunks ← lift (collect_results (fun c => c) stream);
  do_install_snapshot chunks.

(** *** The request handlers of [server.rs]

    [None] is a panic of the response builder. *)
Context `{Codec proto.AppendEntriesRequest} `{Codec proto.AppendEntriesResponse}
  `{Codec proto.VoteRequest} `{Codec proto.VoteResponse}
  `{Codec proto.InstallSnapshotRequest} `{Codec proto.InstallSnapshotResponse}
  (header_value_ok : string -> bool).

Definition respond {A} `{Codec A} (r : result Status A) : option HttpResponse :=
  match r with
  | Ok msg => create_response msg
  | Err status => create_error_response header_value_ok status
  end.

(** [match prost::Message::decode(data) { Ok(req) => service(req), Err(e) => .. }]. *)
Definition handle_unary {Req Resp} `{Codec Req} `{Codec Resp} (service : Req -> M RS Status Resp) (body : bytes)
    (s : RS) : option HttpResponse * RS :=
  match parse_grpc_frame body with
  | None => (None, s)
  | Some (Err status) => (create_error_response header_value_ok status, s)
  | Some (Ok data) =>
      match dec data with
      | Ok req => let '(r, s') := service req s in (respond r, s')
      | Err e => (create_error_response header_value_ok (invalid_argument e), s)
      end
  end.

Definition handle_append_entries : bytes -> RS -> option HttpResponse * RS := handle_unary rpc_append_entries.
Definition handle_vote : bytes -> RS -> option HttpResponse * RS := handle_unary rpc_vote.
Definition handle_install_snapshot (body : bytes) (s : RS) : option HttpResponse * RS :=
  match parse_streaming_frames body with
  | None => (None, s)
  | Some (Err status) => (create_error_response header_value_ok status, s)
  | Some (Ok frames) => let '(r, s') := do_install_snapshot frames s in (respond r, s')
  end.

(** [RaftRpcServiceServer::call]: the body read, [Err] when the read failed. *)
Definition call (path : string) (body : result string bytes) (s : RS) : option HttpResponse * RS :=
  match body with
  | Err _ => (create_error_response header_value_ok (internal "failed to read body"), s)
  | Ok body =>
      if bool_decide (path = "/raft.RaftRpc/AppendEntries") then handle_append_entries body s
      else if bool_decide (path = "/raft.RaftRpc/Vote") then handle_vote body s
      else if bool_decide (path = "/raft.RaftRpc/InstallSnapshot") then handle_install_snapshot body s
      else (create_error_response header_value_ok (unimplemented "unknown method"), s)
  end.
End server.

(** ** The client *)
Definition DEFAULT_CONNECT_TIMEOUT : N := 5.   (* seconds *)
Definition DEFAULT_RPC_TIMEOUT : N := 10.

(** tonic's channel: connecting with the client's timeouts, and the three calls. *)
Class Transport (Net Ch : Type) : Type := {
  net_connect : string -> N -> N -> M Net Status Ch;
  send_append : Ch -> proto.AppendEntriesRequest -> M Net Status proto.AppendEntriesResponse;
  send_vote : Ch -> proto.VoteRequest -> M Net Status proto.VoteResponse;
  send_snapshot : Ch -> list proto.InstallSnapshotRequest -> M Net Status proto.InstallSnapshotResponse;
}.

Module Client.
Record t (Ch : Type) : Type := mk {
  endpoint : string; connect_timeout : N; rpc_timeout : N; channel : option Ch }.
Arguments mk {Ch}. Arguments endpoint {Ch}. Arguments connect_timeout {Ch}.
Arguments rpc_timeout {Ch}. Arguments channel {Ch}.

Definition with_timeouts {Ch} (endpoint : string) (connect rpc : N) : t Ch := mk endpoint connect rpc None.
Definition new {Ch} (endpoint : string) : t Ch :=
  with_timeouts endpoint DEFAULT_CONNECT_TIMEOUT DEFAULT_RPC_TIMEOUT.
Definition reset_connection {Ch} (c : t Ch) : t Ch :=
  mk (endpoint c) (connect_timeout c) (rpc_timeout c) None.

Section client.
Context {Net Ch : Type} `{Transport Net Ch} `{Codec EntryPayload} `{Codec StoredMembership}.
Abbreviation W := (t Ch * Net)%type.

Definition do_connect (c : t Ch) : M Net Status Ch :=
  net_connect (endpoint c) (connect_timeout c) (rpc_timeout c).

(** The cached channel, or a new one that is cached. *)
Definition get_channel : M W Status Ch :=
  fun '(c, n) =>
    match channel c with
    | Some ch => (Ok ch, (c, n))
    | None =>
        match do_connect c n with
        | (Ok ch, n') => (Ok ch, (mk (endpoint c) (connect_timeout c) (rpc_timeout c) (Some ch), n'))
        | (Err e, n') => (Err e, (c, n'))
        end
    end.

Definition on_net {A} (m : M Net Status A) : M W Status A :=
  fun '(c, n) => let '(r, n') := m n in (r, (c, n')).

Definition is_transport_error (s : Status) : bool :=
  match code s with Unavailable | Cancelled | DeadlineExceeded | Aborted => true | _ => false end.

Definition handle_result {A} (m : M W Status A) : M W Status A :=
  fun w => match m w with
           | (Err e, (c, n)) => (Err e, (if is_transport_error e then reset_connection c else c, n))
           | ok => ok
           end.

Definition do_append_entries (req : AppendEntriesRequest) : M W Status AppendEntriesResponse :=
  ch ← get_channel;
  proto_req ← lift (to_proto_append_entries_request req);
  response ← on_net (send_append ch proto_req);
  lift (convert_proto_append_entries_response response).
Definition append_entries req := handle_result (do_append_entries req).

Definition do_vote (req : VoteRequest) : M W Status VoteResponse :=
  ch ← get_channel;
  response ← on_net (send_vote ch (to_proto_vote_request req));
  lift (convert_proto_vote_response response).
Definition vote req := handle_result (do_vote req).

Definition do_install_snapshot (req : InstallSnapshotRequest) : M W Status InstallSnapshotResponse :=
  ch ← get_channel;
  response ← on_net (send_snapshot ch [to_proto_install_snapshot_request req]);
  lift (convert_proto_install_snapshot_response response).
Definition install_snapshot req := handle_result (do_install_snapshot req).
End client.
End Client.

(** ** Conversions are inverse *)
Lemma convert_to_proto_vote v : is_Some (voted_for (vote_leader v)) -> convert_vote (to_proto_vote v) = v.
Proof. destruct v as [[t o] c]. intros [n Hn]. simpl in Hn. subst. unfold convert_vote. by destruct c. Qed.
Lemma convert_to_proto_log_id id : convert_log_id (to_proto_log_id id) = id.
Proof. by destruct id as [[t] i]. Qed.
Lemma convert_to_proto_log_ids (o : option LogId) : convert_log_id <$> (to_proto_log_id <$> o) = o.
Proof. destruct o; simpl; [by rewrite convert_to_proto_log_id|done]. Qed.

(** What the peer is told of an append: [PartialSuccess] arrives as [Success]. *)
Definition flatten_response (r : AppendEntriesResponse) : AppendEntriesResponse :=
  match r with PartialSuccess _ => Success | r => r end.
(** The vote a response carries names a candidate. *)
Definition response_voted (r : AppendEntriesResponse) : Prop :=
  match r with HigherVote v => is_Some (voted_for (vote_leader v)) | _ => True end.

Section roundtrip.
Context `{CodecLaws EntryPayload} `{CodecLaws StoredMembership}.

Lemma convert_to_proto_entry e p : to_proto_entry e = Ok p -> convert_entry p = Ok e.
Proof.
  unfold to_proto_entry. destruct (enc (payload e)) as [b|] eqn:He; simpl; [|done]. intros [= <-].
  unfold convert_entry. simpl. rewrite (codec_roundtrip _ _ He). simpl.
  rewrite convert_to_proto_log_id. by destruct e.
Qed.

Lemma convert_to_proto_request req p :
  is_Some (voted_for (vote_leader (ae_vote req))) ->
  to_proto_append_entries_request req = Ok p -> convert_append_entries_request p = Ok req.
Proof.
  intros Hv (es & Hes%collect_results_Ok & [= <-])%result_bind_inv.
  unfold convert_append_entries_request. simpl.
  assert (Hc : collect_results convert_entry es = Ok (ae_entries req)).
  { apply collect_results_Ok. clear -Hes H0. induction Hes; constructor; [|done]. by apply convert_to_proto_entry. }
  rewrite Hc. simpl. rewrite convert_to_proto_vote, !convert_to_proto_log_ids by done. by destruct req.
Qed.
End roundtrip.

(** ** Properties *)

(** An append request sent by one node reaches the Raft core of the other as
    it was sent, and the core's answer comes back as it was given, except that a
    partial success arrives as a full one. *)
Theorem append_entries_rpc_transparent {RS} `{RaftCore RS} `{CodecLaws EntryPayload}
    req p resp (s s' : RS) :
  is_Some (voted_for (vote_leader (ae_vote req))) -> response_voted resp ->
  to_proto_append_entries_request req = Ok p ->
  raft_append_entries req s = (Ok resp, s') ->
  (r ← rpc_append_entries p; lift (convert_proto_append_entries_response r)) s
  = (Ok (flatten_response resp), s').
Proof.
  intros Hv Hr Hp Hraft. unfold rpc_append_entries, mbind, M_bind, lift, with_err.
  rewrite (convert_to_proto_request _ _ Hv Hp), Hraft. simpl.
  destruct resp as [| |v|]; simpl in *; try done.
  unfold convert_proto_append_entries_response. simpl. by rewrite convert_to_proto_vote.
Qed.

(** A vote request and its answer cross the network unchanged, whenever the
    votes they carry name a candidate. *)
Theorem vote_rpc_transparent {RS} `{RaftCore RS} req resp (s s' : RS) :
  is_Some (voted_for (vote_leader (vr_vote req))) -> is_Some (voted_for (vote_leader (vs_vote resp))) ->
  raft_vote req s = (Ok resp, s') ->
  (r ← rpc_vote (to_proto_vote_request req); lift (convert_proto_vote_response r)) s = (Ok resp, s').
Proof.
  intros Hv Hr Hraft. unfold rpc_vote, convert_vote_request, mbind, M_bind, lift, with_err. simpl.
  rewrite convert_to_proto_vote, convert_to_proto_log_ids by done.
  replace (mkVoteRequest (vr_vote req) (vr_last_log_id req)) with req by (by destruct req).
  rewrite Hraft. simpl. unfold convert_proto_vote_response. simpl.
  rewrite convert_to_proto_vote, convert_to_proto_log_ids by done. by destruct resp.
Qed.

(** A vote that names no candidate arrives as a vote for node 0: the sender
    keeps the distinction, the receiver drops it. *)
Theorem absent_candidate_becomes_zero t c :
  to_proto_vote (mkVote (mkLeaderId t None) c) <> to_proto_vote (mkVote (mkLeaderId t (Some 0%N)) c) /\
  convert_vote (to_proto_vote (mkVote (mkLeaderId t None) c)) = mkVote (mkLeaderId t (Some 0%N)) c.
Proof. split; [done|]. unfold convert_vote. by destruct c. Qed.

(** The client announces every piece of a snapshot as a complete one: whatever
    the offset and the end mark of the request, the receiving core gets offset 0
    and [done], with the piece's data. *)
Theorem snapshot_chunk_sent_as_complete {RS} `{RaftCore RS} `{CodecLaws StoredMembership}
    vote m offset data done_ resp (s s' : RS) b :
  is_Some (voted_for (vote_leader vote)) -> enc (last_membership m) = Ok b ->
  raft_install_snapshot (mkInstallSnapshotRequest vote m 0 data true) s = (Ok resp, s') ->
  do_install_snapshot [to_proto_install_snapshot_request (mkInstallSnapshotRequest vote m offset data done_)] s
  = (Ok (convert_install_snapshot_response resp), s').
Proof.
  intros Hv He Hraft. unfold do_install_snapshot, mbind, M_bind, lift, with_err. simpl.
  unfold convert_install_snapshot_request. simpl. rewrite He. rewrite (codec_roundtrip _ _ He). simpl.
  rewrite convert_to_proto_vote, convert_to_proto_log_ids by done.
  replace (mkSnapshotMeta (last_log_id m) (last_membership m) (snapshot_id m)) with m by (by destruct m).
  rewrite Hraft. done.
Qed.

(** Chunked snapshots are reassembled: the data is the chunks' data in order,
    and the metadata and vote are those of the first chunk that has metadata. *)
Theorem gather_chunks_spec chunks first rest m :
  chunks = first :: rest -> proto.is_meta first = Some m ->
  gather_chunks chunks None None [] = (Some m, proto.is_vote first, concat (proto.is_data <$> chunks)).
Proof.
  intros -> Hm. simpl. rewrite Hm.
  assert (Hgen : forall l v d, gather_chunks l (Some m) v d = (Some m, v, d ++ concat (proto.is_data <$> l))).
  { induction l as [|c l IH]; intros v d; simpl; [by rewrite app_nil_r|]. by rewrite IH, (assoc_L app). }
  by rewrite Hgen.
Qed.

(** The client keeps its channel exactly as long as it works: a call with a
    cached channel connects no more, and after a call the channel is dropped if
    and only if the call failed with a transport error. *)
Theorem client_channel_reset {Net Ch} `{Transport Net Ch} req (c : Client.t Ch) ch n r c' n' :
  Client.channel c = Some ch -> Client.vote req (c, n) = (r, (c', n')) ->
  send_vote ch (to_proto_vote_request req) n = ((send_vote ch (to_proto_vote_request req) n).1, n') /\
  Client.channel c' = match r with
                      | Err e => if Client.is_transport_error e then None else Some ch
                      | Ok _ => Some ch
                      end.
Proof.
  intros Hc. unfold Client.vote, Client.handle_result, Client.do_vote, Client.get_channel, Client.on_net, mbind, M_bind, lift.
  rewrite Hc. destruct (send_vote ch (to_proto_vote_request req) n) as [[resp|e] n1].
  - destruct (convert_proto_vote_response resp) as [x|e']; intros [= <- <- <-]; simpl; [by rewrite Hc|].
    split; [done|]. by destruct (Client.is_transport_error e').
  - intros [= <- <- <-]. simpl. split; [done|]. by destruct (Client.is_transport_error e).
Qed.

(** ** Witnesses *)
Module RpcWit.
Import Mem.
(** A core that answers every append with a partial success, grants every vote
    and counts its requests. *)
#[local] Instance core : RaftCore nat := {
  raft_append_entries req s := (Ok (PartialSuccess (ae_prev_log_id req)), S s);
  raft_vote req s := (Ok (mkVoteResponse (vr_vote req) true None), S s);
  raft_install_snapshot req s := (Ok (mkInstallSnapshotResponse (is_vote req)), S s);
}.
Definition v : Vote := mkVote (mkLeaderId 3 (Some 2%N)) true.
Definition lid : LogId := mkLogId (mkCommittedLeaderId 2) 7.
Definition areq : AppendEntriesRequest :=
  mkAppendEntriesRequest v (Some lid) [mkEntry (mkLogId (mkCommittedLeaderId 3) 8) (Normal (DeleteBucket "photos"))] None.
Definition preq : proto.AppendEntriesRequest :=
  match to_proto_append_entries_request areq with
  | Ok p => p | Err _ => proto.mkAppendEntriesRequest None None [] None end.

Lemma append_entries_rpc_transparent_witness :
  (r ← rpc_append_entries preq; lift (convert_proto_append_entries_response r)) 0 = (Ok Success, 1).
Proof.
  refine (append_entries_rpc_transparent areq preq (PartialSuccess (Some lid)) 0 1 _ I _ _);
    [by eexists|vm_compute; reflexivity|reflexivity].
Defined.

Definition vreq : VoteRequest := mkVoteRequest v (Some lid).
Lemma vote_rpc_transparent_witness :
  (r ← rpc_vote (to_proto_vote_request vreq); lift (convert_proto_vote_response r)) 0
  = (Ok (mkVoteResponse v true None), 1).
Proof.
  refine (vote_rpc_transparent vreq (mkVoteResponse v true None) 0 1 _ _ _); [by eexists|by eexists|reflexivity].
Defined.

Definition sm : SnapshotMeta := mkSnapshotMeta (Some lid) StoredMembership_default "7-1".
Lemma snapshot_chunk_sent_as_complete_witness :
  do_install_snapshot [to_proto_install_snapshot_request (mkInstallSnapshotRequest v sm 3145728 [] false)] 0
  = (Ok (convert_install_snapshot_response (mkInstallSnapshotResponse v)), 1).
Proof.
  refine (snapshot_chunk_sent_as_complete v sm 3145728 [] false (mkInstallSnapshotResponse v) 0 1 _ _ _ _);
    [by eexists|reflexivity|reflexivity].
Defined.

Lemma gather_chunks_spec_witness :
  let c := to_proto_install_snapshot_request (mkInstallSnapshotRequest v sm 0 [Byte.x01] true) in
  gather_chunks [c; c] None None [] = (proto.is_meta c, proto.is_vote c, [Byte.x01; Byte.x01]).
Proof. intros c. exact (gather_chunks_spec [c; c] c [c] _ eq_refl eq_refl). Defined.

#[local] Instance net : Transport nat unit := {
  net_connect e c r n := (Ok tt, S n);
  send_append ch p n := (Err (unavailable "down"), n);
  send_vote ch p n := (Err (unavailable "down"), S n);
  send_snapshot ch p n := (Err (unavailable "down"), n);
}.
Lemma client_channel_reset_witness :
  let c := Client.mk "http://n2:9001" 5 10 (Some tt) in
  send_vote tt (to_proto_vote_request vreq) 4 = ((send_vote tt (to_proto_vote_request vreq) 4).1, 5) /\
  Client.channel (Client.reset_connection c) = None.
Proof.
  intros c. exact (client_channel_reset vreq c tt 4 (Err (unavailable "down")) (Client.reset_connection c) 5
    eq_refl eq_refl).
Defined.
End RpcWit.
