(* ===== verification/RaftNode.v ===== *)
(** * save-metadata: the Raft node and its network

    Models [raft/node.rs] and [raft/network.rs].  openraft's handle is the class
    [RaftHandle]: its metrics, its asynchronous calls and the passing of time.
    [None] stands for a loop that did not return; the theorems show it does not
    occur. *)
From Stdlib Require Import Ascii.
From S2P Require Import Prelude Common Peers Config Kv Grpc Buckets Objects Locks StateMachine RaftTypes RaftRpc.
From stdpp Require Import base gmap strings numbers list.

(** openraft's [ServerState] and the state shown by the monitoring API. *)
Inductive ServerState : Type := SLearner | SFollower | SCandidate | SLeader | SShutdown.
Inductive RaftState : Type := Leader | Follower | Candidate | Learner | Shutdown.
Definition RaftState_from (s : ServerState) : RaftState :=
  match s with
  | SLeader => Leader | SFollower => Follower | SCandidate => Candidate
  | SLearner => Learner | SShutdown => Shutdown
  end.

Record ClusterStatus : Type := mkClusterStatus {
  cs_node_id : N; cs_state : RaftState; cs_current_term : N; cs_current_leader : option N;
  cs_last_applied_index : option N; cs_last_log_index : option N;
  cs_voters : list N; cs_learners : list N; cs_member_count : nat; cs_initialized : bool }.

(** openraft's metrics: the membership is given by its voter and learner ids and
    its node table. *)
Record Metrics : Type := mkMetrics {
  mt_state : ServerState; mt_current_term : N; mt_current_leader : option N;
  mt_last_applied : option LogId; mt_last_log_index : option N;
  mt_voters : list N; mt_learners : list N; mt_nodes : gmap N SaveNode }.

Inductive WriteError : Type :=
| ForwardToLeader (leader_id : option N)
| OtherError (msg : string).
Inductive ChangeMembers : Type :=
| AddVoterIds (ids : gset N) | RemoveVoters (ids : gset N) | RemoveNodes (ids : gset N).

Class RaftHandle (RS : Type) : Type := {
  raft_metrics : RS -> Metrics;
  raft_current_leader : RS -> option N;
  raft_now : RS -> N;                       (* milliseconds *)
  raft_sleep : N -> RS -> RS;
  raft_client_write : Command -> M RS WriteError unit;
  raft_initialize : gmap N SaveNode -> M RS string unit;
  raft_add_learner : N -> SaveNode -> M RS string unit;
  raft_change_membership : ChangeMembers -> M RS string unit;
  raft_trigger_elect : M RS string unit;
  raft_ensure_linearizable : M RS string unit;
}.
(** A sleep takes at least its time. *)
Class RaftHandleLaws (RS : Type) `{RaftHandle RS} : Prop :=
  raft_sleep_elapses : forall ms s, (raft_now s + ms <= raft_now (raft_sleep ms s))%N.

Definition parse_peers_to_tuples (peers : list string) : result MetadataError (list (N * string * string * string)) :=
  collect_results (fun peer =>
    info ← map_err (fun e => Raft (Error.to_string e)) (parse_peer peer);
    Ok (PeerInfo.node_id info, PeerInfo.raft_addr info, PeerInfo.http_addr info, PeerInfo.replication_addr info))
    peers.

Section node.
Context {RS : Type} `{RaftHandle RS} (node_id : N).

Definition is_initialized (s : RS) : bool := negb (bool_decide (mt_voters (raft_metrics s) = [])).

Definition add_member (nodes : gmap N SaveNode) (peer : PeerInfo.t) : gmap N SaveNode :=
  <[PeerInfo.node_id peer :=
      SaveNode_new (PeerInfo.raft_addr peer) (PeerInfo.http_addr peer) (PeerInfo.replication_addr peer)]> nodes.

Definition initialize (members : list PeerInfo.t) : M RS MetadataError unit :=
  fun s =>
    if is_initialized s then (Err AlreadyInitialized, s) else
    (with_err (fun msg => if contains_str "not allowed to initialize" msg then AlreadyInitialized else Raft msg)
       (raft_initialize (foldl add_member ∅ members)) ;; mret tt) s.

Definition is_leader (s : RS) : bool := bool_decide (raft_current_leader s = Some node_id).
Definition current_leader (s : RS) : option N := raft_current_leader s.
Definition get_node (s : RS) (id : N) : option SaveNode := mt_nodes (raft_metrics s) !! id.
Definition get_node_raft_addr (s : RS) (id : N) : option string := raft_addr <$> get_node s id.
Definition get_node_http_addr (s : RS) (id : N) : option string := http_addr <$> get_node s id.
Definition get_node_replication_addr (s : RS) (id : N) : option string := replication_addr <$> get_node s id.

Definition get_cluster_replication_nodes (s : RS) : list (N * string) :=
  let m := raft_metrics s in
  omap (fun id => if bool_decide (id <> node_id)
                  then (fun n => (id, replication_addr n)) <$> mt_nodes m !! id else None)
    (mt_voters m ++ mt_learners m).

Definition leader_raft_addr (s : RS) : option string := l ← current_leader s; get_node_raft_addr s l.
Definition leader_http_addr (s : RS) : option string := l ← current_leader s; get_node_http_addr s l.

(** The loop of [wait_for_leader]: each turn sleeps 100 ms, so a timeout of [t] ms
    needs at most [t / 100 + 2] turns. *)
Fixpoint wait_loop (fuel : nat) (start timeout : N) (s : RS) : option (result MetadataError N * RS) :=
  match fuel with
  | 0 => None
  | S fuel' =>
      match raft_current_leader s with
      | Some leader => Some (Ok leader, s)
      | None =>
          if (timeout <? raft_now s - start)%N then Some (Err (Raft "timeout waiting for leader"), s)
          else wait_loop fuel' start timeout (raft_sleep 100 s)
      end
  end.
Definition wait_for_leader (timeout : N) (s : RS) : option (result MetadataError N * RS) :=
  wait_loop (N.to_nat (timeout / 100) + 2) (raft_now s) timeout s.

Definition get_status (s : RS) : ClusterStatus :=
  let m := raft_metrics s in
  mkClusterStatus node_id (RaftState_from (mt_state m)) (mt_current_term m) (mt_current_leader m)
    (log_index <$> mt_last_applied m) (mt_last_log_index m) (mt_voters m) (mt_learners m)
    (length (mt_voters m) + length (mt_learners m)) (negb (bool_decide (mt_voters m = []))).

Definition add_learner (id : N) (raft http repl : string) : M RS MetadataError unit :=
  with_err Raft (raft_add_learner id (SaveNode_new raft http repl)) ;; mret tt.
Definition promote_voters (ids : list N) : M RS MetadataError unit :=
  with_err Raft (raft_change_membership (AddVoterIds (list_to_set ids))) ;; mret tt.
Definition remove_voters (ids : list N) : M RS MetadataError unit :=
  with_err Raft (raft_change_membership (RemoveVoters (list_to_set ids))) ;; mret tt.
Definition remove_node (id : N) : M RS MetadataError unit :=
  with_err Raft (raft_change_membership (RemoveNodes {[ id ]})) ;; mret tt.
Definition learners (s : RS) : list N := mt_learners (raft_metrics s).
Definition trigger_elect : M RS MetadataError unit := with_err Raft raft_trigger_elect ;; mret tt.
Definition ensure_linearizable : M RS MetadataError unit := with_err Raft raft_ensure_linearizable ;; mret tt.

(** [while attempt <= max_retries]: [left] is the number of attempts left. *)
Fixpoint write_loop (left : nat) (delay : N) (cmd : Command) (last_error : option MetadataError) (s : RS)
  : option (result MetadataError unit * RS) :=
  match left with
  | 0 => Some (Err (default (Raft "Max retries exceeded") last_error), s)
  | S left' =>
      match raft_client_write cmd s with
      | (Ok _, s1) => Some (Ok tt, s1)
      | (Err (ForwardToLeader leader_id), s1) =>
          if bool_decide (leader_id = Some node_id) || bool_decide (leader_id = None) then
            w ← wait_for_leader 5000 s1;
            match w with
            | (Err _, s2) => write_loop left' delay cmd (Some (NotLeader None None)) (raft_sleep delay s2)
            | (Ok _, s2) => write_loop left' delay cmd last_error (raft_sleep delay s2)
            end
          else
            Some (Err (NotLeader leader_id (l ← leader_id; get_node_http_addr s1 l)), s1)
      | (Err (OtherError msg), s1) => Some (Err (Raft msg), s1)
      end
  end.
Definition write_with_retry (cmd : Command) (max_retries : N) (delay : N) (s : RS)
  : option (result MetadataError unit * RS) :=
  write_loop (S (N.to_nat max_retries)) delay cmd None s.
Definition write (cmd : Command) : RS -> option (result MetadataError unit * RS) := write_with_retry cmd 5 200.

Definition put_object_metadata_ (m : ObjectMetadata) := write (PutObjectMetadata m).
Definition delete_object_metadata_ (bucket key : string) := write (DeleteObjectMetadata bucket key).
Definition create_bucket_ (now : Z) (name : string) := write (CreateBucket (Bucket_new now name)).
Definition delete_bucket_ (name : string) := write (DeleteBucket name).
Definition acquire_lock_ (bucket key : string) (t : LockType) (h : LockHolder) := write (AcquireLock bucket key t h).
Definition release_lock_ (bucket key : string) (h : LockHolder) := write (ReleaseLock bucket key h).

(** *** The loops return *)
Context `{!RaftHandleLaws RS}.

Lemma wait_loop_total fuel start timeout s :
  (start + timeout < raft_now s + 100 * N.of_nat (fuel - 1))%N -> 0 < fuel -> (start <= raft_now s)%N ->
  exists r s', wait_loop fuel start timeout s = Some (r, s').
Proof.
  revert s. induction fuel as [|fuel IH]; intros s Hf Hpos Hs; [lia|]. simpl.
  destruct (raft_current_leader s); [by eauto|].
  destruct (N.ltb_spec timeout (raft_now s - start)) as [Ht|Ht]; [by eauto|].
  pose proof (raft_sleep_elapses 100 s). apply IH; lia.
Qed.

Lemma wait_for_leader_total timeout s : exists r s', wait_for_leader timeout s = Some (r, s').
Proof.
  unfold wait_for_leader.
  pose proof (N.div_mod timeout 100 ltac:(lia)) as Hd. pose proof (N.mod_lt timeout 100 ltac:(lia)) as Hm.
  generalize dependent (timeout mod 100)%N. intros m Hd Hm. generalize dependent (timeout / 100)%N. intros q Hd.
  apply wait_loop_total; lia.
Qed.

(** One attempt that ends in another one: the core does not know a leader, or
    names this node, and the node waits. *)
Inductive retried (cmd : Command) (delay : N) : nat -> RS -> RS -> Prop :=
| retried_none s : retried cmd delay 0 s s
| retried_more k s s1 l w s2 s3 :
    raft_client_write cmd s = (Err (ForwardToLeader l), s1) -> l = Some node_id \/ l = None ->
    wait_for_leader 5000 s1 = Some (w, s2) -> retried cmd delay k (raft_sleep delay s2) s3 ->
    retried cmd delay (S k) s s3.

(** How a write ends. *)
Inductive write_outcome (cmd : Command) (s : RS) : result MetadataError unit -> RS -> Prop :=
| wrote s' : raft_client_write cmd s = (Ok tt, s') -> write_outcome cmd s (Ok tt) s'
| redirected l s' : raft_client_write cmd s = (Err (ForwardToLeader (Some l)), s') -> l <> node_id ->
    write_outcome cmd s (Err (NotLeader (Some l) (get_node_http_addr s' l))) s'
| failed msg s' : raft_client_write cmd s = (Err (OtherError msg), s') ->
    write_outcome cmd s (Err (Raft msg)) s'.

Lemma write_loop_spec left delay cmd last s :
  exists r s', write_loop left delay cmd last s = Some (r, s') /\
    ((exists k s1, k < left /\ retried cmd delay k s s1 /\ write_outcome cmd s1 r s') \/
     (retried cmd delay left s s' /\ is_ok r = false)).
Proof.
  revert last s. induction left as [|left IH]; intros last s; simpl.
  { do 2 eexists. split; [done|]. right. split; [constructor|done]. }
  destruct (raft_client_write cmd s) as [[[]|[l|msg]] s1] eqn:Hw.
  - do 2 eexists. split; [done|]. left. exists 0, s. split_and!; [lia|constructor|by constructor].
  - destruct (bool_decide (l = Some node_id) || bool_decide (l = None)) eqn:Hl.
    + apply orb_true_iff in Hl. rewrite !bool_decide_eq_true in Hl.
      destruct (wait_for_leader_total 5000 s1) as (w & s2 & Hwait). rewrite Hwait. cbn [mbind option_bind].
      assert (Hstep : forall last', exists r s', write_loop left delay cmd last' (raft_sleep delay s2) = Some (r, s') /\
        ((exists k s1, k < S left /\ retried cmd delay k s s1 /\ write_outcome cmd s1 r s') \/
         (retried cmd delay (S left) s s' /\ is_ok r = false))).
      { intros last'. destruct (IH last' (raft_sleep delay s2)) as (r & s' & Hr & [(k & s3 & ? & Hk & Ho)|[Hk Ho]]);
          exists r, s'; split; try done.
        - left. exists (S k), s3. split_and!; [lia|by econstructor|done].
        - right. split; [by econstructor|done]. }
      destruct w; apply Hstep.
    + apply orb_false_iff in Hl as [Hl1 Hl2]. rewrite bool_decide_eq_false in Hl1, Hl2.
      destruct l as [l|]; [|done]. do 2 eexists. split; [done|]. left. exists 0, s.
      split_and!; [lia|constructor|]. simpl. apply redirected; [done|congruence].
  - do 2 eexists. split; [done|]. left. exists 0, s. split_and!; [lia|constructor|by apply failed].
Qed.
End node.

(** ** Network *)
Module Network.
Record t (Ch : Type) : Type := mk {
  self_id : N; peers : gmap N string; clients : gmap N (Client.t Ch);
  connect_timeout : N; rpc_timeout : N }.
Arguments mk {Ch}. Arguments self_id {Ch}. Arguments peers {Ch}. Arguments clients {Ch}.
Arguments connect_timeout {Ch}. Arguments rpc_timeout {Ch}.

(** [collect] into a [HashMap]: a later pair replaces an earlier one. *)
Definition with_peers_and_timeouts {Ch} (node_id : N) (ps : list (N * string * string * string))
    (connect rpc : N) : t Ch :=
  mk node_id (foldl (fun m '(id, raft, _, _) => <[id := raft]> m) ∅ ps) ∅ connect rpc.
Definition with_peers {Ch} (node_id : N) (ps : list (N * string * string * string)) : t Ch :=
  with_peers_and_timeouts node_id ps 5 10.
Definition add_peer {Ch} (id : N) (addr : string) (n : t Ch) : t Ch :=
  mk (self_id n) (<[id := addr]> (peers n)) (clients n) (connect_timeout n) (rpc_timeout n).
Definition remove_peer {Ch} (id : N) (n : t Ch) : t Ch :=
  mk (self_id n) (delete id (peers n)) (clients n) (connect_timeout n) (rpc_timeout n).

Definition endpoint_for {Ch} (n : t Ch) (target : N) (node : SaveNode) : string :=
  match peers n !! target with
  | Some addr => addr
  | None =>
      if starts_with "http://" (raft_addr node) || starts_with "https://" (raft_addr node)
      then raft_addr node else "http://" +:+ raft_addr node
  end.

Definition new_client {Ch} (target : N) (node : SaveNode) (n : t Ch) : Client.t Ch * t Ch :=
  let endpoint := endpoint_for n target node in
  match clients n !! target with
  | Some c => (c, n)
  | None =>
      let c := Client.with_timeouts endpoint (connect_timeout n) (rpc_timeout n) in
      (c, mk (self_id n) (peers n) (<[target := c]> (clients n)) (connect_timeout n) (rpc_timeout n))
  end.

(** [NetworkConnection]: the client's calls, whose failures openraft is given as
    network errors with the status' message. *)
Inductive RPCError : Type := NetworkError (msg : string).
Section connection.
Context {Net Ch : Type} `{Transport Net Ch} `{Codec EntryPayload} `{Codec StoredMembership}.
Definition network_error (e : Status) : RPCError := NetworkError (message e).
Definition append_entries (req : AppendEntriesRequest) : M (Client.t Ch * Net) RPCError AppendEntriesResponse :=
  with_err network_error (Client.append_entries req).
Definition install_snapshot (req : InstallSnapshotRequest) : M (Client.t Ch * Net) RPCError InstallSnapshotResponse :=
  with_err network_error (Client.install_snapshot req).
Definition vote (req : VoteRequest) : M (Client.t Ch * Net) RPCError VoteResponse :=
  with_err network_error (Client.vote req).
End connection.
End Network.

(** ** Properties *)

(** A write returns, after at most [max_retries + 1] proposals: when one is
    committed, when the core names another leader (whose id and HTTP address are
    returned for forwarding), when the core fails otherwise; or, when no proposal
    found a leader, with an error after the last one. *)
Theorem write_with_retry_total {RS} `{RaftHandleLaws RS} node_id cmd max_retries delay (s : RS) :
  exists r s', write_with_retry node_id cmd max_retries delay s = Some (r, s') /\
    ((exists k s1, k <= N.to_nat max_retries /\ retried node_id cmd delay k s s1 /\
        write_outcome node_id cmd s1 r s') \/
     (retried node_id cmd delay (S (N.to_nat max_retries)) s s' /\ is_ok r = false)).
Proof.
  destruct (write_loop_spec node_id (S (N.to_nat max_retries)) delay cmd None s)
    as (r & s' & Hr & [(k & s1 & ? & ?)|?]); exists r, s'; (split; [done|]); [left|by right].
  exists k, s1. split; [lia|done].
Qed.

(** [initialize] refuses a cluster that has voters and leaves it alone;
    otherwise it proposes exactly the given members with their three addresses,
    the last of two members with the same id. *)
Theorem initialize_spec {RS} `{RaftHandle RS} members (s : RS) :
  (is_initialized s = true -> initialize members s = (Err AlreadyInitialized, s)) /\
  (is_initialized s = false ->
     (initialize members s).2 = (raft_initialize (foldl add_member ∅ members) s).2 /\
     (is_ok (initialize members s).1 = is_ok (raft_initialize (foldl add_member ∅ members) s).1)) /\
  forall p ps, members = ps ++ [p] ->
    foldl add_member ∅ members !! PeerInfo.node_id p
    = Some (mkSaveNode (PeerInfo.raft_addr p) (PeerInfo.http_addr p) (PeerInfo.replication_addr p)).
Proof.
  unfold initialize. split_and!.
  - by intros ->.
  - intros ->. unfold mbind, M_bind, with_err.
    destruct (raft_initialize (foldl add_member ∅ members) s) as [[[]|e] s']; done.
  - intros p ps ->. rewrite foldl_snoc. unfold add_member at 1. by rewrite lookup_insert_eq.
Qed.

(** The first connection to a peer uses the address of the peer list, or else
    the membership's address with [http://] put before it if it has no scheme;
    every later one reuses the cached client, also when either address has
    changed. *)
Theorem new_client_endpoint {Ch} target node node' addr (n : Network.t Ch) :
  Network.clients n !! target = None ->
  let '(c, n') := Network.new_client target node n in
  Client.endpoint c = Network.endpoint_for n target node /\
  Client.connect_timeout c = Network.connect_timeout n /\
  (Network.new_client target node' (Network.add_peer target addr n')).1 = c.
Proof.
  intros Hn. unfold Network.new_client at 1. rewrite Hn. split_and!; [done..|].
  unfold Network.new_client. simpl. by rewrite lookup_insert_eq.
Qed.

(** ** Witnesses *)
Module NodeWit.
(** A core without a leader for the first two proposals; its clock is the first
    component, the proposals made the second. *)
#[local] Instance handle : RaftHandle (N * N) := {
  raft_metrics s := mkMetrics SFollower 1 None None None [] [] ∅;
  raft_current_leader s := if (s.1 <? 300)%N then None else Some 1%N;
  raft_now s := s.1;
  raft_sleep ms s := (s.1 + ms, s.2)%N;
  raft_client_write c s := if (s.2 <? 2)%N then (Err (ForwardToLeader None), (s.1, s.2 + 1)%N) else (Ok tt, s);
  raft_initialize m s := (Ok tt, s);
  raft_add_learner i n s := (Ok tt, s);
  raft_change_membership c s := (Ok tt, s);
  raft_trigger_elect s := (Ok tt, s);
  raft_ensure_linearizable s := (Ok tt, s);
}.
#[local] Instance handle_laws : RaftHandleLaws (N * N).
Proof. intros ms s. simpl. lia. Qed.

Lemma write_with_retry_total_witness :
  exists r s', write_with_retry 1 (DeleteBucket "photos") 5 200 (0%N, 0%N) = Some (r, s') /\
    ((exists k s1, k <= 5 /\ retried 1 (DeleteBucket "photos") 200 k (0%N, 0%N) s1 /\
        write_outcome 1 (DeleteBucket "photos") s1 r s') \/
     (retried 1 (DeleteBucket "photos") 200 6 (0%N, 0%N) s' /\ is_ok r = false)).
Proof. exact (write_with_retry_total 1 (DeleteBucket "photos") 5 200 (0%N, 0%N)). Defined.
Lemma write_example :
  write 1 (DeleteBucket "photos") (0%N, 0%N) = Some (Ok tt, (700%N, 2%N)).
Proof. vm_compute. reflexivity. Qed.

Lemma new_client_endpoint_witness :
  let n : Network.t unit := Network.with_peers 1 [] in
  let '(c, n') := Network.new_client 2 (mkSaveNode "n2:9001" "" "") n in
  Client.endpoint c = "http://n2:9001" /\ Client.connect_timeout c = 5%N /\
  (Network.new_client 2 (mkSaveNode "moved:9001" "" "") (Network.add_peer 2 "http://x" n')).1 = c.
Proof.
  intros n. exact (new_client_endpoint 2 (mkSaveNode "n2:9001" "" "") (mkSaveNode "moved:9001" "" "") "http://x" n eq_refl).
Defined.
End NodeWit.
