(* ===== verification/MetadataStore.v ===== *)
(** * save-metadata: the store handle

    Models [crates/save-metadata/src/lib.rs]: the asynchronous wrappers of
    [MetadataStore], which run each operation in a blocking task, and
    [clear_raft_state].  The options the database is opened with are in [Startup],
    its statistics in [Metrics]. *)
From Stdlib Require Import Ascii.
From S2P Require Import Prelude Common Kv Buckets Objects Multipart StateMachine RaftTypes.
From stdpp Require Import base gmap strings numbers sorting list.

Module column_families.
Definition DEFAULT : string := "default".
Definition RAFT_LOG : string := "raft_log".
Definition RAFT_STATE : string := "raft_state".
Definition RAFT_SNAPSHOT : string := "raft_snapshot".
Definition ALL : list string := [DEFAULT; RAFT_LOG; RAFT_STATE; RAFT_SNAPSHOT].
Definition RAFT_ONLY : list string := [RAFT_LOG; RAFT_STATE; RAFT_SNAPSHOT].
End column_families.

Module MetadataStore.
Section store.
Context {DB : Type} `{RocksDB DB} `{Codec Bucket} `{Codec ObjectMetadata}
  `{Codec MultipartPart} `{Codec MultipartMetadata}.

(** [spawn_blocking(f).await.map_err(TaskCancelled)?]: the task returns what [f]
    returns, or it dies with a [JoinError], its message and the state it left. *)
Context (join_error : DB -> option (string * DB)).
Definition spawn_blocking {A} (f : M DB MetadataError A) : M DB MetadataError A :=
  fun d => match join_error d with
           | Some (e, d') => (Err (TaskCancelled e), d')
           | None => f d
           end.

Definition create_bucket now name := spawn_blocking (Buckets.create_bucket now name).
Definition get_bucket name := spawn_blocking (Buckets.get_bucket name).
Definition delete_bucket name := spawn_blocking (Buckets.delete_bucket name).
Definition list_buckets := spawn_blocking Buckets.list_buckets.
Definition put_object_metadata m := spawn_blocking (Objects.put_object_metadata m).
Definition commit_object_metadata m := spawn_blocking (Objects.commit_object_metadata m).
Definition get_object_metadata b k := spawn_blocking (Objects.get_object_metadata b k).
Definition delete_object_metadata b k := spawn_blocking (Objects.delete_object_metadata b k).
Definition list_objects b p := spawn_blocking (Objects.list_objects b p).
Definition initiate_multipart_upload now b k u ct :=
  spawn_blocking (Multipart.initiate_multipart_upload now b k u ct).
Definition get_multipart_upload b k u := spawn_blocking (Multipart.get_multipart_upload b k u).
Definition record_part b k u n etag size := spawn_blocking (Multipart.record_part b k u n etag size).
Definition complete_multipart_upload b k u := spawn_blocking (Multipart.complete_multipart_upload b k u).
Definition abort_multipart_upload b k u := spawn_blocking (Multipart.abort_multipart_upload b k u).
Definition list_multipart_uploads b := spawn_blocking (Multipart.list_multipart_uploads b).
Definition list_all_multipart_uploads := spawn_blocking Multipart.list_all_multipart_uploads.
End store.

Section clear.
Context {DB : Type} `{RocksDB DB}.

(** The raw iterator loop [while iter.valid()]: it ends at the end of the family
    or, silently, at an error. *)
Fixpoint valid_keys (items : list (result string (string * bytes))) : list string :=
  match items with
  | Ok (k, _) :: rest => k :: valid_keys rest
  | _ => []
  end.

Definition clear_cf (cf : string) : M DB MetadataError unit :=
  fun d =>
    if db_has_cf d cf then
      for_each (fun k => writes (fun d => map_err Storage (db_delete d cf k)))
        (valid_keys (db_iter d cf "")) d
    else (Ok tt, d).

Definition clear_raft_state : M DB MetadataError unit :=
  for_each clear_cf column_families.RAFT_ONLY.

Context `{!RocksDBLaws DB}.

Lemma clear_loop cf ks (d d' : DB) :
  for_each (fun k => writes (fun d => map_err Storage (db_delete d cf k))) ks d = (Ok tt, d') ->
  (forall k, db_view d' cf !! k = if decide (k ∈ ks) then None else db_view d cf !! k) /\
  (forall cf', cf' <> cf -> db_view d' cf' = db_view d cf') /\
  (forall cf', db_has_cf d' cf' = db_has_cf d cf').
Proof.
  revert d. induction ks as [|k0 ks IH]; intros d.
  { intros [= <-]. split_and!; [|done..]. intros k. by rewrite decide_False by set_solver. }
  intros [([] & t & Hd & Hr)|(? & _ & ?)]%bind_inv; [|done].
  unfold writes in Hd. destruct (db_delete d cf k0) as [t'|] eqn:Hdel; simplify_eq/=.
  destruct (IH _ Hr) as (Hk & Hf & Hc). split_and!.
  - intros k. rewrite Hk, (db_delete_ok _ _ _ _ Hdel).
    destruct (decide (k ∈ ks)); [by rewrite decide_True by set_solver|].
    destruct (decide (k = k0)) as [->|]; [rewrite lookup_delete_eq, decide_True by set_solver; done|].
    rewrite lookup_delete_ne, decide_False by set_solver. done.
  - intros cf' ?. rewrite Hf by done. by eapply db_delete_frame.
  - intros cf'. rewrite Hc. by eapply db_delete_cf.
Qed.

(** The iterator of the family met no error. *)
Definition iter_ok (d : DB) (cf : string) : Prop := Forall (fun r => is_ok r = true) (db_iter d cf "").

Lemma clear_cf_spec cf (d d' : DB) : clear_cf cf d = (Ok tt, d') ->
  (db_has_cf d cf = true -> iter_ok d cf -> db_view d' cf = ∅) /\
  (forall cf', cf' <> cf -> db_view d' cf' = db_view d cf') /\
  (forall cf', db_has_cf d' cf' = db_has_cf d cf').
Proof.
  unfold clear_cf. destruct (db_has_cf d cf); [|by intros [= <-]].
  intros (Hk & Hf & Hc)%clear_loop. split_and!; [|done..]. intros _ Hok.
  apply map_eq. intros k. rewrite Hk, lookup_empty. case_decide as Hin; [done|].
  apply eq_None_not_Some. intros (v & Hv). apply Hin.
  destruct (db_iter_ok d cf "") as (l & [_ Hl] & [Hi|(n & e & Hi)]); unfold iter_ok in Hok; rewrite Hi in Hok |- *.
  - assert (Hkv : (k, v) ∈ l) by (apply Hl; split; [done|by destruct k]). clear -Hkv.
    induction l as [|[k' v'] l IH]; [set_solver|]. csimpl.
    apply elem_of_cons in Hkv as [[= -> ->]|?]; [by left|right; by apply IH].
  - exfalso. apply Forall_app in Hok as [_ Hok]. by inversion Hok.
Qed.
End clear.
End MetadataStore.

Section properties.
Context {DB : Type} `{RocksDBLaws DB}.

(** Recovery from a corrupt Raft state.  [clear_raft_state] empties every open
    Raft column family whose iterator meets no error and keeps the default one,
    so no bucket, object or upload is lost. *)
Theorem clear_raft_state_exact (d d' : DB) :
  MetadataStore.clear_raft_state d = (Ok tt, d') ->
  meta d' = meta d /\
  forall cf, cf ∈ column_families.RAFT_ONLY -> db_has_cf d cf = true ->
    (forall d1, db_has_cf d1 cf = true -> db_view d1 cf = db_view d cf -> MetadataStore.iter_ok d1 cf) -> db_view d' cf = ∅.
Proof.
  unfold MetadataStore.clear_raft_state, column_families.RAFT_ONLY. cbn [for_each].
  intros [([] & t1 & (He1 & Hf1 & Hc1)%MetadataStore.clear_cf_spec & Hr)|(? & _ & ?)]%bind_inv; [|done].
  apply bind_inv in Hr as [([] & t2 & (He2 & Hf2 & Hc2)%MetadataStore.clear_cf_spec & Hr)|(? & _ & ?)]; [|done].
  apply bind_inv in Hr as [([] & t3 & (He3 & Hf3 & Hc3)%MetadataStore.clear_cf_spec & [= <-])|(? & _ & ?)]; [|done].
  split; [unfold meta; by rewrite Hf3, Hf2, Hf1|].
  intros cf Hcf Hhas Hok. rewrite !elem_of_cons in Hcf. destruct Hcf as [-> |[-> |[-> |?]]]; [..|set_solver].
  - rewrite Hf3, Hf2 by done. apply He1; [done|by apply Hok].
  - rewrite Hf3 by done. apply He2; [by rewrite Hc1|]. apply Hok; [by rewrite Hc1|by apply Hf1].
  - apply He3; [by rewrite Hc2, Hc1|]. apply Hok; [by rewrite Hc2, Hc1|]. rewrite Hf2 by done. by apply Hf1.
Qed.
End properties.

Module StoreWit.
Import Mem.
Definition d : Mem.t :=
  Mem.mk {[ "default" := {[ "bkt:photos" := [] ]}; "raft_log" := {[ "k" := [] ]};
            "raft_state" := {[ "vote" := [] ]}; "raft_snapshot" := ∅ ]} false.

Lemma clear_raft_state_exact_witness :
  let d' := (MetadataStore.clear_raft_state d).2 in
  meta d' = meta d /\
  forall cf, cf ∈ column_families.RAFT_ONLY -> db_has_cf d cf = true ->
    (forall d1, db_has_cf d1 cf = true -> db_view d1 cf = db_view d cf -> MetadataStore.iter_ok d1 cf) -> db_view d' cf = ∅.
Proof. intros d'. refine (clear_raft_state_exact d d' _). vm_compute. reflexivity. Defined.
End StoreWit.
