(* ===== verification/RaftLog.v ===== *)
(** * save-metadata: the Raft log and the replicated-state calls

    Models [raft/log_store.rs] and the [RaftStorage] implementation of
    [raft/storage.rs] (the snapshot calls are in [Snapshot]).  Log entries live
    in the column family [raft_log] under their big-endian index, the rest of
    the Raft state in [raft_state]. *)
From Stdlib Require Import Ascii.
From S2P Require Import Prelude Common Kv Buckets Objects Locks StateMachine RaftTypes.
From stdpp Require Import base gmap strings numbers sorting list.

(** [u64::to_be_bytes], as a string of eight bytes. *)
Fixpoint to_be_bytes (w : nat) (n : N) : string :=
  match w with
  | 0 => ""
  | S w' => String (ascii_of_N (n / 256 ^ N.of_nat w' mod 256)) (to_be_bytes w' n)
  end.
Definition index_to_key (index : N) : string := to_be_bytes 8 index.

Inductive Bound : Type := Included (n : N) | Excluded (n : N) | Unbounded.

(** The indices [start..start+n]. *)
Fixpoint range_from (start : N) (n : nat) : list N :=
  match n with
  | 0 => []
  | S n' => start :: range_from (start + 1) n'
  end.
(** [start..end_], empty when [end_ <= start]. *)
Definition range (start end_ : N) : list N := range_from start (N.to_nat (end_ - start)).

Record LogState : Type := mkLogState {
  ls_last_purged_log_id : option LogId; ls_last_log_id : option LogId }.

Section log_store.
Context {DB : Type} `{RocksDB DB} `{Codec LogId} `{Codec Entry}.

Definition log_cf : M DB StorageError unit := cf_handle "raft_log" (ReadErr "raft_log CF not found").
Definition state_cf : M DB StorageError unit :=
  cf_handle "raft_state" (ReadErr "raft_state CF not found").

Definition read_log_id (key : string) : M DB StorageError (option LogId) :=
  state_cf ;; read_json "raft_state" key.

Definition write_log_id (key : string) (id : LogId) : M DB StorageError unit :=
  state_cf ;; write_json "raft_state" key id ;; mret tt.

Definition delete_key (key : string) : M DB StorageError unit :=
  state_cf ;; delete_cf "raft_state" key ;; mret tt.

Definition get_log_state : M DB StorageError LogState :=
  last_purged ← read_log_id "last_purged_log_id";
  last ← read_log_id "last_log_id";
  mret (mkLogState last_purged last).

(** The additions wrap as they do in a release build. *)
Definition range_start (b : Bound) : N :=
  match b with Included n => n | Excluded n => wrapN 64 (n + 1) | Unbounded => 0 end.
Definition range_end (b : Bound) : N :=
  match b with Included n => wrapN 64 (n + 1) | Excluded n => n | Unbounded => u64_max end.

Fixpoint get_entries_loop (indices : list N) : M DB StorageError (list Entry) :=
  match indices with
  | [] => mret []
  | index :: rest =>
      o ← read_json "raft_log" (index_to_key index);
      entries ← get_entries_loop rest;
      mret (match o with Some entry => entry :: entries | None => entries end)
  end.

Definition get_entries (start end_ : Bound) : M DB StorageError (list Entry) :=
  log_cf ;; get_entries_loop (range (range_start start) (range_end end_)).

Fixpoint append_loop (entries : list Entry) (last : option LogId) : M DB StorageError (option LogId) :=
  match entries with
  | [] => mret last
  | entry :: rest =>
      write_json "raft_log" (index_to_key (log_index (log_id entry))) entry ;;
      append_loop rest (Some (log_id entry))
  end.

Definition append (entries : list Entry) : M DB StorageError (option LogId) :=
  log_cf ;;
  last ← append_loop entries None;
  match last with
  | Some id => write_log_id "last_log_id" id
  | None => mret tt
  end ;;
  mret last.

(** [start..=end_]. *)
Definition delete_range (start end_ : N) : M DB StorageError unit :=
  log_cf ;;
  for_each (fun index => delete_cf "raft_log" (index_to_key index)) (range start (end_ + 1)).
End log_store.

Section storage.
Context {DB : Type} `{RocksDB DB} `{Codec LogId} `{Codec Entry} `{Codec Vote}
  `{Codec StoredMembership} `{Codec Bucket} `{Codec ObjectMetadata} `{Codec LockState}.

Definition try_get_log_entries (start end_ : Bound) : M DB StorageError (list Entry) :=
  get_entries start end_.

Definition save_vote (vote : Vote) : M DB StorageError unit :=
  state_cf ;; write_json "raft_state" "vote" vote ;; mret tt.

Definition read_vote : M DB StorageError (option Vote) :=
  state_cf ;; read_json "raft_state" "vote".

Definition append_to_log (entries : list Entry) : M DB StorageError unit :=
  append entries ;; mret tt.

Definition delete_conflict_logs_since (id : LogId) : M DB StorageError unit :=
  let start_index := log_index id in
  current_state ← get_log_state;
  match ls_last_log_id current_state with
  | Some last =>
      delete_range start_index (log_index last) ;;
      if (0 <? start_index)%N
      then write_log_id "last_log_id" (mkLogId (leader_id id) (start_index - 1))
      else delete_key "last_log_id"
  | None => mret tt
  end ;;
  mret tt.

Definition purge_logs_upto (id : LogId) : M DB StorageError unit :=
  current_state ← get_log_state;
  let start_index := match ls_last_purged_log_id current_state with
                     | Some p => wrapN 64 (log_index p + 1)
                     | None => 0%N
                     end in
  delete_range start_index (log_index id) ;;
  write_log_id "last_purged_log_id" id ;;
  mret tt.

Definition last_applied_state : M DB StorageError (option LogId * StoredMembership) :=
  last_applied ← read_log_id "last_applied_log_id";
  state_cf ;;
  membership ← read_json "raft_state" "membership";
  mret (last_applied, default StoredMembership_default membership).

(** The loop of [apply_to_state_machine]; [now] is the clock at each entry. *)
Definition apply_entry (now : Z) (entry : Entry) : M DB StorageError unit :=
  match payload entry with
  | Blank => mret tt
  | Normal cmd => apply_command now cmd
  | MembershipEntry m =>
      state_cf ;;
      write_json "raft_state" "membership" (mkStoredMembership (Some (log_id entry)) m)
  end.

Fixpoint apply_loop (entries : list (Z * Entry)) (last : option LogId)
  : M DB StorageError (option LogId) :=
  match entries with
  | [] => mret last
  | (now, entry) :: rest => apply_entry now entry ;; apply_loop rest (Some (log_id entry))
  end.

Definition apply_to_state_machine (entries : list (Z * Entry)) : M DB StorageError (list unit) :=
  last ← apply_loop entries None;
  match last with
  | Some id => write_log_id "last_applied_log_id" id
  | None => mret tt
  end ;;
  mret ((fun _ => tt) <$> entries).
End storage.

(** ** Index keys *)
Lemma ascii_of_N_mod n : N_of_ascii (ascii_of_N (n mod 256)) = (n mod 256)%N.
Proof. apply N_ascii_embedding. apply N.mod_lt. lia. Qed.

(** Big-endian keys order as their indices do. *)
Lemma to_be_bytes_lt w n m : (n < 256 ^ N.of_nat w)%N -> (m < 256 ^ N.of_nat w)%N ->
  str_lt (to_be_bytes w n) (to_be_bytes w m) <-> (n < m)%N.
Proof.
  assert (Hmod : forall w n, to_be_bytes w n = to_be_bytes w (n mod 256 ^ N.of_nat w)).
  { clear. intros w n. assert (Hgen : forall v, v <= w ->
      to_be_bytes v n = to_be_bytes v (n mod 256 ^ N.of_nat w)%N); [|by apply Hgen].
    induction v as [|v IH]; intros Hv; [done|]. cbn [to_be_bytes]. rewrite IH by lia. f_equal. f_equal.
    set (B := (256 ^ N.of_nat w)%N).
    assert (HB : B = (256 ^ N.of_nat (w - v - 1) * 256 * 256 ^ N.of_nat v)%N).
    { unfold B. replace (N.of_nat w) with (N.of_nat (w - v - 1) + 1 + N.of_nat v)%N by lia.
      by rewrite !N.pow_add_r. }
    assert (Hn : (n = n mod B + (n / B * 256 ^ N.of_nat (w - v - 1) * 256) * 256 ^ N.of_nat v)%N).
    { pose proof (N.div_mod n B ltac:(apply N.pow_nonzero; lia)) as Hd. rewrite HB in Hd at 1. lia. }
    rewrite Hn at 1. rewrite N.div_add by (apply N.pow_nonzero; lia). by rewrite N.Div0.mod_add. }
  revert n m. induction w as [|w IH]; intros n m Hn Hm.
  { simpl in *. unfold str_lt. simpl. lia. }
  assert (Hp : (256 ^ N.of_nat (S w) = 256 * 256 ^ N.of_nat w)%N).
  { replace (N.of_nat (S w)) with (1 + N.of_nat w)%N by lia. by rewrite N.pow_add_r. }
  rewrite Hp in Hn, Hm. assert (Hpos : (256 ^ N.of_nat w <> 0)%N) by (apply N.pow_nonzero; lia).
  set (B := (256 ^ N.of_nat w)%N) in *.
  assert (Hqn : (n / B < 256)%N) by (apply N.Div0.div_lt_upper_bound; lia).
  assert (Hqm : (m / B < 256)%N) by (apply N.Div0.div_lt_upper_bound; lia).
  unfold str_lt. cbn [to_be_bytes]. rewrite str_ltb_cons. fold B.
  rewrite !ascii_of_N_mod, !N.mod_small by done.
  rewrite (Hmod w n), (Hmod w m). fold B. fold (str_lt (to_be_bytes w (n mod B)) (to_be_bytes w (m mod B))).
  rewrite IH by (by apply N.mod_lt).
  pose proof (N.div_mod n B Hpos). pose proof (N.div_mod m B Hpos).
  pose proof (N.mod_lt n B Hpos). pose proof (N.mod_lt m B Hpos).
  clear IH Hmod Hp Hn Hm. clearbody B. generalize dependent (n / B)%N. intros qn.
  generalize dependent (n mod B)%N. intros rn ?. generalize dependent (m / B)%N. intros qm.
  generalize dependent (m mod B)%N. intros rm ?. intros Hqm -> Hqn ->.
  split.
  - intros [?|[Heq ?]]; [nia|]. apply (f_equal N_of_ascii) in Heq.
    rewrite !N_ascii_embedding in Heq by done. nia.
  - intros Hlt. destruct (N.lt_trichotomy qn qm) as [?|[Heq|?]]; [by left| |nia].
    right. rewrite Heq in *. split; [done|nia].
Qed.

Lemma index_to_key_inj n m : (n <= u64_max)%N -> (m <= u64_max)%N ->
  index_to_key n = index_to_key m -> n = m.
Proof.
  intros Hn Hm Heq. unfold u64_max in *.
  destruct (N.lt_trichotomy n m) as [Hlt|[?|Hlt]]; [|done|]; exfalso;
    apply (to_be_bytes_lt 8) in Hlt; try (simpl; lia);
    unfold index_to_key in Heq; rewrite Heq in Hlt; by apply (irreflexivity str_lt) in Hlt.
Qed.

Lemma elem_of_range a b i : i ∈ range a b <-> (a <= i < b)%N.
Proof.
  unfold range. assert (Hgen : forall n a, i ∈ range_from a n <-> (a <= i < a + N.of_nat n)%N).
  { clear. induction n as [|n IH]; intros a; cbn [range_from].
    - split; [by intros ?%elem_of_nil|lia].
    - rewrite elem_of_cons, IH. lia. }
  rewrite Hgen. lia.
Qed.

(** ** The log as a finite map *)
Section log_spec.
Context {DB : Type} `{RocksDBLaws DB} `{!Codec LogId} `{!Codec Entry}
  `{!CodecLaws LogId} `{!CodecLaws Entry}.

(** The column family [raft_log] holds the entries of [lg] under their keys. *)
Definition log_is (d : DB) (lg : gmap N Entry) : Prop :=
  forall i, (i <= u64_max)%N -> stored (db_view d "raft_log" !! index_to_key i) (lg !! i).

(** What [raft_state] holds at a key. *)
Definition state_is {A} `{Codec A} (d : DB) (k : string) (o : option A) : Prop :=
  stored (db_view d "raft_state" !! k) o.

Definition add_entry (lg : gmap N Entry) (e : Entry) : gmap N Entry :=
  <[log_index (log_id e) := e]> lg.

Lemma state_cf_Ok d r d' : state_cf d = (r, d') -> d' = d.
Proof. by intros [-> _]%cf_handle_inv. Qed.

Lemma write_log_id_inv k id d d' : write_log_id k id d = (Ok tt, d') ->
  state_is d' k (Some id) /\ (forall k', k' <> k -> db_view d' "raft_state" !! k' = db_view d "raft_state" !! k')
  /\ forall cf, cf <> "raft_state" -> db_view d' cf = db_view d cf.
Proof.
  intros [([] & t & ->%state_cf_Ok & Hr)|(? & _ & ?)]%bind_inv; [|done].
  apply bind_inv in Hr as [([] & t & Hw & [= <-])|(? & _ & ?)]; [|done].
  apply write_json_inv in Hw as [(v & Hd & Hv) Hf]. unfold state_is. rewrite Hv. split_and!; [|..|done].
  - rewrite lookup_insert_eq. by constructor.
  - intros k' ?. by rewrite lookup_insert_ne.
Qed.

Lemma read_log_id_inv k d o d' : read_log_id k d = (Ok o, d') -> d' = d /\ state_is d k o.
Proof.
  intros [([] & t & ->%state_cf_Ok & Hr)|(? & _ & ?)]%bind_inv; [|done]. by apply read_json_inv in Hr.
Qed.

Lemma log_is_write d d' lg e : (log_index (log_id e) <= u64_max)%N -> log_is d lg ->
  write_json "raft_log" (index_to_key (log_index (log_id e))) e d = (Ok tt, d') ->
  log_is d' (add_entry lg e) /\ forall cf, cf <> "raft_log" -> db_view d' cf = db_view d cf.
Proof.
  intros He Hl [(v & Hd & Hv) Hf]%write_json_inv. split; [|done]. intros i Hi. unfold add_entry. rewrite Hv.
  destruct (decide (i = log_index (log_id e))) as [->|Hne].
  - rewrite !lookup_insert_eq. by constructor.
  - rewrite !lookup_insert_ne; [by apply Hl|done|]. intros Hk. by apply index_to_key_inj in Hk.
Qed.

Lemma append_loop_inv es last d lg r d' :
  Forall (fun e => (log_index (log_id e) <= u64_max)%N) es -> log_is d lg ->
  append_loop es last d = (Ok r, d') ->
  log_is d' (foldl add_entry lg es) /\
  r = match list.last es with Some e => Some (log_id e) | None => last end /\
  forall cf, cf <> "raft_log" -> db_view d' cf = db_view d cf.
Proof.
  intros Hes. revert last d lg. induction Hes as [|e es He _ IH]; intros last d lg Hl.
  { intros [= <- <-]. done. }
  intros [([] & t & Hw & Hr)|(? & _ & ?)]%bind_inv; [|done].
  destruct (log_is_write _ _ _ _ He Hl Hw) as [Hl' Hf].
  destruct (IH _ _ _ Hl' Hr) as (? & -> & Hf'). split_and!; [done| |].
  - rewrite last_cons. by destruct (list.last es).
  - intros cf ?. by rewrite Hf', Hf.
Qed.

Lemma get_entries_loop_inv idx d lg es d' :
  Forall (fun i => (i <= u64_max)%N) idx -> log_is d lg ->
  get_entries_loop idx d = (Ok es, d') -> d' = d /\ es = omap (fun i => lg !! i) idx.
Proof.
  intros Hidx Hl. revert es. induction Hidx as [|i idx Hi _ IH]; intros es; [by intros [= <- <-]|].
  intros [(o & t & [-> Ho]%read_json_inv & Hr)|(? & _ & ?)]%bind_inv; [|done].
  apply bind_inv in Hr as [(es' & t & Hr & [= <- <-])|(? & _ & ?)]; [|done].
  destruct (IH es') as [-> ->]; [done|]. split; [done|].
  assert (o = lg !! i) as ->; [|csimpl; by destruct (lg !! i)].
  by eapply stored_fun; [exact Ho|apply Hl].
Qed.

Lemma delete_cf_log i d lg d' : (i <= u64_max)%N -> log_is d lg ->
  delete_cf "raft_log" (index_to_key i) d = (Ok tt, d') -> log_is d' (delete i lg).
Proof.
  intros Hi Hl [Hv _]%delete_cf_inv. intros j Hj. rewrite Hv.
  destruct (decide (j = i)) as [->|Hne]; [rewrite !lookup_delete_eq; by constructor|].
  rewrite !lookup_delete_ne; [by apply Hl|done|]. intros Hk. by apply index_to_key_inj in Hk.
Qed.

Definition cut (a b : N) (lg : gmap N Entry) : gmap N Entry :=
  filter (fun ie => ~ (a <= ie.1 <= b)%N) lg.

Lemma lookup_cut a b lg i :
  cut a b lg !! i = if decide (a <= i <= b)%N then None else lg !! i.
Proof.
  unfold cut. case_decide as Hin.
  - apply map_lookup_filter_None. right. intros e _. simpl. tauto.
  - destruct (lg !! i) as [e|] eqn:He.
    + by apply map_lookup_filter_Some.
    + apply map_lookup_filter_None. by left.
Qed.

Lemma delete_loop_inv idx d lg d' :
  Forall (fun i => (i <= u64_max)%N) idx -> log_is d lg ->
  for_each (fun i => delete_cf "raft_log" (index_to_key i)) idx d = (Ok tt, d') ->
  log_is d' (foldr delete lg idx) /\ forall cf, cf <> "raft_log" -> db_view d' cf = db_view d cf.
Proof.
  intros Hidx. revert d lg. induction Hidx as [|i idx Hi _ IH]; intros d lg Hl; [by intros [= <-]|].
  intros [([] & t & Hd & Hr)|(? & _ & ?)]%bind_inv; [|done].
  destruct (IH _ _ (delete_cf_log _ _ _ _ Hi Hl Hd) Hr) as [Hl' Hf].
  apply delete_cf_inv in Hd as [_ Hf0]. split; [|intros cf ?; by rewrite Hf, Hf0].
  intros j Hj. specialize (Hl' j Hj). simpl.
  assert (foldr delete (delete i lg) idx = delete i (foldr delete lg idx)) as <-; [|done].
  symmetry. apply delete_foldr_delete.
Qed.

Lemma delete_range_inv a b d lg d' :
  (b < u64_max)%N -> log_is d lg -> delete_range a b d = (Ok tt, d') ->
  log_is d' (cut a b lg) /\ forall cf, cf <> "raft_log" -> db_view d' cf = db_view d cf.
Proof.
  intros Hb Hl [([] & t & [-> _]%cf_handle_inv & Hr)|(? & _ & ?)]%bind_inv; [|done].
  eapply (delete_loop_inv _ _ _ _) in Hr as [Hl' Hf]; [| |done].
  - split; [|done]. intros i Hi. specialize (Hl' i Hi).
    assert (foldr delete lg (range a (b + 1)) !! i = cut a b lg !! i) as <-; [|done].
    rewrite lookup_cut. case_decide as Hin.
    + apply lookup_foldr_delete, elem_of_range. lia.
    + apply lookup_foldr_delete_not_elem_of. rewrite elem_of_range. lia.
  - apply list.Forall_forall. intros i ?%elem_of_range. lia.
Qed.
End log_spec.

(** ** Applying entries *)
Section apply_spec.
Context {DB : Type} `{RocksDBLaws DB} `{!Codec LogId} `{!Codec Entry} `{!Codec StoredMembership}
  `{!Codec Bucket} `{!Codec ObjectMetadata} `{!Codec LockState}
  `{!CodecLaws LogId} `{!CodecLaws StoredMembership}
  `{!CodecLaws Bucket} `{!CodecLaws ObjectMetadata} `{!CodecLaws LockState}.

(** The commands of a list of entries, with the clock each is applied at. *)
Definition commands (es : list (Z * Entry)) : list (Z * Command) :=
  omap (fun ne => match payload ne.2 with Normal c => Some (ne.1, c) | _ => None end) es.

Definition wf_entry (e : Entry) : bool :=
  match payload e with Normal c => wf_command c | _ => true end.

Lemma R_frame (d d' : DB) a : same_cf "default" d d' -> R d a -> R d' a.
Proof. unfold same_cf. intros Hs [Hb Ho Hl]. split; unfold meta; intros; rewrite Hs; auto. Qed.

Lemma state_cf_keeps P `{!PreOrder P} : keeps P (state_cf : M DB StorageError unit).
Proof. by apply keeps_cf_handle. Qed.

Definition last_applied_same (d d' : DB) : Prop :=
  db_view d' "raft_state" !! "last_applied_log_id" = db_view d "raft_state" !! "last_applied_log_id".
#[local] Instance last_applied_preorder : PreOrder last_applied_same.
Proof. split; [intros d; done|intros a b c; unfold last_applied_same; congruence]. Qed.

Lemma apply_entry_last now e : keeps last_applied_same (apply_entry now e : M DB StorageError unit).
Proof.
  unfold apply_entry. destruct (payload e); [solve_frame| |].
  - intros d r d' Hc. unfold last_applied_same.
    by rewrite (apply_command_frame "raft_state" _ _ ltac:(done) _ _ _ Hc).
  - apply keeps_bind; [apply _|apply state_cf_keeps, _|]. intros _ d r d'.
    intros [(v & t & [_ ->]%lift_inv & Hp)|(? & [_ ->]%lift_inv & _)]%bind_inv; [|done].
    destruct r as [[]|]; [|by apply put_cf_err in Hp as ->].
    apply put_cf_inv in Hp as [Hv _]. unfold last_applied_same. by rewrite Hv, lookup_insert_ne.
Qed.

Lemma apply_entry_R now e (d : DB) a r d' :
  wf_entry e = true -> R d a -> apply_entry now e d = (r, d') ->
  match r with
  | Ok _ => exists a', Abs.apply_all (commands [(now, e)]) a = Ok a' /\ R d' a'
  | Err _ => R d' a
  end.
Proof.
  unfold apply_entry, wf_entry, commands. csimpl. intros Hwf HR. destruct (payload e) as [|c|m].
  - intros [= <- <-]. by eauto.
  - intros Hc. destruct (apply_command_R _ _ _ _ _ _ Hwf HR Hc) as [(-> & e' & -> & _)|Ho]; [done|].
    csimpl. destruct (Abs.apply now c a) as [a'|e'] eqn:Ha; destruct Ho as [-> Ho].
    + exists a'. csimpl. done.
    + by subst.
  - intros Hc. assert (HR' : R d' a).
    { eapply R_frame; [|done]. revert Hc. apply keeps_bind; [apply _|apply state_cf_keeps, _|].
      intros _. by apply keeps_write_json. }
    destruct r; eauto.
Qed.

Lemma apply_loop_R es last (d : DB) a r d' :
  Forall (fun ne => wf_entry ne.2 = true) es -> R d a -> apply_loop es last d = (r, d') ->
  last_applied_same d d' /\
  match r with
  | Ok o => o = match list.last es with Some ne => Some (log_id ne.2) | None => last end /\
            exists a', Abs.apply_all (commands es) a = Ok a' /\ R d' a'
  | Err _ => exists es1 es2 a', es = es1 ++ es2 /\ es2 <> [] /\
               Abs.apply_all (commands es1) a = Ok a' /\ R d' a'
  end.
Proof.
  intros Hwf. revert last d a. induction Hwf as [|[now e] es He Hes IH]; intros last d a HR.
  { intros [= <- <-]. split; [done|]. by eauto. }
  assert (Hcons : forall x a0 a1, Abs.apply_all (commands [(now, e)]) a0 = Ok a1 ->
    Abs.apply_all (commands ((now, e) :: x)) a0 = Abs.apply_all (commands x) a1).
  { clear. intros x a0 a1. unfold commands. csimpl. destruct (payload e) as [|c|m]; csimpl;
      [by intros [= ->]| |by intros [= ->]].
    destruct (Abs.apply now c a0); csimpl; [by intros [= ->]|done]. }
  intros [([] & t & Hc & Hr)|(e' & Hc & ->)]%bind_inv;
    pose proof (apply_entry_last _ _ _ _ _ Hc) as Hla;
    pose proof (apply_entry_R _ _ _ _ _ _ He HR Hc) as Hstep; simpl in Hstep.
  - destruct Hstep as (a1 & Ha1 & HR1). destruct (IH _ _ _ HR1 Hr) as [Hla' Hrest].
    split; [by trans t|]. destruct r as [o|er].
    + destruct Hrest as [-> (a' & Ha' & HR')]. split; [rewrite last_cons; by destruct (list.last es)|].
      exists a'. by rewrite (Hcons _ _ _ Ha1).
    + destruct Hrest as (es1 & es2 & a' & -> & Hne & Ha' & HR').
      exists ((now, e) :: es1), es2, a'. split_and!; [done..| |done]. by rewrite (Hcons _ _ _ Ha1).
  - split; [done|]. exists [], ((now, e) :: es), a. done.
Qed.

(** A batch leaves the state that its commands lead to, up to the one that
    failed. *)
Lemma apply_to_state_machine_R es (d : DB) a x d' :
  Forall (fun ne => wf_entry ne.2 = true) es -> R d a -> apply_to_state_machine es d = (x, d') ->
  exists es1 es2 a', es = es1 ++ es2 /\ (is_ok x = true -> es2 = []) /\
    Abs.apply_all (commands es1) a = Ok a' /\ R d' a'.
Proof.
  intros Hwf HR [(o & t & Hl & Hr)|(e & Hl & ->)]%bind_inv;
    destruct (apply_loop_R _ _ _ _ _ _ Hwf HR Hl) as [_ Hres].
  - destruct Hres as (_ & a' & Ha & HR'). exists es, [], a'. rewrite app_nil_r. split_and!; [done..|].
    eapply R_frame; [|exact HR']. revert Hr. apply keeps_bind; [apply _| |solve_frame].
    destruct o; [|solve_frame]. unfold write_log_id, state_cf. solve_frame.
  - destruct Hres as (es1 & es2 & a' & ? & _ & ? & ?). by exists es1, es2, a'.
Qed.

Lemma apply_all_equiv l l' a b : l.*2 = l'.*2 -> a ≡ b ->
  match Abs.apply_all l a, Abs.apply_all l' b with
  | Ok a', Ok b' => a' ≡ b'
  | Err e, Err e' => e = e'
  | _, _ => False
  end.
Proof.
  revert l' a b. induction l as [|[now c] l IH]; intros [|[now' c'] l'] a b Hl Hab; csimpl in Hl; [done..|].
  injection Hl as -> Hl. simpl. pose proof (abs_apply_equiv now now' c' a b Hab) as Hs.
  destruct (Abs.apply now c' a), (Abs.apply now' c' b); simpl; try done. by apply IH.
Qed.
End apply_spec.

(** ** Contiguous runs of entries *)
Definition contiguous (a : N) (es : list Entry) : Prop :=
  (fun e => log_index (log_id e)) <$> es = range_from a (length es).

Lemma foldl_add_ne es lg i : i ∉ ((fun e => log_index (log_id e)) <$> es) ->
  foldl add_entry lg es !! i = lg !! i.
Proof.
  revert lg. induction es as [|e es IH]; intros lg Hi; [done|]. csimpl in Hi.
  apply not_elem_of_cons in Hi as [Hne Hi]. simpl. rewrite IH by done. unfold add_entry.
  by rewrite lookup_insert_ne.
Qed.

Lemma elem_of_range_from a n i : i ∈ range_from a n <-> (a <= i < a + N.of_nat n)%N.
Proof.
  pose proof (elem_of_range a (a + N.of_nat n) i) as Hr.
  unfold range in Hr. replace (N.to_nat (a + N.of_nat n - a)) with n in Hr by lia. done.
Qed.

Lemma contiguous_read a es lg : contiguous a es ->
  omap (fun i => foldl add_entry lg es !! i) (range_from a (length es)) = es.
Proof.
  revert a lg. induction es as [|e es IH]; intros a lg Hc; [done|].
  unfold contiguous in Hc. csimpl in Hc. cbn [range_from] in Hc. injection Hc as Ha Hc.
  csimpl. cbn [range_from]. csimpl.
  rewrite foldl_add_ne by (rewrite Hc, elem_of_range_from; lia).
  unfold add_entry at 1. rewrite Ha, lookup_insert_eq. f_equal. by apply IH.
Qed.

(** ** Errors of the log store *)
Section errors.
Context {DB : Type} `{RocksDB DB} `{Codec LogId} `{Codec Entry} `{Codec Vote} `{Codec StoredMembership}.

(** [e] is an error some call of RocksDB or of a codec reports, or a missing
    column family. *)
Definition reported (e : StorageError) : Prop :=
  match e with
  | ReadErr m =>
      (exists (d : DB) cf k, db_get d cf k = Err m) \/
      (exists v, dec (A := LogId) v = Err m \/ dec (A := Entry) v = Err m \/ dec (A := Vote) v = Err m
         \/ dec (A := StoredMembership) v = Err m) \/
      (exists d : DB, m = "raft_log CF not found" /\ db_has_cf d "raft_log" = false) \/
      (exists d : DB, m = "raft_state CF not found" /\ db_has_cf d "raft_state" = false)
  | WriteErr m =>
      (exists (d : DB) cf k v, db_put d cf k v = Err m) \/ (exists (d : DB) cf k, db_delete d cf k = Err m) \/
      (exists x : LogId, enc x = Err m) \/ (exists x : Entry, enc x = Err m) \/
      (exists x : Vote, enc x = Err m) \/ (exists x : StoredMembership, enc x = Err m)
  | ApplyErr _ => False
  end.

Lemma errs_log_cf : errs reported (log_cf : M DB StorageError unit).
Proof.
  apply errs_reads. intros d e. destruct (db_has_cf d "raft_log") eqn:Hd; intros [= <-].
  simpl. right. right. left. eauto.
Qed.
Lemma errs_state_cf : errs reported (state_cf : M DB StorageError unit).
Proof.
  apply errs_reads. intros d e. destruct (db_has_cf d "raft_state") eqn:Hd; intros [= <-].
  simpl. right. right. right. eauto.
Qed.
Lemma errs_read_json {A} `{Codec A} cf k :
  (forall v m, dec (A := A) v = Err m -> reported (ReadErr m)) ->
  errs reported (read_json cf k : M DB StorageError (option A)).
Proof.
  intros Hdec. apply errs_bind.
  - apply errs_reads. intros d e. destruct (db_get d cf k) as [o|m] eqn:Hg; intros [= <-]. left. eauto.
  - intros [v|]; [|apply errs_ret]. apply errs_bind; [|intros; apply errs_ret].
    apply errs_lift. intros e. unfold from_json. destruct (dec v) eqn:Hd; intros [= <-]. by eapply Hdec.
Qed.
Lemma errs_write_json {A} `{Codec A} cf k (a : A) :
  (forall m, enc a = Err m -> reported (WriteErr m)) ->
  errs reported (write_json cf k a : M DB StorageError unit).
Proof.
  intros Henc. apply errs_bind.
  - apply errs_lift. intros e. unfold to_json. destruct (enc a) eqn:He; intros [= <-]. by apply Henc.
  - intros v. apply errs_writes. intros d e. destruct (db_put d cf k v) eqn:Hp; intros [= <-]. simpl.
    left. eauto.
Qed.
Lemma errs_delete_cf cf k : errs reported (delete_cf cf k : M DB StorageError unit).
Proof.
  apply errs_writes. intros d e. destruct (db_delete d cf k) eqn:Hp; intros [= <-]. simpl. right. left. eauto.
Qed.
Lemma errs_read_log_id k : errs reported (read_log_id k : M DB StorageError (option LogId)).
Proof. apply errs_bind; [apply errs_state_cf|]. intros _. apply errs_read_json. simpl. naive_solver. Qed.
Lemma errs_write_log_id k id : errs reported (write_log_id k id : M DB StorageError unit).
Proof.
  apply errs_bind; [apply errs_state_cf|]. intros _. apply errs_bind; [|intros; apply errs_ret].
  apply errs_write_json. simpl. naive_solver.
Qed.
Lemma errs_get_log_state : errs reported (get_log_state : M DB StorageError LogState).
Proof. do 2 (apply errs_bind; [apply errs_read_log_id|intros ?]). apply errs_ret. Qed.
Lemma errs_delete_range a b : errs reported (delete_range a b : M DB StorageError unit).
Proof. apply errs_bind; [apply errs_log_cf|]. intros _. apply errs_for_each. intros. apply errs_delete_cf. Qed.
End errors.
#[export] Hint Resolve errs_log_cf errs_state_cf errs_delete_cf errs_read_log_id errs_write_log_id
  errs_get_log_state errs_delete_range : frame.

(** ** Properties *)
Section properties.
Context {DB : Type} `{RocksDBLaws DB} `{!Codec LogId} `{!Codec Entry} `{!Codec Vote}
  `{!Codec StoredMembership} `{!Codec Bucket} `{!Codec ObjectMetadata} `{!Codec LockState}
  `{!CodecLaws LogId} `{!CodecLaws Entry} `{!CodecLaws Vote} `{!CodecLaws StoredMembership}
  `{!CodecLaws Bucket} `{!CodecLaws ObjectMetadata} `{!CodecLaws LockState}.

(** C13. Applying committed entries.  When [apply_to_state_machine] returns, the
    database holds the state reached by the commands of all the entries and
    [last_applied_log_id] is the id of the last one; when it fails, the database
    holds the state after a prefix of the entries and [last_applied_log_id] is
    what it was. *)
Theorem apply_to_state_machine_refines es (d : DB) a r d' :
  Forall (fun ne => wf_entry ne.2 = true) es -> R d a ->
  apply_to_state_machine es d = (r, d') ->
  match r with
  | Ok rs =>
      length rs = length es /\
      (exists a', Abs.apply_all (commands es) a = Ok a' /\ R d' a') /\
      match list.last es with
      | Some ne => state_is d' "last_applied_log_id" (Some (log_id ne.2))
      | None => d' = d
      end
  | Err _ =>
      db_view d' "raft_state" !! "last_applied_log_id" = db_view d "raft_state" !! "last_applied_log_id" /\
      exists es1 es2 a', es = es1 ++ es2 /\ Abs.apply_all (commands es1) a = Ok a' /\ R d' a'
  end.
Proof.
  intros Hwf HR [(o & t & Hl & Hr)|(e & Hl & ->)]%bind_inv;
    destruct (apply_loop_R _ _ _ _ _ _ Hwf HR Hl) as [Hla Hres].
  - destruct Hres as [-> (a' & Ha & HR')].
    apply bind_inv in Hr as [([] & t' & Hw & [= <- <-])|(e & Hw & ->)]; destruct (list.last es) as [[now e']|] eqn:He.
    + apply write_log_id_inv in Hw as (Hs & _ & Hf). split_and!; [by rewrite length_fmap| |done].
      exists a'. split; [done|]. eapply R_frame; [|done]. by apply Hf.
    + injection Hw as <-. apply last_None in He as ->. injection Hl as <-. simpl. by eauto.
    + split.
      * etrans; [|exact Hla]. clear -Hw.
        apply bind_inv in Hw as [([] & t0 & ->%state_cf_Ok & Hw)|(? & ->%state_cf_Ok & _)]; [|done].
        apply bind_inv in Hw as [(? & ? & ? & [=])|(? & Hw & _)].
        apply bind_inv in Hw as [(v & ? & [_ ->]%lift_inv & ->%put_cf_err)|(? & [_ ->]%lift_inv & _)]; done.
      * exists es, [], a'. rewrite app_nil_r. split_and!; [done..|].
        eapply R_frame; [|done]. revert Hw. apply keeps_bind; [apply _|apply state_cf_keeps, _|].
        intros _. apply keeps_bind; [apply _|by apply keeps_write_json|solve_frame].
    + done.
  - split; [done|]. destruct Hres as (es1 & es2 & a' & ? & _ & ? & ?). eauto 10.
Qed.

(** C19. Entries appended at consecutive indices are read back verbatim and in
    order, whatever the log held there before, and the last one becomes
    [last_log_id]. *)
Theorem append_get_roundtrip a es (d : DB) lg r d1 out d2 :
  log_is d lg -> contiguous a es -> (a + N.of_nat (length es) <= u64_max)%N ->
  append es d = (Ok r, d1) ->
  get_entries (Included a) (Excluded (a + N.of_nat (length es))) d1 = (Ok out, d2) ->
  out = es /\ r = log_id <$> list.last es /\ (es <> [] -> state_is d1 "last_log_id" r).
Proof.
  intros Hl Hc Hmax Ha Hg.
  assert (Hin : Forall (fun e => (log_index (log_id e) <= u64_max)%N) es).
  { apply list.Forall_forall. intros e He.
    assert (Hi : log_index (log_id e) ∈ ((fun e => log_index (log_id e)) <$> es)) by 
      (by apply (list_elem_of_fmap_2 (fun e => log_index (log_id e)))).
    rewrite Hc, elem_of_range_from in Hi. lia. }
  apply bind_inv in Ha as [([] & t & [-> _]%cf_handle_inv & Ha)|(? & _ & ?)]; [|done].
  apply bind_inv in Ha as [(last & t & Hloop & Ha)|(? & _ & ?)]; [|done].
  destruct (append_loop_inv _ _ _ _ _ _ Hin Hl Hloop) as (Hl1 & Hlast & _).
  assert (Hlast' : last = log_id <$> list.last es) by (rewrite Hlast; by destruct (list.last es)). clear Hlast.
  apply bind_inv in Ha as [([] & t' & Hw & [= <- <-])|(? & _ & ?)]; [|done].
  assert (Hl2 : log_is t' (foldl add_entry lg es)).
  { destruct last as [id|]; [|by injection Hw as <-].
    apply write_log_id_inv in Hw as (_ & _ & Hf). intros i Hi. rewrite Hf by done. by apply Hl1. }
  apply bind_inv in Hg as [([] & t2 & [-> _]%cf_handle_inv & Hg)|(? & _ & ?)]; [|done].
  unfold range_start, range_end in Hg. eapply get_entries_loop_inv in Hg as [_ ->]; [|..|exact Hl2].
  - unfold range. replace (N.to_nat _) with (length es) by lia. split_and!; [by apply contiguous_read|done|].
    intros Hne. destruct last as [id|]; [by apply write_log_id_inv in Hw as [? _]|].
    destruct (last_is_Some es) as [_ [x Hx]]; [done|]. by rewrite Hx in Hlast'.
  - apply list.Forall_forall. intros i Hi%elem_of_range. lia.
Qed.

(** Truncation.  [delete_conflict_logs_since id] removes exactly the entries
    from [id]'s index to the last one, keeps the others, and records the index
    before [id]'s as the last log index (none when [id] is the first). *)
Theorem delete_conflict_truncates id (d : DB) lg last d' :
  log_is d lg -> state_is d "last_log_id" (Some last) -> (log_index last < u64_max)%N ->
  delete_conflict_logs_since id d = (Ok tt, d') ->
  log_is d' (cut (log_index id) (log_index last) lg) /\
  state_is d' "last_log_id"
    (if (0 <? log_index id)%N then Some (mkLogId (leader_id id) (log_index id - 1)) else None).
Proof.
  intros Hl Hlast Hmax Hr.
  apply bind_inv in Hr as [(st & t & Hst & Hr)|(? & _ & ?)]; [|done].
  apply bind_inv in Hst as [(p & t1 & [-> _]%read_log_id_inv & Hst)|(? & _ & ?)]; [|done].
  apply bind_inv in Hst as [(o & t1 & [-> Ho]%read_log_id_inv & [= <- <-])|(? & _ & ?)]; [|done].
  assert (o = Some last) as -> by (eapply stored_fun; [exact Ho|exact Hlast]). cbn [ls_last_log_id] in Hr.
  apply bind_inv in Hr as [([] & t & Hr & [= <-])|(? & _ & ?)]; [|done].
  apply bind_inv in Hr as [([] & t1 & Hd & Hr)|(? & _ & ?)]; [|done].
  apply (delete_range_inv _ _ _ lg) in Hd as [Hl1 Hf1]; [|done..].
  destruct (0 <? log_index id)%N.
  - apply write_log_id_inv in Hr as (Hs & _ & Hf). split; [|done].
    intros i Hi. rewrite Hf by done. by apply Hl1.
  - apply bind_inv in Hr as [([] & t2 & ->%state_cf_Ok & Hr)|(? & _ & ?)]; [|done].
    apply bind_inv in Hr as [([] & t2 & [Hv Hf]%delete_cf_inv & [= <-])|(? & _ & ?)]; [|done].
    split; [intros i Hi; rewrite Hf by done; by apply Hl1|].
    unfold state_is. rewrite Hv, lookup_delete_eq. constructor.
Qed.

(** Purging.  [purge_logs_upto id] removes exactly the entries up to [id]'s
    index that were not purged before, keeps every later entry and records [id]
    as the last purged id. *)
Theorem purge_logs_exact id (d : DB) lg purged d' :
  log_is d lg -> state_is d "last_purged_log_id" purged -> (log_index id < u64_max)%N ->
  (forall p, purged = Some p -> (log_index p < u64_max)%N) ->
  purge_logs_upto id d = (Ok tt, d') ->
  log_is d' (cut (match purged with Some p => log_index p + 1 | None => 0 end) (log_index id) lg) /\
  state_is d' "last_purged_log_id" (Some id) /\
  db_view d' "raft_state" !! "last_log_id" = db_view d "raft_state" !! "last_log_id".
Proof.
  intros Hl Hpu Hmax Hp Hr.
  apply bind_inv in Hr as [(st & t & Hst & Hr)|(? & _ & ?)]; [|done].
  apply bind_inv in Hst as [(p & t1 & [-> Hp']%read_log_id_inv & Hst)|(? & _ & ?)]; [|done].
  apply bind_inv in Hst as [(o & t1 & [-> Ho]%read_log_id_inv & [= <- <-])|(? & _ & ?)]; [|done].
  assert (p = purged) as -> by (eapply stored_fun; [exact Hp'|exact Hpu]). cbn [ls_last_purged_log_id] in Hr.
  apply bind_inv in Hr as [([] & t & Hd & Hr)|(? & _ & ?)]; [|done].
  apply bind_inv in Hr as [([] & t1 & Hw & [= <-])|(? & _ & ?)]; [|done].
  apply (delete_range_inv _ _ _ lg) in Hd as [Hl1 Hf1]; [|done..].
  apply write_log_id_inv in Hw as (Hs & Hk & Hf). split_and!; [|done|].
  - intros i Hi. rewrite Hf by done. specialize (Hl1 i Hi). revert Hl1. destruct purged as [p|]; [|done].
    unfold wrapN. rewrite N.mod_small; [done|]. specialize (Hp p eq_refl). unfold u64_max in *. lia.
  - rewrite Hk by done. by rewrite Hf1.
Qed.

(** A saved vote is read back, and saving it leaves the log, the applied
    state and the metadata alone. *)
Theorem vote_roundtrip v (d d1 d2 : DB) o :
  save_vote v d = (Ok tt, d1) -> read_vote d1 = (Ok o, d2) ->
  o = Some v /\ d2 = d1 /\ (forall cf, cf <> "raft_state" -> db_view d1 cf = db_view d cf) /\
  forall k, k <> "vote" -> db_view d1 "raft_state" !! k = db_view d "raft_state" !! k.
Proof.
  intros Hs Hr.
  apply bind_inv in Hs as [([] & t & ->%state_cf_Ok & Hs)|(? & _ & ?)]; [|done].
  apply bind_inv in Hs as [([] & t & [(x & Hx & Hv) Hf]%write_json_inv & [= <-])|(? & _ & ?)]; [|done].
  apply bind_inv in Hr as [([] & t1 & ->%state_cf_Ok & [-> Ho]%read_json_inv)|(? & _ & ?)]; [|done].
  rewrite Hv, lookup_insert_eq in Ho. apply stored_Some in Ho as (y & -> & Hy).
  split_and!; [congruence|done|done|]. intros k Hk. by rewrite Hv, lookup_insert_ne.
Qed.

(** Every error of a vote or log call is one that RocksDB or the JSON codec
    reported, or says that a column family is missing: on a healthy store the
    calls return. *)
Theorem log_store_errors :
  (forall a b, errs (reported (DB := DB)) (try_get_log_entries a b)) /\
  (forall es, errs (reported (DB := DB)) (append_to_log es)) /\
  (forall id, errs (reported (DB := DB)) (delete_conflict_logs_since id)) /\
  (forall id, errs (reported (DB := DB)) (purge_logs_upto id)) /\
  (forall v, errs (reported (DB := DB)) (save_vote v)) /\
  errs (reported (DB := DB)) read_vote /\ errs (reported (DB := DB)) last_applied_state.
Proof.
  split_and!.
  - intros a b. apply errs_bind; [apply errs_log_cf|]. intros _. generalize (range (range_start a) (range_end b)).
    intros l. induction l as [|i l IH]; [apply errs_ret|]. apply errs_bind; [|solve_frame].
    apply errs_read_json. simpl. naive_solver.
  - intros es. apply errs_bind; [|solve_frame]. apply errs_bind; [apply errs_log_cf|]. intros _.
    apply errs_bind; [|solve_frame]. generalize (@None LogId).
    induction es as [|e es IH]; intros o; [apply errs_ret|]. apply errs_bind; [|done].
    apply errs_write_json. simpl. naive_solver.
  - intros id. apply errs_bind; [apply errs_get_log_state|]. intros st. apply errs_bind; [|solve_frame].
    destruct (ls_last_log_id st); [|apply errs_ret]. apply errs_bind; [apply errs_delete_range|]. intros _.
    case_match; [apply errs_write_log_id|]. unfold delete_key. solve_frame.
  - intros id. unfold purge_logs_upto. solve_frame.
  - intros v. apply errs_bind; [apply errs_state_cf|]. intros _. apply errs_bind; [|solve_frame].
    apply errs_write_json. simpl. naive_solver.
  - apply errs_bind; [apply errs_state_cf|]. intros _. apply errs_read_json. simpl. naive_solver.
  - apply errs_bind; [apply errs_read_log_id|]. intros la. apply errs_bind; [apply errs_state_cf|]. intros _.
    apply errs_bind; [|solve_frame]. apply errs_read_json. simpl. naive_solver.
Qed.

(** Applying is not idempotent: a [CreateBucket] entry that was applied but
    whose [last_applied_log_id] was not yet recorded fails when it is applied
    again, on every store, and [last_applied_log_id] stays behind it. *)
Theorem create_bucket_replay_fails now now' e b rest (d d1 : DB) a r d2 :
  payload e = Normal (CreateBucket b) -> R d a ->
  apply_entry now e d = (Ok tt, d1) ->
  apply_to_state_machine ((now', e) :: rest) d1 = (r, d2) ->
  (exists er, r = Err er) /\
  db_view d2 "raft_state" !! "last_applied_log_id" = db_view d "raft_state" !! "last_applied_log_id".
Proof.
  intros Hp HR Ha Hr. pose proof (apply_entry_last _ _ _ _ _ Ha) as Hla.
  unfold apply_entry in Ha. rewrite Hp in Ha.
  destruct (apply_command_R _ (CreateBucket b) _ _ _ _ eq_refl HR Ha) as [(_ & ? & ? & _)|Ho]; [done|]. simpl in Ho.
  destruct (invalid_operation _) as [[]|] eqn:Hv; simpl in Ho; [|by destruct Ho].
  destruct (Abs.buckets a !! bucket_name b); [by destruct Ho|]. destruct Ho as [_ HR1].
  assert (Hne : forall x t, apply_entry now' e d1 <> (Ok x, t)).
  { intros x t He. unfold apply_entry in He. rewrite Hp in He.
    destruct (apply_command_R _ (CreateBucket b) _ _ _ _ eq_refl HR1 He) as [(_ & ? & ? & _)|Ho]; [done|].
    simpl in Ho. rewrite Hv in Ho. simpl in Ho. rewrite lookup_insert_eq in Ho. by destruct Ho. }
  apply bind_inv in Hr as [(o & t & Hl & Hr)|(er & Hl & ->)];
    apply bind_inv in Hl as [(x & t1 & Hx & _)|(er' & Hx & ?)]; try done; try by destruct (Hne _ _ Hx).
  split; [by eauto|]. pose proof (apply_entry_last _ _ _ _ _ Hx) as Hla2. by etrans; [exact Hla2|].
Qed.
End properties.

(** C16. Replica agreement.  Two replicas, on any two stores, that start from the
    same abstract state and apply entries with the same payloads reach states
    that agree on the objects, the locks and the set of buckets, whatever their
    clocks show (the creation times of buckets may differ). *)
Theorem replicas_agree {DB1 DB2 : Type} `{RocksDBLaws DB1} `{RocksDBLaws DB2}
    `{!Codec LogId} `{!Codec StoredMembership} `{!Codec Bucket} `{!Codec ObjectMetadata}
    `{!Codec LockState} `{!CodecLaws LogId} `{!CodecLaws StoredMembership} `{!CodecLaws Bucket}
    `{!CodecLaws ObjectMetadata} `{!CodecLaws LockState}
    es1 es2 (d1 d1' : DB1) (d2 d2' : DB2) a r1 r2 :
  payload <$> es1.*2 = payload <$> es2.*2 ->
  Forall (fun ne => wf_entry ne.2 = true) es1 -> R d1 a -> R d2 a ->
  apply_to_state_machine es1 d1 = (Ok r1, d1') -> apply_to_state_machine es2 d2 = (Ok r2, d2') ->
  exists a1 a2, R d1' a1 /\ R d2' a2 /\ a1 ≡ a2.
Proof.
  intros Hp Hwf1 HR1 HR2 Hr1 Hr2.
  assert (Hsplit : forall es es' : list (Z * Entry), payload <$> es.*2 = payload <$> es'.*2 ->
    Forall (fun ne => wf_entry ne.2 = true) es ->
    Forall (fun ne => wf_entry ne.2 = true) es' /\ (commands es).*2 = (commands es').*2).
  { clear. induction es as [|[n e] es IH]; intros [|[n' e'] es'] Hp Hwf; csimpl in Hp; try done.
    injection Hp as He Hp. inversion Hwf as [|? ? Hw Hws]; subst. destruct (IH _ Hp Hws) as [IH1 IH2].
    unfold wf_entry in *. simpl in Hw. split.
    - constructor; [simpl; by rewrite <- He|done].
    - unfold commands. csimpl. rewrite He. destruct (payload e'); csimpl; [done| |done].
      f_equal. exact IH2. }
  destruct (Hsplit _ _ Hp Hwf1) as [Hwf2 Hc].
  destruct (apply_to_state_machine_R _ _ _ _ _ Hwf1 HR1 Hr1) as (es1' & l1 & a1 & -> & Hl1 & Ha1 & HRa1).
  destruct (apply_to_state_machine_R _ _ _ _ _ Hwf2 HR2 Hr2) as (es2' & l2 & a2 & -> & Hl2 & Ha2 & HRa2).
  rewrite Hl1, Hl2, !app_nil_r in * by done.
  exists a1, a2. split_and!; [done..|].
  pose proof (apply_all_equiv _ _ a a Hc ltac:(reflexivity)) as Heq. by rewrite Ha1, Ha2 in Heq.
Qed.

(** ** Witnesses *)
Module LogWit.
Import Mem StateMachine.Wit.

Lemma log_empty : log_is Mem.empty ∅.
Proof.
  intros i _. change (db_view Mem.empty "raft_log") with (∅ : gmap string bytes).
  rewrite !lookup_empty. constructor.
Qed.
Lemma state_empty {A} `{Codec A} k : state_is Mem.empty k (@None A).
Proof.
  unfold state_is. change (db_view Mem.empty "raft_state") with (∅ : gmap string bytes).
  rewrite !lookup_empty. constructor.
Qed.

Definition id (t i : N) : LogId := mkLogId (mkCommittedLeaderId t) i.
Definition e0 : Entry := mkEntry (id 1 0) (Normal (CreateBucket bkt)).
Definition e1 : Entry := mkEntry (id 2 1) (Normal (AcquireLock "photos" "k" Read h1)).
Definition e2 : Entry := mkEntry (id 2 2) Blank.
Definition es : list (Z * Entry) := [(100%Z, e0); (100%Z, e1)].
Definition st {A} (c : M Mem.t StorageError A) (d : Mem.t) : Mem.t := (c d).2.
Definition applied : Mem.t := st (apply_to_state_machine es) Mem.empty.
Definition logged : Mem.t := st (append [e0; e1; e2]) Mem.empty.
Definition lg : gmap N Entry := foldl add_entry ∅ [e0; e1; e2].

Lemma apply_to_state_machine_refines_witness :
  length [tt; tt] = length es /\
  (exists a', Abs.apply_all (commands es) Abs.init = Ok a' /\ R applied a') /\
  state_is applied "last_applied_log_id" (Some (id 2 1)).
Proof.
  exact (apply_to_state_machine_refines es Mem.empty Abs.init (Ok [tt; tt]) applied
    ltac:(repeat constructor) R_empty ltac:(vm_compute; reflexivity)).
Defined.

Lemma append_get_roundtrip_witness :
  [e0; e1; e2] = [e0; e1; e2] /\ Some (id 2 2) = log_id <$> list.last [e0; e1; e2] /\
  ([e0; e1; e2] <> [] -> state_is logged "last_log_id" (Some (id 2 2))).
Proof.
  refine (append_get_roundtrip 0 [e0; e1; e2] Mem.empty ∅ (Some (id 2 2)) logged [e0; e1; e2] logged
    log_empty eq_refl _ _ _); [done|vm_compute; reflexivity..].
Defined.

Lemma logged_is : log_is logged lg.
Proof.
  unfold lg. destruct (append [e0; e1; e2] Mem.empty) as [r d] eqn:Ha.
  assert (logged = d) as -> by (unfold logged, st; by rewrite Ha).
  assert (exists o, r = Ok o) as [o ->].
  { assert (Hok : is_ok (append [e0; e1; e2] Mem.empty).1 = true) by (vm_compute; reflexivity).
    rewrite Ha in Hok. destruct r; [eauto|done]. }
  apply bind_inv in Ha as [([] & t & [-> _]%cf_handle_inv & Ha)|(? & _ & ?)]; [|done].
  apply bind_inv in Ha as [(last & t & Hloop & Ha)|(? & _ & ?)]; [|done].
  eapply append_loop_inv in Hloop as (Hl & _); [|repeat constructor; done|apply log_empty].
  apply bind_inv in Ha as [([] & t' & Hw & [= _ <-])|(? & _ & ?)]; [|done].
  destruct last; [|by injection Hw as <-]. apply write_log_id_inv in Hw as (_ & _ & Hf).
  intros i Hi. rewrite Hf by done. by apply Hl.
Qed.
Lemma logged_last : state_is logged "last_log_id" (Some (id 2 2)).
Proof. vm_compute. constructor. vm_compute. reflexivity. Qed.

Lemma delete_conflict_truncates_witness :
  log_is (st (delete_conflict_logs_since (id 2 1)) logged) (cut 1 2 lg) /\
  state_is (st (delete_conflict_logs_since (id 2 1)) logged) "last_log_id" (Some (mkLogId (mkCommittedLeaderId 2) 0)).
Proof.
  refine (delete_conflict_truncates (id 2 1) logged lg (id 2 2) _ logged_is logged_last _ _);
    [done|vm_compute; reflexivity].
Defined.

Lemma purge_logs_exact_witness :
  log_is (st (purge_logs_upto (id 2 1)) logged) (cut 0 1 lg) /\
  state_is (st (purge_logs_upto (id 2 1)) logged) "last_purged_log_id" (Some (id 2 1)) /\
  db_view (st (purge_logs_upto (id 2 1)) logged) "raft_state" !! "last_log_id"
  = db_view logged "raft_state" !! "last_log_id".
Proof.
  refine (purge_logs_exact (id 2 1) logged lg None _ logged_is _ _ _ _);
    [vm_compute; constructor|done|done|vm_compute; reflexivity].
Defined.

Lemma vote_roundtrip_witness :
  let v := mkVote (mkLeaderId 3 (Some 2%N)) true in
  Some v = Some v /\ st (save_vote v) logged = st (save_vote v) logged /\
  (forall cf, cf <> "raft_state" -> db_view (st (save_vote v) logged) cf = db_view logged cf) /\
  forall k, k <> "vote" ->
    db_view (st (save_vote v) logged) "raft_state" !! k = db_view logged "raft_state" !! k.
Proof.
  intros v. refine (vote_roundtrip v logged (st (save_vote v) logged) (st (save_vote v) logged) (Some v) _ _);
    vm_compute; reflexivity.
Defined.

Lemma create_bucket_replay_fails_witness :
  let d1 := st (apply_entry 100 e0) Mem.empty in
  let d2 := st (apply_to_state_machine ((200%Z, e0) :: [])) d1 in
  (exists er, Err (ApplyErr (BucketAlreadyExists "photos")) = Err er :> result StorageError (list unit)) /\
  db_view d2 "raft_state" !! "last_applied_log_id" = db_view Mem.empty "raft_state" !! "last_applied_log_id".
Proof.
  intros d1 d2. refine (create_bucket_replay_fails 100 200 e0 bkt [] Mem.empty d1 Abs.init _ d2 eq_refl R_empty _ _);
    vm_compute; reflexivity.
Defined.

Lemma replicas_agree_witness :
  exists a1 a2, R applied a1 /\
    R (st (apply_to_state_machine [(7%Z, e0); (8%Z, e1)]) Mem.empty) a2 /\ a1 ≡ a2.
Proof.
  refine (replicas_agree es [(7%Z, e0); (8%Z, e1)] Mem.empty applied Mem.empty _ Abs.init [tt; tt] [tt; tt]
    eq_refl ltac:(repeat constructor) R_empty R_empty _ _); vm_compute; reflexivity.
Defined.

(** The id recorded by a truncation carries the leader of the removed
    entry, not of the entry that is now last: after the conflict at index 1 the
    log ends with an entry of term 1 and [last_log_id] says term 2. *)
Theorem delete_conflict_wrong_leader :
  exists d d' : Mem.t,
    delete_conflict_logs_since (id 2 1) d = (Ok tt, d') /\
    (get_entries (Included 0) (Excluded 3) d').1 = Ok [e0] /\
    log_id e0 = id 1 0 /\
    (get_log_state d').1 = Ok (mkLogState None (Some (id 2 0))).
Proof.
  exists logged, (st (delete_conflict_logs_since (id 2 1)) logged). by vm_compute.
Qed.
End LogWit.
