(* ===== verification/Snapshot.v ===== *)
(** * save-metadata: snapshots

    Models [raft/snapshot.rs] and the snapshot calls of [raft/storage.rs].  The
    RocksDB checkpoint, tar, gzip and the temporary directory are the class
    [Checkpoints]; its law is that a checkpoint, archived and unpacked, opens to
    the content it was taken from. *)
From Stdlib Require Import Ascii.
From S2P Require Import Prelude Common Kv Buckets Objects Locks StateMachine RaftTypes RaftLog.
From stdpp Require Import base gmap strings numbers sorting list.

Class Checkpoints (DB Dir : Type) : Type := {
  temp_dir_new : result string unit;                 (* TempDir::new *)
  create_checkpoint : DB -> result string Dir;       (* Checkpoint::new, create_checkpoint *)
  tar_gz : Dir -> result string bytes;               (* tar::Builder over GzEncoder *)
  unpack : bytes -> result string Dir;               (* Archive::unpack over GzDecoder *)
  open_for_read_only : Dir -> result string DB;
}.
Class CheckpointsLaws (DB Dir : Type) `{RocksDB DB} `{!RocksDBLaws DB} `{Checkpoints DB Dir} : Prop := {
  unpack_tar_gz : forall dir b dir', tar_gz dir = Ok b -> unpack b = Ok dir' -> dir' = dir;
  open_checkpoint : forall d dir d', create_checkpoint d = Ok dir -> open_for_read_only dir = Ok d' ->
    db_view d' "default" = db_view d "default";
}.

Definition SNAPSHOT_META_KEY : string := "snapshot_meta".
Definition SNAPSHOT_DATA_KEY : string := "snapshot_data".

Record Snapshot : Type := mkSnapshot { meta_ : SnapshotMeta; snapshot : bytes }.

(** [for item in iter { let kv = item?; if !k.starts_with(p) { break; } body }]. *)
Fixpoint scan_do {DB} (io : string -> StorageError) (p : string)
    (body : string * bytes -> M DB StorageError unit)
    (items : list (result string (string * bytes))) : M DB StorageError unit :=
  match items with
  | [] => mret tt
  | Err e :: _ => throw (io e)
  | Ok kv :: rest =>
      if starts_with p kv.1 then body kv ;; scan_do io p body rest else mret tt
  end.

Section snapshot.
Context {DB Dir : Type} `{RocksDB DB} `{Checkpoints DB Dir}
  `{Codec LogId} `{Codec StoredMembership} `{Codec SnapshotMeta}.

Definition create_checkpoint_archive (d : DB) : result StorageError bytes :=
  _ ← map_err WriteErr (temp_dir_new (DB := DB));
  checkpoint ← map_err WriteErr (create_checkpoint d);
  map_err WriteErr (tar_gz checkpoint).

Definition read_applied_state : M DB StorageError (option LogId * StoredMembership) :=
  cf_handle "raft_state" (ReadErr "raft_state CF not found") ;;
  last_applied ← read_json "raft_state" "last_applied_log_id";
  membership ← read_json "raft_state" "membership";
  mret (last_applied, default StoredMembership_default membership).

(** [meanwhile] is what other tasks do to the database between the read of the
    applied state and the checkpoint; [now] is the clock in milliseconds. *)
Definition build_snapshot (meanwhile : DB -> DB) (now : N) : M DB StorageError Snapshot :=
  applied ← read_applied_state;
  snapshot_data ← (fun d => let d' := meanwhile d in (create_checkpoint_archive d', d'));
  let id := show (match applied.1 with Some i => log_index i | None => 0 end) +:+ "-" +:+ show now in
  let m := mkSnapshotMeta applied.1 applied.2 id in
  cf_handle "raft_snapshot" (ReadErr "raft_snapshot CF not found") ;;
  write_json "raft_snapshot" SNAPSHOT_META_KEY m ;;
  put_cf "raft_snapshot" SNAPSHOT_DATA_KEY snapshot_data ;;
  mret (mkSnapshot m snapshot_data).

Definition get_current_snapshot : M DB StorageError (option Snapshot) :=
  cf_handle "raft_snapshot" (ReadErr "raft_snapshot CF not found") ;;
  meta_bytes ← get_cf "raft_snapshot" SNAPSHOT_META_KEY;
  match meta_bytes with
  | None => mret None
  | Some meta_bytes =>
      data ← get_cf "raft_snapshot" SNAPSHOT_DATA_KEY;
      match data with
      | None => mret None
      | Some data => m ← lift (from_json meta_bytes); mret (Some (mkSnapshot m data))
      end
  end.

(** An iterator reads the database as it was when it was created. *)
Definition restore_default_cf (source_db : DB) : M DB StorageError unit :=
  for_each (fun prefix target =>
      scan_do WriteErr prefix (fun kv => delete_cf "default" kv.1) (db_iter target "default" prefix) target)
    DATA_PREFIXES ;;
  for_each (fun prefix =>
      scan_do ReadErr prefix (fun kv => put_cf "default" kv.1 kv.2) (db_iter source_db "default" prefix))
    DATA_PREFIXES.

Definition update_raft_state_from_snapshot (m : SnapshotMeta) : M DB StorageError unit :=
  cf_handle "raft_state" (WriteErr "raft_state CF not found") ;;
  match last_log_id m with
  | Some id => write_json "raft_state" "last_applied_log_id" id
  | None => mret tt
  end ;;
  write_json "raft_state" "membership" (last_membership m) ;;
  mret tt.

Definition open_checkpoint_readonly (dir : Dir) : result StorageError DB :=
  map_err ReadErr (open_for_read_only dir).

Definition install_snapshot (m : SnapshotMeta) (data : bytes) : M DB StorageError unit :=
  lift (map_err WriteErr (temp_dir_new (DB := DB))) ;;
  dir ← lift (map_err WriteErr (unpack (DB := DB) data));
  extracted_db ← lift (open_checkpoint_readonly dir);
  restore_default_cf extracted_db ;;
  update_raft_state_from_snapshot m ;;
  cf_handle "raft_snapshot" (WriteErr "raft_snapshot CF not found") ;;
  write_json "raft_snapshot" SNAPSHOT_META_KEY m ;;
  put_cf "raft_snapshot" SNAPSHOT_DATA_KEY data ;;
  mret tt.
End snapshot.

(** A key the snapshot transfers. *)
Definition data_key (k : string) : bool := existsb (fun p => starts_with p k) DATA_PREFIXES.

Section spec.
Context {DB Dir : Type} `{RocksDBLaws DB} `{!Checkpoints DB Dir} `{!CheckpointsLaws DB Dir}
  `{!Codec LogId} `{!Codec StoredMembership} `{!Codec SnapshotMeta}
  `{!CodecLaws LogId} `{!CodecLaws StoredMembership} `{!CodecLaws SnapshotMeta}.

Lemma scan_do_Ok io p (body : string * bytes -> M DB StorageError unit) l d d' :
  scan_do io p body (Ok <$> l) d = (Ok tt, d') ->
  for_each body (take_while (fun kv => starts_with p kv.1) l) d = (Ok tt, d').
Proof.
  revert d. induction l as [|kv l IH]; intros d; csimpl; [done|].
  destruct (starts_with p kv.1); [|done]. simpl.
  intros [([] & t & Hb & Hr)|(? & _ & ?)]%bind_inv; [|done].
  unfold mbind, M_bind. rewrite Hb. by apply IH.
Qed.

Lemma scan_do_cut io p (body : string * bytes -> M DB StorageError unit) l e d d' :
  scan_do io p body ((Ok <$> l) ++ [Err e]) d = (Ok tt, d') ->
  (exists kv, kv ∈ l /\ starts_with p kv.1 = false) /\
  for_each body (take_while (fun kv => starts_with p kv.1) l) d = (Ok tt, d').
Proof.
  revert d. induction l as [|kv l IH]; intros d; csimpl; [done|].
  destruct (starts_with p kv.1) eqn:Hk.
  - simpl. intros [([] & t & Hb & Hr)|(? & _ & ?)]%bind_inv; [|done].
    destruct (IH _ Hr) as [(kv' & ? & ?) ?]. split; [exists kv'; set_solver|].
    unfold mbind, M_bind. by rewrite Hb.
  - intros Hr. split; [exists kv; set_solver|done].
Qed.

(** A loop that returns ran its body on exactly the entries with the prefix. *)
Lemma scan_do_spec io p body (src d d' : DB) :
  scan_do io p body (db_iter src "default" p) d = (Ok tt, d') ->
  exists l, is_entries (meta src) p l /\ for_each body l d = (Ok tt, d').
Proof.
  destruct (db_iter_ok src "default" p) as (l & Hrun & [->|(n & e & ->)]); intros Hs;
    exists (take_while (fun kv => starts_with p kv.1) l); (split; [by apply run_take_while|]).
  - by eapply scan_do_Ok.
  - apply scan_do_cut in Hs as [Hc Hs]. by rewrite <- (take_drop n l), take_while_cut.
Qed.

Lemma delete_each l (d d' : DB) :
  for_each (fun kv : string * bytes => delete_cf "default" kv.1) l d = (Ok tt, d') ->
  (forall k, meta d' !! k = if decide (k ∈ l.*1) then None else meta d !! k) /\
  forall cf, cf <> "default" -> db_view d' cf = db_view d cf.
Proof.
  revert d. induction l as [|[k0 v0] l IH]; intros d.
  { intros [= <-]. split; [|done]. intros k. by rewrite decide_False by set_solver. }
  intros [([] & t & [Hd Hf]%delete_cf_inv & Hr)|(? & _ & ?)]%bind_inv; [|done].
  destruct (IH _ Hr) as [Hk Hf']. split; [|intros cf ?; by rewrite Hf', Hf].
  intros k. rewrite Hk. unfold meta at 1. rewrite Hd. csimpl.
  destruct (decide (k ∈ l.*1)); [by rewrite decide_True by set_solver|].
  destruct (decide (k = k0)) as [->|]; [rewrite lookup_delete_eq, decide_True by set_solver; done|].
  rewrite lookup_delete_ne, decide_False by set_solver. done.
Qed.

Lemma put_each l (d d' : DB) : NoDup l.*1 ->
  for_each (fun kv : string * bytes => put_cf "default" kv.1 kv.2) l d = (Ok tt, d') ->
  (forall k v, (k, v) ∈ l -> meta d' !! k = Some v) /\
  (forall k, k ∉ l.*1 -> meta d' !! k = meta d !! k) /\
  forall cf, cf <> "default" -> db_view d' cf = db_view d cf.
Proof.
  revert d. induction l as [|[k0 v0] l IH]; intros d Hnd.
  { intros [= <-]. split_and!; [set_solver|done|done]. }
  csimpl in Hnd. apply NoDup_cons in Hnd as [Hk0 Hnd].
  intros [([] & t & [Hd Hf]%put_cf_inv & Hr)|(? & _ & ?)]%bind_inv; [|done].
  destruct (IH _ Hnd Hr) as (Hin & Hout & Hf'). csimpl. split_and!.
  - intros k v [[= -> ->]|Hkv]%elem_of_cons; [|by apply Hin].
    rewrite Hout by done. unfold meta. by rewrite Hd, lookup_insert_eq.
  - intros k [Hne Hk]%not_elem_of_cons. rewrite Hout by done. unfold meta. by rewrite Hd, lookup_insert_ne.
  - intros cf ?. by rewrite Hf', Hf.
Qed.

Lemma entries_keys m p l k : is_entries m p l -> k ∈ l.*1 <-> is_Some (m !! k) /\ starts_with p k = true.
Proof.
  intros [_ Hl]. rewrite list_elem_of_fmap. split.
  - intros ([k' v] & -> & [? ?]%Hl). simpl. eauto.
  - intros [[v Hv] Hp]. exists (k, v). split; [done|]. by apply Hl.
Qed.

Lemma entries_NoDup m p l : is_entries m p l -> NoDup l.*1.
Proof.
  intros [Hs _]. induction (l.*1) as [|k ks IH]; [constructor|].
  apply StronglySorted_inv in Hs as [Hs Hk]. constructor; [|by apply IH].
  intros Hin. rewrite list.Forall_forall in Hk. by apply (irreflexivity str_lt k), Hk.
Qed.

Lemma clear_prefix p (d d' : DB) :
  scan_do WriteErr p (fun kv => delete_cf "default" kv.1) (db_iter d "default" p) d = (Ok tt, d') ->
  (forall k, meta d' !! k = if starts_with p k then None else meta d !! k) /\
  forall cf, cf <> "default" -> db_view d' cf = db_view d cf.
Proof.
  intros (l & Hl & Hr)%scan_do_spec. apply delete_each in Hr as [Hk Hf]. split; [|done].
  intros k. rewrite Hk. pose proof (entries_keys _ _ _ k Hl) as He.
  destruct (starts_with p k) eqn:Hp; case_decide as Hd; try done.
  - destruct (meta d !! k) eqn:Hv; [|done]. destruct Hd. apply He. split; [eauto|done].
  - by apply He in Hd as [_ ?].
Qed.

Lemma copy_prefix p (src d d' : DB) :
  scan_do ReadErr p (fun kv => put_cf "default" kv.1 kv.2) (db_iter src "default" p) d = (Ok tt, d') ->
  (forall k, meta d' !! k = match meta src !! k with
                            | Some v => if starts_with p k then Some v else meta d !! k
                            | None => meta d !! k
                            end) /\
  forall cf, cf <> "default" -> db_view d' cf = db_view d cf.
Proof.
  intros (l & Hl & Hr)%scan_do_spec. pose proof (entries_NoDup _ _ _ Hl) as Hnd.
  apply put_each in Hr as (Hin & Hout & Hf); [|done]. split; [|done].
  intros k. pose proof (entries_keys _ _ _ k Hl) as He. destruct Hl as [_ Hl].
  destruct (meta src !! k) as [v|] eqn:Hv; [destruct (starts_with p k) eqn:Hp|].
  - apply Hin, Hl. done.
  - apply Hout. rewrite He. naive_solver.
  - apply Hout. rewrite He. intros [[? ?] _]. congruence.
Qed.

(** The restore replaces exactly the keys with a data prefix. *)
Lemma restore_spec (src d d' : DB) :
  restore_default_cf src d = (Ok tt, d') ->
  (forall k, meta d' !! k = if data_key k then meta src !! k else meta d !! k) /\
  forall cf, cf <> "default" -> db_view d' cf = db_view d cf.
Proof.
  intros [([] & t & Hdel & Hcp)|(? & _ & ?)]%bind_inv; [|done].
  unfold DATA_PREFIXES in *. cbn [for_each] in Hdel, Hcp.
  apply bind_inv in Hdel as [([] & t1 & [Hk1 Hf1]%clear_prefix & Hdel)|(? & _ & ?)]; [|done].
  apply bind_inv in Hdel as [([] & t2 & [Hk2 Hf2]%clear_prefix & Hdel)|(? & _ & ?)]; [|done].
  apply bind_inv in Hdel as [([] & t3 & [Hk3 Hf3]%clear_prefix & [= <-])|(? & _ & ?)]; [|done].
  apply bind_inv in Hcp as [([] & t4 & [Hk4 Hf4]%copy_prefix & Hcp)|(? & _ & ?)]; [|done].
  apply bind_inv in Hcp as [([] & t5 & [Hk5 Hf5]%copy_prefix & Hcp)|(? & _ & ?)]; [|done].
  apply bind_inv in Hcp as [([] & t6 & [Hk6 Hf6]%copy_prefix & [= <-])|(? & _ & ?)]; [|done].
  split; [|intros cf ?; by rewrite Hf6, Hf5, Hf4, Hf3, Hf2, Hf1].
  intros k. rewrite Hk6, Hk5, Hk4, Hk3, Hk2, Hk1. unfold data_key, DATA_PREFIXES. cbn [existsb].
  destruct (meta src !! k), (starts_with BUCKET_PREFIX k), (starts_with OBJECT_PREFIX k),
    (starts_with MULTIPART_PREFIX k); done.
Qed.
End spec.

Lemma write_json_keep {DB} `{RocksDBLaws DB} {A} `{!Codec A} `{!CodecLaws A} cf k (a : A) (d d' : DB) :
  write_json cf k a d = (Ok tt, d') ->
  stored (db_view d' cf !! k) (Some a) /\
  (forall k', k' <> k -> db_view d' cf !! k' = db_view d cf !! k') /\
  (forall cf', cf' <> cf -> db_view d' cf' = db_view d cf').
Proof.
  intros [(v & Hd & Hv) Hf]%write_json_inv. rewrite Hv. split_and!; [|..|done].
  - rewrite lookup_insert_eq. by constructor.
  - intros k' ?. by rewrite lookup_insert_ne.
Qed.

(** ** Properties *)
Section properties.
Context {DB Dir : Type} `{RocksDBLaws DB} `{!Checkpoints DB Dir} `{!CheckpointsLaws DB Dir}
  `{!Codec LogId} `{!Codec StoredMembership} `{!Codec SnapshotMeta}
  `{!Codec Bucket} `{!Codec ObjectMetadata} `{!Codec LockState}
  `{!CodecLaws LogId} `{!CodecLaws StoredMembership} `{!CodecLaws SnapshotMeta}.

Lemma update_state_inv m (d d' : DB) :
  update_raft_state_from_snapshot m d = (Ok tt, d') ->
  (forall id, last_log_id m = Some id -> state_is d' "last_applied_log_id" (Some id)) /\
  state_is d' "membership" (Some (last_membership m)) /\
  forall cf, cf <> "raft_state" -> db_view d' cf = db_view d cf.
Proof.
  intros [([] & t & [-> _]%cf_handle_inv & Hr)|(? & _ & ?)]%bind_inv; [|done].
  apply bind_inv in Hr as [([] & t & Hw & Hr)|(? & _ & ?)]; [|done].
  apply bind_inv in Hr as [([] & t1 & (Hm & Hk & Hf)%write_json_keep & [= <-])|(? & _ & ?)]; [|done].
  destruct (last_log_id m) as [id|].
  - apply write_json_keep in Hw as (Ha & _ & Hf0). split_and!; [|done|intros cf ?; by rewrite Hf, Hf0].
    intros id' [= <-]. unfold state_is. by rewrite Hk.
  - injection Hw as <-. split_and!; done.
Qed.

(** What an installed snapshot leaves: the data keys of the archived store, the
    receiver's other keys, the snapshot's log id and membership. *)
Lemma install_spec m data (d d' : DB) :
  install_snapshot m data d = (Ok tt, d') ->
  exists dir src, unpack (DB := DB) data = Ok dir /\ open_for_read_only dir = Ok src /\
    (forall k, meta d' !! k = if data_key k then meta src !! k else meta d !! k) /\
    (forall id, last_log_id m = Some id -> state_is d' "last_applied_log_id" (Some id)) /\
    state_is d' "membership" (Some (last_membership m)) /\
    stored (db_view d' "raft_snapshot" !! SNAPSHOT_META_KEY) (Some m) /\
    db_view d' "raft_snapshot" !! SNAPSHOT_DATA_KEY = Some data /\
    db_view d' "raft_log" = db_view d "raft_log".
Proof.
  intros [(u & t & [_ ->]%lift_inv & Hr)|(? & _ & ?)]%bind_inv; [|done].
  apply bind_inv in Hr as [(dir & t & [Hdir ->]%lift_inv & Hr)|(? & _ & ?)]; [|done].
  apply bind_inv in Hr as [(src & t & [Hsrc ->]%lift_inv & Hr)|(? & _ & ?)]; [|done].
  apply bind_inv in Hr as [([] & t & [Hk Hf]%restore_spec & Hr)|(? & _ & ?)]; [|done].
  apply bind_inv in Hr as [([] & t1 & (Hla & Hme & Hf1)%update_state_inv & Hr)|(? & _ & ?)]; [|done].
  apply bind_inv in Hr as [([] & t2 & [-> _]%cf_handle_inv & Hr)|(? & _ & ?)]; [|done].
  apply bind_inv in Hr as [([] & t3 & (Hm & _ & Hf2)%write_json_keep & Hr)|(? & _ & ?)]; [|done].
  apply bind_inv in Hr as [([] & t4 & [Hd Hf3]%put_cf_inv & [= <-])|(? & _ & ?)]; [|done].
  exists dir, src. unfold open_checkpoint_readonly in Hsrc.
  destruct (unpack data) eqn:Hun; simplify_eq/=. destruct (open_for_read_only dir); simplify_eq/=.
  assert (Hv : forall cf, cf <> "raft_snapshot" -> db_view t4 cf = db_view t1 cf)
    by (intros cf ?; by rewrite Hf3, Hf2).
  unfold state_is, meta in *. split_and!; try done.
  - intros k. by rewrite Hv, Hf1.
  - intros id. rewrite Hv by done. apply Hla.
  - by rewrite Hv.
  - by rewrite Hd, lookup_insert_ne.
  - by rewrite Hd, lookup_insert_eq.
  - by rewrite Hv, Hf1, Hf.
Qed.

(** What a built snapshot holds: the applied id and the membership from its
    beginning, the archive of the database as [meanwhile] left it. *)
Lemma build_spec meanwhile now (d d' : DB) s :
  build_snapshot meanwhile now d = (Ok s, d') ->
  exists dir ms, create_checkpoint (meanwhile d) = Ok dir /\ tar_gz (DB := DB) dir = Ok (snapshot s) /\
    state_is d "last_applied_log_id" (last_log_id (meta_ s)) /\
    state_is d "membership" ms /\
    last_membership (meta_ s) = default StoredMembership_default ms /\
    stored (db_view d' "raft_snapshot" !! SNAPSHOT_META_KEY) (Some (meta_ s)) /\
    db_view d' "raft_snapshot" !! SNAPSHOT_DATA_KEY = Some (snapshot s) /\
    forall cf, cf <> "raft_snapshot" -> db_view d' cf = db_view (meanwhile d) cf.
Proof.
  intros [([la mb] & t & Ha & Hr)|(? & _ & ?)]%bind_inv; [|done].
  apply bind_inv in Ha as [([] & t1 & [-> _]%cf_handle_inv & Ha)|(? & _ & ?)]; [|done].
  apply bind_inv in Ha as [(o & t1 & [-> Ho]%read_json_inv & Ha)|(? & _ & ?)]; [|done].
  apply bind_inv in Ha as [(ms & t1 & [-> Hms]%read_json_inv & [= <- <- <-])|(? & _ & ?)]; [|done].
  apply bind_inv in Hr as [(data & t & [= Hd <-] & Hr)|(? & _ & ?)]; [|done].
  apply bind_inv in Hr as [([] & t1 & [-> _]%cf_handle_inv & Hr)|(? & _ & ?)]; [|done].
  apply bind_inv in Hr as [([] & t1 & (Hm & _ & Hf)%write_json_keep & Hr)|(? & _ & ?)]; [|done].
  apply bind_inv in Hr as [([] & t2 & [Hp Hf2]%put_cf_inv & [= <- <-])|(? & _ & ?)]; [|done].
  unfold create_checkpoint_archive in Hd. apply result_bind_inv in Hd as (_ & _ & Hd).
  apply result_bind_inv in Hd as (dir & Hdir & Htar).
  destruct (create_checkpoint (meanwhile d)) as [dir'|] eqn:Hcc; simplify_eq/=.
  destruct (tar_gz dir) as [tz|] eqn:Htz; simplify_eq/=.
  exists dir, ms. split_and!; try done.
  - by rewrite Hp, lookup_insert_ne.
  - by rewrite Hp, lookup_insert_eq.
  - intros cf ?. by rewrite Hf2, Hf.
Qed.

(** The receiver has the sender's buckets and objects and keeps its own locks. *)
Lemma transfer_R meanwhile now (dl dl' df df' : DB) al af s : R (meanwhile dl) al -> R df af ->
  build_snapshot meanwhile now dl = (Ok s, dl') -> install_snapshot (meta_ s) (snapshot s) df = (Ok tt, df') ->
  R dl' al /\ R df' (Abs.mk (Abs.buckets al) (Abs.objects al) (Abs.locks af)).
Proof.
  intros HRl HRf (dir & ms & Hcc & Htz & _ & _ & _ & _ & _ & Hcf)%build_spec (dir' & src & Hun & Hop & Hk & _)%install_spec.
  pose proof (unpack_tar_gz _ _ _ Htz Hun) as ->.
  assert (Hsrc : meta src = meta (meanwhile dl)) by (by eapply open_checkpoint).
  split; [eapply R_frame; [|exact HRl]; by apply Hcf|].
  split; intros; rewrite Hk; simpl.
  - rewrite Hsrc. apply (R_bucket _ _ HRl).
  - rewrite Hsrc. by apply (R_object _ _ HRl).
  - by apply (R_lock _ _ HRf).
Qed.

(** C20. Snapshot transfer, with anything happening to the sender's database
    between the two reads of the snapshot.  After a snapshot built on one replica
    is installed on another, the receiver holds the buckets and objects that the
    sender had when the checkpoint was taken, and the last applied log id that the
    sender had before, when the snapshot was begun; its lock table is still its
    own, neither cleared nor replaced, and its log is untouched. *)
Theorem snapshot_transfer meanwhile now (dl dl' df df' : DB) al af s (id : LogId) :
  R (meanwhile dl) al -> R df af -> state_is dl "last_applied_log_id" (Some id) ->
  build_snapshot meanwhile now dl = (Ok s, dl') ->
  install_snapshot (meta_ s) (snapshot s) df = (Ok tt, df') ->
  R df' (Abs.mk (Abs.buckets al) (Abs.objects al) (Abs.locks af)) /\
  state_is df' "last_applied_log_id" (Some id) /\
  db_view df' "raft_log" = db_view df "raft_log".
Proof.
  intros HRl HRf Hid Hb Hi. split; [by eapply transfer_R|].
  apply build_spec in Hb as (dir & ms & _ & _ & Hla & _). apply install_spec in Hi as (dir' & src & _ & _ & _ & Happ & _ & _ & _ & Hlog).
  split; [|done]. apply Happ. eapply stored_fun; [exact Hla|exact Hid].
Qed.

(** The snapshot that was built last is the one [get_current_snapshot]
    returns, and building it changes no other column family. *)
Theorem build_get_snapshot meanwhile now (d d1 d2 : DB) s o :
  build_snapshot meanwhile now d = (Ok s, d1) -> get_current_snapshot d1 = (Ok o, d2) ->
  o = Some s /\ forall cf, cf <> "raft_snapshot" -> db_view d1 cf = db_view (meanwhile d) cf.
Proof.
  intros (dir & ms & _ & _ & _ & _ & _ & Hm & Hd & Hf)%build_spec Hg. split; [|done].
  apply bind_inv in Hg as [([] & t & [-> _]%cf_handle_inv & Hg)|(? & _ & ?)]; [|done].
  apply bind_inv in Hg as [(mb & t & [-> ->]%get_cf_inv & Hg)|(? & _ & ?)]; [|done].
  destruct (db_view d1 "raft_snapshot" !! SNAPSHOT_META_KEY) as [mb|]; [|by inversion Hm].
  apply stored_Some in Hm as (x & [= <-] & Hx).
  apply bind_inv in Hg as [(db & t & [-> ->]%get_cf_inv & Hg)|(? & _ & ?)]; [|done].
  rewrite Hd in Hg.
  apply bind_inv in Hg as [(m & t & [Hj ->]%lift_inv & [= <- <-])|(? & _ & ?)]; [|done].
  unfold from_json in Hj. rewrite Hx in Hj. simplify_eq/=. by destruct s.
Qed.
End properties.

(** ** The in-memory checkpoint *)
Module MemCheckpoint.
Import Mem.
Definition Dir : Type := gmap string bytes.
#[export] Instance checkpoints : Checkpoints Mem.t Dir := {
  temp_dir_new := Ok tt;
  create_checkpoint d := Ok (Mem.view d "default");
  tar_gz dir := Ok (Mem.pos_bytes (countable.encode dir));
  unpack b := ok_or "invalid gzip header" (Mem.bytes_pos b ≫= countable.decode);
  open_for_read_only dir := Ok (Mem.mk {[ "default" := dir ]} true);
}.
#[export] Instance laws : CheckpointsLaws Mem.t Dir.
Proof.
  split; simpl.
  - intros dir b dir' [= <-]. rewrite Mem.bytes_pos_bytes. simpl. rewrite decode_encode. by intros [= ->].
  - intros d dir d' [= <-] [= <-]. reflexivity.
Qed.
End MemCheckpoint.

(** ** Witnesses *)
Module SnapWit.
Import Mem MemCheckpoint StateMachine.Wit RaftLog.LogWit.

(** The leader applied a bucket and a lock, the follower another lock. *)
Definition leader : Mem.t := applied.
Definition follower : Mem.t := run (AcquireLock "photos" "z" Write h2) Mem.empty.
Definition a_leader : Abs.t :=
  Abs.mk {[ "photos" := mkBucket "photos" 100 ]} ∅ {[ ("photos", "k") := mkLockState Read [h1] ]}.
Definition a_follower : Abs.t := Abs.mk ∅ ∅ {[ ("photos", "z") := mkLockState Write [h2] ]}.
(** While the snapshot is built, the leader applies a put. *)
Definition meanwhile : Mem.t -> Mem.t := run (PutObjectMetadata obj).
Definition a_meanwhile : Abs.t := Abs.set_objects <[("photos", "a/cat.png") := obj]> a_leader.
Definition built : result StorageError Snapshot * Mem.t := build_snapshot meanwhile 5 leader.
Definition snap : Snapshot :=
  match built.1 with Ok s => s | Err _ => mkSnapshot (mkSnapshotMeta None StoredMembership_default "") [] end.
Definition installed : Mem.t := st (install_snapshot (meta_ snap) (snapshot snap)) follower.

Lemma R_follower : R follower a_follower.
Proof. apply (step_R _ _ Abs.init); [done|apply R_empty|by vm_compute..]. Qed.
Lemma R_leader : R leader a_leader.
Proof.
  assert (Hwf : Forall (fun ne => wf_entry ne.2 = true) es) by repeat constructor.
  destruct (apply_loop es None Mem.empty) as [r d] eqn:Hl.
  destruct (apply_loop_R _ _ _ _ _ _ Hwf R_empty Hl) as [_ Hres].
  assert (Hr : r = Ok (Some (RaftLog.LogWit.id 2 1))).
  { assert (Hr : (apply_loop es None Mem.empty).1 = Ok (Some (RaftLog.LogWit.id 2 1))) by (vm_compute; reflexivity).
    by rewrite Hl in Hr. }
  rewrite Hr in Hres. destruct Hres as (_ & a' & Ha & HR).
  assert (Ha' : Abs.apply_all (commands es) Abs.init = Ok a_leader) by (vm_compute; reflexivity).
  rewrite Ha' in Ha. injection Ha as <-. eapply R_frame; [|exact HR].
  unfold same_cf. replace d with (apply_loop es None Mem.empty).2 by (by rewrite Hl). vm_compute. reflexivity.
Qed.

Lemma R_meanwhile : R (meanwhile leader) a_meanwhile.
Proof. apply (step_R _ _ a_leader); [done|apply R_leader|by vm_compute..]. Qed.

Lemma built_ok : build_snapshot (Dir := Dir) meanwhile 5 leader = (Ok snap, built.2).
Proof.
  assert (Hb : is_ok built.1 = true) by (vm_compute; reflexivity). unfold snap. fold built. destruct built as [[s|] d]; [done|].
  discriminate Hb.
Qed.
Lemma installed_ok : install_snapshot (Dir := Dir) (meta_ snap) (snapshot snap) follower = (Ok tt, installed).
Proof.
  assert (Hb : is_ok (install_snapshot (Dir := Dir) (meta_ snap) (snapshot snap) follower).1 = true) by (vm_compute; reflexivity).
  unfold installed, st. destruct (install_snapshot _ _ follower) as [[[]|] d]; [done|]. discriminate Hb.
Qed.
Lemma snapshot_transfer_witness :
  R installed (Abs.mk (Abs.buckets a_meanwhile) (Abs.objects a_meanwhile) (Abs.locks a_follower)) /\
  state_is installed "last_applied_log_id" (Some (RaftLog.LogWit.id 2 1)) /\
  db_view installed "raft_log" = db_view follower "raft_log".
Proof.
  refine (snapshot_transfer (Dir := Dir) meanwhile 5 leader built.2 follower installed a_meanwhile a_follower snap
    (RaftLog.LogWit.id 2 1) R_meanwhile R_follower _ built_ok installed_ok).
  vm_compute. constructor. vm_compute. reflexivity.
Defined.

Lemma build_get_snapshot_witness : forall cf, cf <> "raft_snapshot" -> db_view built.2 cf = db_view (meanwhile leader) cf.
Proof.
  assert (Hg : is_ok (get_current_snapshot built.2).1 = true) by (vm_compute; reflexivity).
  destruct (get_current_snapshot built.2) as [[o|] d] eqn:Ho; [|discriminate Hg].
  exact (proj2 (build_get_snapshot (Dir := Dir) meanwhile 5 leader built.2 d snap o built_ok Ho)).
Defined.

(** The applied log id and the checkpoint of a snapshot are read apart: a
    command applied in between is in the archive but after the recorded log id,
    and a replica that installs the snapshot fails on that command when it
    replays the log. *)
Theorem snapshot_reads_race :
  exists (d : Mem.t) s d1 df df1,
    build_snapshot (st (apply_to_state_machine [(100%Z, e0)])) 5 d = (Ok s, d1) /\
    last_log_id (meta_ s) = None /\
    install_snapshot (meta_ s) (snapshot s) df = (Ok tt, df1) /\
    (apply_to_state_machine [(100%Z, e0)] df1).1 = Err (ApplyErr (BucketAlreadyExists "photos")).
Proof.
  exists Mem.empty.
  eexists (match (build_snapshot (st (apply_to_state_machine [(100%Z, e0)])) 5 Mem.empty).1 with
           | Ok s => s | Err _ => snap end), _, Mem.empty, _.
  split_and!; [vm_compute; reflexivity|vm_compute; reflexivity|vm_compute; reflexivity|vm_compute; reflexivity].
Qed.
End SnapWit.
