(* ===== verification/ReplicaSet.v ===== *)
(** * save-metadata: a cluster of replicas

    Composes the Raft storage ([RaftLog], [Snapshot]), the state machine and the
    lock manager ([Locks]) of several nodes.  Raft itself is openraft's: what is
    relied on is that committed entries form one log that every node applies in
    order, in batches.  A command that was proposed may be committed at any later
    time, more than once or never.  [act] runs one action of one node; an action
    whose guard fails is no step.  A node may crash in the middle of a batch and
    start again, and the sender of a snapshot applies entries while it is built; a
    snapshot is installed as a whole.  A request for a lock goes through the stages
    of [acquire_lock_internal], with the other nodes' actions in between. *)
From Stdlib Require Import Ascii ZArith.
From S2P Require Import Prelude Common Kv Buckets Objects Locks StateMachine RaftTypes RaftLog Snapshot.
From stdpp Require Import base gmap strings numbers sorting list.

(** ** Nodes *)

(** A request waits, has proposed its command and waits for the answer, has its
    guard, has dropped it, or has run into the timeout. *)
Inductive Stage : Type := Waiting | Proposed | Granted | Dropped | Expired.
#[export] Instance Stage_eq_dec : EqDecision Stage.
Proof. solve_decision. Defined.
Record LockRequest : Type := mkLockRequest {
  rq_bucket : string; rq_key : string; rq_type : LockType; rq_stage : Stage }.
Definition set_stage (st : Stage) (rq : LockRequest) : LockRequest :=
  mkLockRequest (rq_bucket rq) (rq_key rq) (rq_type rq) st.

(** A node: its database, the number of entries it has recorded as applied, the
    number of entries that have ever reached its data (more, when a batch or a
    snapshot was cut), whether its Raft core runs, its lock manager and the
    requests it was given, by lock id. *)
Record Replica (DB : Type) : Type := mkReplica {
  r_db : DB; r_applied : nat; r_seen : nat; r_running : bool; r_manager : Manager.t; r_requests : gmap N LockRequest }.
Arguments mkReplica {DB}. Arguments r_db {DB}. Arguments r_applied {DB}. Arguments r_seen {DB}. Arguments r_running {DB}.
Arguments r_manager {DB}. Arguments r_requests {DB}.
Definition set_requests {DB} (f : gmap N LockRequest -> gmap N LockRequest) (r : Replica DB) : Replica DB :=
  mkReplica (r_db r) (r_applied r) (r_seen r) (r_running r) (r_manager r) (f (r_requests r)).

Section node.
Context {DB : Type} `{RocksDB DB} `{Codec LockState} `{Codec Bucket} `{Codec ObjectMetadata} `{Codec LogId}
  `{Codec StoredMembership}.
Abbreviation Rep := (Replica DB).

(** The command a stage leads to is proposed to Raft. *)
Abbreviation Staged := (option (Rep * list Command)).
Definition holder (r : Rep) (id : N) : LockHolder := mkLockHolder (Manager.mgr_node_id (r_manager r)) id.
Definition stage (id : N) (st : Stage) (r : Rep) : Rep := set_requests (alter (set_stage st) id) r.

(** [acquire_lock_internal] takes the next holder.  The counter is 64 bits wide;
    one that wraps is left out. *)
Definition request (b k : string) (ty : LockType) (r : Rep) : option Rep :=
  let '(h, m) := Manager.next_holder (r_manager r) in
  if r_running r && negb (contains_char "/"%char b) && (lock_id h + 1 <? 2 ^ 64)%N then
    Some (mkReplica (r_db r) (r_applied r) (r_seen r) (r_running r) m (<[lock_id h := mkLockRequest b k ty Waiting]> (r_requests r)))
  else None.

(** [try_acquire_lock] up to the await. *)
Definition try_acquire (id : N) (r : Rep) : Staged :=
  rq ← r_requests r !! id;
  match rq_stage rq with
  | Waiting =>
      match (Manager.can_acquire_locally (fun _ => "") (rq_bucket rq) (rq_key rq) (rq_type rq) (holder r id) (r_db r, 0)).1 with
      | Ok true => Some (stage id Proposed r, [AcquireLock (rq_bucket rq) (rq_key rq) (rq_type rq) (holder r id)])
      | _ => None
      end
  | _ => None
  end.

(** The rest of [try_acquire_lock]: the guard, or another turn of the loop. *)
Definition verify (id : N) (r : Rep) : option Rep :=
  rq ← r_requests r !! id;
  match rq_stage rq with
  | Proposed =>
      match (get_lock_state (rq_bucket rq) (rq_key rq) (r_db r)).1 with
      | Ok state =>
          let held := match state with Some s => is_held_by s (holder r id) | None => false end in
          Some (stage id (if held then Granted else Waiting) r)
      | Err _ => None
      end
  | _ => None
  end.

(** [tokio::time::timeout], or an error of [try_acquire_lock]. *)
Definition expire (id : N) (r : Rep) : option Rep :=
  rq ← r_requests r !! id;
  match rq_stage rq with Waiting | Proposed => Some (stage id Expired r) | _ => None end.

(** Dropping the guard. *)
Definition drop_guard (id : N) (r : Rep) : Staged :=
  rq ← r_requests r !! id;
  match rq_stage rq with
  | Granted => Some (stage id Dropped r, [ReleaseLock (rq_bucket rq) (rq_key rq) (holder r id)])
  | _ => None
  end.

(** The next committed entries, with the clock readings [nows]. *)
Definition batch (log : list Entry) (nows : list Z) (r : Rep) : list (Z * Entry) := zip nows (drop (r_applied r) log).
(** What the batch makes of a node with the database [d] and the answer [x]; a node
    whose storage reports an error stops. *)
Definition after_batch (es : list (Z * Entry)) (x : result StorageError (list unit)) (d : DB) (r : Rep) : Rep :=
  mkReplica d (if is_ok x then r_applied r + length es else r_applied r) (r_seen r `max` (r_applied r + length es))
    (is_ok x) (r_manager r) (r_requests r).
Definition apply_batch (log : list Entry) (nows : list Z) (r : Rep) : option Rep :=
  if r_running r then
    let es := batch log nows r in
    let '(x, d) := apply_to_state_machine es (r_db r) in Some (after_batch es x d r)
  else None.

(** A process that is started again, after it stopped or in whatever state it was,
    has a new lock manager. *)
Definition restart (r : Rep) : Rep :=
  mkReplica (r_db r) (r_applied r) (r_seen r) true (Manager.new (Manager.mgr_node_id (r_manager r))) ∅.
(** The process dies in the middle of a batch: the entries [nows] reaches are
    applied, the last applied id is not written, and the process is started again. *)
Definition crash (log : list Entry) (nows : list Z) (r : Rep) : option Rep :=
  if r_running r then
    let es := batch log nows r in
    let '(_, d) := apply_loop es None (r_db r) in
    Some (restart (mkReplica d (r_applied r) (r_seen r `max` (r_applied r + length es)) true (r_manager r) (r_requests r)))
  else None.

Context {Dir : Type} `{Checkpoints DB Dir} `{Codec SnapshotMeta}.
(** The snapshot of [r1] is sent to [r2], which lags behind.  Between the two reads
    of the snapshot [r1] applies the batch [nows], which may be empty. *)
Definition transfer (log : list Entry) (nows : list Z) (now : N) (r1 r2 : Rep) : option (Rep * Rep) :=
  if r_running r1 && r_running r2 && (r_applied r2 <=? r_applied r1) then
    let es := batch log nows r1 in
    let r1' := after_batch es (apply_to_state_machine es (r_db r1)).1 in
    match build_snapshot (Dir := Dir) (fun d => (apply_to_state_machine es d).2) now (r_db r1) with
    | (Ok s, d1) =>
        match install_snapshot (Dir := Dir) (meta_ s) (snapshot s) (r_db r2) with
        | (Ok _, d2) =>
            Some (r1' d1 r1, mkReplica d2 (r_applied r1) (r_seen (r1' d1 r1)) true (r_manager r2) (r_requests r2))
        | _ => None
        end
    | _ => None
    end
  else None.

(** ** The cluster *)
Record ReplicaSet : Type := mkReplicaSet {
  rs_log : list Entry; rs_proposals : list Command; rs_nodes : gmap N Rep }.

Inductive Action : Type :=
| Propose (c : Command)
| Commit (e : Entry)
| ApplyBatch (n : N) (nows : list Z)
| RequestLock (n : N) (b k : string) (ty : LockType)
| TryAcquire (n id : N)
| Verify (n id : N)
| Expire (n id : N)
| DropGuard (n id : N)
| Restart (n : N)
| Crash (n : N) (nows : list Z)
| Transfer (from to : N) (nows : list Z) (now : N).

Definition on_node (n : N) (f : Rep -> option Rep) (s : ReplicaSet) : option ReplicaSet :=
  r ← rs_nodes s !! n; r' ← f r; Some (mkReplicaSet (rs_log s) (rs_proposals s) (<[n := r']> (rs_nodes s))).
Definition proposing (n : N) (f : Rep -> Staged) (s : ReplicaSet) : option ReplicaSet :=
  r ← rs_nodes s !! n; '(r', cs) ← f r; Some (mkReplicaSet (rs_log s) (rs_proposals s ++ cs) (<[n := r']> (rs_nodes s))).

(** Commands of the lock table come from the lock managers only. *)
Definition is_lock (c : Command) : bool := match c with AcquireLock _ _ _ _ | ReleaseLock _ _ _ => true | _ => false end.
Definition may_commit (proposals : list Command) (e : Entry) : bool :=
  match payload e with Normal c => bool_decide (c ∈ proposals) | _ => true end.

Definition act (a : Action) (s : ReplicaSet) : option ReplicaSet :=
  match a with
  | Propose c => if negb (is_lock c) && wf_command c then Some (mkReplicaSet (rs_log s) (rs_proposals s ++ [c]) (rs_nodes s)) else None
  | Commit e => if may_commit (rs_proposals s) e then Some (mkReplicaSet (rs_log s ++ [e]) (rs_proposals s) (rs_nodes s)) else None
  | ApplyBatch n nows => on_node n (apply_batch (rs_log s) nows) s
  | RequestLock n b k ty => on_node n (request b k ty) s
  | TryAcquire n id => proposing n (try_acquire id) s
  | Verify n id => on_node n (verify id) s
  | Expire n id => on_node n (expire id) s
  | DropGuard n id => proposing n (drop_guard id) s
  | Restart n => on_node n (fun r => Some (restart r)) s
  | Crash n nows => on_node n (crash (rs_log s) nows) s
  | Transfer from to nows now =>
      if bool_decide (from = to) then None else
      r1 ← rs_nodes s !! from; r2 ← rs_nodes s !! to; '(r1', r2') ← transfer (rs_log s) nows now r1 r2;
      Some (mkReplicaSet (rs_log s) (rs_proposals s) (<[from := r1']> (<[to := r2']> (rs_nodes s))))
  end.
Fixpoint run_actions (l : list Action) (s : ReplicaSet) : option ReplicaSet :=
  match l with [] => Some s | a :: rest => s' ← act a s; run_actions rest s' end.

(** Restarts, crashes and snapshots, after which lock tables or holders may not
    agree. *)
Definition is_recovery (a : Action) : bool := match a with Restart _ | Crash _ _ | Transfer _ _ _ _ => true | _ => false end.
End node.
Arguments ReplicaSet : clear implicits. Arguments mkReplicaSet {DB}. Arguments rs_log {DB}.
Arguments rs_proposals {DB}. Arguments rs_nodes {DB}.

(** ** The history of a log

    What the commands of a log make of the bucket names, the objects and the
    locks, whatever the clocks of the nodes that apply them. *)
Abbreviation History := (gset string * gmap (string * string) ObjectMetadata * gmap (string * string) LockState)%type.
Abbreviation Locked := (gmap (string * string) LockState).
Definition lock_step (m : Locked) (c : Command) : Locked :=
  match c with
  | AcquireLock b k ty h => partial_alter (fun _ => (abs_acquire (m !! (b, k)) ty h).2) (b, k) m
  | ReleaseLock b k h => partial_alter (fun _ => abs_release (m !! (b, k)) h) (b, k) m
  | _ => m
  end.
Definition object_step (m : gmap (string * string) ObjectMetadata) (c : Command) : gmap (string * string) ObjectMetadata :=
  match c with
  | PutObjectMetadata o => <[(om_bucket o, om_key o) := o]> m
  | DeleteObjectMetadata b k => delete (b, k) m
  | _ => m
  end.
Definition bucket_step (m : gset string) (c : Command) : gset string :=
  match c with CreateBucket b => {[ bucket_name b ]} ∪ m | DeleteBucket n => m ∖ {[ n ]} | _ => m end.
Definition history_step (v : History) (c : Command) : History :=
  (bucket_step v.1.1 c, object_step v.1.2 c, lock_step v.2 c).
Definition history (cs : list Command) : History := foldl history_step (∅, ∅, ∅) cs.
Definition log_commands (log : list Entry) : list Command :=
  omap (fun e => match payload e with Normal c => Some c | _ => None end) log.

Lemma history_snoc cs c : history (cs ++ [c]) = history_step (history cs) c.
Proof. unfold history. by rewrite foldl_app. Qed.
Lemma apply_history now c a a' : Abs.apply now c a = Ok a' -> Abs.forget a' = history_step (Abs.forget a) c.
Proof.
  destruct c as [b|n|m|b k|b k ty h|b k h]; simpl; try (destruct (invalid_operation _); simpl; [|done]).
  - destruct (Abs.buckets a !! _); [done|]. intros [= <-]. unfold Abs.forget, history_step. simpl. by rewrite dom_insert_L.
  - intros [= <-]. unfold Abs.forget, history_step. simpl. by rewrite dom_delete_L.
  - by intros [= <-].
  - by intros [= <-].
  - by intros [= <-].
  - by intros [= <-].
Qed.
Lemma apply_all_history l a a' : Abs.apply_all l a = Ok a' -> Abs.forget a' = foldl history_step (Abs.forget a) l.*2.
Proof.
  revert a. induction l as [|[now c] l IH]; intros a; simpl; [by intros [= ->]|].
  destruct (Abs.apply now c a) as [a1|] eqn:Ha; simpl; [|done]. intros Hl. by rewrite (IH _ Hl), (apply_history _ _ _ _ Ha).
Qed.
(** Names and objects do not depend on the locks. *)
Lemma foldl_data cs v v' : v.1 = v'.1 -> (foldl history_step v cs).1 = (foldl history_step v' cs).1.
Proof.
  revert v v'. induction cs as [|c cs IH]; intros v v' Hv; simpl; [done|]. apply IH. unfold history_step. simpl. by rewrite Hv.
Qed.

(** *** Locks in a history *)
Definition lists_holder (m : Locked) (b k : string) (h : LockHolder) : Prop := exists st, m !! (b, k) = Some st /\ h ∈ holders st.
Lemma listed_step m c b k h : lists_holder m b k h -> c <> ReleaseLock b k h -> lists_holder (lock_step m c) b k h.
Proof.
  intros (st & Hm & Hh) Hc. unfold lists_holder, lock_step. destruct c as [| | | |b' k' ty h'|b' k' h']; try by exists st.
  - destruct (decide ((b', k') = (b, k))) as [[= -> ->]|Hne]; [|exists st; by rewrite lookup_partial_alter_ne].
    rewrite lookup_partial_alter_eq, Hm. simpl. case_decide; [by exists st|].
    destruct (lock_type st), ty; simpl; eexists; (split; [done|]); simpl; set_solver.
  - destruct (decide ((b', k') = (b, k))) as [[= -> ->]|Hne]; [|exists st; by rewrite lookup_partial_alter_ne].
    rewrite lookup_partial_alter_eq, Hm. simpl.
    assert (Hin : h ∈ filter (fun h0 => h0 <> h') (holders st)) by (apply list_elem_of_filter; split; [congruence|done]).
    destruct (filter _ _) as [|x hs] eqn:Hf; [set_solver|]. by eexists.
Qed.
Lemma listed_more cs m b k h : lists_holder m b k h -> ReleaseLock b k h ∉ cs -> lists_holder (foldl lock_step m cs) b k h.
Proof.
  revert m. induction cs as [|c cs IH]; intros m Hm Hc; simpl; [done|].
  apply IH; [apply listed_step; [done|]|]; set_solver.
Qed.
Lemma history_locks cs : (history cs).2 = foldl lock_step ∅ cs.
Proof.
  unfold history. assert (Hg : forall v, (foldl history_step v cs).2 = foldl lock_step v.2 cs); [|apply Hg].
  induction cs as [|c cs IH]; intros v; simpl; [done|]. by rewrite IH.
Qed.
Lemma history_exclusive cs : locks_ok cs (Abs.mk ∅ ∅ (history cs).2).
Proof.
  induction cs as [|c cs IH] using rev_ind; [done|]. rewrite history_snoc. unfold history_step. simpl.
  destruct c as [b|n|m|b k|b k ty h|b k h]; simpl; try by apply locks_ok_more.
  - by apply (locks_ok_apply _ 0%Z (AcquireLock b k ty h) _ _ IH).
  - by apply (locks_ok_apply _ 0%Z (ReleaseLock b k h) _ _ IH).
Qed.
(** Two holders of one lock both asked to read. *)
Lemma listed_both cs b k h1 h2 : lists_holder (history cs).2 b k h1 -> lists_holder (history cs).2 b k h2 -> h1 <> h2 ->
  AcquireLock b k Read h1 ∈ cs /\ AcquireLock b k Read h2 ∈ cs.
Proof.
  intros (st & Hm & Hh1) (st' & Hm' & Hh2) Hne. rewrite Hm in Hm'. injection Hm' as <-.
  destruct (history_exclusive cs b k st Hm) as [(_ & _ & Hw) Hask]. destruct (lock_type st) eqn:Ht.
  - split; by apply Hask.
  - specialize (Hw eq_refl). destruct (holders st) as [|x [|]]; simpl in Hw; try lia. set_solver.
Qed.

(** The object that a command writes or removes. *)
Definition touches (c : Command) : option (string * string) :=
  match c with
  | PutObjectMetadata o => Some (om_bucket o, om_key o)
  | DeleteObjectMetadata b k => Some (b, k)
  | _ => None
  end.
Lemma history_objects cs v : (foldl history_step v cs).1.2 = foldl object_step v.1.2 cs.
Proof. revert v. induction cs as [|c cs IH]; intros v; simpl; [done|]. by rewrite IH. Qed.
Ltac replica_simpl := cbn [after_batch restart r_manager r_requests r_db r_applied r_seen r_running].

(** ** Reachable states *)
Section theory.
Context {DB Dir : Type} `{RocksDBLaws DB} `{!Codec Bucket} `{!Codec ObjectMetadata} `{!Codec LockState} `{!Codec LogId}
  `{!Codec Entry} `{!Codec StoredMembership} `{!CodecLaws Bucket} `{!CodecLaws ObjectMetadata} `{!CodecLaws LockState}
  `{!CodecLaws LogId} `{!CodecLaws StoredMembership} `{!Checkpoints DB Dir} `{!CheckpointsLaws DB Dir}
  `{!Codec SnapshotMeta} `{!CodecLaws SnapshotMeta}.
Abbreviation Rep := (Replica DB).
Abbreviation RSet := (ReplicaSet DB).

Definition fresh_node (n : N) (r : Rep) : Prop :=
  R (r_db r) Abs.init /\ r_applied r = 0 /\ r_seen r = 0 /\ r_running r = true /\ r_requests r = ∅ /\
  Manager.mgr_node_id (r_manager r) = n.
Inductive reachable (recovery : bool) : RSet -> Prop :=
| reachable_init s : rs_log s = [] -> rs_proposals s = [] -> map_Forall fresh_node (rs_nodes s) -> reachable recovery s
| reachable_act a s s' : reachable recovery s -> (is_recovery a = true -> recovery = true) ->
    act (Dir := Dir) a s = Some s' -> reachable recovery s'.

Definition prefix_history (log : list Entry) (i : nat) : History := history (log_commands (take i log)).

(** The value of an object in [o] is that of a prefix of the log whose length lies
    between [i] and [j]. *)
Definition between (log : list Entry) (i j : nat) (o : gmap (string * string) ObjectMetadata) : Prop :=
  forall bk, exists m, i <= m <= j /\ o !! bk = (prefix_history log m).1.2 !! bk.
(** Every object of a node is as some prefix of the log says that has at least the
    recorded entries and at most those that were seen.  Without recoveries the
    whole state is that of one prefix, the recorded one if the node runs. *)
Record node_ok (recovery : bool) (log : list Entry) (n : N) (r : Rep) : Prop := {
  ok_id : Manager.mgr_node_id (r_manager r) = n;
  ok_requests : map_Forall (fun id rq => contains_char "/"%char (rq_bucket rq) = false /\
    (id < Manager.lock_counter (r_manager r))%N) (r_requests r);
  ok_data : exists a, R (r_db r) a /\ r_applied r <= r_seen r <= length log /\
    between log (r_applied r) (r_seen r) (Abs.objects a) /\
    (recovery = false -> exists i, (r_running r = true -> r_seen r = r_applied r /\ i = r_applied r) /\
      Abs.forget a = prefix_history log i /\ i <= length log) }.
Record set_ok (recovery : bool) (s : RSet) : Prop := {
  ok_wf : Forall (fun c => wf_command c = true) (rs_proposals s);
  ok_log : log_commands (rs_log s) ⊆ rs_proposals s;
  ok_nodes : map_Forall (node_ok recovery (rs_log s)) (rs_nodes s) }.

Lemma prefix_more log e i : i <= length log -> prefix_history (log ++ [e]) i = prefix_history log i.
Proof. intros Hi. unfold prefix_history. by rewrite take_app_le. Qed.
Lemma log_commands_app l l' : log_commands (l ++ l') = log_commands l ++ log_commands l'.
Proof. apply omap_app. Qed.
Lemma wf_entries s recovery : set_ok recovery s -> Forall (fun e => wf_entry e = true) (rs_log s).
Proof.
  intros [Hwf Hlog _]. apply list.Forall_forall. intros e He. unfold wf_entry. destruct (payload e) as [|c|m] eqn:Hp; try done.
  rewrite list.Forall_forall in Hwf. apply Hwf, Hlog, list_elem_of_omap. exists e. by rewrite Hp.
Qed.
Lemma zip_snd_prefix {A B} (l : list A) (l' : list B) : (zip l l').*2 = take (length (zip l l')) l'.
Proof. revert l'. induction l as [|x l IH]; intros [|y l']; simpl; [done..|]. by rewrite IH. Qed.
Lemma commands_snd es : (commands es).*2 = log_commands es.*2.
Proof. unfold commands, log_commands. induction es as [|[now e] es IH]; csimpl; [done|]. destruct (payload e); csimpl; by rewrite IH. Qed.


(** *** Applying entries, perhaps again *)
Lemma between_weaken log i j i' j' o : between log i j o -> i' <= i -> j <= j' -> between log i' j' o.
Proof. intros Ho Hi Hj bk. destruct (Ho bk) as (m & Hm & Heq). exists m. split; [lia|done]. Qed.
Lemma prefix_S log i e : log !! i = Some e ->
  prefix_history log (S i) = match payload e with Normal c => history_step (prefix_history log i) c | _ => prefix_history log i end.
Proof.
  intros He. unfold prefix_history. rewrite (take_S_r _ _ _ He), log_commands_app. unfold log_commands at 2. csimpl.
  destruct (payload e); csimpl; rewrite ?app_nil_r; [done| |done]. by rewrite history_snoc.
Qed.
Lemma object_step_touched o o' c bk : touches c = Some bk -> object_step o c !! bk = object_step o' c !! bk.
Proof. destruct c; simpl; try done; intros [= <-]; by rewrite ?lookup_insert_eq, ?lookup_delete_eq. Qed.
Lemma object_step_other o c bk : touches c <> Some bk -> object_step o c !! bk = o !! bk.
Proof. destruct c; simpl; try done; intros Hne; rewrite ?lookup_insert_ne, ?lookup_delete_ne; congruence. Qed.
(** Applying the next entry, also for the second time, moves the lower bound. *)
Lemma between_S log i j e o : between log i j o -> log !! i = Some e ->
  between log (S i) (j `max` S i) (foldl object_step o (log_commands [e])).
Proof.
  intros Ho He bk. destruct (Ho bk) as (m & Hm & Heq). unfold log_commands. csimpl. pose proof (prefix_S log i e He) as Hs.
  assert (Hsame : forall p : gmap (string * string) ObjectMetadata, p !! bk = o !! bk -> (prefix_history log (S i)).1.2 !! bk = (prefix_history log i).1.2 !! bk ->
    exists m', S i <= m' <= j `max` S i /\ p !! bk = (prefix_history log m').1.2 !! bk).
  { intros p Hp Hsi. destruct (decide (m = i)) as [-> |Hne]; [exists (S i)|exists m]; (split; [lia|congruence]). }
  destruct (payload e) as [|c|ms]; csimpl; [apply Hsame; [done|by rewrite Hs]| |apply Hsame; [done|by rewrite Hs]].
  destruct (decide (touches c = Some bk)) as [Ht|Ht].
  - exists (S i). split; [lia|]. rewrite Hs. simpl. by apply object_step_touched.
  - apply Hsame; [by apply object_step_other|]. rewrite Hs. simpl. by apply object_step_other.
Qed.
Lemma between_more log n : forall i j o, between log i j o -> i + n <= length log ->
  between log (i + n) (j `max` (i + n)) (foldl object_step o (log_commands (take n (drop i log)))).
Proof.
  induction n as [|n IH]; intros i j o Ho Hn; simpl.
  { rewrite Nat.add_0_r. eapply between_weaken; [done|lia|lia]. }
  destruct (lookup_lt_is_Some_2 log i) as [e He]; [lia|]. rewrite (drop_S _ _ _ He). cbn [take].
  change (e :: take n (drop (S i) log)) with ([e] ++ take n (drop (S i) log)). rewrite log_commands_app, foldl_app.
  replace (i + S n) with (S i + n) by lia. eapply between_weaken; [apply IH; [by apply between_S|lia]|lia|lia].
Qed.

(** A batch of which the entries [es1] were applied. *)
Lemma batch_prefix log nows (r : Rep) es1 es2 : batch log nows r = es1 ++ es2 ->
  es1.*2 = take (length es1) (drop (r_applied r) log) /\
  (r_applied r <= length log -> r_applied r + length es1 <= length log /\ r_applied r + length (es1 ++ es2) <= length log).
Proof.
  intros Hsplit. pose proof (zip_snd_prefix nows (drop (r_applied r) log)) as Hes. fold (batch log nows r) in Hes.
  rewrite Hsplit in Hes. pose proof (f_equal length Hes) as Hle.
  rewrite length_fmap, length_take, length_drop in Hle.
  assert (Hlen : length es1 <= length (es1 ++ es2)) by (rewrite length_app; lia). split; [|lia].
  pose proof (f_equal (take (length es1)) Hes) as Ht. rewrite <- fmap_take, take_app_length, take_take in Ht.
  by rewrite Nat.min_l in Ht by lia.
Qed.
Lemma batch_wf log nows (r : Rep) : Forall (fun e => wf_entry e = true) log ->
  Forall (fun ne => wf_entry ne.2 = true) (batch log nows r).
Proof.
  intros Hwf. apply (Forall_fmap snd (fun e => wf_entry e = true)). unfold batch. rewrite zip_snd_prefix. by apply Forall_take, Forall_drop.
Qed.
Lemma batch_between log nows (r : Rep) es1 es2 a a' : batch log nows r = es1 ++ es2 -> r_applied r <= r_seen r <= length log ->
  between log (r_applied r) (r_seen r) (Abs.objects a) -> Abs.apply_all (commands es1) a = Ok a' ->
  between log (r_applied r + length es1) (r_seen r `max` (r_applied r + length (es1 ++ es2))) (Abs.objects a') /\
  Abs.forget a' = foldl history_step (Abs.forget a) (log_commands (take (length es1) (drop (r_applied r) log))).
Proof.
  intros Hb Hs Ha Hall. destruct (batch_prefix _ _ _ _ _ Hb) as [Hes Hle]. destruct Hle as [Hle _]; [lia|].
  apply apply_all_history in Hall. rewrite commands_snd, Hes in Hall. split; [|done].
  replace (Abs.objects a') with (Abs.forget a').1.2 by done. rewrite Hall, history_objects.
  eapply between_weaken; [by apply between_more|lia|rewrite length_app; lia].
Qed.
Lemma prefix_batch log nows (r : Rep) es1 es2 : batch log nows r = es1 ++ es2 ->
  prefix_history log (r_applied r + length es1) =
  foldl history_step (prefix_history log (r_applied r)) (log_commands (take (length es1) (drop (r_applied r) log))).
Proof. intros _. unfold prefix_history, history. by rewrite <- foldl_app, <- log_commands_app, take_take_drop. Qed.

Lemma apply_batch_ok recovery log nows n r r' : Forall (fun e => wf_entry e = true) log ->
  node_ok recovery log n r -> apply_batch log nows r = Some r' -> node_ok recovery log n r'.
Proof.
  intros Hwf [Hid Hrq (a & HR & Hs & Ha & Hf)]. unfold apply_batch. destruct (r_running r) eqn:Hr; [|done].
  destruct (apply_to_state_machine _ (r_db r)) as [x d] eqn:Hx. intros [= <-]. split; replica_simpl; [done..|].
  destruct (apply_to_state_machine_R _ _ _ _ _ (batch_wf _ _ _ Hwf) HR Hx) as (es1 & es2 & a' & Hb & Hok & Hall & HR').
  destruct (batch_prefix _ _ _ _ _ Hb) as [_ Hle]. destruct Hle as [Hle1 Hle2]; [lia|].
  destruct (batch_between _ _ _ _ _ _ _ Hb Hs Ha Hall) as [Ha' Hh]. rewrite Hb in *. exists a'.
  assert (Hlow : (if is_ok x then r_applied r + length (es1 ++ es2) else r_applied r) <= r_applied r + length es1).
  { destruct (is_ok x); [rewrite Hok, app_nil_r by done|]; lia. }
  split_and!; [done|destruct (is_ok x); lia|lia|by eapply between_weaken|].
  intros Hrec. destruct (Hf Hrec) as (i & [Hseen ->] & Hfi & _); [done|]. exists (r_applied r + length es1).
  rewrite (prefix_batch _ _ _ _ _ Hb), Hh, Hfi. split_and!; [|done|lia]. intros Hx1. rewrite Hx1, (Hok Hx1), app_nil_r, Hseen. lia.
Qed.
Lemma restart_ok log n r : node_ok true log n r -> node_ok true log n (restart r).
Proof.
  intros [Hid Hrq (a & HR & Hs & Ha & _)]. split; replica_simpl; [done|apply map_Forall_empty|]. by exists a.
Qed.
Lemma crash_ok log nows n r r' : Forall (fun e => wf_entry e = true) log ->
  node_ok true log n r -> crash log nows r = Some r' -> node_ok true log n r'.
Proof.
  intros Hwf [Hid Hrq (a & HR & Hs & Ha & _)]. unfold crash. destruct (r_running r) eqn:Hr; [|done].
  destruct (apply_loop _ None (r_db r)) as [x d] eqn:Hx. intros [= <-]. apply restart_ok. split; replica_simpl; [done..|].
  destruct (apply_loop_R _ _ _ _ _ _ (batch_wf _ _ _ Hwf) HR Hx) as [_ Hres].
  assert (Hpre : exists es1 es2 a', batch log nows r = es1 ++ es2 /\ Abs.apply_all (commands es1) a = Ok a' /\ R d a').
  { destruct x; [destruct Hres as (_ & a' & ? & ?); exists (batch log nows r), [], a'; by rewrite app_nil_r|].
    destruct Hres as (es1 & es2 & a' & ? & _ & ? & ?). by exists es1, es2, a'. }
  destruct Hpre as (es1 & es2 & a' & Hb & Hall & HR'). exists a'.
  destruct (batch_prefix _ _ _ _ _ Hb) as [_ Hle]. destruct Hle as [_ Hle]; [lia|].
  destruct (batch_between _ _ _ _ _ _ _ Hb Hs Ha Hall) as [Ha' _]. rewrite Hb.
  split_and!; [done|lia|lia|eapply between_weaken; [done|lia|lia]|done].
Qed.

(** The stages of a request leave the data alone. *)
Lemma set_requests_ok recovery log n r f : node_ok recovery log n r ->
  map_Forall (fun id rq => contains_char "/"%char (rq_bucket rq) = false /\
    (id < Manager.lock_counter (r_manager r))%N) (f (r_requests r)) ->
  node_ok recovery log n (set_requests f r).
Proof. intros [Hid Hrq Hd] Hf. by split. Qed.
Lemma stage_ok recovery log n r id st : node_ok recovery log n r -> node_ok recovery log n (stage id st r).
Proof.
  intros Hok. apply set_requests_ok; [done|]. intros id' rq. rewrite lookup_alter_Some.
  intros [(<- & rq0 & Hrq & ->)|[_ Hrq]]; by apply (ok_requests _ _ _ _ Hok) in Hrq.
Qed.
Lemma request_ok recovery log n r b k ty r' : node_ok recovery log n r -> request b k ty r = Some r' ->
  node_ok recovery log n r'.
Proof.
  intros [Hid Hrq Hd]. unfold request. simpl.
  destruct (_ && _) eqn:Hg; [|done]. apply andb_true_iff in Hg as [[Hrun Hb%negb_true_iff]%andb_true_iff Hc%N.ltb_lt].
  intros [= <-]. split; replica_simpl; [done| |done]. simpl. unfold wrapN. rewrite N.mod_small by done.
  apply map_Forall_insert_2; [split; [done|lia]|]. intros id rq Hrq'. destruct (Hrq id rq Hrq'). split; [done|lia].
Qed.
Lemma transfer_ok log nows n1 n2 now r1 r2 r1' r2' : Forall (fun e => wf_entry e = true) log ->
  node_ok true log n1 r1 -> node_ok true log n2 r2 ->
  transfer (Dir := Dir) log nows now r1 r2 = Some (r1', r2') -> node_ok true log n1 r1' /\ node_ok true log n2 r2'.
Proof.
  intros Hwf [Hid1 Hrq1 (a1 & HR1 & Hs1 & Ha1 & _)] [Hid2 Hrq2 (a2 & HR2 & _)]. unfold transfer.
  destruct (_ && _) eqn:Hg; [|done]. set (es := batch log nows r1).
  destruct (apply_to_state_machine es (r_db r1)) as [x d] eqn:Hx.
  destruct (apply_to_state_machine_R _ _ _ _ _ (batch_wf _ _ _ Hwf) HR1 Hx) as (es1 & es2 & a' & Hb & Hok & Hall & HR').
  destruct (batch_prefix _ _ _ _ _ Hb) as [_ Hle]. destruct Hle as [Hle1 Hle2]; [lia|].
  destruct (batch_between _ _ _ _ _ _ _ Hb Hs1 Ha1 Hall) as [Ha' _].
  destruct (build_snapshot _ _ _) as [[s|] d1] eqn:Hbs; [|done].
  destruct (install_snapshot _ _ _) as [[[]|] d2] eqn:Hi; [|done]. intros [= <- <-].
  assert (HRm : R ((fun d0 => (apply_to_state_machine es d0).2) (r_db r1)) a') by (simpl; by rewrite Hx).
  destruct (transfer_R _ _ _ _ _ _ _ _ _ HRm HR2 Hbs Hi) as [HR1' HR2']. unfold after_batch. fold es in Hb. rewrite Hb.
  assert (Hlow : (if is_ok x then r_applied r1 + length (es1 ++ es2) else r_applied r1) <= r_applied r1 + length es1).
  { destruct (is_ok x); [rewrite Hok, app_nil_r by done|]; lia. }
  split; (split; replica_simpl; [done..|]); (eexists; split; [eassumption|]); simpl;
    (split_and!; [destruct (is_ok x); lia|lia| |done]); (eapply between_weaken; [exact Ha'|lia|lia]).
Qed.
(** A stage that proposes a command. *)
Lemma staged_inv id (r r' : Rep) cs : try_acquire id r = Some (r', cs) \/ drop_guard id r = Some (r', cs) ->
  exists rq st c, r_requests r !! id = Some rq /\ r' = stage id st r /\ cs = [c] /\
    ((rq_stage rq = Waiting /\ st = Proposed /\ c = AcquireLock (rq_bucket rq) (rq_key rq) (rq_type rq) (holder r id)) \/
     (rq_stage rq = Granted /\ st = Dropped /\ c = ReleaseLock (rq_bucket rq) (rq_key rq) (holder r id))).
Proof.
  unfold try_acquire, drop_guard. destruct (r_requests r !! id) as [rq|]; simpl; [|by intros []].
  intros [Hr|Hr]; destruct (rq_stage rq) eqn:Hst; try done.
  - destruct (Manager.can_acquire_locally _ _ _ _ _ _) as [[[]|] ?]; simpl in Hr; simplify_eq. do 3 eexists. split_and!; eauto.
  - simplify_eq. do 3 eexists. split_and!; eauto.
Qed.
Lemma staged_ok recovery log n r r' cs : node_ok recovery log n r ->
  (exists id, try_acquire id r = Some (r', cs) \/ drop_guard id r = Some (r', cs)) ->
  node_ok recovery log n r' /\ Forall (fun c => wf_command c = true) cs.
Proof.
  intros Hok (id & (rq & st & c & Hrq & -> & -> & Hc)%staged_inv). destruct (ok_requests _ _ _ _ Hok id rq Hrq) as [Hb _].
  split; [by apply stage_ok|]. constructor; [|done]. destruct Hc as [(_ & _ & ->)|(_ & _ & ->)]; simpl; by rewrite Hb.
Qed.

Lemma on_node_inv n f (s s' : RSet) : on_node n f s = Some s' -> exists r r', rs_nodes s !! n = Some r /\ f r = Some r' /\
  s' = mkReplicaSet (rs_log s) (rs_proposals s) (<[n := r']> (rs_nodes s)).
Proof. unfold on_node. intros (r & ? & (r' & ? & [= <-])%bind_Some)%bind_Some. eauto. Qed.
Lemma proposing_inv n f (s s' : RSet) : proposing n f s = Some s' -> exists r r' cs, rs_nodes s !! n = Some r /\
  f r = Some (r', cs) /\ s' = mkReplicaSet (rs_log s) (rs_proposals s ++ cs) (<[n := r']> (rs_nodes s)).
Proof. unfold proposing. intros (r & ? & ([r' cs] & ? & [= <-])%bind_Some)%bind_Some. eauto 10. Qed.
Lemma verify_inv id (r r' : Rep) : verify id r = Some r' -> exists rq state, r_requests r !! id = Some rq /\
  rq_stage rq = Proposed /\ (get_lock_state (rq_bucket rq) (rq_key rq) (r_db r)).1 = Ok state /\
  r' = stage id (if match state with Some s => is_held_by s (holder r id) | None => false end then Granted else Waiting) r.
Proof.
  unfold verify. intros (rq & Hrq & Hv)%bind_Some. destruct (rq_stage rq) eqn:Hst; try done.
  destruct (get_lock_state _ _ _) as [[state|] d] eqn:Hg; simpl in Hv; [|done]. injection Hv as <-.
  exists rq, state. by rewrite Hg.
Qed.
Lemma expire_inv id (r r' : Rep) : expire id r = Some r' -> exists rq, r_requests r !! id = Some rq /\
  (rq_stage rq = Waiting \/ rq_stage rq = Proposed) /\ r' = stage id Expired r.
Proof. unfold expire. intros (rq & ? & Hv)%bind_Some. exists rq. destruct (rq_stage rq); simplify_eq; auto. Qed.

Lemma act_ok recovery a (s s' : RSet) : set_ok recovery s -> (is_recovery a = true -> recovery = true) ->
  act (Dir := Dir) a s = Some s' -> set_ok recovery s'.
Proof.
  intros Hok Hrec. pose proof (wf_entries _ _ Hok) as Hwfe. destruct Hok as [Hwf Hlog Hn].
  assert (Hnode : forall n f s', on_node n f s = Some s' ->
    (forall r r', rs_nodes s !! n = Some r -> node_ok recovery (rs_log s) n r -> f r = Some r' -> node_ok recovery (rs_log s) n r') ->
    set_ok recovery s').
  { intros n f s1 (r & r' & Hr & Hf & ->)%on_node_inv Hstep. split; simpl; [done..|]. apply map_Forall_insert_2; [|done]. eauto. }
  assert (Hprop : forall n f s', proposing n f s = Some s' ->
    (forall r r' cs, f r = Some (r', cs) -> exists id, try_acquire id r = Some (r', cs) \/ drop_guard id r = Some (r', cs)) ->
    set_ok recovery s').
  { intros n f s1 (r & r' & cs & Hr & Hf & ->)%proposing_inv Hstep.
    destruct (staged_ok recovery (rs_log s) n r r' cs) as [Hr' Hcs]; [by apply Hn|by eapply Hstep|].
    split; simpl; [by apply Forall_app|set_solver|by apply map_Forall_insert_2]. }
  destruct a as [c|e|n nows|n b k ty|n id|n id|n id|n id|n|n nows|from to nows now]; simpl; intros Ha.
  - destruct (_ && _) eqn:Hc; [|done]. apply andb_true_iff in Hc as [_ Hc]. injection Ha as <-.
    split; simpl; [|set_solver|done]. apply Forall_app. split; [done|by repeat constructor].
  - destruct (may_commit _ _) eqn:Hc; [|done]. injection Ha as <-. split; simpl; [done| |].
    + rewrite log_commands_app. apply list_subseteq_app_iff_l. split; [done|]. unfold may_commit in Hc. intros c.
      unfold log_commands. csimpl. destruct (payload e); csimpl; [set_solver| |set_solver].
      apply bool_decide_eq_true in Hc. set_solver.
    + intros n r Hr. destruct (Hn n r Hr) as [Hid Hrq (a & HR & Hs & Hb & Hf)]. split; [done..|]. exists a.
      rewrite length_app. split_and!; [done|lia|lia| |].
      * intros bk. destruct (Hb bk) as (m & Hm & Heq). exists m. rewrite prefix_more by lia. done.
      * intros Hrec'. destruct (Hf Hrec') as (i & Hi & Hfi & Hle). exists i. rewrite prefix_more by done. split_and!; [done|done|lia].
  - eapply Hnode; [done|]. intros r r' _ ?. by apply apply_batch_ok.
  - eapply Hnode; [done|]. intros r r' _ ?. by apply request_ok.
  - eapply Hprop; [done|]. eauto.
  - eapply Hnode; [done|]. intros r r' _ ? (rq & st & _ & _ & _ & ->)%verify_inv. by apply stage_ok.
  - eapply Hnode; [done|]. intros r r' _ ? (rq & _ & _ & ->)%expire_inv. by apply stage_ok.
  - eapply Hprop; [done|]. eauto.
  - rewrite (Hrec eq_refl) in *. eapply Hnode; [done|]. intros r r' _ ? [= <-]. by apply restart_ok.
  - rewrite (Hrec eq_refl) in *. eapply Hnode; [done|]. intros r r' _ ?. by apply crash_ok.
  - rewrite (Hrec eq_refl) in *. case_bool_decide as Hft; [done|].
    apply bind_Some in Ha as (r1 & Hr1 & (r2 & Hr2 & ([r1' r2'] & Ht & [= <-])%bind_Some)%bind_Some).
    destruct (transfer_ok (rs_log s) nows from to now r1 r2 r1' r2') as [H1' H2']; [done|by apply Hn|by apply Hn|done|].
    split; simpl; [done..|]. by apply map_Forall_insert_2; [|apply map_Forall_insert_2].
Qed.
Lemma reachable_ok recovery (s : RSet) : reachable recovery s -> set_ok recovery s.
Proof.
  induction 1 as [s Hl Hp Hn|a s s' _ IH Hrec Ha]; [|by eapply act_ok].
  split; rewrite ?Hl, ?Hp; [constructor|done|]. intros n r Hr. destruct (Hn n r Hr) as (HR & Happ & Hseen & _ & Hrq & Hid).
  split; [done|rewrite Hrq; apply map_Forall_empty|]. rewrite Happ, Hseen. exists Abs.init. split_and!; [done|lia|simpl; lia| |].
  - intros bk. by exists 0.
  - intros _. by exists 0.
Qed.

(** *** The requests of the lock managers *)
Definition req (s : RSet) (h : LockHolder) : option LockRequest :=
  r ← rs_nodes s !! node_id h; r_requests r !! lock_id h.
Record lock_ok (s : RSet) : Prop := {
  lk_acquire : forall b k ty h, AcquireLock b k ty h ∈ rs_proposals s -> exists rq, req s h = Some rq /\
    rq_bucket rq = b /\ rq_key rq = k /\ rq_type rq = ty;
  lk_release : forall b k h, ReleaseLock b k h ∈ rs_proposals s -> exists rq, req s h = Some rq /\ rq_stage rq = Dropped;
  lk_granted : forall h rq, req s h = Some rq -> rq_stage rq = Granted ->
    lists_holder (history (log_commands (rs_log s))).2 (rq_bucket rq) (rq_key rq) h }.

(** A command that a request may propose. *)
Definition explained (s : RSet) (c : Command) : Prop :=
  match c with
  | AcquireLock b k ty h => exists rq, req s h = Some rq /\ rq_bucket rq = b /\ rq_key rq = k /\ rq_type rq = ty
  | ReleaseLock b k h => exists rq, req s h = Some rq /\ rq_stage rq = Dropped
  | _ => True
  end.
(** Requests stay, dropped ones stay dropped, and who is granted is listed. *)
Lemma lock_ok_step (s s' : RSet) cs : lock_ok s -> rs_proposals s' = rs_proposals s ++ cs -> rs_log s' = rs_log s ->
  (forall h rq, req s h = Some rq -> exists st, req s' h = Some (set_stage st rq) /\ (rq_stage rq = Dropped -> st = Dropped)) ->
  (forall h rq, req s' h = Some rq -> rq_stage rq = Granted ->
     req s h = Some rq \/ lists_holder (history (log_commands (rs_log s))).2 (rq_bucket rq) (rq_key rq) h) ->
  Forall (explained s') cs -> lock_ok s'.
Proof.
  intros [Ha Hr Hg] Hp Hl Hkeep Hnew Hcs. rewrite list.Forall_forall in Hcs. split.
  - intros b k ty h. rewrite Hp. intros [(rq & Hrq & ? & ? & ?)%Ha|Hc%Hcs]%elem_of_app; [|exact Hc].
    destruct (Hkeep _ _ Hrq) as (st & Hst & _). by exists (set_stage st rq).
  - intros b k h. rewrite Hp. intros [(rq & Hrq & Hd)%Hr|Hc%Hcs]%elem_of_app; [|exact Hc].
    destruct (Hkeep _ _ Hrq) as (st & Hst & Hs). exists (set_stage st rq). split; [done|by apply Hs].
  - intros h rq Hrq Hst. rewrite Hl. destruct (Hnew h rq Hrq Hst) as [Hold|?]; [by apply Hg|done].
Qed.
Lemma req_insert (s : RSet) n r r' l p h : rs_nodes s !! n = Some r ->
  req (mkReplicaSet l p (<[n := r']> (rs_nodes s))) h =
  if decide (node_id h = n) then r_requests r' !! lock_id h else req s h.
Proof.
  intros Hn. unfold req. simpl. case_decide as Hh; [by rewrite Hh, lookup_insert_eq|by rewrite lookup_insert_ne].
Qed.
Lemma same_requests (s : RSet) n r r' l p h : rs_nodes s !! n = Some r -> r_requests r' = r_requests r ->
  req (mkReplicaSet l p (<[n := r']> (rs_nodes s))) h = req s h.
Proof. intros Hn Hr. rewrite (req_insert s n r) by done. case_decide as Hh; [|done]. unfold req. by rewrite Hh, Hn, Hr. Qed.

(** A request that is not dropped goes to another stage. *)
Lemma lock_ok_stage (s : RSet) n r id rq st cs : lock_ok s -> rs_nodes s !! n = Some r -> r_requests r !! id = Some rq ->
  rq_stage rq <> Dropped ->
  (st = Granted -> lists_holder (history (log_commands (rs_log s))).2 (rq_bucket rq) (rq_key rq) (mkLockHolder n id)) ->
  (forall s', req s' (mkLockHolder n id) = Some (set_stage st rq) -> Forall (explained s') cs) ->
  lock_ok (mkReplicaSet (rs_log s) (rs_proposals s ++ cs) (<[n := stage id st r]> (rs_nodes s))).
Proof.
  intros Hok Hn Hrq Hnd Hg Hcs.
  assert (Hreq : forall h, req (mkReplicaSet (rs_log s) (rs_proposals s ++ cs) (<[n := stage id st r]> (rs_nodes s))) h =
    if decide (h = mkLockHolder n id) then Some (set_stage st rq) else req s h).
  { intros [m i]. rewrite (req_insert s n r) by done. simpl. repeat case_decide; simplify_eq/=.
    - by rewrite lookup_alter_eq, Hrq.
    - rewrite lookup_alter_ne by congruence. unfold req. simpl. by rewrite Hn.
    - done. }
  assert (Hold : req s (mkLockHolder n id) = Some rq) by (unfold req; simpl; by rewrite Hn).
  eapply (lock_ok_step s _ cs); [done|done|done| | |].
  - intros h rq0 Hh. rewrite Hreq. case_decide as Hd.
    + subst h. rewrite Hold in Hh. injection Hh as <-. exists st. split; [done|congruence].
    + exists (rq_stage rq0). split; [by destruct rq0|done].
  - intros h rq0. rewrite Hreq. case_decide as Hd; [|by left]. intros [= <-] Hst. right. subst h. by apply Hg.
  - apply Hcs. rewrite Hreq. by rewrite decide_True.
Qed.

(** What a node lists is still listed when the whole log is applied, unless a
    release was proposed. *)
Lemma listed_log (s : RSet) i b k h : set_ok false s -> lists_holder (prefix_history (rs_log s) i).2 b k h ->
  ReleaseLock b k h ∉ rs_proposals s -> lists_holder (history (log_commands (rs_log s))).2 b k h.
Proof.
  intros [_ Hlog _] Hl Hr. rewrite <- (take_drop i (rs_log s)) at 1. rewrite log_commands_app, history_locks, foldl_app.
  apply listed_more; [by rewrite <- history_locks|]. intros Hin. apply Hr, Hlog.
  rewrite <- (take_drop i (rs_log s)), log_commands_app. set_solver.
Qed.
Lemma verify_lock_ok (s : RSet) n r id r' : set_ok false s -> lock_ok s -> rs_nodes s !! n = Some r -> verify id r = Some r' ->
  lock_ok (mkReplicaSet (rs_log s) (rs_proposals s) (<[n := r']> (rs_nodes s))).
Proof.
  intros Hset Hok Hn (rq & state & Hrq & Hst & Hg & ->)%verify_inv. rewrite <- (app_nil_r (rs_proposals s)).
  destruct (ok_nodes _ _ Hset n r Hn) as [Hid Hrqs (a & HR & _ & _ & Hf)].
  destruct (Hrqs id rq Hrq) as [Hb _]. destruct (Hf eq_refl) as (i & _ & Hl & _). apply (f_equal snd) in Hl. simpl in Hl.
  eapply lock_ok_stage; [done|done|done|congruence| |by constructor]. intros Hheld.
  destruct (get_lock_state _ _ _) as [x d] eqn:Hgl. simpl in Hg. subst x.
  destruct (get_lock_state_spec _ _ _ _ _ _ (R_lock _ _ HR _ (rq_key rq) Hb) Hgl) as [_ [Hx|(e & [=] & _)]].
  injection Hx as ->. eapply (listed_log s i); [done| |].
  - destruct (Abs.locks a !! (rq_bucket rq, rq_key rq)) as [st|] eqn:Hs; [|done]. exists st. rewrite <- Hl. split; [done|].
    destruct (is_held_by st (holder r id)) eqn:Hh; [|done]. apply is_held_by_spec in Hh. unfold holder in Hh. by rewrite Hid in Hh.
  - intros (rq' & Hrq' & Hd)%(lk_release _ Hok). unfold req in Hrq'. simpl in Hrq'. rewrite Hn in Hrq'. simpl in Hrq'. congruence.
Qed.
Lemma commit_lock_ok (s : RSet) e : lock_ok s -> may_commit (rs_proposals s) e = true ->
  lock_ok (mkReplicaSet (rs_log s ++ [e]) (rs_proposals s) (rs_nodes s)).
Proof.
  intros [Ha Hr Hg] Hc. split; [exact Ha|exact Hr|]. simpl. intros h rq Hrq Hst. specialize (Hg h rq Hrq Hst).
  rewrite log_commands_app. unfold may_commit in Hc. unfold log_commands at 2. csimpl.
  destruct (payload e) as [|c|m]; csimpl; rewrite ?app_nil_r; [done| |done]. rewrite history_snoc. simpl.
  apply listed_step; [done|]. intros ->. apply bool_decide_eq_true, Hr in Hc as (rq' & Hrq' & Hd). change (req s h = Some rq) in Hrq. congruence.
Qed.
Lemma request_lock_ok (s : RSet) n r b k ty r' : set_ok false s -> lock_ok s -> rs_nodes s !! n = Some r ->
  request b k ty r = Some r' -> lock_ok (mkReplicaSet (rs_log s) (rs_proposals s) (<[n := r']> (rs_nodes s))).
Proof.
  intros Hset Hok Hn Hq. destruct (ok_nodes _ _ Hset n r Hn) as [Hid Hrqs _]. unfold request in Hq. simpl in Hq.
  destruct (_ && _); [|done]. injection Hq as <-. set (id := Manager.lock_counter (r_manager r)).
  assert (Hfresh : r_requests r !! id = None).
  { destruct (r_requests r !! id) as [rq|] eqn:Hrq; [|done]. apply Hrqs in Hrq as [_ Hlt]. unfold id in Hlt. lia. }
  eapply (lock_ok_step s _ []); [done|by rewrite app_nil_r|done| | |constructor].
  - intros h rq Hrq. exists (rq_stage rq). split; [|done]. rewrite (req_insert s n r) by done. simpl.
    replace (set_stage (rq_stage rq) rq) with rq by by destruct rq. case_decide as Hh; [|done].
    unfold req in Hrq. rewrite Hh, Hn in Hrq. simpl in Hrq. rewrite lookup_insert_ne by congruence. done.
  - intros h rq. rewrite (req_insert s n r) by done. simpl. case_decide as Hh; [|by left].
    rewrite lookup_insert_Some. intros [[_ <-]|[_ Hrq]] Hst; [done|]. left. unfold req. by rewrite Hh, Hn.
Qed.
Lemma staged_lock_ok (s : RSet) n r r' cs id : set_ok false s -> lock_ok s -> rs_nodes s !! n = Some r ->
  try_acquire id r = Some (r', cs) \/ drop_guard id r = Some (r', cs) ->
  lock_ok (mkReplicaSet (rs_log s) (rs_proposals s ++ cs) (<[n := r']> (rs_nodes s))).
Proof.
  intros Hset Hok Hn (rq & st & c & Hrq & -> & -> & Hc)%staged_inv. destruct (ok_nodes _ _ Hset n r Hn) as [Hid _ _].
  unfold holder in Hc. rewrite Hid in Hc.
  destruct Hc as [(Hst & -> & ->)|(Hst & -> & ->)]; (eapply lock_ok_stage; [done..|congruence|done|]);
    intros s' Hs'; (constructor; [|done]); by eexists.
Qed.
Lemma act_lock_ok a (s s' : RSet) : set_ok false s -> lock_ok s -> is_recovery a = false ->
  act (Dir := Dir) a s = Some s' -> lock_ok s'.
Proof.
  intros Hset Hok Hrec. destruct a as [c|e|n nows|n b k ty|n id|n id|n id|n id|n|n nows|from to nows now]; try done; cbn [act]; intros Ha.
  - destruct (_ && _) eqn:Hc; [|done]. apply andb_true_iff in Hc as [Hl _]. injection Ha as <-.
    eapply (lock_ok_step s _ [c]); [done..| | |constructor; [by destruct c|constructor]].
    + intros h rq Hrq. exists (rq_stage rq). split; [by destruct rq|done].
    + intros h rq Hrq _. by left.
  - destruct (may_commit _ _) eqn:Hc; [|done]. injection Ha as <-. by apply commit_lock_ok.
  - apply on_node_inv in Ha as (r & r' & Hn & Hf & ->). unfold apply_batch in Hf. destruct (r_running r); [|done].
    destruct (apply_to_state_machine _ _) as [x d]. injection Hf as <-.
    eapply (lock_ok_step s _ []); [done|by rewrite app_nil_r|done| | |constructor]; intros h rq; rewrite (same_requests s n r) by done.
    + intros Hrq. exists (rq_stage rq). split; [by destruct rq|done].
    + by left.
  - apply on_node_inv in Ha as (r & r' & Hn & Hf & ->). by eapply request_lock_ok.
  - apply proposing_inv in Ha as (r & r' & cs & Hn & Hf & ->). eapply staged_lock_ok; eauto.
  - apply on_node_inv in Ha as (r & r' & Hn & Hf & ->). by eapply verify_lock_ok.
  - apply on_node_inv in Ha as (r & r' & Hn & (rq & Hrq & Hst & ->)%expire_inv & ->). rewrite <- (app_nil_r (rs_proposals s)).
    eapply lock_ok_stage; [done..| |done|by constructor]. destruct Hst; congruence.
  - apply proposing_inv in Ha as (r & r' & cs & Hn & Hf & ->). eapply staged_lock_ok; eauto.
Qed.
Lemma reachable_lock_ok (s : RSet) : reachable false s -> lock_ok s.
Proof.
  induction 1 as [s Hl Hp Hn|a s s' Hs IH Hrec Ha].
  - assert (Hreq : forall h, req s h = None).
    { intros h. unfold req. destruct (rs_nodes s !! node_id h) as [r|] eqn:Hr; [|done]. simpl.
      destruct (Hn _ r Hr) as (_ & _ & _ & _ & -> & _). by rewrite lookup_empty. }
    split; [rewrite Hp; set_solver..|]. intros h rq. by rewrite Hreq.
  - eapply act_lock_ok; [by apply reachable_ok|done| |done]. destruct (is_recovery a); [|done]. by specialize (Hrec eq_refl).
Qed.

Lemma run_reachable recovery l (s s' : RSet) : reachable recovery s ->
  Forall (fun a => is_recovery a = true -> recovery = true) l -> run_actions (Dir := Dir) l s = Some s' -> reachable recovery s'.
Proof.
  intros Hs Hl. revert s Hs. induction Hl as [|a l Ha _ IH]; intros s Hs; simpl; [by intros [= <-]|].
  intros (s1 & Hact & Hrun)%bind_Some. eapply IH; [|exact Hrun]. by eapply reachable_act.
Qed.

(** ** Properties *)

(** C5. Mutual exclusion in the cluster.  While no node is restarted and no snapshot
    is installed, whatever is proposed, committed, applied, granted, dropped and
    timed out on the nodes, in any order and with any delays: two guards for one
    object that exist at the same time, on the same node or on different ones, are
    both read locks. *)
Theorem cluster_mutual_exclusion (s : RSet) h1 h2 rq1 rq2 : reachable false s ->
  req s h1 = Some rq1 -> req s h2 = Some rq2 -> rq_stage rq1 = Granted -> rq_stage rq2 = Granted -> h1 <> h2 ->
  rq_bucket rq1 = rq_bucket rq2 -> rq_key rq1 = rq_key rq2 -> rq_type rq1 = Read /\ rq_type rq2 = Read.
Proof.
  intros Hs H1 H2 Hg1 Hg2 Hne Hb Hk. pose proof (reachable_lock_ok s Hs) as [Ha _ Hg].
  pose proof (ok_log _ _ (reachable_ok _ _ Hs)) as Hlog.
  pose proof (Hg _ _ H1 Hg1) as Hl1. pose proof (Hg _ _ H2 Hg2) as Hl2. rewrite <- Hb, <- Hk in Hl2.
  destruct (listed_both _ _ _ _ _ Hl1 Hl2 Hne) as [(rq1' & H1' & _ & _ & Ht1)%Hlog%Ha (rq2' & H2' & _ & _ & Ht2)%Hlog%Ha].
  split; congruence.
Qed.

Lemma untouched cs m bk : Forall (fun c => touches c <> Some bk) cs -> foldl object_step m cs !! bk = m !! bk.
Proof.
  intros Hcs. revert m. induction Hcs as [|c cs Hc _ IH]; intros m; simpl; [done|]. rewrite IH.
  destruct c; simpl in *; [done|done| | |done|done]; [rewrite lookup_insert_ne|rewrite lookup_delete_ne]; congruence.
Qed.
Lemma node_objects recovery (s : RSet) n r : reachable recovery s -> rs_nodes s !! n = Some r ->
  r_applied r <= r_seen r <= length (rs_log s) /\ exists a, R (r_db r) a /\
  between (rs_log s) (r_applied r) (r_seen r) (Abs.objects a) /\
  (recovery = false -> r_running r = true -> r_seen r = r_applied r).
Proof.
  intros Hs Hn. destruct (ok_data _ _ _ _ (ok_nodes _ _ (reachable_ok _ _ Hs) n r Hn)) as (a & HR & Hle & Hb & Hf).
  split; [done|]. exists a. split_and!; [done..|]. intros Hrec Hrun. destruct (Hf Hrec) as (i & Hi & _). by apply Hi.
Qed.

(** C6. Every node of a cluster shows the objects of the one committed log, whatever
    the nodes do: with restarts, crashes in the middle of a batch, and snapshots
    during which the sender goes on applying entries.  There is a table of objects
    in which each object is as a prefix of the log has it that holds at least the
    entries the node has recorded and at most those that ever reached its data;
    the node's reads and listings of a bucket answer as that table says, or a read
    reports a fault of the store.  When the two numbers are equal, as they always
    are on a running node of a cluster without restarts and snapshots, the table
    is exactly that of the recorded prefix.  A snapshot whose installation fails or
    is interrupted is left out. *)
Theorem nodes_follow_log recovery (s : RSet) n r b : reachable recovery s ->
  rs_nodes s !! n = Some r -> contains_char "/"%char b = false ->
  r_applied r <= r_seen r <= length (rs_log s) /\
  (recovery = false -> r_running r = true -> r_seen r = r_applied r) /\
  exists told : gmap (string * string) ObjectMetadata,
  (forall k, exists m, r_applied r <= m <= r_seen r /\ told !! (b, k) = (prefix_history (rs_log s) m).1.2 !! (b, k)) /\
  (forall k x d', get_object_metadata b k (r_db r) = (x, d') -> d' = r_db r /\
     ((exists e, x = Err e /\ fault ObjectMetadata (r_db r) e) \/
      x = (_ ← invalid_operation (validate_object_key k); ok_or (ObjectNotFound b k) (told !! (b, k))))) /\
  (forall p ms d', list_objects b p (r_db r) = (Ok ms, d') -> exists ks, StronglySorted str_lt ks /\
     Forall2 (fun k m => told !! (b, k) = Some m) ks ms /\
     forall k, k ∈ ks <-> is_Some (told !! (b, k)) /\ starts_with (default "" p) k = true).
Proof.
  intros Hs Hn Hb. destruct (node_objects _ _ _ _ Hs Hn) as (Hle & a & HR & Ho & Hrun). split_and!; [lia|lia|done|].
  exists (Abs.objects a). split_and!.
  - intros k. apply Ho.
  - intros k x d'. apply get_object_metadata_spec. by apply (R_object _ _ HR).
  - intros p ms d'. by apply list_objects_R.
Qed.

(** C7. A write is seen by every node that has applied it: once the entry that stores
    an object's metadata is committed, any node that has recorded it as applied, by
    itself or through a snapshot, whatever crashes and replays there were, and to
    whose data no later entry on the object has come, reads exactly that metadata,
    unless the store reports a fault. *)
Theorem committed_put_visible recovery (s : RSet) n r i e o x d' : reachable recovery s ->
  rs_nodes s !! n = Some r ->
  rs_log s !! i = Some e -> payload e = Normal (PutObjectMetadata o) -> i < r_applied r ->
  contains_char "/"%char (om_bucket o) = false -> invalid_operation (validate_object_key (om_key o)) = Ok tt ->
  Forall (fun c => touches c <> Some (om_bucket o, om_key o)) (log_commands (drop (S i) (take (r_seen r) (rs_log s)))) ->
  get_object_metadata (om_bucket o) (om_key o) (r_db r) = (x, d') ->
  x = Ok o \/ exists e, x = Err e /\ fault ObjectMetadata (r_db r) e.
Proof.
  intros Hs Hn Hi He Hlt Hb Hv Hlater Hx. destruct (node_objects _ _ _ _ Hs Hn) as (Hle & a & HR & Ho & _).
  assert (Htold : Abs.objects a !! (om_bucket o, om_key o) = Some o).
  { destruct (Ho (om_bucket o, om_key o)) as (m & Hm & ->). unfold prefix_history. set (l := take m (rs_log s)).
    assert (Hl : l !! i = Some e) by (unfold l; rewrite lookup_take_lt by lia; done).
    rewrite <- (take_drop_middle l i e Hl), log_commands_app. change (e :: drop (S i) l) with ([e] ++ drop (S i) l).
    rewrite log_commands_app. unfold history. rewrite !foldl_app, history_objects, untouched.
    - unfold log_commands at 2. csimpl. rewrite He. csimpl. by rewrite lookup_insert_eq.
    - assert (Hpre : drop (S i) (take (r_seen r) (rs_log s)) = drop (S i) l ++ drop m (take (r_seen r) (rs_log s))).
      { unfold l. rewrite <- (take_drop m (take (r_seen r) (rs_log s))) at 1. rewrite take_take, Nat.min_l by lia.
        apply drop_app_le. rewrite length_take. lia. }
      rewrite Hpre, log_commands_app in Hlater. by apply Forall_app in Hlater as [? _]. }
  destruct (get_object_metadata_spec _ _ _ _ _ _ (R_object _ _ HR _ _ Hb) Hx) as [_ [Hf|Hok]]; [by right|left].
  by rewrite Hok, Hv, Htold.
Qed.

(** A request that has expired stays as it is. *)
Lemma expired_stays a (s s' : RSet) h rq : set_ok false s -> is_recovery a = false -> act (Dir := Dir) a s = Some s' ->
  req s h = Some rq -> rq_stage rq = Expired -> req s' h = Some rq.
Proof.
  intros Hset Hrec Ha Hrq Hst.
  assert (Hstage : forall n r id rq0 st l p, rs_nodes s !! n = Some r -> r_requests r !! id = Some rq0 -> rq_stage rq0 <> Expired ->
    req (mkReplicaSet l p (<[n := stage id st r]> (rs_nodes s))) h = Some rq).
  { intros n r id rq0 st l p Hn Hr0 Hne. rewrite (req_insert s n r) by done. case_decide as Hh; [|done].
    unfold req in Hrq. rewrite Hh, Hn in Hrq. simpl in *. rewrite lookup_alter_ne; [done|]. intros ->. congruence. }
  destruct a as [c|e|n nows|n b k ty|n id|n id|n id|n id|n|n nows|from to nows now]; try done; cbn [act] in Ha.
  - destruct (_ && _); [|done]. by injection Ha as <-.
  - destruct (may_commit _ _); [|done]. by injection Ha as <-.
  - apply on_node_inv in Ha as (r & r' & Hn & Hf & ->). unfold apply_batch in Hf. destruct (r_running r); [|done].
    destruct (apply_to_state_machine _ _) as [x d]. injection Hf as <-. by rewrite (same_requests s n r).
  - apply on_node_inv in Ha as (r & r' & Hn & Hf & ->). destruct (ok_nodes _ _ Hset n r Hn) as [_ Hrqs _].
    unfold request in Hf. simpl in Hf. destruct (_ && _); [|done]. injection Hf as <-. rewrite (req_insert s n r) by done.
    case_decide as Hh; [|done]. unfold req in Hrq. rewrite Hh, Hn in Hrq. simpl in *.
    rewrite lookup_insert_ne; [done|]. intros Hc. apply Hrqs in Hrq as [_ Hlt]. lia.
  - apply proposing_inv in Ha as (r & r' & cs & Hn & Hf & ->).
    apply (or_introl (B := drop_guard id r = Some (r', cs))), staged_inv in Hf as (rq0 & st & c & Hr0 & -> & -> & Hc).
    eapply Hstage; [done|done|destruct Hc as [(-> & _)|(-> & _)]; done].
  - apply on_node_inv in Ha as (r & r' & Hn & (rq0 & st & Hr0 & Hs0 & _ & ->)%verify_inv & ->). eapply Hstage; [done|done|congruence].
  - apply on_node_inv in Ha as (r & r' & Hn & (rq0 & Hr0 & Hs0 & ->)%expire_inv & ->). eapply Hstage; [done|done|destruct Hs0; congruence].
  - apply proposing_inv in Ha as (r & r' & cs & Hn & Hf & ->).
    apply (or_intror (A := try_acquire id r = Some (r', cs))), staged_inv in Hf as (rq0 & st & c & Hr0 & -> & -> & Hc).
    eapply Hstage; [done|done|destruct Hc as [(-> & _)|(-> & _)]; done].
Qed.
Lemma log_grows a (s s' : RSet) : act (Dir := Dir) a s = Some s' -> exists l, rs_log s' = rs_log s ++ l.
Proof.
  assert (Hnil : exists l, rs_log s = rs_log s ++ l) by (exists []; by rewrite app_nil_r).
  destruct a; cbn [act]; intros Ha.
  - destruct (_ && _); by simplify_eq/=.
  - destruct (may_commit _ _); simplify_eq/=. by eexists.
  - by apply on_node_inv in Ha as (? & ? & _ & _ & ->).
  - by apply on_node_inv in Ha as (? & ? & _ & _ & ->).
  - by apply proposing_inv in Ha as (? & ? & ? & _ & _ & ->).
  - by apply on_node_inv in Ha as (? & ? & _ & _ & ->).
  - by apply on_node_inv in Ha as (? & ? & _ & _ & ->).
  - by apply proposing_inv in Ha as (? & ? & ? & _ & _ & ->).
  - by apply on_node_inv in Ha as (? & ? & _ & _ & ->).
  - by apply on_node_inv in Ha as (? & ? & _ & _ & ->).
  - case_bool_decide; [done|]. by apply bind_Some in Ha as (? & _ & (? & _ & ([] & _ & [= <-])%bind_Some)%bind_Some).
Qed.

(** A lock that was committed for a request that had run into its timeout is held
    for ever: nobody has a guard for it, and whatever the nodes do afterwards, the
    lock table that the log leads to keeps its holder. *)
Theorem expired_lock_leaks (s s' : RSet) l h rq : reachable false s -> Forall (fun a => is_recovery a = false) l ->
  run_actions (Dir := Dir) l s = Some s' -> req s h = Some rq -> rq_stage rq = Expired ->
  lists_holder (history (log_commands (rs_log s))).2 (rq_bucket rq) (rq_key rq) h ->
  req s' h = Some rq /\ lists_holder (history (log_commands (rs_log s'))).2 (rq_bucket rq) (rq_key rq) h.
Proof.
  intros Hs Hl. revert s Hs. induction Hl as [|a l Ha _ IH]; intros s Hs; simpl; [by intros [= <-]|].
  intros (s1 & Hact & Hrun)%bind_Some Hrq Hst Hlist.
  assert (Hs1 : reachable false s1) by (eapply reachable_act; [done| |done]; congruence).
  pose proof (expired_stays _ _ _ _ _ (reachable_ok _ _ Hs) Ha Hact Hrq Hst) as Hrq1.
  apply (IH s1); [done|done|done|done|]. destruct (log_grows _ _ _ Hact) as [l' Hl'].
  rewrite Hl', log_commands_app, history_locks, foldl_app. apply listed_more; [by rewrite <- history_locks|].
  intros Hin. assert (Hp : ReleaseLock (rq_bucket rq) (rq_key rq) h ∈ rs_proposals s1).
  { apply (ok_log _ _ (reachable_ok _ _ Hs1)). rewrite Hl', log_commands_app. set_solver. }
  apply (lk_release _ (reachable_lock_ok _ Hs1)) in Hp as (rq' & Hrq' & Hd). congruence.
Qed.
End theory.

(** ** Witnesses *)
Module SetWit.
Import Mem MemCheckpoint.
Definition node (n : N) : Replica Mem.t := mkReplica Mem.empty 0 0 true (Manager.new n) ∅.
Definition s0 : ReplicaSet Mem.t := mkReplicaSet [] [] {[ 1%N := node 1; 2%N := node 2 ]}.
Definition h1 : LockHolder := mkLockHolder 1 0.
Definition h2 : LockHolder := mkLockHolder 2 0.
Definition entry (i : N) (c : Command) : Entry := mkEntry (mkLogId (mkCommittedLeaderId 1) i) (Normal c).
Definition ends (l : list Action) : option (ReplicaSet Mem.t) := run_actions (Dir := Dir) l s0.
Definition final (l : list Action) : ReplicaSet Mem.t := default s0 (ends l).
Lemma s0_reachable recovery : reachable (Dir := Dir) recovery s0.
Proof.
  apply reachable_init; [reflexivity..|]. intros n r Hr. unfold s0 in Hr. simpl in Hr.
  apply lookup_insert_Some in Hr as [[<- <-]|[_ [<- <-]%lookup_singleton_Some]];
    (split_and!; [apply StateMachine.Wit.R_empty|reflexivity..]).
Qed.
Definition ran (l : list Action) : bool := match ends l with Some _ => true | None => false end.
Lemma final_reachable recovery l : ran l = true -> Forall (fun a => is_recovery a = true -> recovery = true) l ->
  reachable (Dir := Dir) recovery (final l).
Proof.
  unfold ran, final. destruct (ends l) as [s|] eqn:Hs; [|done]. intros _ Hl. simpl.
  by eapply run_reachable; [apply s0_reachable| |].
Qed.

(** A request that is granted at once, with the entry at index [i]. *)
Definition locks (n : N) (i : N) (ty : LockType) : list Action :=
  [RequestLock n "photos" "k" ty; TryAcquire n 0; Commit (entry i (AcquireLock "photos" "k" ty (mkLockHolder n 0)));
   ApplyBatch n [0%Z]; Verify n 0].
(** Two readers, on two nodes. *)
Definition readers : list Action := locks 1 0 Read ++ [ApplyBatch 2 [0%Z]] ++ locks 2 1 Read ++ [ApplyBatch 1 [0%Z]].
Definition granted (ty : LockType) : LockRequest := mkLockRequest "photos" "k" ty Granted.
Lemma readers_granted : req (final readers) h1 = Some (granted Read) /\ req (final readers) h2 = Some (granted Read).
Proof. split; vm_compute; reflexivity. Qed.
Lemma cluster_mutual_exclusion_witness : reachable (Dir := Dir) false (final readers) /\ rq_type (granted Read) = Read.
Proof.
  assert (Hr : reachable (Dir := Dir) false (final readers)).
  { apply final_reachable; [vm_compute; reflexivity|repeat constructor; discriminate]. }
  split; [exact Hr|].
  refine (proj1 (cluster_mutual_exclusion (final readers) h1 h2 (granted Read) (granted Read) Hr
    (proj1 readers_granted) (proj2 readers_granted) _ _ _ _ _)); first [reflexivity|discriminate].
Defined.

(** With a restart the property fails.  The counter of the lock manager begins
    again at zero, so that the first request has the holder that the table still
    lists from before, and its write lock is granted beside the reader. *)
Example restart_breaks_exclusion : let l := readers ++ [Restart 1] ++ locks 1 2 Write in
  ran l = true /\ req (final l) h1 = Some (granted Write) /\ req (final l) h2 = Some (granted Read).
Proof. split_and!; vm_compute; reflexivity. Qed.

(** With a snapshot it fails as well.  The snapshot does not carry the lock
    table, so that the node that installed it grants a lock that is taken. *)
Example snapshot_breaks_exclusion : let l := locks 1 0 Write ++ [Transfer 1 2 [] 7] ++ locks 2 1 Write in
  ran l = true /\ req (final l) h1 = Some (granted Write) /\ req (final l) h2 = Some (granted Write).
Proof. split_and!; vm_compute; reflexivity. Qed.

(** Two puts of one object.  Node 1 crashes with the second one applied and not
    recorded.  It is started again, and while it builds a snapshot after the first
    put it applies the second one again: node 2, which installs the snapshot, has
    recorded the first put only and shows the second. *)
Definition obj : ObjectMetadata := StateMachine.Wit.obj.
Definition obj2 : ObjectMetadata := ObjectMetadata_new 9 "photos" "a/cat.png" 3 "e2".
Definition put_then_transfer : list Action :=
  [Propose (PutObjectMetadata obj2); Propose (PutObjectMetadata obj);
   Commit (entry 0 (PutObjectMetadata obj2)); Commit (entry 1 (PutObjectMetadata obj)); ApplyBatch 1 [5%Z]; Crash 1 [5%Z];
   Transfer 1 2 [6%Z] 7].
Definition node2 : Replica Mem.t := default (node 2) (rs_nodes (final put_then_transfer) !! 2%N).
Lemma transferred : reachable (Dir := Dir) true (final put_then_transfer).
Proof. apply final_reachable; [vm_compute; reflexivity|repeat constructor]. Qed.
Lemma node_there l n (r0 : Replica Mem.t) : match rs_nodes (final l) !! n with Some _ => true | None => false end = true ->
  rs_nodes (final l) !! n = Some (default r0 (rs_nodes (final l) !! n)).
Proof. destruct (rs_nodes (final l) !! n); [reflexivity|discriminate]. Qed.
Lemma node2_there : rs_nodes (final put_then_transfer) !! 2%N = Some node2.
Proof. apply node_there. vm_compute. reflexivity. Qed.
Lemma node2_runs : r_running node2 = true /\ r_applied node2 = 1 /\ r_seen node2 = 2.
Proof. split_and!; vm_compute; reflexivity. Qed.
Definition read2 := get_object_metadata "photos" "a/cat.png" (r_db node2).
(** Recorded is the first put, shown the second. *)
Example ahead_of_record : read2.1 = Ok obj /\ r_applied node2 = 1.
Proof. split; vm_compute; reflexivity. Qed.
Lemma nodes_follow_log_witness : r_applied node2 <= r_seen node2 <= length (rs_log (final put_then_transfer)).
Proof.
  exact (proj1 (nodes_follow_log true (final put_then_transfer) 2 node2 "photos" transferred node2_there eq_refl)).
Defined.

(** Node 2 applies the second entry as well and has recorded both then. *)
Definition replayed : list Action := put_then_transfer ++ [ApplyBatch 2 [8%Z]].
Definition node2' : Replica Mem.t := default (node 2) (rs_nodes (final replayed) !! 2%N).
Definition read2' := get_object_metadata "photos" "a/cat.png" (r_db node2').
Lemma node2_replayed : reachable (Dir := Dir) true (final replayed) /\ rs_nodes (final replayed) !! 2%N = Some node2' /\
  r_applied node2' = 2 /\ r_seen node2' = 2.
Proof.
  split_and!; [apply final_reachable; [vm_compute; reflexivity|repeat constructor]|apply node_there|..]; vm_compute; reflexivity.
Qed.
Lemma committed_put_visible_witness : read2'.1 = Ok obj \/ exists e, read2'.1 = Err e /\ fault ObjectMetadata (r_db node2') e.
Proof.
  destruct node2_replayed as (Hr & Hn & Ha & Hs).
  refine (committed_put_visible true (final replayed) 2 node2' 1 (entry 1 (PutObjectMetadata obj)) obj read2'.1 read2'.2
    Hr Hn _ _ _ _ _ _ _).
  - vm_compute. reflexivity.
  - reflexivity.
  - rewrite Ha. lia.
  - reflexivity.
  - vm_compute. reflexivity.
  - rewrite Hs. vm_compute. constructor.
  - apply surjective_pairing.
Defined.

(** The command of a request that timed out is committed after that, and the lock
    is never free again. *)
Definition late : list Action :=
  [RequestLock 1 "photos" "k" Write; TryAcquire 1 0; Expire 1 0; Commit (entry 0 (AcquireLock "photos" "k" Write h1)); ApplyBatch 2 [0%Z]].
Definition expired : LockRequest := mkLockRequest "photos" "k" Write Expired.
Definition after_late : option (ReplicaSet Mem.t) :=
  run_actions (Dir := Dir) [RequestLock 2 "photos" "k" Read; Expire 2 0] (final late).
Lemma expired_lock_leaks_witness : lists_holder (history (log_commands (rs_log (default s0 after_late)))).2 "photos" "k" h1.
Proof.
  assert (Hran : is_Some after_late).
  { assert (Hb : match after_late with Some _ => true | None => false end = true) by (vm_compute; reflexivity).
    destruct after_late; [by eexists|discriminate]. }
  refine (proj2 (expired_lock_leaks (final late) (default s0 after_late) [RequestLock 2 "photos" "k" Read; Expire 2 0] h1 expired _ _ _ _ _ _)).
  - apply final_reachable; [vm_compute; reflexivity|repeat constructor; discriminate].
  - repeat constructor.
  - fold after_late. destruct Hran as [s' Hs']. by rewrite Hs'.
  - vm_compute. reflexivity.
  - reflexivity.
  - exists (mkLockState Write [h1]). split; [vm_compute; reflexivity|by left].
Defined.
Example late_blocks : (try_acquire 0 <$> rs_nodes (default s0 (run_actions (Dir := Dir) [RequestLock 2 "photos" "k" Read] (final late))) !! 2%N)
  = Some None.
Proof. vm_compute. reflexivity. Qed.
End SetWit.
