(* ===== verification/S3Xml.v ===== *)
(** * save-common: S3 errors and XML responses

    Models [crates/save-common/src/s3_error.rs] and [s3_responses.rs].  A
    response is given to quick-xml through its [Serialize] instance; [ToXml] is
    that instance, as a tree of elements, and [XmlWriter] the writer.  The
    formats of chrono are the functions of [Chrono]. *)
From Stdlib Require Import Ascii.
From S2P Require Import Prelude Common.
From stdpp Require Import base strings numbers list.

(** What serde hands to the writer: elements with attributes, and text. *)
Inductive xml : Type :=
| Element (name : string) (attrs : list (string * string)) (children : list xml)
| Text (s : string).

(** [quick_xml::se]: the text, or the message of its error. *)
Class XmlWriter : Type := xml_write : xml -> result string string.

(** [to_rfc3339_opts(Millis, true)] and [format("%a, %d %b %Y %H:%M:%S GMT")]. *)
Class Chrono : Type := { rfc3339_millis : Z -> string; http_date : Z -> string }.

Definition dquote : string := String "034"%char EmptyString.
Definition newline : string := String "010"%char EmptyString.
Definition quoted (s : string) : string := dquote +:+ s +:+ dquote.
Definition xml_declaration : string :=
  "<?xml version=" +:+ quoted "1.0" +:+ " encoding=" +:+ quoted "UTF-8" +:+ "?>" +:+ newline.

(** A field: a text element, a repeated field, an optional one. *)
Definition field (name text : string) : xml := Element name [] [Text text].
Definition show_bool (b : bool) : string := if b then "true" else "false".

(** ** [s3_error.rs] *)
Inductive S3ErrorCode : Type :=
| AccessDenied | BucketAlreadyExists | BucketNotEmpty | InternalError | InvalidRequest
| NoSuchBucket | NoSuchKey | RequestTimeTooSkewed | ServiceUnavailable | SignatureDoesNotMatch.

#[export] Instance S3ErrorCode_eq_dec : EqDecision S3ErrorCode.
Proof. solve_decision. Defined.

Definition S3ErrorCode_to_string (c : S3ErrorCode) : string :=
  match c with
  | AccessDenied => "AccessDenied"
  | BucketAlreadyExists => "BucketAlreadyExists"
  | BucketNotEmpty => "BucketNotEmpty"
  | InternalError => "InternalError"
  | InvalidRequest => "InvalidRequest"
  | NoSuchBucket => "NoSuchBucket"
  | NoSuchKey => "NoSuchKey"
  | RequestTimeTooSkewed => "RequestTimeTooSkewed"
  | ServiceUnavailable => "ServiceUnavailable"
  | SignatureDoesNotMatch => "SignatureDoesNotMatch"
  end.

Record S3Error : Type := mkS3Error {
  code : S3ErrorCode; message : string; resource : string; request_id : string }.

(** [str::to_uppercase] of hexadecimal digits. *)
Definition upper_char (c : ascii) : ascii :=
  let n := nat_of_ascii c in
  if (97 <=? n) && (n <=? 122) then ascii_of_nat (n - 32) else c.
Fixpoint to_uppercase (s : string) : string :=
  match s with EmptyString => EmptyString | String c r => String (upper_char c) (to_uppercase r) end.

(** [uuid] is the new identifier in its simple form, 32 hexadecimal digits. *)
Definition generate_request_id (uuid : string) : string := to_uppercase (String.substring 0 16 uuid).

Section errors.
Context (uuid : string).

Definition S3Error_new (c : S3ErrorCode) (message resource : string) : S3Error :=
  mkS3Error c message resource (generate_request_id uuid).
Definition with_request_id (e : S3Error) (rid : string) : S3Error :=
  mkS3Error (code e) (message e) (resource e) rid.

Definition access_denied (resource : string) : S3Error := S3Error_new AccessDenied "Access Denied" resource.
Definition bucket_already_exists (bucket : string) : S3Error :=
  S3Error_new BucketAlreadyExists ("The requested bucket name '" +:+ bucket +:+ "' already exists") ("/" +:+ bucket).
Definition bucket_not_empty (bucket : string) : S3Error :=
  S3Error_new BucketNotEmpty "The bucket you tried to delete is not empty" ("/" +:+ bucket).
Definition internal_error (message : string) : S3Error := S3Error_new InternalError message "/".
Definition invalid_request (message : string) : S3Error := S3Error_new InvalidRequest message "/".
Definition no_such_bucket (bucket : string) : S3Error :=
  S3Error_new NoSuchBucket "The specified bucket does not exist" ("/" +:+ bucket).
Definition no_such_key (bucket key : string) : S3Error :=
  S3Error_new NoSuchKey "The specified key does not exist" ("/" +:+ bucket +:+ "/" +:+ key).
Definition request_time_too_skewed : S3Error :=
  S3Error_new RequestTimeTooSkewed
    "The difference between the request time and the server's time is too large" "/".
Definition service_unavailable (message : string) : S3Error := S3Error_new ServiceUnavailable message "/".
Definition signature_does_not_match : S3Error :=
  S3Error_new SignatureDoesNotMatch
    "The request signature we calculated does not match the signature you provided" "/".
End errors.

(** ** [s3_responses.rs] *)
Definition S3_XMLNS : string := "http://s3.amazonaws.com/doc/2006-03-01/".
Definition xmlns : list (string * string) := [("xmlns", S3_XMLNS)].

Inductive SerializationError : Type :=
| XmlSerialization (msg : string)
| XmlDeserialization (msg : string).
Definition SerializationError_to_string (e : SerializationError) : string :=
  match e with
  | XmlSerialization m => "XML serialization failed: " +:+ m
  | XmlDeserialization m => "XML deserialization failed: " +:+ m
  end.

Inductive StorageClass : Type := Standard.
Definition StorageClass_as_str (c : StorageClass) : string := match c with Standard => "STANDARD" end.

Record Owner : Type := mkOwner { owner_id : string; display_name : string }.
Record BucketEntry : Type := mkBucketEntry { be_name : string; be_creation_date : Z }.
Record ListAllMyBucketsResult : Type := mkListAllMyBuckets { lab_owner : Owner; lab_buckets : list BucketEntry }.
Record ObjectEntry : Type := mkObjectEntry {
  oe_key : string; oe_last_modified : Z; oe_etag : string; oe_size : N; oe_storage_class : StorageClass }.
Record ListBucketResult : Type := mkListBucketResult {
  lb_name : string; lb_prefix : string; lb_marker : string; lb_max_keys : nat; lb_is_truncated : bool;
  lb_contents : list ObjectEntry }.
Record ListBucketResultV2 : Type := mkListBucketResultV2 {
  l2_name : string; l2_prefix : string; l2_max_keys : nat; l2_is_truncated : bool; l2_key_count : nat;
  l2_continuation_token : string; l2_next_continuation_token : option string; l2_contents : list ObjectEntry }.
Record InitiateMultipartUploadResult : Type := mkInitiateResult {
  im_bucket : string; im_key : string; im_upload_id : string }.
Record CompleteMultipartUploadResult : Type := mkCompleteResult {
  cm_location : string; cm_bucket : string; cm_key : string; cm_etag : string }.
Record UploadEntry : Type := mkUploadEntry { ue_key : string; ue_upload_id : string; ue_initiated : Z }.
Record ListMultipartUploadsResult : Type := mkListUploadsResult { lu_bucket : string; lu_upload : list UploadEntry }.

Definition ListAllMyBucketsResult_new (buckets : list (string * Z)) (owner : string) : ListAllMyBucketsResult :=
  mkListAllMyBuckets (mkOwner owner owner) ((fun '(n, t) => mkBucketEntry n t) <$> buckets).

(** A listed object: its key, time, etag and size. *)
Abbreviation Listed := (string * Z * string * N)%type.
Definition object_entry : Listed -> ObjectEntry := fun '(k, t, e, s) => mkObjectEntry k t e s Standard.

Definition ListBucketResult_new (name : string) (prefix marker : option string) (max_keys : nat)
    (is_truncated : bool) (contents : list Listed) : ListBucketResult :=
  mkListBucketResult name (default "" prefix) (default "" marker) max_keys is_truncated (object_entry <$> contents).

Definition ListBucketResultV2_new (name : string) (prefix token : option string) (max_keys : nat)
    (is_truncated : bool) (contents : list Listed) : ListBucketResultV2 :=
  mkListBucketResultV2 name (default "" prefix) max_keys is_truncated (length contents) (default "" token)
    (if is_truncated then (fun '(k, _, _, _) => k) <$> list.last contents else None)
    (object_entry <$> contents).

Definition InitiateMultipartUploadResult_new (bucket key upload_id : string) : InitiateMultipartUploadResult :=
  mkInitiateResult bucket key upload_id.
Definition CompleteMultipartUploadResult_new (bucket key etag endpoint : string) : CompleteMultipartUploadResult :=
  mkCompleteResult (endpoint +:+ "/" +:+ bucket +:+ "/" +:+ key) bucket key etag.
Definition ListMultipartUploadsResult_new (bucket : string) (uploads : list (string * string * Z))
  : ListMultipartUploadsResult :=
  mkListUploadsResult bucket ((fun '(k, u, t) => mkUploadEntry k u t) <$> uploads).

(** *** Serialisation *)
Class ToXml (A : Type) : Type := serialize : A -> xml.

Section serialize.
Context `{Chrono}.

#[export] Instance S3Error_xml : ToXml S3Error := fun e =>
  Element "Error" []
    [field "Code" (S3ErrorCode_to_string (code e)); field "Message" (message e);
     field "Resource" (resource e); field "RequestId" (request_id e)].

#[export] Instance ListAllMyBucketsResult_xml : ToXml ListAllMyBucketsResult := fun r =>
  Element "ListAllMyBucketsResult" xmlns
    [Element "Owner" [] [field "ID" (owner_id (lab_owner r)); field "DisplayName" (display_name (lab_owner r))];
     Element "Buckets" []
       ((fun b => Element "Bucket" []
           [field "Name" (be_name b); field "CreationDate" (rfc3339_millis (be_creation_date b))]) <$> lab_buckets r)].

Definition contents_xml (o : ObjectEntry) : xml :=
  Element "Contents" []
    [field "Key" (oe_key o); field "LastModified" (rfc3339_millis (oe_last_modified o));
     field "ETag" (oe_etag o); field "Size" (show (oe_size o));
     field "StorageClass" (StorageClass_as_str (oe_storage_class o))].

#[export] Instance ListBucketResult_xml : ToXml ListBucketResult := fun r =>
  Element "ListBucketResult" xmlns
    ([field "Name" (lb_name r); field "Prefix" (lb_prefix r); field "Marker" (lb_marker r);
      field "MaxKeys" (show_nat (lb_max_keys r)); field "IsTruncated" (show_bool (lb_is_truncated r))]
     ++ (contents_xml <$> lb_contents r)).

(** An empty continuation token and an absent next one are skipped. *)
#[export] Instance ListBucketResultV2_xml : ToXml ListBucketResultV2 := fun r =>
  Element "ListBucketResult" xmlns
    ([field "Name" (l2_name r); field "Prefix" (l2_prefix r); field "MaxKeys" (show_nat (l2_max_keys r));
      field "IsTruncated" (show_bool (l2_is_truncated r)); field "KeyCount" (show_nat (l2_key_count r))]
     ++ (if bool_decide (l2_continuation_token r = "") then []
         else [field "ContinuationToken" (l2_continuation_token r)])
     ++ match l2_next_continuation_token r with Some t => [field "NextContinuationToken" t] | None => [] end
     ++ (contents_xml <$> l2_contents r)).

#[export] Instance InitiateMultipartUploadResult_xml : ToXml InitiateMultipartUploadResult := fun r =>
  Element "InitiateMultipartUploadResult" xmlns
    [field "Bucket" (im_bucket r); field "Key" (im_key r); field "UploadId" (im_upload_id r)].

#[export] Instance CompleteMultipartUploadResult_xml : ToXml CompleteMultipartUploadResult := fun r =>
  Element "CompleteMultipartUploadResult" xmlns
    [field "Location" (cm_location r); field "Bucket" (cm_bucket r); field "Key" (cm_key r);
     field "ETag" (cm_etag r)].

#[export] Instance ListMultipartUploadsResult_xml : ToXml ListMultipartUploadsResult := fun r =>
  Element "ListMultipartUploadsResult" xmlns
    (field "Bucket" (lu_bucket r) ::
     ((fun u => Element "Upload" []
         [field "Key" (ue_key u); field "UploadId" (ue_upload_id u);
          field "Initiated" (rfc3339_millis (ue_initiated u))]) <$> lu_upload r)).

Context `{XmlWriter}.

(** [S3XmlResponse::to_xml]. *)
Definition to_xml {A} `{ToXml A} (a : A) : result SerializationError string :=
  text ← map_err XmlSerialization (xml_write (serialize a)); Ok (xml_declaration +:+ text).

(** [S3Error::to_xml] falls back to a fixed text. *)
Definition S3Error_to_xml (e : S3Error) : string :=
  xml_declaration +:+
  match xml_write (serialize e) with
  | Ok text => text
  | Err _ => "<Error><Code>InternalError</Code><Message>Failed to serialize error</Message></Error>"
  end.
End serialize.
