(* ===== verification/Api.v ===== *)
(** * save-api: errors, responses and the state the handlers share

    Models [handlers/error.rs], [handlers/mod.rs] and [state.rs] of
    [crates/save-api/src].  A handler is a computation on [App] that returns a
    response or an [ApiError], or panics.  The Raft node is the class [NodeRaft]:
    a replicated write returns after the command was applied to the local
    database; [node_raft] is its instance over the node of RaftNode.v. *)
From Stdlib Require Import Strings.Byte Ascii.
From S2P Require Import Prelude Common Config Kv Fs ObjectStorage StorageBackend Buckets Objects Multipart.
From S2P Require Import Locks StateMachine MetadataStore RaftNode S3Xml.
From stdpp Require Import base gmap strings numbers list.

(** ** [handlers/error.rs] *)
Module ApiError.
Inductive t : Type :=
| BucketNotFound (bucket : string)
| BucketAlreadyExists (bucket : string)
| BucketNotEmpty (bucket : string)
| ObjectNotFound (bucket key : string)
| InvalidRequest (msg : string)
| Unauthorized
| RequestTimeTooSkewed
| SignatureDoesNotMatch
| InvalidSignatureException (msg : string)
| Internal (msg : string).

Definition internal (msg : string) : t := Internal msg.

Definition to_s3_error (uuid : string) (e : t) : S3Error :=
  match e with
  | BucketNotFound bucket => no_such_bucket uuid bucket
  | BucketAlreadyExists bucket => bucket_already_exists uuid bucket
  | BucketNotEmpty bucket => bucket_not_empty uuid bucket
  | ObjectNotFound bucket key => no_such_key uuid bucket key
  | InvalidRequest msg => invalid_request uuid msg
  | Unauthorized => access_denied uuid "/"
  | RequestTimeTooSkewed => request_time_too_skewed uuid
  | SignatureDoesNotMatch => signature_does_not_match uuid
  | InvalidSignatureException msg => invalid_request uuid msg
  | Internal _ => internal_error uuid "We encountered an internal error. Please try again."
  end.

Definition status_code (e : t) : N :=
  match e with
  | BucketNotFound _ | ObjectNotFound _ _ => 404
  | BucketAlreadyExists _ | BucketNotEmpty _ => 409
  | InvalidRequest _ => 400
  | Unauthorized | RequestTimeTooSkewed | SignatureDoesNotMatch | InvalidSignatureException _ => 403
  | Internal _ => 500
  end.

Definition error_type (e : t) : string :=
  match e with
  | BucketNotFound _ | BucketAlreadyExists _ | BucketNotEmpty _ | ObjectNotFound _ _ => "metadata"
  | Unauthorized | RequestTimeTooSkewed | SignatureDoesNotMatch | InvalidSignatureException _ => "auth"
  | InvalidRequest _ => "validation"
  | Internal _ => "internal"
  end.
End ApiError.

(** ** Responses *)
Inductive Body : Type :=
| NoBody
| TextBody (text : string)
| StreamBody (r : Reader).
Record Response : Type := mkResponse { status : N; headers : list (string * string); resp_body : Body }.

(** [IntoResponse for ApiError]; [uuid] is the identifier drawn for the request
    id. *)
Definition into_response `{XmlWriter} (uuid : string) (e : ApiError.t) : Response :=
  let s3_error := ApiError.to_s3_error uuid e in
  mkResponse (ApiError.status_code e)
    [("content-type", "application/xml"); ("x-amz-request-id", request_id s3_error)]
    (TextBody (S3Error_to_xml s3_error)).

(** ** [state.rs]: the bucket cache *)
Record BucketCache : Type := mkBucketCache { bc_cache : gmap string N; bc_ttl : N }.
Definition BucketCache_new (ttl : N) : BucketCache := mkBucketCache ∅ ttl.
Definition cache_contains (now : N) (bucket : string) (c : BucketCache) : bool :=
  match bc_cache c !! bucket with
  | Some t => (now - t <? bc_ttl c)%N
  | None => false
  end.
Definition cache_insert (now : N) (bucket : string) (c : BucketCache) : BucketCache :=
  mkBucketCache (<[bucket := now]> (bc_cache c)) (bc_ttl c).
Definition cache_remove (bucket : string) (c : BucketCache) : BucketCache :=
  mkBucketCache (delete bucket (bc_cache c)) (bc_ttl c).
Definition cleanup_expired (now : N) (c : BucketCache) : BucketCache :=
  mkBucketCache (filter (fun kv => (now - kv.2 < bc_ttl c)%N) (bc_cache c)) (bc_ttl c).

(** ** The Raft node *)
Class NodeRaft (DB : Type) : Type := {
  nr_write : Command -> M DB MetadataError unit;
  nr_ensure_linearizable : M DB MetadataError unit;
  nr_abandoned : Command -> DB -> DB;
  nr_elapse : DB -> DB;
}.

(** The metadata of [d'] is that of [d] after the command, applied with the answer
    [r]. *)
Definition applied {DB} `{RocksDBLaws DB, Codec Bucket, Codec ObjectMetadata, Codec LockState}
    (c : Command) (d : DB) (r : result StateMachine.StorageError unit) (d' : DB) : Prop :=
  exists now d0 d1, meta d0 = meta d /\ apply_command now c d0 = (r, d1) /\ meta d' = meta d1.

(** What the handlers rely on: a write that returns [Ok] has applied its command,
    one that failed, or was abandoned, may have.  The laws describe a request during
    which nothing else is applied to the database: what other requests do between
    the steps of a handler is the subject of [ReplicaSet] for the locks, and is
    not covered by the theorems on single requests. *)
Class NodeRaftLaws (DB : Type) `{RocksDBLaws DB, Codec Bucket, Codec ObjectMetadata, Codec LockState, NodeRaft DB}
  : Prop := {
  nr_write_ok : forall c d d', nr_write c d = (Ok tt, d') -> applied c d (Ok tt) d';
  nr_write_err : forall c d e d', nr_write c d = (Err e, d') -> meta d' = meta d \/ exists r, applied c d r d';
  nr_linearizable_meta : keeps (fun d d' => meta d' = meta d) nr_ensure_linearizable;
  nr_abandoned_meta : forall c d, meta (nr_abandoned c d) = meta d \/ exists r, applied c d r (nr_abandoned c d);
  nr_elapse_meta : forall d, meta (nr_elapse d) = meta d;
}.

#[export] Instance node_locks {DB} `{NodeRaft DB} : Manager.LockRaft DB := {
  Manager.raft_acquire_lock b k ty h := nr_write (AcquireLock b k ty h);
  Manager.raft_release_lock b k h := nr_write (ReleaseLock b k h);
  Manager.abandoned b k ty h := nr_abandoned (AcquireLock b k ty h);
  Manager.elapse := nr_elapse;
}.

Definition LockError_to_string (e : Manager.LockError) : string :=
  match e with
  | Manager.Timeout => "Failed to acquire lock within timeout"
  | Manager.AcquisitionFailed m => "Lock acquisition failed: " +:+ m
  end.

(** ** The state and the monad of the handlers *)
Record App (DB B : Type) : Type := mkApp {
  app_db : DB;
  app_store : B;
  bucket_cache : BucketCache;
  lock_manager : Manager.t;
  multipart_uploads_in_progress : Z;   (* the gauge *)
}.
Arguments mkApp {DB B}. Arguments app_db {DB B}. Arguments app_store {DB B}. Arguments bucket_cache {DB B}.
Arguments lock_manager {DB B}. Arguments multipart_uploads_in_progress {DB B}.

Section monad.
Context {DB B : Type}.
Abbreviation A0 := (App DB B).
Abbreviation Handler := (PM A0 ApiError.t).

Definition set_db (a : A0) (d : DB) : A0 :=
  mkApp d (app_store a) (bucket_cache a) (lock_manager a) (multipart_uploads_in_progress a).
Definition set_store (a : A0) (b : B) : A0 :=
  mkApp (app_db a) b (bucket_cache a) (lock_manager a) (multipart_uploads_in_progress a).
Definition set_cache (a : A0) (c : BucketCache) : A0 :=
  mkApp (app_db a) (app_store a) c (lock_manager a) (multipart_uploads_in_progress a).
Definition set_locks (a : A0) (m : Manager.t) : A0 :=
  mkApp (app_db a) (app_store a) (bucket_cache a) m (multipart_uploads_in_progress a).
Definition set_gauge (a : A0) (g : Z) : A0 :=
  mkApp (app_db a) (app_store a) (bucket_cache a) (lock_manager a) g.

Definition fail {X} (e : ApiError.t) : Handler X := fun a => (Some (Err e), a).
Definition asks {X} (f : A0 -> X) : Handler X := fun a => (Some (Ok (f a)), a).
Definition modify (f : A0 -> A0) : Handler unit := fun a => (Some (Ok tt), f a).
(** [.map_err(err)?] on an operation of the metadata store or the Raft node, on
    one of the storage backend, and on a pure one. *)
Definition on_db {X} (err : MetadataError -> ApiError.t) (c : M DB MetadataError X) : Handler X := fun a =>
  let '(r, d) := c (app_db a) in (Some (map_err err r), set_db a d).
Definition on_store {X} (err : StorageError.t -> ApiError.t) (c : PM B StorageError.t X) : Handler X := fun a =>
  let '(r, b) := c (app_store a) in (map_err err <$> r, set_store a b).
Definition checked {X} (r : result Error.t X) : Handler X := fun a =>
  (Some (map_err (fun e => ApiError.InvalidRequest (Error.to_string e)) r), a).
Definition rendered (r : result SerializationError string) : Handler string := fun a =>
  (Some (map_err (fun e => ApiError.internal ("Failed to serialize response: " +:+ SerializationError_to_string e)) r), a).

Definition metadata_error (what : string) (e : MetadataError) : ApiError.t :=
  ApiError.internal (what +:+ MetadataError_to_string e).
Definition storage_error (what : string) (e : StorageError.t) : ApiError.t :=
  ApiError.internal (what +:+ StorageError.to_string e).
End monad.

Definition xml_response (text : string) : Response := mkResponse 200 [("content-type", "application/xml")] (TextBody text).
Definition no_content : Response := mkResponse 204 [] NoBody.

Section handlers.
Context {DB B : Type} `{RocksDB DB, NodeRaft DB} `{Codec Bucket} `{Codec LockState}.
(** The configuration; [spawn_blocking] of MetadataStore.v; the readings of
    [Instant::now()]; the awaits a lock acquisition completes before its
    timeout. *)
Context (config : SaveConfig) (join_error : DB -> option (string * DB)) (instant : App DB B -> N)
  (lock_awaits : App DB B -> nat).
Abbreviation Handler := (PM (App DB B) ApiError.t).

(** The lock is held while [c] runs and released when its guard is dropped, at
    every return and on a panic. *)
Definition with_lock {X} (ty : LockType) (bucket key : string) (c : Handler X) : Handler X := fun a =>
  let '(r, w, m) := Manager.acquire_lock_internal MetadataError_to_string (lock_manager a) bucket key ty
    (app_db a, lock_awaits a) in
  let a1 := set_locks (set_db a w.1) m in
  match r with
  | Err e => (Some (Err (ApiError.internal ("Failed to acquire object lock: " +:+ LockError_to_string e))), a1)
  | Ok g => let '(x, a2) := c a1 in (x, set_db a2 (Manager.drop_guard g (app_db a2)))
  end.

Definition ensure_read_consistency : Handler unit :=
  match consistency_mode (cluster config) with
  | Strong => on_db (metadata_error "Consistency check failed: ") nr_ensure_linearizable
  | Eventual => mret tt
  end.

Definition bucket_error (bucket what : string) (e : MetadataError) : ApiError.t :=
  match e with
  | BucketNotFound _ => ApiError.BucketNotFound bucket
  | _ => metadata_error what e
  end.

Definition validate_bucket_exists (bucket : string) : Handler unit :=
  known ← asks (fun a => cache_contains (instant a) bucket (bucket_cache a));
  if known : bool then mret tt
  else
    on_db (bucket_error bucket "Metadata error: ") (MetadataStore.get_bucket join_error bucket) ;;
    modify (fun a => set_cache a (cache_insert (instant a) bucket (bucket_cache a))).

(** [AppState::with_storage]. *)
Definition with_storage (store : B) (db : DB) (node_id : N) : App DB B :=
  mkApp db store (BucketCache_new (bucket_cache_ttl_secs (server config) * 1000000000))
    (Manager.new node_id) 0.
End handlers.

(** ** Lemmas *)

(** The metadata but for the lock table. *)
Definition same_data {DB} `{RocksDBLaws DB} (d d' : DB) : Prop :=
  forall key, starts_with "lock:" key = false -> meta d' !! key = meta d !! key.
#[export] Instance same_data_preorder {DB} `{RocksDBLaws DB} : PreOrder (same_data (DB := DB)).
Proof. split; [done|]. intros d d1 d2 Ha Hb key Hk. by rewrite Hb, Ha. Qed.

Section theory.
Context {DB B : Type} `{NodeRaftLaws DB}.
Implicit Types (d : DB) (a : App DB B).

Lemma same_data_meta d d' : meta d' = meta d -> same_data d d'.
Proof. intros Hm key _. by rewrite Hm. Qed.

Lemma lock_key_lock b k : starts_with "lock:" (lock_key b k) = true.
Proof. done. Qed.
Lemma lock_entry_data {A} `{Codec A} d d' b k (s : option A) : entry_is d d' (lock_key b k) s -> same_data d d'.
Proof. intros [_ Hf] key Hk. apply Hf. intros ->. by rewrite lock_key_lock in Hk. Qed.

Lemma put_raw_data b k v : keeps same_data (put_raw (DB := DB) (lock_key b k) v).
Proof.
  intros d r d' [[_ Hm]|[-> _]]%put_raw_spec; [|done]. intros key Hk. rewrite Hm, lookup_insert_ne; [done|].
  intros <-. by rewrite lock_key_lock in Hk.
Qed.
Lemma delete_raw_data b k : keeps same_data (delete_raw (DB := DB) (lock_key b k)).
Proof.
  intros d r d' [[_ Hm]|[-> _]]%delete_raw_spec; [|done]. intros key Hk. rewrite Hm, lookup_delete_ne; [done|].
  intros <-. by rewrite lock_key_lock in Hk.
Qed.
Lemma get_raw_data k : keeps same_data (get_raw (DB := DB) k).
Proof. by intros d r d' [-> _]%get_raw_spec. Qed.

Lemma lock_command_data now c d r d' :
  match c with AcquireLock _ _ _ _ | ReleaseLock _ _ _ => True | _ => False end ->
  apply_command now c d = (r, d') -> same_data d d'.
Proof.
  assert (Hput : forall b k (s : LockState), keeps same_data (put_enc (DB := DB) (lock_key b k) s)).
  { intros b k s. unfold put_enc. apply keeps_bind; [apply _|apply keeps_lift, _|intros v; apply put_raw_data]. }
  assert (Hget : forall b k, keeps same_data (get_lock_state (DB := DB) b k)).
  { intros b k. unfold get_lock_state. apply keeps_bind; [apply _|apply get_raw_data|intros o]. solve_frame. }
  intros Hc. revert d r d'. destruct c as [| | | |b k ty h|b k h]; try done; simpl;
    (apply keeps_bind; [apply _|apply keeps_with_err|intros _; apply keeps_ret, _]).
  - unfold acquire_lock. apply keeps_bind; [apply _|apply Hget|intros o].
    pose proof (Hput b k). solve_frame.
  - unfold release_lock. apply keeps_bind; [apply _|apply Hget|intros o]. pose proof (Hput b k).
    destruct o as [s|]; [|apply keeps_ret, _]. apply keeps_bind; [apply _| |intros _; apply keeps_ret, _].
    case_match; [apply delete_raw_data|done].
Qed.

(** A write changes the metadata as its command does, or not at all. *)
Lemma write_cases c d r d' : nr_write c d = (r, d') ->
  match r with
  | Ok _ => applied c d (Ok tt) d'
  | Err _ => meta d' = meta d \/ exists r, applied c d r d'
  end.
Proof. destruct r as [[]|e]; [apply nr_write_ok|apply nr_write_err]. Qed.

Lemma applied_lock_data c d r d' : match c with AcquireLock _ _ _ _ | ReleaseLock _ _ _ => True | _ => False end ->
  applied c d r d' -> same_data d d'.
Proof.
  intros Hc (now & d0 & d1 & H0m & Ha & H1m). trans d0; [by apply same_data_meta|].
  trans d1; [by eapply lock_command_data|by apply same_data_meta].
Qed.

Lemma lock_write_data c : match c with AcquireLock _ _ _ _ | ReleaseLock _ _ _ => True | _ => False end ->
  keeps same_data (nr_write c).
Proof.
  intros Hc d r d' Hw%write_cases. destruct r; [by eapply applied_lock_data|].
  destruct Hw as [?|[x Ha]]; [by apply same_data_meta|by eapply applied_lock_data].
Qed.

Lemma abandoned_data c d : match c with AcquireLock _ _ _ _ | ReleaseLock _ _ _ => True | _ => False end ->
  same_data d (nr_abandoned c d).
Proof.
  intros Hc. destruct (nr_abandoned_meta c d) as [?|[x Ha]]; [by apply same_data_meta|by eapply applied_lock_data].
Qed.

Lemma try_acquire_data ts b k ty h w r w' :
  Manager.try_acquire_lock ts b k ty h w = (r, w') -> same_data w.1 w'.1.
Proof.
  set (P := fun w w' : DB * nat => same_data w.1 w'.1).
  assert (HP : PreOrder P) by (unfold P; split; [done|intros x y z ??; by trans y.1]).
  assert (Hloc : forall A (c : M DB MetadataError A), keeps same_data c -> keeps P (Manager.local ts c)).
  { intros A c Hc [d n] x w1. unfold Manager.local. simpl. destruct (c d) as [y d1] eqn:Hd.
    intros [= _ <-]. by eapply Hc. }
  assert (Hget : keeps P (Manager.local ts (get_lock_state (DB := DB) b k))).
  { apply Hloc. unfold get_lock_state. apply keeps_bind; [apply _|apply get_raw_data|intros o]. solve_frame. }
  revert w r w'.
  assert (Hk : keeps P (Manager.try_acquire_lock ts b k ty h)); [|exact Hk].
  unfold Manager.try_acquire_lock. apply keeps_bind; [done| |intros can].
  { unfold Manager.can_acquire_locally. apply keeps_bind; [done|done|intros s]. solve_frame. }
  destruct (negb can); [apply keeps_ret, _|]. apply keeps_bind; [done| |intros _].
  - intros [d [|n]] x w1; unfold Manager.await; simpl.
    + intros [= _ <-]. by apply abandoned_data.
    + intros Hr. eapply Hloc in Hr; [exact Hr|by apply lock_write_data].
  - apply keeps_bind; [done|done|intros s]. apply keeps_ret, _.
Qed.

Lemma acquire_data ts n b k ty h w r w' : Manager.acquire_loop ts n b k ty h w = (r, w') -> same_data w.1 w'.1.
Proof.
  revert w. induction n as [|n IH]; intros w; simpl; [by intros [= _ <-]|].
  intros [(ok & w1 & Ht%try_acquire_data & Hr)|(e & Ht%try_acquire_data & _)]%bind_inv; [|done].
  trans w1.1; [done|]. destruct ok; [by injection Hr as _ <-|].
  assert (Hsl : forall x w2, Manager.sleep ts w1 = (x, w2) -> same_data w1.1 w2.1).
  { intros x w2. unfold Manager.sleep, Manager.await. destruct w1 as [d [|m]]; simpl; [by intros [= _ <-]|].
    intros [= _ <-]. apply same_data_meta, nr_elapse_meta. }
  apply bind_inv in Hr as [([] & w2 & Hs%Hsl & Hr)|(e & Hs%Hsl & _)]; [|done]. trans w2.1; [done|by eapply IH].
Qed.

Lemma acquire_internal_data ts m b k ty w r w' m' :
  Manager.acquire_lock_internal ts m b k ty w = (r, w', m') -> same_data w.1 w'.1.
Proof.
  unfold Manager.acquire_lock_internal. destruct (Manager.next_holder m) as [h m1].
  intros [= Hl _]. exact (acquire_data ts (S w.2) b k ty h w r w' Hl).
Qed.

(** The state but for the database and the lock manager. *)
Definition same_rest a a' : Prop :=
  app_store a' = app_store a /\ bucket_cache a' = bucket_cache a /\
  multipart_uploads_in_progress a' = multipart_uploads_in_progress a.

(** A locked section runs on the data it found, and the lock's release leaves
    the data it wrote; without the lock nothing happens. *)
Lemma with_lock_inv {X} awaits ty b k (c : PM (App DB B) ApiError.t X) a x a' :
  with_lock awaits ty b k c a = (x, a') ->
  (exists a1 a2, c a1 = (x, a2) /\ same_data (app_db a) (app_db a1) /\ same_rest a a1 /\
     same_data (app_db a2) (app_db a') /\ same_rest a2 a') \/
  (exists m, x = Some (Err (ApiError.Internal m)) /\ same_data (app_db a) (app_db a') /\ same_rest a a').
Proof.
  unfold with_lock.
  destruct (Manager.acquire_lock_internal _ _ _ _ _ _) as [[r w] m] eqn:Hl.
  apply acquire_internal_data in Hl. simpl in Hl. destruct r as [g|e].
  - destruct (c _) as [y a2] eqn:Hc. intros [= <- <-]. left.
    exists (set_locks (set_db a w.1) m), a2.
    split_and!; [exact Hc|done|done..| |done]. simpl. unfold Manager.drop_guard.
    destruct (Manager.raft_release_lock _ _ _ _) as [z d] eqn:Hr. by eapply lock_write_data in Hr.
  - intros [= <- <-]. right. eexists. by split_and!.
Qed.

Lemma on_db_inv {X} err (c : M DB MetadataError X) a r a' : on_db err c a = (r, a') ->
  exists x d, c (app_db a) = (x, d) /\ r = Some (map_err err x) /\ a' = set_db a d.
Proof. unfold on_db. destruct (c (app_db a)) as [x d]. intros [= <- <-]. eauto. Qed.
Lemma on_store_inv {X} err (c : PM B StorageError.t X) a r a' : on_store err c a = (r, a') ->
  exists x b, c (app_store a) = (x, b) /\ r = map_err err <$> x /\ a' = set_store a b.
Proof. unfold on_store. destruct (c (app_store a)) as [x b]. intros [= <- <-]. eauto. Qed.

Lemma checked_ok {X} (v : result Error.t X) x a a' : checked v a = (Some (Ok x), a') -> v = Ok x /\ a' = a.
Proof. unfold checked. destruct v; intros [=]; simplify_eq/=; done. Qed.

(** The checks at the start of a handler: they leave the state as it is. *)
Lemma checked_bind {X Y} (v : result Error.t X) (c : X -> PM (App DB B) ApiError.t Y) a r a' :
  (x ← checked v; c x) a = (r, a') ->
  (exists x, v = Ok x /\ c x a = (r, a')) \/
  (exists e, v = Err e /\ r = Some (Err (ApiError.InvalidRequest (Error.to_string e))) /\ a' = a).
Proof. destruct v as [x|e]; [by eauto|]. intros [= <- <-]. eauto. Qed.
Lemma asks_bind {X Y} (f : App DB B -> X) (c : X -> PM (App DB B) ApiError.t Y) a r a' :
  (x ← asks f; c x) a = (r, a') -> c (f a) a = (r, a').
Proof. done. Qed.
Lemma on_db_bind {X Y} err (c : M DB MetadataError X) (k : X -> PM (App DB B) ApiError.t Y) a r a' :
  (x ← on_db err c; k x) a = (r, a') ->
  (exists x d, c (app_db a) = (Ok x, d) /\ k x (set_db a d) = (r, a')) \/
  (exists e d, c (app_db a) = (Err e, d) /\ r = Some (Err (err e)) /\ a' = set_db a d).
Proof.
  unfold mbind, PM_bind, on_db. destruct (c (app_db a)) as [[x|e] d]; simpl; [by eauto|]. intros [= <- <-]. eauto 6.
Qed.
Lemma on_store_bind {X Y} err (c : PM B StorageError.t X) (k : X -> PM (App DB B) ApiError.t Y) a r a' :
  (x ← on_store err c; k x) a = (r, a') ->
  (exists x b, c (app_store a) = (Some (Ok x), b) /\ k x (set_store a b) = (r, a')) \/
  (exists e b, c (app_store a) = (Some (Err e), b) /\ r = Some (Err (err e)) /\ a' = set_store a b) \/
  (exists b, c (app_store a) = (None, b) /\ r = None /\ a' = set_store a b).
Proof.
  unfold mbind, PM_bind, on_store. destruct (c (app_store a)) as [[[x|e]|] b]; simpl; [by eauto| |];
    intros [= <- <-]; eauto 8.
Qed.
End theory.

(** *** Reads of the metadata store *)
Section reads.
Context {DB B : Type} `{NodeRaftLaws DB}.
Context (join_error : DB -> option (string * DB)).
(** A blocking task that dies has changed no data. *)
Context (join_keeps : forall d e d', join_error d = Some (e, d') -> same_data d d').
Implicit Types (d : DB) (a : App DB B).

Lemma spawn_read {A} (c : M DB MetadataError A) : keeps eq c -> keeps same_data (MetadataStore.spawn_blocking join_error c).
Proof.
  intros Hc d r d'. unfold MetadataStore.spawn_blocking. destruct (join_error d) as [[e d1]|] eqn:Hj.
  - intros [= _ <-]. by eapply join_keeps.
  - intros <-%Hc. done.
Qed.
Lemma spawn_Ok {A} (c : M DB MetadataError A) d x d' :
  MetadataStore.spawn_blocking join_error c d = (Ok x, d') -> c d = (Ok x, d').
Proof. unfold MetadataStore.spawn_blocking. by destruct (join_error d) as [[]|]. Qed.
Lemma get_bucket_pure n : keeps eq (Buckets.get_bucket (DB := DB) n).
Proof.
  unfold Buckets.get_bucket. apply keeps_bind; [apply _|apply keeps_lift, _|intros _].
  apply keeps_bind; [apply _|by intros d r d' [-> _]%get_raw_spec|intros o]. solve_frame.
Qed.
Lemma list_objects_pure b p : keeps eq (Objects.list_objects (DB := DB) b p).
Proof. unfold Objects.list_objects, scan_raw. apply keeps_reads, _. Qed.

(** What a successful read says of the bucket's entry. *)
Lemma get_bucket_Ok n d b d' : Buckets.get_bucket n d = (Ok b, d') ->
  d' = d /\ exists v, meta d !! bucket_key n = Some v /\ dec v = Ok b.
Proof.
  unfold Buckets.get_bucket.
  intros [([] & t & [_ ->]%lift_inv & Hr)|(e & _ & [=])]%bind_inv.
  apply bind_inv in Hr as [(o & t & [-> [[= ->]|(m & [=] & _)]]%get_raw_spec & Hr)|(e & _ & [=])].
  destruct (meta d !! bucket_key n) as [v|]; [|done]. apply lift_inv in Hr as [Hd ->].
  unfold decode_m in Hd. destruct (dec v) eqn:Hv; simplify_eq/=. eauto.
Qed.

Lemma entry_from {A} `{Codec A} d d0 d1 d' k (s : option A) :
  meta d0 = meta d -> meta d' = meta d1 -> entry_is d0 d1 k s -> entry_is d d' k s.
Proof. unfold entry_is. by intros <- ->. Qed.

Lemma bucket_not_lock n : starts_with "lock:" (bucket_key n) = false.
Proof. done. Qed.
Lemma object_not_lock b k : starts_with "lock:" (object_db_key b k) = false.
Proof. done. Qed.

(** A bucket that passes the check is stored, or is in the cache; only the cache
    may change. *)
Lemma validate_bucket_inv instant b a x a' : validate_bucket_exists join_error instant b a = (x, a') ->
  same_data (app_db a) (app_db a') /\ app_store a' = app_store a /\
  multipart_uploads_in_progress a' = multipart_uploads_in_progress a /\
  match x with
  | Some (Ok _) => is_Some (meta (app_db a) !! bucket_key b) \/ cache_contains (instant a) b (bucket_cache a) = true
  | Some (Err _) => bucket_cache a' = bucket_cache a
  | None => False
  end.
Proof.
  unfold validate_bucket_exists. intros Hrun%asks_bind. revert Hrun.
  destruct (cache_contains _ _ _) eqn:Hc; [intros [= <- <-]; split_and!; try done; by right|intros Hrun].
  apply on_db_bind in Hrun as [(b0 & d1 & Hg & Hrun)|(e & d1 & Hg & -> & ->)];
    pose proof (spawn_read _ (get_bucket_pure b) _ _ _ Hg) as Hs; [|done].
  injection Hrun as <- <-. apply spawn_Ok, get_bucket_Ok in Hg as (_ & v & Hv & _). split_and!; eauto.
Qed.

Lemma ensure_consistency_inv cfg a x a' : ensure_read_consistency (DB := DB) (B := B) cfg a = (x, a') ->
  same_data (app_db a) (app_db a') /\ same_rest a a' /\ x <> None.
Proof.
  unfold ensure_read_consistency. destruct (consistency_mode (cluster cfg)); [|by intros [= <- <-]].
  intros (y & d & Hl%nr_linearizable_meta & -> & ->)%on_db_inv. by split; [apply same_data_meta|].
Qed.
End reads.

(** ** The Raft node of RaftNode.v as [NodeRaft]

    openraft's handle with the node's database in its state: a proposal that
    returns [Ok] was applied, one refused for another leader was not, one that
    failed otherwise may have been; waiting applies nothing. *)
Class RaftDbLaws (RS : Type) `{RocksDBLaws RS, RaftHandle RS, Codec Bucket, Codec ObjectMetadata, Codec LockState}
    (abandon : Command -> RS -> RS) : Prop := {
  client_write_ok : forall c s s', raft_client_write c s = (Ok tt, s') -> applied c s (Ok tt) s';
  client_write_refused : forall c s l s', raft_client_write c s = (Err (ForwardToLeader l), s') -> meta s' = meta s;
  client_write_failed : forall c s m s', raft_client_write c s = (Err (OtherError m), s') ->
    meta s' = meta s \/ exists r, applied c s r s';
  sleep_meta : forall ms s, meta (raft_sleep ms s) = meta s;
  linearizable_meta : forall s r s', raft_ensure_linearizable s = (r, s') -> meta s' = meta s;
  abandon_meta : forall c s, meta (abandon c s) = meta s \/ exists r, applied c s r (abandon c s);
}.

Section node_raft.
Context {RS : Type} `{RaftDbLaws RS} `{!RaftHandleLaws RS} (node_id : N).

(** [write] always returns (RaftNode.v); the lock loop sleeps for 50 ms. *)
Definition node_raft : NodeRaft RS := {|
  nr_write c s := match RaftNode.write node_id c s with
                  | Some r => r
                  | None => (Err (Raft "Max retries exceeded"), s)
                  end;
  nr_ensure_linearizable := RaftNode.ensure_linearizable;
  nr_abandoned := abandon;
  nr_elapse := raft_sleep 50;
|}.

Lemma wait_meta fuel start timeout (s : RS) r s' : wait_loop fuel start timeout s = Some (r, s') -> meta s' = meta s.
Proof.
  revert s. induction fuel as [|fuel IH]; intros s; simpl; [done|].
  destruct (raft_current_leader s); [by intros [= _ <-]|]. case_match; [by intros [= _ <-]|].
  intros ->%IH. apply sleep_meta.
Qed.

Lemma retried_meta c delay k (s s' : RS) : retried node_id c delay k s s' -> meta s' = meta s.
Proof.
  induction 1 as [|k s s1 l w s2 s3 Hw _ Hwait%wait_meta _ IH]; [done|].
  by rewrite IH, sleep_meta, Hwait, (client_write_refused _ _ _ _ Hw).
Qed.

Lemma applied_from c (s t : RS) r s' : meta t = meta s -> applied c t r s' -> applied c s r s'.
Proof. intros Hm (now & d0 & d1 & Hd & ?). exists now, d0, d1. by rewrite <- Hm. Qed.

#[local] Existing Instance node_raft.
Lemma node_raft_laws : NodeRaftLaws RS.
Proof.
  assert (Hspec : forall c s r s', nr_write c s = (r, s') ->
    match r with Ok _ => applied c s (Ok tt) s' | Err _ => meta s' = meta s \/ exists r, applied c s r s' end).
  { intros c s r s'. simpl. unfold RaftNode.write, write_with_retry.
    destruct (write_loop_spec node_id (S (N.to_nat 5)) 200 c None s) as (r1 & s1 & -> & Hcase).
    intros [= <- <-]. destruct Hcase as [(k & s2 & _ & Hm%retried_meta & Ho)|[Hm%retried_meta Hr]].
    - destruct Ho as [s3 Hw%client_write_ok|l s3 Hw%client_write_refused _|msg s3 Hw%client_write_failed].
      + by eapply applied_from.
      + left. congruence.
      + destruct Hw as [?|[x Hx]]; [left; congruence|right; exists x; by eapply applied_from].
    - destruct r1; [done|by left]. }
  split.
  - intros c s s' Hw. exact (Hspec c s (Ok tt) s' Hw).
  - intros c s e s' Hw. exact (Hspec c s (Err e) s' Hw).
  - intros s r s'. simpl. unfold RaftNode.ensure_linearizable.
    intros [([] & t & (x & Hr & _)%with_err_inv & [= _ <-])|(e & (x & Hr & _)%with_err_inv & _)]%bind_inv;
      by eapply linearizable_meta.
  - apply abandon_meta.
  - intros s. apply sleep_meta.
Qed.
End node_raft.
