(* ===== verification/Auth.v ===== *)
(** * save-api: request authentication

    Models [crates/save-api/src/auth.rs]: the check of AWS Signature Version 4 in
    front of the S3 routes.  HMAC-SHA256, the hexadecimal encoding and chrono's
    parsing of the date are parameters ([Hmac]).  [None] as an answer is a
    panic. *)
From Stdlib Require Import Strings.Byte Ascii.
From S2P Require Import Prelude Common Config Kv Fs ObjectStorage Buckets S3Xml Api.
From stdpp Require Import base gmap strings numbers sorting list.

(** ** What the code uses of other crates *)

(** [parse_amz_date] is [DateTime::parse_from_str] with the format
    [%Y%m%dT%H%M%SZ%z] on the text and [+00:00], in nanoseconds since 1970. *)
Class Hmac : Type := {
  hmac_sha256 : bytes -> bytes -> bytes;
  hex_encode : bytes -> string;
  parse_amz_date : string -> option Z;
}.
(** A date in that format has at least eight characters. *)
Class HmacLaws `{Hmac} : Prop := {
  parse_amz_date_len : forall s t, parse_amz_date s = Some t -> 8 <= String.length s;
}.

(** The header map: the names in lower case, the values [None] when they are not
    visible ASCII ([to_str] fails). *)
Abbreviation HeaderMap := (list (string * option string)).
Fixpoint header_get (hs : HeaderMap) (name : string) : option (option string) :=
  match hs with
  | [] => None
  | (n, v) :: hs' => if bool_decide (n = to_lowercase name) then Some v else header_get hs' name
  end.
(** [headers.get(name).and_then(|h| h.to_str().ok())]. *)
Definition header_str (hs : HeaderMap) (name : string) : option string := x ← header_get hs name; x.

(** ** Strings *)

(** [str::split] with a separator of several characters. *)
Fixpoint split_str_go (sep : string) (skip : nat) (acc s : string) : list string :=
  match s with
  | "" => [acc]
  | String c s' =>
      match skip with
      | S k => split_str_go sep k acc s'
      | O => if starts_with sep s then acc :: split_str_go sep (String.length sep - 1) "" s'
             else split_str_go sep 0 (acc +:+ String c "") s'
      end
  end.
Definition split_str (sep s : string) : list string := split_str_go sep 0 "" s.

Definition is_space (c : ascii) : bool := bool_decide (c = " "%char) || (9 <=? N_of_ascii c)%N && (N_of_ascii c <=? 13)%N.
Fixpoint trim_start (s : string) : string :=
  match s with
  | String c s' => if is_space c then trim_start s' else s
  | "" => ""
  end.
Fixpoint trim_end (s : string) : string :=
  match s with
  | "" => ""
  | String c s' => match trim_end s' with
                   | "" => if is_space c then "" else String c ""
                   | t => String c t
                   end
  end.
Definition trim (s : string) : string := trim_end (trim_start s).
(** [.replace("  ", " ")]: one pass over the pairs of spaces. *)
Fixpoint replace_spaces (s : string) : string :=
  match s with
  | String a (String b r as t) =>
      if bool_decide (a = " "%char) && bool_decide (b = " "%char) then String a (replace_spaces r)
      else String a (replace_spaces t)
  | _ => s
  end.

(** ** The code *)
Definition MAX_TIME_SKEW_SECS : Z := 15 * 60.

Record AuthInfo : Type := mkAuthInfo {
  ai_access_key : string; ai_scope : string; ai_region : string; ai_service : string;
  ai_signed_headers : list string; ai_signature : string }.

Definition invalid_signature {A} (m : string) : result ApiError.t A := Err (ApiError.InvalidSignatureException m).

Definition parse_authorization_header (auth_header : string) : result ApiError.t AuthInfo :=
  match split_str ", " auth_header with
  | p0 :: p1 :: p2 :: _ =>
      match Prelude.strip_prefix "AWS4-HMAC-SHA256 Credential=" p0 with
      | None => invalid_signature "Missing Credential in authorization"
      | Some credential_part =>
          match split_char "/"%char credential_part with
          | [access_key; date; region; service; _] =>
              let scope := date +:+ "/" +:+ region +:+ "/" +:+ service +:+ "/aws4_request" in
              match Prelude.strip_prefix "SignedHeaders=" p1 with
              | None => invalid_signature "Missing SignedHeaders in authorization"
              | Some signed_headers_part =>
                  match Prelude.strip_prefix "Signature=" p2 with
                  | None => invalid_signature "Missing Signature in authorization"
                  | Some signature =>
                      Ok (mkAuthInfo access_key scope region service
                            (split_char ";"%char signed_headers_part) signature)
                  end
              end
          | _ => invalid_signature "Invalid credential format"
          end
      end
  | _ => invalid_signature "Malformed authorization header"
  end.

(** The order of [sort_by]: by name, then by value. *)
Definition param_le (a b : string * string) : Prop := str_lt a.1 b.1 \/ (a.1 = b.1 /\ str_le a.2 b.2).
#[export] Instance param_le_dec : RelDecision param_le.
Proof. intros a b. unfold param_le. apply _. Defined.

Definition parse_param (param : string) : string * string :=
  match split_once "="%char param with Some kv => kv | None => (param, "") end.
(** Both branches of the code print the same text. *)
Definition print_param (kv : string * string) : string := kv.1 +:+ "=" +:+ kv.2.

Definition canonicalize_query_string (query : string) : string :=
  if bool_decide (query = "") then ""
  else join_str "&" (print_param <$> merge_sort param_le (parse_param <$> split_char "&"%char query)).

Definition header_map (headers : HeaderMap) (signed_headers : list string) : gmap string string :=
  foldl (fun m name =>
    match header_str headers name with
    | Some v => <[to_lowercase name := replace_spaces (trim v)]> m
    | None => m
    end) ∅ signed_headers.

(** The iteration of a [BTreeMap]. *)
Definition entry_le (a b : string * string) : Prop := str_le a.1 b.1.
#[export] Instance entry_le_dec : RelDecision entry_le.
Proof. intros a b. unfold entry_le. apply _. Defined.
Definition header_lines (m : gmap string string) : string :=
  join_str newline ((fun kv => kv.1 +:+ ":" +:+ kv.2) <$> merge_sort entry_le (map_to_list m)).

Definition build_canonical_request (method path query : string) (headers : HeaderMap) (signed_headers : list string)
    (payload_hash : string) : string :=
  let canonical_uri := if bool_decide (path = "") then "/" else path in
  method +:+ newline +:+ canonical_uri +:+ newline +:+ canonicalize_query_string query +:+ newline +:+
  header_lines (header_map headers signed_headers) +:+ newline +:+ newline +:+
  join_str ";" signed_headers +:+ newline +:+ payload_hash.

Definition xor_byte (a b : ascii) : N := N.lxor (N_of_ascii a) (N_of_ascii b).
Fixpoint fold_bytes (acc : N) (a b : string) : N :=
  match a, b with
  | String x a', String y b' => fold_bytes (N.lor acc (xor_byte x y)) a' b'
  | _, _ => acc
  end.
Definition constant_time_compare (a b : string) : bool :=
  if negb (String.length a =? String.length b) then false else bool_decide (fold_bytes 0 a b = 0%N).

Section auth.
Context `{Sha256, Hmac}.

Definition build_string_to_sign (amz_date scope canonical_request : string) : string :=
  "AWS4-HMAC-SHA256" +:+ newline +:+ amz_date +:+ newline +:+ scope +:+ newline +:+
  sha256_hex (String.list_byte_of_string canonical_request).

(** [&amz_date[..8]] panics on a shorter text. *)
Definition calculate_signature (secret_key amz_date region service string_to_sign : string) : option string :=
  if String.length amz_date <? 8 then None
  else
    let b := String.list_byte_of_string in
    let k_date := hmac_sha256 (b ("AWS4" +:+ secret_key)) (b (String.substring 0 8 amz_date)) in
    let k_region := hmac_sha256 k_date (b region) in
    let k_service := hmac_sha256 k_region (b service) in
    let k_signing := hmac_sha256 k_service (b "aws4_request") in
    Some (hex_encode (hmac_sha256 k_signing (b string_to_sign))).

(** [num_seconds] drops the fraction of the difference. *)
Definition validate_timestamp (now : Z) (amz_date : string) : result ApiError.t unit :=
  match parse_amz_date amz_date with
  | None => invalid_signature "Invalid X-Amz-Date format"
  | Some request_time =>
      let diff := Z.abs (Z.quot (now - request_time) 1000000000) in
      if (MAX_TIME_SKEW_SECS <? diff)%Z then Err ApiError.RequestTimeTooSkewed else Ok tt
  end.

(** The parts of a request the check reads. *)
Record SignedRequest : Type := mkSignedRequest {
  sr_method : string; sr_path : string; sr_query : option string; sr_headers : HeaderMap }.

Definition validate_sigv4 (now : Z) (creds : CredentialsConfig) (r : SignedRequest) : option (result ApiError.t unit) :=
  let headers := sr_headers r in
  match header_str headers "authorization" with
  | None => Some (Err ApiError.Unauthorized)
  | Some auth_header =>
      if negb (starts_with "AWS4-HMAC-SHA256" auth_header) then
        Some (invalid_signature "Authorization header format is invalid")
      else
        match parse_authorization_header auth_header with
        | Err e => Some (Err e)
        | Ok info =>
            if negb (bool_decide (ai_access_key info = access_key creds)) then Some (Err ApiError.Unauthorized)
            else
              match header_str headers "x-amz-date" with
              | None => Some (invalid_signature "Missing x-amz-date header")
              | Some amz_date =>
                  match validate_timestamp now amz_date with
                  | Err e => Some (Err e)
                  | Ok _ =>
                      let content_sha256 := default "UNSIGNED-PAYLOAD" (header_str headers "x-amz-content-sha256") in
                      let canonical_request := build_canonical_request (sr_method r) (sr_path r)
                        (default "" (sr_query r)) headers (ai_signed_headers info) content_sha256 in
                      let string_to_sign := build_string_to_sign amz_date (ai_scope info) canonical_request in
                      calculated_signature ← calculate_signature (secret_key creds) amz_date (ai_region info)
                                               (ai_service info) string_to_sign;
                      Some (if constant_time_compare (ai_signature info) calculated_signature then Ok tt
                            else Err ApiError.SignatureDoesNotMatch)
                  end
              end
        end
  end.
End auth.

(** ** The signature as AWS documents it

    Written from the description of Signature Version 4, without the code's own
    functions.  What [SigV4.lines] says of header values is what the code does:
    of a run of spaces every second one is dropped.  The documented rule is
    [Client.collapse]. *)
Module SigV4.
(** What an Authorization header says. *)
Record Authorization : Type := mkAuthorization {
  akey : string; date : string; region : string; service : string; terminator : string;
  signed : list string; signature : string }.

Definition credential (a : Authorization) : string := join_str "/" [akey a; date a; region a; service a; terminator a].
Definition scope (a : Authorization) : string := join_str "/" [date a; region a; service a; "aws4_request"].
Definition text (a : Authorization) : string :=
  "AWS4-HMAC-SHA256 Credential=" +:+ credential a +:+ ", SignedHeaders=" +:+ join_str ";" (signed a) +:+
  ", Signature=" +:+ signature a.

(** The separators occur only as such. *)
Record well_formed (a : Authorization) : Prop := {
  wf_parts : Forall (fun s => contains_char "/"%char s = false) [akey a; date a; region a; service a; terminator a];
  wf_nonempty : signed a <> [];
  wf_names : Forall (fun s => contains_char ";"%char s = false) (signed a);
  wf_fields : Forall (fun s => contains_str ", " s = false) [credential a; join_str ";" (signed a); signature a];
}.
(** The header may go on after the signature with further fields. *)
Definition written (auth : string) (a : Authorization) : Prop :=
  well_formed a /\ exists rest, (rest = "" \/ starts_with ", " rest = true) /\ auth = text a +:+ rest.

(** A parameter of a query is [name=value], or a name alone with no value. *)
Definition param (t : string) (p : string * string) : Prop :=
  contains_char "="%char p.1 = false /\ (t = p.1 +:+ "=" +:+ p.2 \/ (t = p.1 /\ p.2 = "")).
Definition params (q : string) (ps : list (string * string)) : Prop :=
  (q = "" /\ ps = []) \/
  (q <> "" /\ exists ts, ts <> [] /\ q = join_str "&" ts /\ Forall (fun t => contains_char "&"%char t = false) ts /\
     Forall2 param ts ps).
(** By name, then by value. *)
Definition precedes (p p' : string * string) : Prop := str_lt p.1 p'.1 \/ (p.1 = p'.1 /\ str_le p.2 p'.2).
#[export] Instance precedes_dec : RelDecision precedes.
Proof. intros a b. unfold precedes. apply _. Defined.
Definition print_query (ps : list (string * string)) : string :=
  join_str "&" ((fun p => p.1 +:+ "=" +:+ p.2) <$> ps).
(** [c] is the canonical form of the query [q]. *)
Definition query (q c : string) : Prop :=
  exists ps sorted, params q ps /\ sorted ≡ₚ ps /\ Sorted precedes sorted /\ c = print_query sorted.

(** Every second space of a run is dropped. *)
Fixpoint squeeze (after_space : bool) (s : string) : string :=
  match s with
  | "" => ""
  | String c s' =>
      if bool_decide (c = " "%char) then
        if after_space then squeeze false s' else String c (squeeze true s')
      else String c (squeeze false s')
  end.
(** [ls] are the signed headers that the request carries, in the order of their
    names. *)
Definition lines (hs : HeaderMap) (names : list string) (ls : list (string * string)) : Prop :=
  StronglySorted (fun a b => str_lt a.1 b.1) ls /\
  forall n v, (n, v) ∈ ls <->
    exists name raw, name ∈ names /\ n = to_lowercase name /\ header_str hs name = Some raw /\ v = squeeze false (trim raw).

Definition request (method path q : string) (ls : list (string * string)) (names : list string) (payload : string) : string :=
  join_str newline [method; if bool_decide (path = "") then "/" else path; q;
                    join_str newline ((fun l => l.1 +:+ ":" +:+ l.2) <$> ls); ""; join_str ";" names; payload].

Section sign.
Context `{Sha256, Hmac}.
Definition to_sign (amz_date scope request : string) : string :=
  join_str newline ["AWS4-HMAC-SHA256"; amz_date; scope; sha256_hex (String.list_byte_of_string request)].
(** The signing key: the secret, hashed with the day, the region, the service and
    the terminator in turn. *)
Definition signing_key (secret day region service : string) : bytes :=
  foldl (fun k d => hmac_sha256 k (String.list_byte_of_string d)) (String.list_byte_of_string ("AWS4" +:+ secret))
    [day; region; service; "aws4_request"].
Definition sign (secret day region service to_sign : string) : string :=
  hex_encode (hmac_sha256 (signing_key secret day region service) (String.list_byte_of_string to_sign)).
End sign.
End SigV4.

(** A client that follows the documentation to the letter. *)
Module Client.
(** Runs of spaces become one space. *)
Fixpoint collapse (s : string) : string :=
  match s with
  | String a (String b _ as t) =>
      if bool_decide (a = " "%char) && bool_decide (b = " "%char) then collapse t else String a (collapse t)
  | _ => s
  end.
Definition upper_hex (n : N) : ascii := ascii_of_N (if (n <? 10)%N then 48 + n else 55 + n).
(** Letters, digits and [-._~] stay, every other byte becomes [%XX]. *)
Definition unreserved (c : ascii) : bool :=
  let n := N_of_ascii c in
  is_ascii_digit c || is_ascii_lowercase c || (65 <=? n)%N && (n <=? 90)%N ||
  (n =? 45)%N || (n =? 46)%N || (n =? 95)%N || (n =? 126)%N.
Fixpoint uri_encode (keep_slash : bool) (s : string) : string :=
  match s with
  | "" => ""
  | String c s' =>
      if unreserved c || keep_slash && bool_decide (c = "/"%char) then String c (uri_encode keep_slash s')
      else String "%"%char (String (upper_hex (N_of_ascii c / 16)) (String (upper_hex (N_of_ascii c mod 16))
             (uri_encode keep_slash s')))
  end.

(** What the client wants to send; [m_headers] are the headers it signs. *)
Record Message : Type := mkMessage {
  m_method : string; m_path : string; m_params : list (string * string); m_headers : list (string * string);
  m_payload : string; m_amz_date : string; m_region : string; m_service : string }.

Definition encode_params (ps : list (string * string)) : list (string * string) :=
  (fun p => (uri_encode false p.1, uri_encode false p.2)) <$> ps.
Definition day (m : Message) : string := String.substring 0 8 (m_amz_date m).
Definition header_names (m : Message) : list string := (m_headers m).*1.
Definition canonical_request (m : Message) : string :=
  m_method m +:+ newline +:+
  (if bool_decide (m_path m = "") then "/" else uri_encode true (m_path m)) +:+ newline +:+
  SigV4.print_query (merge_sort SigV4.precedes (encode_params (m_params m))) +:+ newline +:+
  foldr (fun h block => h.1 +:+ ":" +:+ collapse (trim h.2) +:+ newline +:+ block) "" (m_headers m) +:+ newline +:+
  join_str ";" (header_names m) +:+ newline +:+ m_payload m.

Section sign.
Context `{Sha256, Hmac}.
Definition authorization (creds : CredentialsConfig) (m : Message) : SigV4.Authorization :=
  let scope := day m +:+ "/" +:+ m_region m +:+ "/" +:+ m_service m +:+ "/aws4_request" in
  SigV4.mkAuthorization (access_key creds) (day m) (m_region m) (m_service m) "aws4_request" (header_names m)
    (SigV4.sign (secret_key creds) (day m) (m_region m) (m_service m)
       (SigV4.to_sign (m_amz_date m) scope (canonical_request m))).

(** The documented conditions on a message: signed headers, in the order of their
    names in lower case; no name or part of the credential holds a separator.
    Beyond them, no header value has three spaces in a row. *)
Record documented (creds : CredentialsConfig) (m : Message) : Prop := {
  doc_some : m_headers m <> [];
  doc_sorted : StronglySorted str_lt (header_names m);
  doc_lower : Forall (fun n => to_lowercase n = n) (header_names m);
  doc_names : Forall (fun n => contains_char ","%char n = false /\ contains_char ";"%char n = false) (header_names m);
  doc_spaces : Forall (fun h => contains_str "   " (trim h.2) = false) (m_headers m);
  doc_words : Forall (fun w => contains_char ","%char w = false /\ contains_char "/"%char w = false)
                [access_key creds; day m; m_region m; m_service m];
  doc_signature : contains_char ","%char (SigV4.signature (authorization creds m)) = false;
}.
(** The request [r] carries the message [m], its parameters in any order, signed. *)
Record carries (creds : CredentialsConfig) (m : Message) (r : SignedRequest) : Prop := {
  car_method : sr_method r = m_method m;
  car_path : sr_path r = uri_encode true (m_path m);
  car_query : exists ps, ps ≡ₚ m_params m /\ default "" (sr_query r) = SigV4.print_query (encode_params ps);
  car_headers : forall n v, (n, v) ∈ m_headers m -> header_str (sr_headers r) n = Some v;
  car_payload : default "UNSIGNED-PAYLOAD" (header_str (sr_headers r) "x-amz-content-sha256") = m_payload m;
  car_date : header_str (sr_headers r) "x-amz-date" = Some (m_amz_date m);
  car_authorization : header_str (sr_headers r) "authorization" = Some (SigV4.text (authorization creds m));
}.
End sign.
End Client.

(** ** Lemmas *)
Lemma xor_byte_0 a b : xor_byte a b = 0%N <-> a = b.
Proof. unfold xor_byte. rewrite N.lxor_eq_0_iff. split; [apply N_of_ascii_inj|by intros ->]. Qed.

Lemma fold_bytes_0 acc a b : String.length a = String.length b -> fold_bytes acc a b = 0%N <-> acc = 0%N /\ a = b.
Proof.
  revert acc b. induction a as [|x a IH]; intros acc [|y b] Hl; simplify_eq/=; [by intuition|].
  rewrite IH, N.lor_eq_0_iff, xor_byte_0 by done. split; [intros [[-> ->] ->]; done|]. intros [-> [= -> ->]]. done.
Qed.

(** The comparison that takes the same time on all texts of a length is
    equality. *)
Lemma constant_time_compare_eq a b : constant_time_compare a b = bool_decide (a = b).
Proof.
  unfold constant_time_compare. destruct (Nat.eqb_spec (String.length a) (String.length b)) as [Hl|Hl]; simpl.
  - apply bool_decide_ext. rewrite fold_bytes_0 by done. by intuition.
  - symmetry. apply bool_decide_eq_false. by intros ->.
Qed.

Lemma strip_prefix_app p s : Prelude.strip_prefix p (p +:+ s) = Some s.
Proof. induction p as [|c p IH]; simpl; [done|]. by rewrite bool_decide_eq_true_2. Qed.

Lemma strip_prefix_starts p s t : Prelude.strip_prefix p s = Some t -> s = p +:+ t.
Proof.
  revert s. induction p as [|c p IH]; intros s; simpl; [by intros [= ->]|]. destruct s as [|d s]; [done|].
  case_bool_decide; [|done]. subst. intros Hs. f_equal. by apply IH.
Qed.

(** *** Splitting at a comma and a space *)
Lemma lacks_app p s : contains_char ","%char p = false -> contains_str ", " s = false -> contains_str ", " (p +:+ s) = false.
Proof.
  intros Hp Hs. induction p as [|c p IH]; simpl in *; [done|]. apply orb_false_iff in Hp as [Hc Hp].
  by rewrite Hc, IH.
Qed.
Lemma lacks_comma s : contains_char ","%char s = false -> contains_str ", " s = false.
Proof. intros Hs. rewrite <- (string_app_nil_r s). by apply lacks_app. Qed.
Lemma lacks_suffix p s : contains_str ", " (p +:+ s) = false -> contains_str ", " s = false.
Proof. rewrite <- !not_true_iff_false. intros Hs Hc. by apply Hs, contains_str_app_l. Qed.
Lemma ends_with_snoc c acc d : ends_with_char c (acc +:+ String d "") = bool_decide (c = d).
Proof. induction acc as [|a acc IH]; [done|]. simpl. rewrite IH. by destruct acc. Qed.
Lemma lacks_snoc acc c : contains_str ", " acc = false -> (ends_with_char ","%char acc = true -> c <> " "%char) ->
  contains_str ", " (acc +:+ String c "") = false.
Proof.
  induction acc as [|a acc IH]; intros Ha He.
  - simpl. by rewrite andb_false_r.
  - simpl in *. apply orb_false_iff in Ha as [Ha Hr]. rewrite IH; [|done|].
    + destruct acc as [|d acc]; simpl in *; rewrite orb_false_r; [|done].
      destruct (bool_decide (","%char = a)) eqn:Hc; [|done]. rewrite bool_decide_eq_false_2; [done|]. intros <-. by apply He.
    + intros He'. apply He. by destruct acc.
Qed.

Lemma split_sep acc t : split_str_go ", " 0 acc (", " +:+ t) = acc :: split_str ", " t.
Proof. done. Qed.
Lemma split_other acc c s : starts_with ", " (String c s) = false ->
  split_str_go ", " 0 acc (String c s) = split_str_go ", " 0 (acc +:+ String c "") s.
Proof. intros Hs. cbn [split_str_go]. by rewrite Hs. Qed.

Lemma split_go_lacks p acc : contains_str ", " p = false ->
  (forall rest, split_str_go ", " 0 acc (p +:+ ", " +:+ rest) = (acc +:+ p) :: split_str ", " rest) /\
  split_str_go ", " 0 acc p = [acc +:+ p].
Proof.
  revert acc. induction p as [|c p IH]; intros acc Hp.
  - rewrite string_app_nil_r. done.
  - cbn [contains_str] in Hp. apply orb_false_iff in Hp as [Hs Hp].
    specialize (IH (acc +:+ String c "") Hp) as [IHr IHe].
    rewrite <- (assoc_L String.append acc (String c "") p) in IHe. split.
    + intros rest. change (String c p +:+ ", " +:+ rest) with (String c (p +:+ ", " +:+ rest)).
      rewrite split_other, IHr; [by rewrite <- (assoc_L String.append)|].
      destruct p as [|d p]; simpl in *; [by rewrite andb_false_r|done].
    + by rewrite split_other, IHe.
Qed.
Lemma split_comma p rest : contains_str ", " p = false -> split_str ", " (p +:+ ", " +:+ rest) = p :: split_str ", " rest.
Proof. intros Hp. apply (split_go_lacks p "" Hp). Qed.
Lemma split_comma_last p : contains_str ", " p = false -> split_str ", " p = [p].
Proof. intros Hp. apply (split_go_lacks p "" Hp). Qed.

Lemma split_go_join n s acc l : String.length s <= n -> contains_str ", " acc = false ->
  (ends_with_char ","%char acc = true -> starts_with " " s = false) -> split_str_go ", " 0 acc s = l ->
  acc +:+ s = join_str ", " l /\ Forall (fun p => contains_str ", " p = false) l.
Proof.
  revert s acc l. induction n as [|n IH]; intros [|c s] acc l Hn Ha He; try (simpl in Hn; lia);
    try (simpl; intros <-; rewrite string_app_nil_r; split; [done|by repeat constructor]).
  destruct (starts_with ", " (String c s)) eqn:Hs.
  - apply starts_with_spec in Hs as (t & Ht). rewrite Ht, split_sep. intros <-.
    destruct (IH t "" (split_str ", " t)) as [Hj Hf]; [simplify_eq/=; lia|done..|].
    split; [|by constructor]. simpl in Hj. rewrite Hj at 1.
    destruct (split_str ", " t) eqn:E; [|done]. simpl in Hj. by subst.
  - rewrite split_other by done. intros Hl. apply IH in Hl; [|simpl in Hn; lia| |].
    + by rewrite <- (assoc_L String.append) in Hl.
    + apply lacks_snoc; [done|]. intros Hac ->. specialize (He Hac). done.
    + rewrite ends_with_snoc, bool_decide_eq_true. intros <-. destruct s as [|d s]; [done|]. simpl in *. done.
Qed.
Lemma split_comma_join s l : split_str ", " s = l ->
  s = join_str ", " l /\ Forall (fun p => contains_str ", " p = false) l.
Proof. intros Hl. by apply (split_go_join (String.length s) s "" l). Qed.

Lemma split_join c l : l <> [] -> Forall (fun s => contains_char c s = false) l ->
  split_char c (join_str (String c "") l) = l.
Proof.
  induction l as [|s l IH]; intros Hn Hf; [done|]. apply Forall_cons in Hf as [Hs Hf].
  destruct l as [|t l]; [by apply split_char_none|].
  change (split_char c (s +:+ String c (join_str (String c "") (t :: l))) = s :: t :: l).
  by rewrite split_char_app, IH.
Qed.

(** *** The order of the parameters *)
#[export] Instance param_le_trans : Transitive param_le.
Proof.
  intros [a a'] [b b'] [c c'] [Hab|[Hab Hab']] [Hbc|[Hbc Hbc']]; unfold param_le in *; simpl in *; subst.
  - left. by trans b.
  - by left.
  - by left.
  - right. split; [done|]. by trans b'.
Qed.
#[export] Instance param_le_total : Total param_le.
Proof.
  intros [a a'] [b b']. unfold param_le; simpl. destruct (str_ltb_total a b) as [->|[?|?]].
  - destruct (total str_le a' b'); [left|right]; right; done.
  - left. by left.
  - right. by left.
Qed.
#[export] Instance param_le_antisym : AntiSymm (=) param_le.
Proof.
  intros [a a'] [b b'] [Hab|[Hab Hab']] [Hba|[Hba Hba']]; simpl in *.
  - destruct (str_lt_irrefl a). by trans b.
  - subst. by destruct (str_lt_irrefl a).
  - subst. by destruct (str_lt_irrefl b).
  - subst. f_equal. by apply (anti_symm str_le).
Qed.

Lemma sorted_params l l' : l ≡ₚ l' -> merge_sort param_le l = merge_sort param_le l'.
Proof.
  intros Hp. apply (Sorted_unique param_le); [apply Sorted_merge_sort, _..|]. by rewrite !merge_sort_Permutation.
Qed.

(** ** Properties *)
Section properties.
Context `{Sha256, HmacLaws}.

(** *** The query *)

(** The order of the parameters of a query does not matter: what is signed
    depends only on the parameters themselves. *)
Theorem canonical_query_order ps ps' : ps ≡ₚ ps' -> Forall (fun p => contains_char "&"%char p = false) ps ->
  Forall (fun p => p <> "") ps ->
  canonicalize_query_string (join_str "&" ps) = canonicalize_query_string (join_str "&" ps').
Proof.
  intros Hp Hamp Hne. unfold canonicalize_query_string.
  assert (Hamp' : Forall (fun p => contains_char "&"%char p = false) ps') by by rewrite <- Hp.
  assert (Hne' : Forall (fun p => p <> "") ps') by by rewrite <- Hp.
  assert (Hempty : forall l, Forall (fun p => p <> "") l -> join_str "&" l = "" -> l = []).
  { intros [|x l] Hf Hj; [done|]. apply Forall_cons in Hf as [Hx _]. destruct x; [done|]. by destruct l. }
  destruct (decide (ps = [])) as [->|Hn]; [by apply Permutation_nil_l in Hp as ->|].
  assert (Hn' : ps' <> []) by (intros ->; by apply Permutation_nil_r in Hp).
  rewrite !bool_decide_eq_false_2 by (intros Hj%Hempty; done).
  rewrite !split_join by done. by rewrite (sorted_params _ (parse_param <$> ps')) by by apply fmap_Permutation.
Qed.

(** *** The authorization header *)
Definition info_of (a : SigV4.Authorization) : AuthInfo :=
  mkAuthInfo (SigV4.akey a) (SigV4.scope a) (SigV4.region a) (SigV4.service a) (SigV4.signed a) (SigV4.signature a).

Lemma text_fields a : SigV4.text a =
  ("AWS4-HMAC-SHA256 Credential=" +:+ SigV4.credential a) +:+ ", " +:+ ("SignedHeaders=" +:+ join_str ";" (SigV4.signed a)) +:+
  ", " +:+ ("Signature=" +:+ SigV4.signature a).
Proof. unfold SigV4.text. by rewrite <- !(assoc_L String.append). Qed.

Lemma app_fields p0 p1 p2 rest :
  (p0 +:+ ", " +:+ p1 +:+ ", " +:+ p2) +:+ rest = p0 +:+ ", " +:+ p1 +:+ ", " +:+ p2 +:+ rest.
Proof. by rewrite <- !(assoc_L String.append). Qed.

Lemma written_parse auth a : SigV4.written auth a -> parse_authorization_header auth = Ok (info_of a).
Proof.
  intros [[Hparts Hne Hnames Hfields] (rest & Hrest & ->)].
  apply Forall_cons in Hfields as [Hc [Hs [Hg _]%Forall_cons]%Forall_cons].
  assert (Hsplit : exists more, split_str ", " (SigV4.text a +:+ rest) =
    ("AWS4-HMAC-SHA256 Credential=" +:+ SigV4.credential a) :: ("SignedHeaders=" +:+ join_str ";" (SigV4.signed a)) ::
    ("Signature=" +:+ SigV4.signature a) :: more).
  { assert (Hlast : exists more, split_str ", " (("Signature=" +:+ SigV4.signature a) +:+ rest) =
      ("Signature=" +:+ SigV4.signature a) :: more).
    { destruct Hrest as [->|(t & ->)%starts_with_spec].
      - rewrite string_app_nil_r. exists []. apply split_comma_last. by apply lacks_app.
      - eexists. apply split_comma. by apply lacks_app. }
    destruct Hlast as (more & Hlast). exists more.
    rewrite text_fields, app_fields, !split_comma by by apply lacks_app. by rewrite Hlast. }
  destruct Hsplit as (more & Hsplit). unfold parse_authorization_header. rewrite Hsplit, !strip_prefix_app.
  unfold SigV4.credential. rewrite split_join by done. by rewrite split_join.
Qed.

Lemma parse_written auth info : parse_authorization_header auth = Ok info ->
  exists a, SigV4.written auth a /\ info = info_of a.
Proof.
  unfold parse_authorization_header. destruct (split_str ", " auth) as [|p0 [|p1 [|p2 more]]] eqn:Hs; try done.
  apply split_comma_join in Hs as [Hauth Hl].
  destruct (Prelude.strip_prefix "AWS4-HMAC-SHA256 Credential=" p0) as [cred|] eqn:E0; [|done].
  destruct (split_char "/"%char cred) as [|k [|d [|rg [|sv [|tm [|]]]]]] eqn:Ec; try done.
  destruct (Prelude.strip_prefix "SignedHeaders=" p1) as [names|] eqn:E1; [|done].
  destruct (Prelude.strip_prefix "Signature=" p2) as [sg|] eqn:E2; [|done]. intros [= <-].
  apply strip_prefix_starts in E0, E1, E2. subst p0 p1 p2.
  apply split_char_join in Ec as [Hcred Hparts].
  destruct (split_char_join ";"%char names _ eq_refl) as [Hnames Hsemi].
  exists (SigV4.mkAuthorization k d rg sv tm (split_char ";"%char names) sg). split; [|done]. split.
  - split; simpl; [done|apply split_char_nonnil|done|].
    apply Forall_cons in Hl as [?%lacks_suffix [?%lacks_suffix [?%lacks_suffix _]%Forall_cons]%Forall_cons].
    rewrite <- Hnames. unfold SigV4.credential; cbn -[join_str]. rewrite <- Hcred. by repeat constructor.
  - exists (if more is [] then "" else ", " +:+ join_str ", " more). split; [destruct more; by auto|].
    rewrite text_fields. unfold SigV4.credential; cbn -[join_str String.append]. rewrite <- Hcred, <- Hnames, Hauth.
    rewrite app_fields. destruct more as [|m more]; [by rewrite string_app_nil_r|]. done.
Qed.

Lemma no_comma_join l : Forall (fun s => contains_char ","%char s = false) l ->
  contains_char ","%char (join_str ";" l) = false.
Proof.
  intros Hf. induction Hf as [|s l Hs Hf IH]; [done|]. destruct l as [|t l]; [done|].
  change (contains_char ","%char (s +:+ ";" +:+ join_str ";" (t :: l)) = false).
  by rewrite !contains_char_app, Hs, IH.
Qed.

(** *** The canonical request *)
Lemma split_once_app c n v : contains_char c n = false -> split_once c (n +:+ String c v) = Some (n, v).
Proof.
  induction n as [|d n IH]; simpl; [by rewrite bool_decide_eq_true_2|].
  intros [Hd Hn]%orb_false_iff. by rewrite Hd, IH.
Qed.
Lemma split_once_none c n : contains_char c n = false -> split_once c n = None.
Proof. induction n as [|d n IH]; simpl; [done|]. intros [Hd Hn]%orb_false_iff. by rewrite Hd, IH. Qed.
Lemma split_once_Some c s n v : split_once c s = Some (n, v) -> s = n +:+ String c v /\ contains_char c n = false.
Proof.
  revert n. induction s as [|d s IH]; intros n; simpl; [done|]. case_bool_decide as Hd; [by intros [= <- <-]; subst|].
  destruct (split_once c s) as [[a b]|] eqn:E; [|done]. intros [= <- <-]. destruct (IH a eq_refl) as [-> Ha].
  split; [done|]. simpl. by rewrite bool_decide_eq_false_2.
Qed.
Lemma split_once_None c s : split_once c s = None -> contains_char c s = false.
Proof.
  induction s as [|d s IH]; simpl; [done|]. case_bool_decide; [done|]. destruct (split_once c s) as [[]|]; [done|auto].
Qed.

Lemma param_parse t p : SigV4.param t p <-> p = parse_param t.
Proof.
  destruct p as [n v]. unfold SigV4.param, parse_param; simpl. split.
  - intros [Hn [->|[-> ->]]]; [by rewrite split_once_app|by rewrite split_once_none].
  - destruct (split_once "="%char t) as [[n' v']|] eqn:E; intros [= -> ->].
    + apply split_once_Some in E as [-> Hn]. by auto.
    + apply split_once_None in E. by auto.
Qed.

Lemma params_parse q ps : SigV4.params q ps <-> ps = if bool_decide (q = "") then [] else parse_param <$> split_char "&"%char q.
Proof.
  unfold SigV4.params. case_bool_decide as Hq; [by intuition|]. split.
  - intros [[? _]|(_ & ts & Hn & -> & Hf & Hp)]; [done|]. rewrite split_join by done.
    clear Hn Hf Hq. induction Hp as [|t p ts ps ->%param_parse Hp IH]; [done|]. simpl. by rewrite IH.
  - intros ->. right. split; [done|]. exists (split_char "&"%char q).
    destruct (split_char_join "&"%char q _ eq_refl) as [Hj Hf]. split_and!; [apply split_char_nonnil|done|done|].
    apply Forall2_fmap_r, Forall_Forall2_diag, Forall_forall. intros t _. by apply param_parse.
Qed.

Lemma query_canonical q c : SigV4.query q c <-> c = canonicalize_query_string q.
Proof.
  unfold SigV4.query, canonicalize_query_string. split.
  - intros (ps & sorted & Hps%params_parse & Hp & Hs & ->). case_bool_decide.
    + subst ps. by apply Permutation_nil_r in Hp as ->.
    + unfold SigV4.print_query. do 2 f_equal. apply (Sorted_unique param_le); [exact Hs|apply Sorted_merge_sort, _|].
      by rewrite merge_sort_Permutation, Hp, Hps.
  - intros ->. eexists _, (merge_sort param_le _). split_and!; [by apply params_parse|by apply merge_sort_Permutation| |].
    + apply (Sorted_merge_sort param_le).
    + case_bool_decide; done.
Qed.

Lemma replace_squeeze s : replace_spaces s = SigV4.squeeze false s.
Proof.
  cut (forall n s, String.length s <= n -> replace_spaces s = SigV4.squeeze false s); [intros Hc; by apply (Hc (String.length s))|].
  clear s. induction n as [|n IH]; intros [|a [|b r]] Hn; simpl in Hn; try (done || lia); [by simpl; case_bool_decide..|].
  change (replace_spaces (String a (String b r))) with
    (if bool_decide (a = " "%char) && bool_decide (b = " "%char) then String a (replace_spaces r)
     else String a (replace_spaces (String b r))). rewrite !IH by (simpl; lia). cbn [SigV4.squeeze].
  destruct (bool_decide (a = " "%char)), (bool_decide (b = " "%char)); done.
Qed.

Lemma header_get_lower hs n n' : to_lowercase n = to_lowercase n' -> header_str hs n = header_str hs n'.
Proof.
  intros Hl. unfold header_str. assert (header_get hs n = header_get hs n') as ->; [|done].
  induction hs as [|[m v] hs IH]; simpl; [done|]. by rewrite Hl, IH.
Qed.
Lemma header_map_lookup hs names n v : header_map hs names !! n = Some v <->
  exists name raw, name ∈ names /\ n = to_lowercase name /\ header_str hs name = Some raw /\ v = SigV4.squeeze false (trim raw).
Proof.
  unfold header_map. induction names as [|name names IH] using rev_ind; simpl.
  { rewrite lookup_empty. split; [done|]. by intros (? & ? & ?%elem_of_nil & _). }
  rewrite foldl_app; simpl. setoid_rewrite elem_of_app. setoid_rewrite list_elem_of_singleton.
  destruct (header_str hs name) as [raw|] eqn:Hh.
  - rewrite lookup_insert_Some, IH, replace_squeeze. split.
    + intros [[<- <-]|[Hne (m & raw' & ? & ? & ? & ?)]]; [exists name, raw|exists m, raw']; by auto.
    + intros (m & raw' & [Hm| ->] & -> & Hm' & ->); [|left; split; congruence].
      destruct (decide (to_lowercase name = to_lowercase m)) as [He|He]; [|by right; eauto 8].
      rewrite (header_get_lower _ _ _ He) in Hh. left. split; congruence.
  - rewrite IH. split; intros (m & raw & Hm & Hrest); exists m, raw; [by auto|].
    destruct Hm as [Hm| ->]; [done|]. destruct Hrest as (_ & ? & _). congruence.
Qed.

#[local] Instance entry_le_trans : Transitive entry_le.
Proof. intros a b c. unfold entry_le. apply str_le_trans. Qed.
#[local] Instance entry_le_total : Total entry_le.
Proof. intros a b. unfold entry_le. apply (total str_le). Qed.
Lemma sorted_strict (l : list (string * string)) : StronglySorted entry_le l -> NoDup l.*1 ->
  StronglySorted (fun a b => str_lt a.1 b.1) l.
Proof.
  induction 1 as [|x l Hs IH Hx]; [constructor|]. rewrite fmap_cons. intros [Hn Hd]%NoDup_cons. constructor; [auto|].
  apply Forall_forall. intros y Hy. rewrite Forall_forall in Hx. specialize (Hx y Hy).
  apply str_le_lt_or_eq in Hx as [?|He]; [done|]. destruct Hn. rewrite He. by apply list_elem_of_fmap_2.
Qed.
Lemma strict_nodup (l : list (string * string)) : StronglySorted (fun a b => str_lt a.1 b.1) l -> NoDup l.
Proof.
  induction 1 as [|x l Hs IH Hx]; constructor; [|done]. intros Hin. rewrite Forall_forall in Hx.
  by apply (str_lt_irrefl x.1), Hx.
Qed.
Lemma lines_unique hs names ls ls' : SigV4.lines hs names ls -> SigV4.lines hs names ls' -> ls = ls'.
Proof.
  intros [Hs Hl] [Hs' Hl']. apply (StronglySorted_unique_strong (fun a b => str_lt a.1 b.1)); [|done..|].
  - intros x y _ _ Hxy Hyx. destruct (str_lt_irrefl x.1). by trans y.1.
  - apply NoDup_Permutation; [by apply strict_nodup..|]. intros [n v]. by rewrite Hl, Hl'.
Qed.
Lemma lines_canonical hs names : SigV4.lines hs names (merge_sort entry_le (map_to_list (header_map hs names))).
Proof.
  split.
  - apply sorted_strict; [apply StronglySorted_merge_sort; apply _|]. rewrite merge_sort_Permutation.
    apply NoDup_fst_map_to_list.
  - intros n v. rewrite merge_sort_Permutation, elem_of_map_to_list. apply header_map_lookup.
Qed.
Lemma request_canonical method path q c hs names ls payload : SigV4.query q c -> SigV4.lines hs names ls ->
  build_canonical_request method path q hs names payload = SigV4.request method path c ls names payload.
Proof.
  intros ->%query_canonical Hl. rewrite (lines_unique _ _ _ _ Hl (lines_canonical hs names)).
  unfold build_canonical_request, SigV4.request, header_lines. done.
Qed.
Lemma signature_canonical secret amz_date region service text : 8 <= String.length amz_date ->
  calculate_signature secret amz_date region service text =
  Some (SigV4.sign secret (String.substring 0 8 amz_date) region service text).
Proof. intros Hl. unfold calculate_signature. destruct (Nat.ltb_spec (String.length amz_date) 8); [lia|done]. Qed.

(** *** Acceptance *)

(** A request the check lets through, in the terms of the documentation. *)
Record authentic (now : Z) (creds : CredentialsConfig) (r : SignedRequest) (auth : string) (a : SigV4.Authorization)
    (amz_date : string) (t : Z) : Prop := {
  au_header : header_str (sr_headers r) "authorization" = Some auth;
  au_written : SigV4.written auth a;
  au_key : SigV4.akey a = access_key creds;
  au_date : header_str (sr_headers r) "x-amz-date" = Some amz_date;
  au_time : parse_amz_date amz_date = Some t;
  au_skew : (Z.abs (now - t) < (15 * 60 + 1) * 1000000000)%Z;
  au_signature : exists q ls,
    SigV4.query (default "" (sr_query r)) q /\ SigV4.lines (sr_headers r) (SigV4.signed a) ls /\
    SigV4.signature a =
      SigV4.sign (secret_key creds) (String.substring 0 8 amz_date) (SigV4.region a) (SigV4.service a)
        (SigV4.to_sign amz_date (SigV4.scope a)
           (SigV4.request (sr_method r) (sr_path r) q ls (SigV4.signed a)
              (default "UNSIGNED-PAYLOAD" (header_str (sr_headers r) "x-amz-content-sha256"))));
}.

Lemma skew_spec d : (Z.abs (Z.quot d 1000000000) <= MAX_TIME_SKEW_SECS)%Z <->
  (Z.abs d < (MAX_TIME_SKEW_SECS + 1) * 1000000000)%Z.
Proof.
  unfold MAX_TIME_SKEW_SECS. rewrite <- (Z.quot_abs d 1000000000) by lia. change (Z.abs 1000000000) with 1000000000%Z.
  rewrite (Z.quot_div_nonneg (Z.abs d)) by lia. pose proof (Z.div_mod (Z.abs d) 1000000000 ltac:(lia)).
  pose proof (Z.mod_pos_bound (Z.abs d) 1000000000 ltac:(lia)). lia.
Qed.

(** The check of the scheme is implied by the parsing. *)
Lemma parse_starts auth info : parse_authorization_header auth = Ok info -> starts_with "AWS4-HMAC-SHA256" auth = true.
Proof.
  intros (a & (_ & rest & _ & ->) & _)%parse_written. apply starts_with_app_r. unfold SigV4.text.
  apply starts_with_spec. by eexists.
Qed.

(** The signature the server computes. *)
Lemma server_signature creds a amz_date r t q ls : parse_amz_date amz_date = Some t ->
  SigV4.query (default "" (sr_query r)) q -> SigV4.lines (sr_headers r) (SigV4.signed a) ls ->
  calculate_signature (secret_key creds) amz_date (SigV4.region a) (SigV4.service a)
    (build_string_to_sign amz_date (SigV4.scope a)
       (build_canonical_request (sr_method r) (sr_path r) (default "" (sr_query r)) (sr_headers r) (SigV4.signed a)
          (default "UNSIGNED-PAYLOAD" (header_str (sr_headers r) "x-amz-content-sha256")))) =
  Some (SigV4.sign (secret_key creds) (String.substring 0 8 amz_date) (SigV4.region a) (SigV4.service a)
    (SigV4.to_sign amz_date (SigV4.scope a) (SigV4.request (sr_method r) (sr_path r) q ls (SigV4.signed a)
       (default "UNSIGNED-PAYLOAD" (header_str (sr_headers r) "x-amz-content-sha256"))))).
Proof.
  intros Ht Hq Hl. rewrite signature_canonical by (by eapply parse_amz_date_len).
  by rewrite (request_canonical _ _ _ _ _ _ _ _ Hq Hl).
Qed.

Lemma authentic_accepted now creds r auth a amz_date t :
  authentic now creds r auth a amz_date t -> validate_sigv4 now creds r = Some (Ok tt).
Proof.
  intros [Ha Hw Hk Hd Ht Hsk (q & ls & Hq & Hl & Hsig)]. pose proof (written_parse _ _ Hw) as Hp.
  unfold validate_sigv4. rewrite Ha, (parse_starts _ _ Hp), Hp. cbn [negb info_of ai_access_key].
  rewrite bool_decide_eq_true_2 by done. cbn [negb]. rewrite Hd. unfold validate_timestamp. rewrite Ht.
  apply skew_spec in Hsk. destruct (Z.ltb_spec MAX_TIME_SKEW_SECS (Z.abs (Z.quot (now - t) 1000000000))); [lia|].
  cbn [info_of ai_signed_headers ai_scope ai_region ai_service ai_signature].
  rewrite (server_signature _ _ _ _ _ _ _ Ht Hq Hl). simpl.
  by rewrite constant_time_compare_eq, <- Hsig, bool_decide_eq_true_2.
Qed.

Lemma validate_sigv4_inv now creds r :
  (validate_sigv4 now creds r = Some (Ok tt) -> exists auth a amz_date t, authentic now creds r auth a amz_date t) /\
  validate_sigv4 now creds r <> None.
Proof.
  unfold validate_sigv4. destruct (header_str (sr_headers r) "authorization") as [auth|] eqn:Ha; [|done].
  destruct (negb (starts_with "AWS4-HMAC-SHA256" auth)); [done|].
  destruct (parse_authorization_header auth) as [info|e] eqn:Hp; [|done].
  apply parse_written in Hp as (a & Hw & ->). cbn [info_of ai_access_key].
  destruct (bool_decide (SigV4.akey a = access_key creds)) eqn:Hk; cbn [negb]; [apply bool_decide_eq_true in Hk|done].
  destruct (header_str (sr_headers r) "x-amz-date") as [d|] eqn:Hd; [|done].
  unfold validate_timestamp. destruct (parse_amz_date d) as [t|] eqn:Ht; [|done].
  destruct (Z.ltb_spec MAX_TIME_SKEW_SECS (Z.abs (Z.quot (now - t) 1000000000))) as [Hsk|Hsk%skew_spec]; [done|].
  cbn [info_of ai_signed_headers ai_scope ai_region ai_service ai_signature].
  pose proof (proj2 (query_canonical (default "" (sr_query r)) _) eq_refl) as Hq.
  pose proof (lines_canonical (sr_headers r) (SigV4.signed a)) as Hl.
  rewrite (server_signature _ _ _ _ _ _ _ Ht Hq Hl). simpl. rewrite constant_time_compare_eq.
  case_bool_decide as He; [|done]. split; [|done]. intros _. exists auth, a, d, t. split; try done. eauto.
Qed.


(** *** The client *)
Lemma upper_hex_unreserved n : (n < 16)%N -> Client.unreserved (Client.upper_hex n) = true.
Proof.
  intros Hn. assert (Hall : forallb (fun k => Client.unreserved (Client.upper_hex (N.of_nat k))) (seq 0 16) = true)
    by reflexivity.
  rewrite forallb_forall in Hall. specialize (Hall (N.to_nat n)). rewrite N2Nat.id in Hall. apply Hall, in_seq. lia.
Qed.
Lemma uri_encode_lacks c s : Client.unreserved c = false -> c <> "%"%char -> contains_char c (Client.uri_encode false s) = false.
Proof.
  intros Hc Hp. assert (Hne : forall d, Client.unreserved d = true -> bool_decide (c = d) = false).
  { intros d Hd. apply bool_decide_eq_false. by intros ->; congruence. }
  induction s as [|d s IH]; simpl; [done|]. rewrite orb_false_r. destruct (Client.unreserved d) eqn:Hd; simpl.
  - by rewrite Hne.
  - pose proof (N_ascii_bounded d) as Hb. rewrite bool_decide_eq_false_2 by done.
    rewrite !Hne, IH; [done|apply upper_hex_unreserved..].
    + by apply N.mod_lt.
    + by apply N.Div0.div_lt_upper_bound.
Qed.
Lemma query_encoded ps : SigV4.params (SigV4.print_query (Client.encode_params ps)) (Client.encode_params ps).
Proof.
  set (eps := Client.encode_params ps).
  assert (Hlack : Forall (fun p => contains_char "="%char p.1 = false /\ contains_char "&"%char p.1 = false /\
    contains_char "&"%char p.2 = false) eps).
  { apply Forall_fmap, Forall_forall. intros [n v] _. by split_and!; apply uri_encode_lacks. }
  clearbody eps. destruct (decide (eps = [])) as [->|Hne]; [by left|right]. unfold SigV4.print_query. split.
  - destruct eps as [|[n v] [|? ?]]; simpl; [done|by destruct n..].
  - exists ((fun p => p.1 +:+ "=" +:+ p.2) <$> eps). split_and!; [by destruct eps|done| |].
    + apply Forall_fmap. eapply Forall_impl; [exact Hlack|]. intros [n v] (_ & Hn & Hv); simpl in *.
      by rewrite contains_char_app, Hn.
    + apply Forall2_fmap_l, Forall_Forall2_diag. eapply Forall_impl; [exact Hlack|]. intros [n v] (Hn & _). split; [done|].
      by left.
Qed.

Lemma collapse_squeeze s : contains_str "   " s = false -> Client.collapse s = SigV4.squeeze false s.
Proof.
  induction s as [|a [|b r] IH]; intros Hs; [done|by simpl; case_bool_decide|].
  change (Client.collapse (String a (String b r))) with
    (if bool_decide (a = " "%char) && bool_decide (b = " "%char) then Client.collapse (String b r)
     else String a (Client.collapse (String b r))).
  cbn [contains_str] in Hs, IH. apply orb_false_iff in Hs as [Hs Hr]. rewrite IH by done. cbn [SigV4.squeeze].
  destruct (bool_decide_reflect (a = " "%char)) as [->|Ha], (bool_decide_reflect (b = " "%char)) as [->|Hb]; simpl; try done.
  destruct r as [|c r]; [done|]. cbn [SigV4.squeeze].
  destruct (decide (c = " "%char)) as [->|Hc]; [by destruct r|]. by rewrite !bool_decide_eq_false_2.
Qed.

Lemma block_lines (hs : list (string * string)) rest : hs <> [] ->
  foldr (fun h block => h.1 +:+ ":" +:+ Client.collapse (trim h.2) +:+ newline +:+ block) "" hs +:+ rest =
  join_str newline ((fun h => h.1 +:+ ":" +:+ Client.collapse (trim h.2)) <$> hs) +:+ newline +:+ rest.
Proof.
  induction hs as [|h hs IH]; intros Hn; [done|]. cbn [foldr fmap list_fmap]. destruct hs as [|h' hs].
  - cbn [foldr fmap list_fmap join_str]. rewrite (string_app_nil_r newline). by rewrite <- !(assoc_L String.append).
  - rewrite <- !(assoc_L String.append), IH by done. cbn [fmap list_fmap join_str].
    by rewrite <- !(assoc_L String.append).
Qed.

Definition message_lines (m : Client.Message) : list (string * string) :=
  (fun h => (h.1, SigV4.squeeze false (trim h.2))) <$> Client.m_headers m.
Lemma message_lines_spec creds m r : Client.documented creds m -> Client.carries creds m r ->
  SigV4.lines (sr_headers r) (Client.header_names m) (message_lines m).
Proof.
  intros Hdoc Hcar. unfold message_lines. split.
  - pose proof (Client.doc_sorted _ _ Hdoc) as Hs. unfold Client.header_names in Hs. revert Hs. clear.
    induction (Client.m_headers m) as [|h hs IH]; intros Hs; cbn; constructor; inversion Hs as [|? ? Hs' Hf]; subst; [by apply IH|].
    apply Forall_fmap.
    by apply (proj1 (Forall_fmap fst (str_lt h.1) hs)) in Hf.
  - intros n v. rewrite list_elem_of_fmap. pose proof (Client.doc_lower _ _ Hdoc) as Hlow. rewrite Forall_forall in Hlow.
    split.
    + intros ([n' raw] & [= -> ->] & Hin). exists n', raw. split_and!; [by apply (list_elem_of_fmap_2 fst) in Hin| | |done].
      * symmetry. apply Hlow. by apply (list_elem_of_fmap_2 fst) in Hin.
      * by eapply Client.car_headers.
    + intros (name & raw & Hin & -> & Hh & ->). rewrite (Hlow _ Hin).
      apply list_elem_of_fmap in Hin as ([n' raw'] & -> & Hin). exists (n', raw'). split; [|done].
      cbn [fst] in Hh. rewrite (Client.car_headers _ _ _ Hcar _ _ Hin) in Hh. by injection Hh as ->.
Qed.

Lemma message_block creds m : Client.documented creds m ->
  (fun h => h.1 +:+ ":" +:+ Client.collapse (trim h.2)) <$> Client.m_headers m =
  (fun l => l.1 +:+ ":" +:+ l.2) <$> message_lines m.
Proof.
  intros Hdoc%Client.doc_spaces. unfold message_lines. rewrite <- list_fmap_compose.
  apply list_fmap_ext. intros i h Hh. rewrite Forall_lookup in Hdoc. simpl. by rewrite collapse_squeeze by by eapply Hdoc.
Qed.
Lemma uri_encode_nil keep s : Client.uri_encode keep s = "" <-> s = "".
Proof. split; [|by intros ->]. destruct s as [|c s]; [done|]. simpl. by case_match. Qed.
Lemma message_request creds m r : Client.documented creds m -> Client.carries creds m r ->
  Client.canonical_request m =
  SigV4.request (sr_method r) (sr_path r) (SigV4.print_query (merge_sort SigV4.precedes (Client.encode_params (Client.m_params m))))
    (message_lines m) (Client.header_names m) (default "UNSIGNED-PAYLOAD" (header_str (sr_headers r) "x-amz-content-sha256")).
Proof.
  intros Hdoc [-> -> _ _ -> _ _]. unfold Client.canonical_request, SigV4.request. cbn [join_str].
  rewrite block_lines, (message_block _ _ Hdoc) by by eapply Client.doc_some. do 4 f_equal.
  case_bool_decide as Hp; case_bool_decide as Hp'; rewrite uri_encode_nil in Hp'; by subst.
Qed.
Lemma message_query m ps : ps ≡ₚ Client.m_params m ->
  SigV4.query (SigV4.print_query (Client.encode_params ps))
    (SigV4.print_query (merge_sort SigV4.precedes (Client.encode_params (Client.m_params m)))).
Proof.
  intros Hp. eexists _, _. split_and!; [apply query_encoded| |apply (Sorted_merge_sort param_le)|done].
  rewrite merge_sort_Permutation. by apply fmap_Permutation.
Qed.
Lemma message_written creds m : Client.documented creds m ->
  SigV4.written (SigV4.text (Client.authorization creds m)) (Client.authorization creds m).
Proof.
  intros [Hsome _ _ Hnames _ Hwords Hsig]. apply Forall_and in Hnames as [Hnc Hns], Hwords as [Hwc Hws].
  split; [|exists ""; split; [by left|by rewrite string_app_nil_r]].
  split; cbn [SigV4.akey SigV4.date SigV4.region SigV4.service SigV4.terminator SigV4.signed SigV4.signature Client.authorization].
  - rewrite !Forall_cons in *. naive_solver.
  - unfold Client.header_names. by destruct (Client.m_headers m).
  - done.
  - repeat constructor; apply lacks_comma; [|by apply no_comma_join|done].
    unfold SigV4.credential; cbn [SigV4.akey SigV4.date SigV4.region SigV4.service SigV4.terminator Client.authorization join_str].
    rewrite !Forall_cons in Hwc. destruct Hwc as (H4 & H5 & H6 & H7 & _). by rewrite !contains_char_app, H4, H5, H6, H7.
Qed.

(** C31. A client that signs a message the way AWS documents it ([Client]: the path
    and the parameters URI-encoded, the parameters sorted, the signed headers in
    the order of their names with runs of spaces collapsed, the key derived from
    its secret), with the configured credentials and a date at most fifteen minutes
    away, is let through, in whatever order the request carries the parameters.
    The conditions ([Client.documented]): at least one header is signed, each once
    and carried by the request with one value of visible characters, without three
    spaces in a row; names, access key, region and service hold no separator. *)
Theorem signed_request_accepted now creds m r t : Client.documented creds m -> Client.carries creds m r ->
  parse_amz_date (Client.m_amz_date m) = Some t -> (Z.abs (now - t) <= 15 * 60 * 1000000000)%Z ->
  validate_sigv4 now creds r = Some (Ok tt).
Proof.
  intros Hdoc Hcar Ht Hsk. destruct (Client.car_query _ _ _ Hcar) as (ps & Hps & Hq).
  apply (authentic_accepted now creds r (SigV4.text (Client.authorization creds m)) (Client.authorization creds m)
    (Client.m_amz_date m) t).
  split; [exact (Client.car_authorization _ _ _ Hcar)|by apply message_written|done|exact (Client.car_date _ _ _ Hcar)|done|lia|].
  eexists _, (message_lines m). rewrite Hq.
  split_and!; [by apply message_query|by eapply message_lines_spec|].
  change (SigV4.signed _) with (Client.header_names m). by rewrite <- (message_request _ _ _ Hdoc Hcar).
Qed.
End properties.

(** ** Concrete requests *)
Module AuthWit.
Import ToySha.
#[export] Instance toy : Hmac := {|
  hmac_sha256 k d := String.list_byte_of_string (digest (k ++ d));
  hex_encode b := String.string_of_list_byte b;
  parse_amz_date s := if bool_decide (s = "20240101T000000Z") then Some 1704067200000000000%Z else None;
|}.
#[export] Instance toy_laws : HmacLaws.
Proof. split. intros s t. unfold parse_amz_date, toy. case_bool_decide; [subst; simpl; lia|done]. Qed.

Definition creds : CredentialsConfig := mkCredentialsConfig "AKID" "secret".
Definition date : string := "20240101T000000Z".
Definition now : Z := 1704067260000000000.
Definition plain_headers : HeaderMap := [("host", Some "s3.local"); ("x-amz-date", Some date)].
(** A client's message; the request carries its parameters in another order. *)
Definition message (extra : list (string * string)) : Client.Message :=
  Client.mkMessage "GET" "/photos/a b" [("prefix", "x/y"); ("a", "1 + 1")] (("host", "s3.local") :: extra ++ [("x-amz-date", date)])
    "UNSIGNED-PAYLOAD" date "us-east-1" "s3".
Definition auth_text (m : Client.Message) : string := SigV4.text (Client.authorization creds m).
Definition req (m : Client.Message) (query : string) (hs : HeaderMap) : SignedRequest :=
  mkSignedRequest "GET" "/photos/a%20b" (Some query) (("authorization", Some (auth_text m)) :: hs).
Definition good : SignedRequest := req (message []) "prefix=x%2Fy&a=1%20%2B%201" plain_headers.

Lemma message_documented : Client.documented creds (message []).
Proof. split; try (vm_compute; done); repeat constructor; vm_compute; done. Qed.
Lemma message_carried : Client.carries creds (message []) good.
Proof.
  split; try reflexivity.
  - exists [("prefix", "x/y"); ("a", "1 + 1")]. split; [done|reflexivity].
  - intros n v Hin. apply list_elem_of_In in Hin. destruct Hin as [[= <- <-]|[[= <- <-]|[]]]; reflexivity.
Qed.
Lemma signed_request_accepted_witness : validate_sigv4 now creds good = Some (Ok tt).
Proof.
  apply (signed_request_accepted now creds (message []) good 1704067200000000000);
    [exact message_documented|exact message_carried|reflexivity|vm_compute; discriminate].
Defined.
Lemma canonical_query_order_witness :
  canonicalize_query_string (join_str "&" ["b=2"; "a=1"; "b=1"]) = canonicalize_query_string (join_str "&" ["a=1"; "b=1"; "b=2"]).
Proof.
  apply (canonical_query_order ["b=2"; "a=1"; "b=1"] ["a=1"; "b=1"; "b=2"]); [|by repeat constructor..].
  apply (Permutation_cons_app ["a=1"; "b=1"] [] "b=2"). done.
Defined.

(** A request whose parameters come in another order is the same request; one
    with another parameter is refused. *)
Example reordered_query :
  validate_sigv4 now creds (req (message []) "a=1%20%2B%201&prefix=x%2Fy" plain_headers) = Some (Ok tt) /\
  validate_sigv4 now creds (req (message []) "a=1%20%2B%202&prefix=x%2Fy" plain_headers) = Some (Err ApiError.SignatureDoesNotMatch).
Proof. vm_compute. done. Qed.

(** A header that is listed as signed but absent is skipped, not refused: the
    client signed a request without it. *)
Definition absent_auth : SigV4.Authorization :=
  SigV4.mkAuthorization "AKID" "20240101" "us-east-1" "s3" "aws4_request" ["host"; "x-amz-meta-owner"]
    (SigV4.sign "secret" "20240101" "us-east-1" "s3" (SigV4.to_sign date "20240101/us-east-1/s3/aws4_request"
       (SigV4.request "GET" "/photos/k" "" [("host", "s3.local")] ["host"; "x-amz-meta-owner"] "UNSIGNED-PAYLOAD"))).
Example absent_header_accepted :
  validate_sigv4 now creds (mkSignedRequest "GET" "/photos/k" None
    (("authorization", Some (SigV4.text absent_auth)) :: plain_headers)) = Some (Ok tt).
Proof. vm_compute. reflexivity. Qed.

(** A client that collapses a run of four spaces to one, as documented, is
    refused. *)
Example spaces_refused :
  let m := message [("x-amz-meta-note", "a    b")] in
  validate_sigv4 now creds (req m "a=1%20%2B%201&prefix=x%2Fy" (("x-amz-meta-note", Some "a    b") :: plain_headers)) =
    Some (Err ApiError.SignatureDoesNotMatch).
Proof. vm_compute. reflexivity. Qed.

(** Of four spaces two stay. *)
Example spaces_collapsed_once : replace_spaces "a    b" = "a  b".
Proof. reflexivity. Qed.
End AuthWit.
