(* ===== verification/BucketHandlers.v ===== *)
(** * save-api: the bucket handlers

    Models [create.rs], [delete.rs], [head.rs] and [list.rs] of
    [crates/save-api/src/handlers/bucket]. *)
From Stdlib Require Import Strings.Byte Ascii.
From S2P Require Import Prelude Common Config Kv Buckets Objects Locks StateMachine MetadataStore S3Xml Api.
From stdpp Require Import base gmap strings numbers list.

Section handlers.
Context {DB B : Type} `{RocksDB DB, NodeRaft DB} `{Codec Bucket} `{Codec ObjectMetadata} `{Codec LockState}
  `{Chrono, XmlWriter}.
Context (config : SaveConfig) (join_error : DB -> option (string * DB)) (instant : App DB B -> N)
  (utc : App DB B -> Z).
Abbreviation Handler := (PM (App DB B) ApiError.t).

(** [if state.metadata.get_bucket(..).await.is_ok()]. *)
Definition bucket_known (bucket : string) : Handler bool := fun a =>
  let '(r, d) := MetadataStore.get_bucket join_error bucket (app_db a) in (Some (Ok (is_ok r)), set_db a d).

Definition create_error (bucket : string) (e : MetadataError) : ApiError.t :=
  match e with
  | Buckets.BucketAlreadyExists _ => ApiError.BucketAlreadyExists bucket
  | _ => metadata_error "Failed to create bucket: " e
  end.

Definition create_bucket (bucket : string) : Handler Response :=
  checked (validate_bucket_name bucket) ;;
  known ← bucket_known bucket;
  if known : bool then fail (ApiError.BucketAlreadyExists bucket)
  else
    now ← asks utc;
    on_db (create_error bucket) (nr_write (CreateBucket (Bucket_new now bucket))) ;;
    modify (fun a => set_cache a (cache_insert (instant a) bucket (bucket_cache a))) ;;
    mret (mkResponse 200 [("location", "/" +:+ bucket)] NoBody).

Definition delete_bucket (bucket : string) : Handler Response :=
  checked (validate_bucket_name bucket) ;;
  on_db (bucket_error bucket "Failed to get bucket: ") (MetadataStore.get_bucket join_error bucket) ;;
  objects ← on_db (metadata_error "Failed to list objects: ") (MetadataStore.list_objects join_error bucket None);
  match objects with
  | _ :: _ => fail (ApiError.BucketNotEmpty bucket)
  | [] =>
      on_db (metadata_error "Failed to delete bucket: ") (nr_write (DeleteBucket bucket)) ;;
      modify (fun a => set_cache a (cache_remove bucket (bucket_cache a))) ;;
      mret no_content
  end.

Definition head_bucket (bucket : string) : Handler Response :=
  checked (validate_bucket_name bucket) ;;
  ensure_read_consistency config ;;
  on_db (bucket_error bucket "Failed to check bucket: ") (MetadataStore.get_bucket join_error bucket) ;;
  mret (mkResponse 200 [("content-length", "0")] NoBody).

(** The owner is a constant of the code. *)
Definition list_buckets : Handler Response :=
  ensure_read_consistency config ;;
  buckets ← on_db (metadata_error "Failed to list buckets: ") (MetadataStore.list_buckets join_error);
  let bucket_list := (fun b => (bucket_name b, created_at b)) <$> buckets in
  xml ← rendered (to_xml (ListAllMyBucketsResult_new bucket_list "test-access-key"));
  mret (xml_response xml).
End handlers.

(** ** Properties *)
Section properties.
Context {DB B : Type} `{NodeRaftLaws DB} `{!CodecLaws Bucket, !CodecLaws ObjectMetadata}.
Context (join_error : DB -> option (string * DB)).
(** A blocking task that dies has changed no data. *)
Context (join_keeps : forall d e d', join_error d = Some (e, d') -> same_data d d').
Context (instant : App DB B -> N) (utc : App DB B -> Z).
Implicit Types (a : App DB B) (d : DB).

(** An applied bucket command changes its bucket's entry, or nothing. *)
Lemma applied_create b d r d' : applied (CreateBucket b) d r d' ->
  (meta d' = meta d /\ r <> Ok tt) \/
  (meta d !! bucket_key (bucket_name b) = None /\
   exists now, entry_is d d' (bucket_key (bucket_name b)) (Some (Bucket_new now (bucket_name b)))).
Proof.
  intros (now & d0 & d1 & Hm0 & Ha & Hm1). simpl in Ha.
  assert (Hc : forall x t, Buckets.create_bucket now (bucket_name b) d0 = (x, t) ->
    (t = d0 /\ exists e, x = Err e) \/ (meta d0 !! bucket_key (bucket_name b) = None /\
    entry_is d0 t (bucket_key (bucket_name b)) (Some (Bucket_new now (bucket_name b))))).
  { intros x t. unfold Buckets.create_bucket.
    intros [([] & t1 & [_ ->]%lift_inv & Hr)|(e & [_ ->]%lift_inv & ->)]%bind_inv; [|by eauto].
    apply bind_inv in Hr as [(o & t1 & Hg & Hr)|(e & Hg & ->)]; apply get_raw_spec in Hg as [-> Ho]; [|by eauto].
    destruct Ho as [[= ->]|(m & [=] & _)].
    destruct (meta d0 !! bucket_key (bucket_name b)) eqn:Hk; [injection Hr as <- <-; by eauto|].
    apply bind_inv in Hr as [([] & t1 & Hp & [= _ <-])|(e & Hp & ->)];
      apply put_enc_entry in Hp as [[? ?]|[-> (? & ? & _)]]; simplify_eq; eauto. }
  apply bind_inv in Ha as [(x & t & (y & Hy & Hr)%with_err_inv & [= <- <-])|(e & (y & Hy & Hr)%with_err_inv & ->)];
    apply Hc in Hy as [[-> [e' ->]]|[Hn He]]; simplify_eq/=; try (left; split; [congruence|done]);
    right; rewrite <- Hm0; (split; [done|]); exists now; by eapply entry_from.
Qed.

Lemma applied_delete n d r d' : applied (DeleteBucket n) d r d' ->
  (meta d' = meta d /\ r <> Ok tt) \/ meta d' = delete (bucket_key n) (meta d).
Proof.
  intros (now & d0 & d1 & Hm0 & Ha & Hm1). simpl in Ha. rewrite Hm1, <- Hm0.
  assert (Hd : forall x t, Buckets.delete_bucket n d0 = (x, t) ->
    (x = Ok tt /\ meta t = delete (bucket_key n) (meta d0)) \/ (t = d0 /\ x <> Ok tt)).
  { intros x t. unfold Buckets.delete_bucket.
    intros [([] & t1 & [_ ->]%lift_inv & Hr)|(e & [_ ->]%lift_inv & ->)]%bind_inv; [|by right].
    apply bind_inv in Hr as [([] & t1 & Hp & [= <- <-])|(e & Hp & ->)];
      apply delete_raw_spec in Hp as [[? ?]|(-> & m & ? & _)]; simplify_eq; auto. }
  apply bind_inv in Ha as [([] & t & (y & Hy & Hr)%with_err_inv & [= <- <-])|(e & (y & Hy & Hr)%with_err_inv & ->)];
    apply Hd in Hy as [[-> ?]|[-> Hne]]; simplify_eq/=; auto.
  by destruct y as [[]|].
Qed.

Lemma create_bucket_inv b a x a' : create_bucket join_error instant utc b a = (x, a') ->
  app_store a' = app_store a /\
  match x with
  | Some (Ok resp) => resp = mkResponse 200 [("location", "/" +:+ b)] NoBody /\
      validate_bucket_name b = Ok tt /\ meta (app_db a) !! bucket_key b = None /\
      (exists now, stored (meta (app_db a') !! bucket_key b) (Some (Bucket_new now b))) /\
      (forall key, starts_with "lock:" key = false -> key <> bucket_key b ->
         meta (app_db a') !! key = meta (app_db a) !! key) /\
      is_Some (bc_cache (bucket_cache a') !! b)
  | Some (Err _) => bucket_cache a' = bucket_cache a /\
      (same_data (app_db a) (app_db a') \/
       (meta (app_db a) !! bucket_key b = None /\ forall key, starts_with "lock:" key = false -> key <> bucket_key b ->
          meta (app_db a') !! key = meta (app_db a) !! key))
  | None => False
  end.
Proof.
  intros [(x0 & Hv & Hrun)|(e & _ & -> & ->)]%checked_bind; [|split_and!; try done; by left].
  destruct x0. apply pbind_inv in Hrun as [(kn & a1 & Hk & Hrun)|[(e & Hk & _)|[Hk _]]];
    unfold bucket_known in Hk; destruct (MetadataStore.get_bucket join_error b (app_db a)) as [r d1] eqn:Hg; try done.
  injection Hk as <- <-. apply (spawn_read _ join_keeps _ (get_bucket_pure b)) in Hg.
  destruct (is_ok r); [injection Hrun as <- <-; split_and!; try done; by left|].
  apply asks_bind in Hrun. set (now := utc _) in Hrun. clearbody now.
  pose proof (Hg _ (bucket_not_lock b)) as Hb.
  apply on_db_bind in Hrun as [([] & d2 & Hw%nr_write_ok & Hrun)|(e & d2 & Hw%nr_write_err & -> & ->)].
  - injection Hrun as <- <-. simpl in *. split; [done|].
    apply applied_create in Hw as [[_ ?]|(Hn & t & Hs & Hf)]; [done|]. simpl in *.
    split_and!; [done|done|congruence|by exists t| |by rewrite lookup_insert_eq].
    intros key Hl Hne. rewrite Hf by done. by apply Hg.
  - simpl in *. split_and!; [done..|]. destruct Hw as [Hm|[x Hw]]; [left; trans d1; [done|by apply same_data_meta]|].
    apply applied_create in Hw as [[Hm _]|(Hn & t & _ & Hf)]; [left; trans d1; [done|by apply same_data_meta]|right].
    simpl in Hn. split; [congruence|]. intros key Hl Hne. rewrite Hf by done. by apply Hg.
Qed.

(** Creating a bucket: [200] means that the name is valid, that the bucket was
    not stored and is now, with the time at which the command was applied, and
    that it is cached; every other entry is as it was.  A failed request leaves
    the data as it was or, when the Raft write failed, may have changed the
    bucket's own entry. *)
Theorem create_bucket_exact b a x a' : create_bucket join_error instant utc b a = (x, a') ->
  app_store a' = app_store a /\
  match x with
  | Some (Ok resp) => resp = mkResponse 200 [("location", "/" +:+ b)] NoBody /\
      validate_bucket_name b = Ok tt /\ meta (app_db a) !! bucket_key b = None /\
      (exists now, stored (meta (app_db a') !! bucket_key b) (Some (Bucket_new now b))) /\
      (forall key, starts_with "lock:" key = false -> key <> bucket_key b ->
         meta (app_db a') !! key = meta (app_db a) !! key) /\
      is_Some (bc_cache (bucket_cache a') !! b)
  | Some (Err _) => bucket_cache a' = bucket_cache a /\
      (same_data (app_db a) (app_db a') \/
       (meta (app_db a) !! bucket_key b = None /\ forall key, starts_with "lock:" key = false -> key <> bucket_key b ->
          meta (app_db a') !! key = meta (app_db a) !! key))
  | None => False
  end.
Proof. apply create_bucket_inv. Qed.

Lemma delete_bucket_inv b a x a' : delete_bucket join_error b a = (x, a') ->
  let gone := forall key, starts_with "lock:" key = false ->
    meta (app_db a') !! key = delete (bucket_key b) (meta (app_db a)) !! key in
  app_store a' = app_store a /\
  match x with
  | Some (Ok resp) => resp = no_content /\ is_Some (meta (app_db a) !! bucket_key b) /\
      (forall k, meta (app_db a) !! object_db_key b k = None) /\ gone /\
      bc_cache (bucket_cache a') !! b = None
  | Some (Err _) => same_data (app_db a) (app_db a') \/
      ((forall k, meta (app_db a) !! object_db_key b k = None) /\ gone)
  | None => False
  end.
Proof.
  intros Hrun gone. revert Hrun. subst gone. simpl.
  intros [(x0 & Hv & Hrun)|(e & _ & -> & ->)]%checked_bind; [|split; [done|by left]].
  apply on_db_bind in Hrun as [(b0 & d1 & Hg & Hrun)|(e & d1 & Hg & -> & ->)];
    pose proof (spawn_read _ join_keeps _ (get_bucket_pure b) _ _ _ Hg) as Hs1; [|split; [done|by left]].
  apply spawn_Ok, get_bucket_Ok in Hg as (-> & v & Hbk & _).
  apply on_db_bind in Hrun as [(objs & d2 & Hl & Hrun)|(e & d2 & Hl & -> & ->)];
    pose proof (spawn_read _ join_keeps _ (list_objects_pure b None) _ _ _ Hl) as Hs2; [|split; [done|by left]].
  destruct objs as [|o objs]; [|injection Hrun as <- <-; split; [done|by left]].
  assert (Hnone : forall k, meta (app_db a) !! object_db_key b k = None).
  { apply spawn_Ok in Hl. unfold Objects.list_objects in Hl. rewrite list_prefix_none in Hl.
    apply scan_raw_spec in Hl as (_ & l & [_ Hin] & Hs%scan_list_decode).
    apply Forall2_length in Hs. destruct l; [|done]. intros k. apply eq_None_not_Some. intros [w Hw].
    eapply not_elem_of_nil, Hin. split; [exact Hw|]. by rewrite object_db_key_prefix. }
  assert (Hsame : forall d3, meta d3 = delete (bucket_key b) (meta d2) -> forall key,
    starts_with "lock:" key = false -> meta d3 !! key = delete (bucket_key b) (meta (app_db a)) !! key).
  { intros d3 -> key Hk. destruct (decide (key = bucket_key b)) as [->|];
      [by rewrite !lookup_delete_eq|rewrite !lookup_delete_ne by done; by apply Hs2]. }
  apply on_db_bind in Hrun as [([] & d3 & Hw%nr_write_ok & Hrun)|(e & d3 & Hw%nr_write_err & -> & ->)].
  - injection Hrun as <- <-. simpl in *. apply applied_delete in Hw as [[_ ?]|Hm]; [done|].
    split_and!; [done|done|by eauto|done|by apply Hsame|by rewrite lookup_delete_eq].
  - simpl in *. split; [done|]. destruct Hw as [Hm|[y Hw]]; [left; trans d2; [done|by apply same_data_meta]|].
    apply applied_delete in Hw as [[Hm _]|Hm]; [left; trans d2; [done|by apply same_data_meta]|right; auto].
Qed.

(** C29. A bucket that holds an object is not deleted.  Deleting: [204] means that the
    bucket was stored, that no object of it was, and that its entry is gone, from
    the store and from the cache, with every other entry as it was.  Otherwise
    the data is as it was unless no object was stored. *)
Theorem delete_bucket_guard b a x a' : delete_bucket join_error b a = (x, a') ->
  let gone := forall key, starts_with "lock:" key = false ->
    meta (app_db a') !! key = delete (bucket_key b) (meta (app_db a)) !! key in
  app_store a' = app_store a /\
  match x with
  | Some (Ok resp) => resp = no_content /\ is_Some (meta (app_db a) !! bucket_key b) /\
      (forall k, meta (app_db a) !! object_db_key b k = None) /\ gone /\
      bc_cache (bucket_cache a') !! b = None
  | Some (Err _) => same_data (app_db a) (app_db a') \/
      ((forall k, meta (app_db a) !! object_db_key b k = None) /\ gone)
  | None => False
  end.
Proof. apply delete_bucket_inv. Qed.

End properties.
