(* ===== verification/ObjectHandlers.v ===== *)
(** * save-api: the object handlers

    Models [put.rs], [get.rs], [head.rs], [delete.rs] and [list.rs] of
    [crates/save-api/src/handlers/objects] over any storage backend that meets
    the contract of StorageBackend.v and any Raft node that meets that of Api.v. *)
From Stdlib Require Import Strings.Byte Ascii Sorted.
From S2P Require Import Prelude Common Config Kv Fs ObjectStorage StorageBackend Buckets Objects Locks.
From S2P Require Import StateMachine MetadataStore S3Xml Api.
From stdpp Require Import base gmap strings numbers sorting list.

Definition storage_key (bucket key : string) : string := bucket +:+ "/" +:+ key.

(** ** [put.rs]: the reader that hashes what it passes on

    The hasher is the bytes it was fed. *)
Record HashingReader : Type := mkHashingReader { hr_inner : Reader; hr_hasher : bytes; hr_size : N }.
Definition HashingReader_new (inner : Reader) : HashingReader := mkHashingReader inner [] 0.
Definition finalize `{Sha256} (h : HashingReader) : string * N := (sha256_hex (hr_hasher h), hr_size h).

(** [poll_read]: what one read fills in, [None] at the end of the stream. *)
Definition hr_poll_read (h : HashingReader) : option (result io_error bytes) * HashingReader :=
  match hr_inner h with
  | [] => (None, h)
  | Err e :: rest => (Some (Err e), mkHashingReader rest (hr_hasher h) (hr_size h))
  | Ok c :: rest =>
      (Some (Ok c), mkHashingReader rest (hr_hasher h ++ c) (wrapN 64 (hr_size h + N.of_nat (length c))))
  end.

(** What a caller that reads to the end, or to the first error, gets; [fuel]
    is a bound on the number of reads. *)
Fixpoint hr_drain (fuel : nat) (h : HashingReader) : Reader * HashingReader :=
  match fuel with
  | O => ([], h)
  | S fuel =>
      match hr_poll_read h with
      | (None, h') => ([], h')
      | (Some (Err e), h') => ([Err e], h')
      | (Some (Ok c), h') => let '(r, h'') := hr_drain fuel h' in (Ok c :: r, h'')
      end
  end.
Definition hr_read_all (h : HashingReader) : Reader * HashingReader := hr_drain (S (length (hr_inner h))) h.

(** ** [list.rs] *)
Record ListObjectsQuery : Type := mkListObjectsQuery {
  q_prefix : option string; q_marker : option string; q_max_keys : option nat; q_list_type : option string;
  q_continuation_token : option string }.
Inductive ListResult : Type := V1 (r : ListBucketResult) | V2 (r : ListBucketResultV2).

Definition is_v2 (q : ListObjectsQuery) : bool := bool_decide (q_list_type q = Some "2").
Definition after_key (t : string) (objects : list ObjectMetadata) : list ObjectMetadata :=
  filter (fun o => str_lt t (om_key o)) objects.
Definition listed (o : ObjectMetadata) : Listed := (om_key o, om_modified_at o, om_etag o, om_size o).

(** From the stored objects to the page. *)
Definition list_page (bucket : string) (q : ListObjectsQuery) (objects : list ObjectMetadata) : ListResult :=
  let objects :=
    if is_v2 q then match q_continuation_token q with Some t => after_key t objects | None => objects end
    else match q_marker q with Some m => after_key m objects | None => objects end in
  let max_keys := default 1000 (q_max_keys q) `min` 1000 in
  let is_truncated := max_keys <? length objects in
  let object_list := listed <$> take max_keys objects in
  if is_v2 q then
    V2 (ListBucketResultV2_new bucket (q_prefix q) (q_continuation_token q) max_keys is_truncated object_list)
  else V1 (ListBucketResult_new bucket (q_prefix q) (q_marker q) max_keys is_truncated object_list).

Section handlers.
Context {DB B F : Type} `{RocksDB DB, NodeRaft DB} `{Codec Bucket} `{Codec ObjectMetadata} `{Codec LockState}
  `{StorageBackend B F} `{Chrono, XmlWriter, Sha256}.
Context (config : SaveConfig) (join_error : DB -> option (string * DB)) (instant : App DB B -> N)
  (utc : App DB B -> Z) (lock_awaits : App DB B -> nat).
Abbreviation Handler := (PM (App DB B) ApiError.t).

Definition check_names (bucket key : string) : Handler unit :=
  checked (validate_bucket_name bucket) ;; checked (validate_object_key key).

Definition duration_ms (start : N) : Handler string := asks (fun a => show ((instant a - start) / 1000000)%N).

(** *** PUT *)
Definition put_locked (start : N) (bucket key : string) (body : Reader) : Handler Response :=
  validate_bucket_exists join_error instant bucket ;;
  let full_key := storage_key bucket key in
  let '(reader, hashing_reader) := hr_read_all (HashingReader_new body) in
  temp_object ← on_store (storage_error "Storage error: ") (sb_write_temp_object full_key reader);
  let '(etag, size) := finalize hashing_reader in
  now ← asks utc;
  let metadata := ObjectMetadata_new now bucket key size etag in
  on_store (storage_error "Storage commit failed: ") (sb_commit_object temp_object) ;;
  on_db (metadata_error "Metadata commit failed after storage commit - orphaned object may require GC: ")
    (nr_write (PutObjectMetadata metadata)) ;;
  ms ← duration_ms start;
  mret (mkResponse 200 [("etag", quoted etag); ("x-storage-duration-ms", ms)] NoBody).

Definition put_object (bucket key : string) (body : Reader) : Handler Response :=
  start ← asks instant;
  check_names bucket key ;;
  with_lock lock_awaits Write bucket key (put_locked start bucket key body).

(** *** GET and HEAD *)
Definition read_error (bucket key : string) (e : MetadataError) : ApiError.t :=
  match e with
  | ObjectNotFound _ _ | BucketNotFound _ => ApiError.ObjectNotFound bucket key
  | _ => metadata_error "Metadata error: " e
  end.

(** The read lock of the strong mode. *)
Definition read_locked {X} (bucket key : string) (c : Handler X) : Handler X :=
  match consistency_mode (cluster config) with
  | Strong => with_lock lock_awaits Read bucket key c
  | Eventual => c
  end.

Definition object_headers (m : ObjectMetadata) : list (string * string) :=
  [("etag", quoted (om_etag m)); ("content-length", show (om_size m)); ("last-modified", http_date (om_modified_at m));
   ("content-type", default "application/octet-stream" (om_content_type m))].

Definition get_locked (start : N) (bucket key : string) : Handler Response :=
  ensure_read_consistency config ;;
  metadata ← on_db (read_error bucket key) (MetadataStore.get_object_metadata join_error bucket key);
  file ← on_store (storage_error "Storage error: ") (sb_get_object (storage_key bucket key));
  ms ← duration_ms start;
  mret (mkResponse 200 (object_headers metadata ++ [("x-storage-duration-ms", ms)]) (StreamBody file)).

Definition get_object (bucket key : string) : Handler Response :=
  start ← asks instant;
  check_names bucket key ;;
  read_locked bucket key (get_locked start bucket key).

Definition head_locked (bucket key : string) : Handler Response :=
  ensure_read_consistency config ;;
  metadata ← on_db (read_error bucket key) (MetadataStore.get_object_metadata join_error bucket key);
  mret (mkResponse 200 (object_headers metadata) NoBody).

Definition head_object (bucket key : string) : Handler Response :=
  check_names bucket key ;;
  read_locked bucket key (head_locked bucket key).

(** *** DELETE: the metadata first, then the file *)
Definition delete_error (bucket key : string) (e : MetadataError) : ApiError.t :=
  match e with
  | ObjectNotFound _ _ => ApiError.ObjectNotFound bucket key
  | BucketNotFound _ => ApiError.BucketNotFound bucket
  | _ => metadata_error "Metadata error: " e
  end.

Definition delete_locked (bucket key : string) : Handler Response :=
  on_db (delete_error bucket key) (MetadataStore.get_object_metadata join_error bucket key) ;;
  on_db (metadata_error "Metadata error: ") (nr_write (DeleteObjectMetadata bucket key)) ;;
  on_store
    (storage_error "Storage deletion failed after metadata deletion - orphaned object may require GC: ")
    (sb_delete_object (storage_key bucket key)) ;;
  mret no_content.

Definition delete_object (bucket key : string) : Handler Response :=
  check_names bucket key ;;
  with_lock lock_awaits Write bucket key (delete_locked bucket key).

(** *** LIST *)
Definition list_result (bucket : string) (q : ListObjectsQuery) : Handler ListResult :=
  checked (validate_bucket_name bucket) ;;
  validate_bucket_exists join_error instant bucket ;;
  ensure_read_consistency config ;;
  objects ← on_db (metadata_error "Failed to list objects: ")
              (MetadataStore.list_objects join_error bucket (q_prefix q));
  mret (list_page bucket q objects).

Definition list_objects (bucket : string) (q : ListObjectsQuery) : Handler Response :=
  page ← list_result bucket q;
  xml ← rendered (match page with V1 r => to_xml r | V2 r => to_xml r end);
  mret (xml_response xml).
End handlers.

(** ** Lemmas *)
Lemma hr_drain_spec fuel r acc n : length r < fuel ->
  let '(r', h) := hr_drain fuel (mkHashingReader r acc n) in
  read_to_end r' = read_to_end r /\
  forall d, read_to_end r = Ok d -> hr_hasher h = acc ++ d /\
    ((n + N.of_nat (length d) < 2 ^ 64)%N -> hr_size h = (n + N.of_nat (length d))%N).
Proof.
  revert r acc n. induction fuel as [|fuel IH]; intros r acc n Hf; [lia|].
  destruct r as [|[c|e] r]; cbn [hr_drain hr_poll_read hr_inner].
  - split; [done|]. intros d [= <-]. rewrite app_nil_r. split; [done|]. simpl. lia.
  - cbn [hr_hasher hr_size]. specialize (IH r (acc ++ c) (wrapN 64 (n + N.of_nat (length c))) ltac:(simpl in Hf; lia)).
    destruct (hr_drain fuel _) as [r' h]. destruct IH as [Hr Hd]. simpl. rewrite Hr. split; [done|].
    intros d Hd'. destruct (read_to_end r) as [d'|] eqn:Hrr; [|done]. injection Hd' as <-.
    destruct (Hd d' eq_refl) as [Hh Hs]. rewrite Hh, <- (assoc_L (++)), length_app. split; [done|].
    intros Hlt. assert (Hw : wrapN 64 (n + N.of_nat (length c)) = (n + N.of_nat (length c))%N)
      by (apply N.mod_small; lia). rewrite Hw in Hs. rewrite Hs; lia.
  - split; [done|]. intros d [=].
Qed.

Lemma hr_read_all_spec r r' h : hr_read_all (HashingReader_new r) = (r', h) ->
  read_to_end r' = read_to_end r /\
  forall d, read_to_end r = Ok d -> hr_hasher h = d /\
    ((N.of_nat (length d) < 2 ^ 64)%N -> hr_size h = N.of_nat (length d)).
Proof.
  unfold hr_read_all, HashingReader_new. intros Hr. simpl hr_inner in Hr.
  pose proof (hr_drain_spec (S (length r)) r [] 0 ltac:(lia)) as Hs. rewrite Hr in Hs. done.
Qed.

Section theory.
Context {DB B F : Type} `{NodeRaftLaws DB} `{!CodecLaws ObjectMetadata} `{StorageBackendLaws B F}
  `{Chrono, XmlWriter, Sha256}.
Context (config : SaveConfig) (join_error : DB -> option (string * DB)).
Context (join_keeps : forall d e d', join_error d = Some (e, d') -> same_data d d').
Context (instant : App DB B -> N) (utc : App DB B -> Z) (lock_awaits : App DB B -> nat).
Implicit Types (a : App DB B).

(** The object files, and the metadata entry of an object. *)
Definition files a : gmap PathBuf bytes := fs_view (sb_fs (app_store a)).
Definition entry a b k : option bytes := meta (app_db a) !! object_db_key b k.
Definition final_of b k : PathBuf := sb_final (storage_key b k).
Definition temp_of b k : PathBuf := sb_temp (storage_key b k).

(** The file system after [d] was published as the object's file. *)
Definition published b k (d : bytes) a a' : Prop :=
  files a' = <[final_of b k := d]> (delete (temp_of b k) (files a)).
Definition files_kept b k a a' : Prop := delete (temp_of b k) (files a') = delete (temp_of b k) (files a).
(** The metadata after the entry of the object was written or removed. *)
Definition entry_set b k (s : option ObjectMetadata) a a' : Prop :=
  stored (entry a' b k) s /\
  forall key, starts_with "lock:" key = false -> key <> object_db_key b k ->
    meta (app_db a') !! key = meta (app_db a) !! key.

Lemma applied_put m d r d' : applied (PutObjectMetadata m) d r d' ->
  (meta d' = meta d /\ r <> Ok tt) \/ entry_is d d' (object_db_key (om_bucket m) (om_key m)) (Some m).
Proof.
  intros (now & d0 & d1 & Hm0 & Ha & Hm1). simpl in Ha.
  apply bind_inv in Ha as [([] & t & (y & Hy & Hr)%with_err_inv & [= <- <-])|(e & (y & Hy & Hr)%with_err_inv & ->)];
    apply put_object_metadata_spec in Hy as [[-> (e' & -> & _)]|Hc]; simplify_eq/=;
    try (left; split; [congruence|done]); destruct (invalid_operation _) as [[]|e0];
    destruct Hc as [-> Hc]; simplify_eq/=.
  - right. by eapply entry_from.
  - left. split; [congruence|done].
Qed.

Lemma applied_delete_object b k d r d' : applied (DeleteObjectMetadata b k) d r d' ->
  (meta d' = meta d /\ r <> Ok tt) \/ entry_is (A := ObjectMetadata) d d' (object_db_key b k) None.
Proof.
  intros (now & d0 & d1 & Hm0 & Ha & Hm1). simpl in Ha.
  apply bind_inv in Ha as [([] & t & (y & Hy & Hr)%with_err_inv & [= <- <-])|(e & (y & Hy & Hr)%with_err_inv & ->)];
    apply delete_object_metadata_spec in Hy as [[-> (e' & -> & _)]|Hc]; simplify_eq/=;
    try (left; split; [congruence|done]); destruct (invalid_operation _) as [[]|e0];
    destruct Hc as [-> Hc]; simplify_eq/=.
  - right. by eapply entry_from.
  - left. split; [congruence|done].
Qed.

(** A Raft write of the object's entry, in a handler. *)
Lemma write_entry_inv c b k s a r d' :
  (forall d r d', applied c d r d' ->
     (meta d' = meta d /\ r <> Ok tt) \/ entry_is (A := ObjectMetadata) d d' (object_db_key b k) s) ->
  nr_write c (app_db a) = (r, d') ->
  match r with
  | Ok _ => entry_set b k s a (set_db a d')
  | Err _ => same_data (app_db a) d' \/ entry_set b k s a (set_db a d')
  end.
Proof.
  intros Hc Hw%write_cases.
  assert (He : entry_is (app_db a) d' (object_db_key b k) s -> entry_set b k s a (set_db a d')).
  { intros [Hs Hf]. split; [done|]. intros key _ Hne. by apply Hf. }
  destruct r as [u|e].
  - apply Hc in Hw as [[_ ?]|?]; [done|auto].
  - destruct Hw as [?|[x Hw]]; [left; by apply same_data_meta|].
    apply Hc in Hw as [[? _]|?]; [left; by apply same_data_meta|right; auto].
Qed.

Lemma entry_set_frame b k s a a1 a2 a' : same_data (app_db a) (app_db a1) -> entry_set b k s a1 a2 ->
  same_data (app_db a2) (app_db a') -> entry_set b k s a a'.
Proof.
  intros Ha [Hs Hf] Hb. split.
  - unfold entry. by rewrite Hb.
  - intros key Hl Hne. by rewrite Hb, Hf, Ha.
Qed.

(** What storing an object leaves: the entry describes the bytes of the file. *)
Definition put_result b k (d : bytes) (ct : option string) a a' : Prop :=
  published b k d a a' /\
  exists now, entry_set b k
    (Some (mkObjectMetadata b k (N.of_nat (length d)) (sha256_hex d) ct now now [])) a a'.
(** What an attempt that failed may leave: nothing but the temporary file has
    changed, or the file is published, with or without its entry. *)
Definition put_failed b k (d : option bytes) (ct : option string) a a' : Prop :=
  (files_kept b k a a' /\ same_data (app_db a) (app_db a')) \/
  exists d0, d = Some d0 /\ published b k d0 a a' /\
    (same_data (app_db a) (app_db a') \/
     exists now, entry_set b k
       (Some (mkObjectMetadata b k (N.of_nat (length d0)) (sha256_hex d0) ct now now [])) a a').

(** Writing the temporary object, committing it and writing the entry: the part
    PUT and the completion of a multipart upload share.  PUT reads the clock for the
    metadata before the commit, the completion after it. *)
Lemma store_object_inv {X} b k r (e1 e2 : StorageError.t -> ApiError.t) e3
    (early : App DB B -> Z) (mk_meta : Z -> App DB B -> ObjectMetadata) (ct : option string)
    (fin : PM (App DB B) ApiError.t X) a x a' :
  sb_ok (app_store a) ->
  (forall z a0 d, read_to_end r = Ok d -> exists now,
     mk_meta z a0 = mkObjectMetadata b k (N.of_nat (length d)) (sha256_hex d) ct now now []) ->
  (forall a0 y a0', fin a0 = (y, a0') -> app_db a0' = app_db a0 /\ app_store a0' = app_store a0 /\
     exists v, y = Some (Ok v)) ->
  (t ← on_store e1 (sb_write_temp_object (storage_key b k) r);
   z ← asks early;
   on_store e2 (sb_commit_object t) ;;
   m ← asks (mk_meta z);
   on_db e3 (nr_write (PutObjectMetadata m)) ;; fin) a = (x, a') ->
  sb_ok (app_store a') /\
  match x with
  | Some (Ok _) => exists d, read_to_end r = Ok d /\ put_result b k d ct a a'
  | _ => put_failed b k (match read_to_end r with Ok d => Some d | Err _ => None end) ct a a'
  end.
Proof.
  intros Hok Hmeta Hfin Hrun.
  assert (Hkeep : forall y s1, sb_write_temp_object (storage_key b k) r (app_store a) = (y, s1) ->
    sb_ok s1 /\ files_kept b k a (set_store a s1)) by (intros y s1 Hw; by eapply sb_write_temp_keeps).
  apply on_store_bind in Hrun as [(t & s1 & Hw & Hrun)|[(e & s1 & Hw & -> & ->)|(s1 & Hw & -> & ->)]];
    destruct (Hkeep _ _ Hw) as [Hok1 Hk1]; [|split; [done|by left]..].
  apply sb_write_temp_ok in Hw as (-> & d & Hd & Hv); [|done]. rewrite Hd. apply asks_bind in Hrun.
  set (z := early _) in Hrun. clearbody z.
  assert (Htemp : fs_view (sb_fs s1) !! sb_temp (storage_key b k) = Some d) by by rewrite Hv, lookup_insert_eq.
  assert (Hdel : delete (temp_of b k) (fs_view (sb_fs s1)) = delete (temp_of b k) (files a))
    by (unfold temp_of; by rewrite Hv, delete_insert_eq).
  assert (Hpub : forall s2, fs_view (sb_fs s2) = <[sb_final (storage_key b k) := d]>
    (delete (sb_temp (storage_key b k)) (fs_view (sb_fs s1))) -> published b k d a (set_store a s2)).
  { intros s2 Hs2. unfold published, files. simpl. rewrite Hs2. unfold temp_of in Hdel. by rewrite Hdel. }
  assert (Hfail : forall y s2, sb_commit_object (sb_handle (storage_key b k)) s1 = (y, s2) -> y <> Some (Ok tt) ->
    put_failed b k (Some d) ct a (set_store a s2)).
  { intros y s2 Hc Hy. eapply sb_commit_failed in Hc as [Hs|Hs]; [| |done..].
    - left. split; [|done]. unfold files_kept. rewrite <- Hdel. exact Hs.
    - right. exists d. split; [done|]. split; [by apply Hpub|by left]. }
  apply on_store_bind in Hrun as [([] & s2 & Hc & Hrun)|[(e & s2 & Hc & -> & ->)|(s2 & Hc & -> & ->)]];
    pose proof (sb_commit_keeps _ _ _ _ Hok1 Hc) as Hok2; [|split; [done|by eapply Hfail]..].
  eapply sb_commit_done, Hpub in Hc; [|done..]. apply asks_bind in Hrun.
  destruct (Hmeta z (set_store (set_store a s1) s2) d Hd) as [now Hm]. rewrite Hm in Hrun.
  apply on_db_bind in Hrun as [([] & d2 & Hw & Hrun)|(e & d2 & Hw & -> & ->)];
    eapply (write_entry_inv _ b k) in Hw; try (intros ???; apply applied_put).
  - apply Hfin in Hrun as (Hdb & Hst & v & ->). unfold put_result, published, files, entry_set, entry. rewrite Hdb, Hst.
    split; [done|]. exists d. split; [done|]. split; [exact Hc|]. exists now. exact Hw.
  - split; [done|]. right. exists d. split; [done|]. split; [exact Hc|].
    destruct Hw as [?|Hw]; [by left|right; exists now; exact Hw].
Qed.

Lemma check_names_cases {X} b k (c : PM (App DB B) ApiError.t X) a x a' : (check_names b k ;; c) a = (x, a') ->
  (validate_bucket_name b = Ok tt /\ validate_object_key k = Ok tt /\ c a = (x, a')) \/
  (exists m, x = Some (Err (ApiError.InvalidRequest m)) /\ a' = a /\
     (validate_bucket_name b <> Ok tt \/ validate_object_key k <> Ok tt)).
Proof.
  unfold check_names, mbind, PM_bind, checked.
  destruct (validate_bucket_name b) as [[]|e]; simpl; [|intros [= <- <-]; right; eauto].
  destruct (validate_object_key k) as [[]|e]; simpl; [by left|intros [= <- <-]; right; eauto].
Qed.

Lemma put_failed_frame b k d ct a a1 a2 a' : same_data (app_db a) (app_db a1) -> app_store a1 = app_store a ->
  same_data (app_db a2) (app_db a') -> app_store a' = app_store a2 ->
  put_failed b k d ct a1 a2 -> put_failed b k d ct a a'.
Proof.
  intros Hd1 Hs1 Hd2 Hs2. unfold put_failed, files_kept, published, files. rewrite Hs1, Hs2.
  intros [[Hf Hd]|(d0 & -> & Hp & Hm)]; [left|right].
  - split; [done|]. trans (app_db a1); [done|]. by trans (app_db a2).
  - exists d0. split_and!; [done..|]. destruct Hm as [Hm|[now Hm]]; [left|right; exists now; by eapply entry_set_frame].
    trans (app_db a1); [done|]. by trans (app_db a2).
Qed.
Lemma put_result_frame b k d ct a a1 a2 a' : same_data (app_db a) (app_db a1) -> app_store a1 = app_store a ->
  same_data (app_db a2) (app_db a') -> app_store a' = app_store a2 ->
  put_result b k d ct a1 a2 -> put_result b k d ct a a'.
Proof.
  intros Hd1 Hs1 Hd2 Hs2. unfold put_result, published, files. rewrite Hs1, Hs2.
  intros [? [now Hm]]. split; [done|]. exists now. by eapply entry_set_frame.
Qed.
Lemma put_failed_refl b k d ct a a' : same_data (app_db a) (app_db a') -> app_store a' = app_store a ->
  put_failed b k d ct a a'.
Proof. intros Hd Hs. left. unfold files_kept, files. by rewrite Hs. Qed.

Lemma put_locked_inv start b k body a x a' :
  (forall d, read_to_end body = Ok d -> (N.of_nat (length d) < 2 ^ 64)%N) ->
  sb_ok (app_store a) -> put_locked join_error instant utc start b k body a = (x, a') ->
  sb_ok (app_store a') /\
  match x with
  | Some (Ok resp) => (is_Some (meta (app_db a) !! bucket_key b) \/
        cache_contains (instant a) b (bucket_cache a) = true) /\
      exists d, read_to_end body = Ok d /\ put_result b k d None a a' /\
        status resp = 200%N /\ head (headers resp) = Some ("etag", quoted (sha256_hex d))
  | _ => put_failed b k (match read_to_end body with Ok d => Some d | Err _ => None end) None a a'
  end.
Proof.
  intros Hsize Hok. unfold put_locked.
  intros [([] & a1 & Hv & Hrun)|[(e & Hv & ->)|[Hv ->]]]%pbind_inv;
    apply (validate_bucket_inv _ join_keeps) in Hv as (Hd1 & Hs1 & _ & Hb); [| |done].
  2: { split; [by rewrite Hs1|]. by apply put_failed_refl. }
  destruct (hr_read_all (HashingReader_new body)) as [r h] eqn:Hh. apply hr_read_all_spec in Hh as [Hr Hhash].
  assert (Hok1 : sb_ok (app_store a1)) by by rewrite Hs1.
  set (fin := ms ← duration_ms instant start;
    mret (mkResponse 200 [("etag", quoted (finalize h).1); ("x-storage-duration-ms", ms)] NoBody)) in Hrun.
  set (mk_meta := fun (z : Z) (_ : App DB B) => ObjectMetadata_new z b k (finalize h).2 (finalize h).1).
  assert (Hrun' := Hrun).
  change ((t ← on_store (storage_error "Storage error: ") (sb_write_temp_object (storage_key b k) r);
    z ← asks utc; on_store (storage_error "Storage commit failed: ") (sb_commit_object t) ;;
    m ← asks (mk_meta z);
    on_db (metadata_error "Metadata commit failed after storage commit - orphaned object may require GC: ")
      (nr_write (PutObjectMetadata m)) ;; fin) a1 = (x, a')) in Hrun.
  eapply (store_object_inv b k r (storage_error "Storage error: ") (storage_error "Storage commit failed: ")
    (metadata_error "Metadata commit failed after storage commit - orphaned object may require GC: ")
    utc mk_meta None fin a1 x a' Hok1) in Hrun as [Hok' Hx].
  - split; [done|]. destruct x as [[resp|e]|].
    + split; [done|]. destruct Hx as (d & Hd & Hres). rewrite Hr in Hd. exists d. split; [done|].
      split; [by eapply (put_result_frame _ _ _ _ a a1 a' a')|].
      destruct (Hhash d Hd) as [Hhd _]. rewrite <- Hhd.
      clear -Hrun'. apply on_store_bind in Hrun' as [(t & s1 & _ & Hrun)|[(? & ? & _ & [=] & _)|(? & _ & [=] & _)]].
      apply asks_bind, on_store_bind in Hrun as [(t0 & s2 & _ & Hrun)|[(? & ? & _ & [=] & _)|(? & _ & [=] & _)]].
      apply on_db_bind in Hrun as [(t1 & s3 & _ & [= <- _])|(? & ? & _ & [=] & _)]. done.
    + rewrite Hr in Hx. by eapply (put_failed_frame _ _ _ _ a a1 a' a').
    + rewrite Hr in Hx. by eapply (put_failed_frame _ _ _ _ a a1 a' a').
  - intros z a0 d Hd. rewrite Hr in Hd. destruct (Hhash d Hd) as [Hhd Hhs]. exists z. unfold mk_meta, finalize.
    cbn [fst snd]. by rewrite Hhd, Hhs by by apply Hsize.
  - intros a0 y a0' [= <- <-]. eauto.
Qed.

Lemma put_object_inv b k body a x a' :
  (forall d, read_to_end body = Ok d -> (N.of_nat (length d) < 2 ^ 64)%N) ->
  sb_ok (app_store a) -> put_object join_error instant utc lock_awaits b k body a = (x, a') ->
  sb_ok (app_store a') /\
  match x with
  | Some (Ok resp) => (is_Some (meta (app_db a) !! bucket_key b) \/
        exists now, cache_contains now b (bucket_cache a) = true) /\
      exists d, read_to_end body = Ok d /\ put_result b k d None a a' /\
        status resp = 200%N /\ head (headers resp) = Some ("etag", quoted (sha256_hex d))
  | _ => put_failed b k (match read_to_end body with Ok d => Some d | Err _ => None end) None a a'
  end.
Proof.
  intros Hsize Hok. unfold put_object. intros Hrun%asks_bind.
  apply check_names_cases in Hrun as [(_ & _ & Hrun)|(m & -> & -> & _)]; [|split; [done|by apply put_failed_refl]].
  apply with_lock_inv in Hrun as [(a1 & a2 & Hrun & Hd1 & (Hs1 & Hc1 & _) & Hd2 & (Hs2 & _ & _))|(m & -> & Hd & Hs & _)];
    [|split; [by rewrite Hs|by apply put_failed_refl]].
  apply put_locked_inv in Hrun as [Hok2 Hx]; [|done|by rewrite Hs1]. split; [by rewrite Hs2|].
  destruct x as [[resp|e]|]; [|by eapply put_failed_frame..].
  destruct Hx as [Hb (d & Hd & Hres & Hresp)]. split.
  - destruct Hb as [Hb|Hb]; [left; by rewrite <- (Hd1 (bucket_key b))|right; rewrite <- Hc1; eauto].
  - exists d. split; [done|]. split; [by eapply put_result_frame|done].
Qed.

(** C2. PUT, over any storage backend and Raft node that meet their contracts.  [200]
    means that the body was read to its end, that the object's file holds exactly
    its bytes and its metadata their number and hash, which is the etag of the
    answer, and that the bucket was stored or cached; no other file but the
    temporary one and no other entry has changed.  Any other outcome leaves the
    data as it was, or the new file published without a metadata entry, or, when
    the Raft write failed after it was applied, all of it. *)
Theorem put_object_exact b k body a x a' :
  (forall d, read_to_end body = Ok d -> (N.of_nat (length d) < 2 ^ 64)%N) ->
  sb_ok (app_store a) -> put_object join_error instant utc lock_awaits b k body a = (x, a') ->
  sb_ok (app_store a') /\
  match x with
  | Some (Ok resp) => (is_Some (meta (app_db a) !! bucket_key b) \/
        exists now, cache_contains now b (bucket_cache a) = true) /\
      exists d, read_to_end body = Ok d /\ put_result b k d None a a' /\
        status resp = 200%N /\ head (headers resp) = Some ("etag", quoted (sha256_hex d))
  | _ => put_failed b k (match read_to_end body with Ok d => Some d | Err _ => None end) None a a'
  end.
Proof. apply put_object_inv. Qed.

(** *** Effects on the objects

    The requests that store an object, on all their outcomes: files outside [skip]
    and the object's own, and entries that are neither the object's nor of
    uploads, are as they were; the object is as it was, or its file holds new
    bytes and its entry is as it was or describes them. *)
Record stores (skip : PathBuf -> Prop) b k (ct : option string) a a' : Prop := {
  st_files : forall p, ~ skip p -> p <> final_of b k -> files a' !! p = files a !! p;
  st_meta : forall key, starts_with "lock:" key = false -> starts_with "mpu:" key = false ->
    key <> object_db_key b k -> meta (app_db a') !! key = meta (app_db a) !! key;
  st_object : (files a' !! final_of b k = files a !! final_of b k /\ entry a' b k = entry a b k) \/
    exists d, files a' !! final_of b k = Some d /\
      (entry a' b k = entry a b k \/
       exists now, stored (entry a' b k)
         (Some (mkObjectMetadata b k (N.of_nat (length d)) (sha256_hex d) ct now now [])));
}.

Lemma final_not_temp b k b' k' : final_of b k <> temp_of b' k'.
Proof. unfold final_of, temp_of. apply not_eq_sym, sb_temp_not_final. Qed.
Lemma published_frame b k d a a' p : published b k d a a' -> p <> temp_of b k -> p <> final_of b k ->
  files a' !! p = files a !! p.
Proof. intros -> Ht Hf. by rewrite lookup_insert_ne, lookup_delete_ne. Qed.
Lemma files_kept_frame b k a a' p : files_kept b k a a' -> p <> temp_of b k -> files a' !! p = files a !! p.
Proof.
  intros Hk Hp. unfold files_kept in Hk. rewrite <- (lookup_delete_ne (files a') (temp_of b k)), Hk by done.
  by rewrite lookup_delete_ne.
Qed.

Lemma put_result_stores b k d ct a a' : put_result b k d ct a a' -> stores (fun p => p = temp_of b k) b k ct a a'.
Proof.
  intros [Hp [now [Hs Hf]]]. split.
  - intros p Ht Hfin. by eapply published_frame.
  - intros key Hl _ Hne. by apply Hf.
  - right. exists d. split; [rewrite Hp; by rewrite lookup_insert_eq|right; by exists now].
Qed.
Lemma put_failed_stores b k d ct a a' : put_failed b k d ct a a' -> stores (fun p => p = temp_of b k) b k ct a a'.
Proof.
  intros [[Hk Hd]|(d0 & -> & Hp & Hm)].
  - split.
    + intros p Ht _. by eapply files_kept_frame.
    + intros key Hl _ _. by apply Hd.
    + left. split; [eapply files_kept_frame; [done|apply final_not_temp]|]. unfold entry. by apply Hd.
  - destruct Hm as [Hd|Hm]; [|apply (put_result_stores _ _ d0); by split]. split.
    + intros p Ht Hfin. by eapply published_frame.
    + intros key Hl _ _. by apply Hd.
    + right. exists d0. split; [rewrite Hp; by rewrite lookup_insert_eq|left; unfold entry; by apply Hd].
Qed.

(** Steps that leave the objects alone: nothing but files of [skip], uploads and
    locks has changed. *)
Definition quiet (skip : PathBuf -> Prop) a a' : Prop :=
  (forall p, ~ skip p -> files a' !! p = files a !! p) /\
  forall key, starts_with "lock:" key = false -> starts_with "mpu:" key = false ->
    meta (app_db a') !! key = meta (app_db a) !! key.
#[export] Instance quiet_preorder skip : PreOrder (quiet skip).
Proof.
  split; [by split|]. intros a a1 a2 [Hf1 Hm1] [Hf2 Hm2]. split.
  - intros p Hp. by rewrite Hf2, Hf1.
  - intros key Hl Hu. by rewrite Hm2, Hm1.
Qed.
Lemma quiet_data skip a a' : files a' = files a -> same_data (app_db a) (app_db a') -> quiet skip a a'.
Proof. intros Hf Hd. split; [by rewrite Hf|]. intros key Hl _. by apply Hd. Qed.
Lemma quiet_entry skip a a' b k : quiet skip a a' -> entry a' b k = entry a b k.
Proof. intros [_ Hm]. by apply Hm. Qed.
Lemma stores_after skip b k ct a a1 a2 : ~ skip (final_of b k) ->
  quiet skip a a1 -> stores skip b k ct a1 a2 -> stores skip b k ct a a2.
Proof.
  intros Hs Hq [Hf Hm Ho]. pose proof (quiet_entry _ _ _ b k Hq) as He. destruct Hq as [Hqf Hqm]. split.
  - intros p Hp Hne. by rewrite Hf, Hqf.
  - intros key Hl Hu Hne. by rewrite Hm, Hqm.
  - by rewrite He, Hqf in Ho.
Qed.
Lemma stores_before skip b k ct a a1 a2 : ~ skip (final_of b k) ->
  stores skip b k ct a a1 -> quiet skip a1 a2 -> stores skip b k ct a a2.
Proof.
  intros Hs [Hf Hm Ho] Hq. pose proof (quiet_entry _ _ _ b k Hq) as He. destruct Hq as [Hqf Hqm]. split.
  - intros p Hp Hne. by rewrite Hqf, Hf.
  - intros key Hl Hu Hne. by rewrite Hqm, Hm.
  - rewrite He, Hqf by done. done.
Qed.
Lemma stores_refl skip b k ct a : stores skip b k ct a a.
Proof. split; [done..|by left]. Qed.
Lemma stores_quiet skip b k ct a a' : ~ skip (final_of b k) -> quiet skip a a' -> stores skip b k ct a a'.
Proof. intros Hs Hq. eapply stores_before; [done|apply stores_refl|done]. Qed.
Lemma stores_weaken (skip skip' : PathBuf -> Prop) b k ct a a' : (forall p, skip p -> skip' p) ->
  stores skip b k ct a a' -> stores skip' b k ct a a'.
Proof. intros Hi [Hf Hm Ho]. split; [|done..]. intros p Hp. apply Hf. auto. Qed.

(** *** Reads *)
Lemma get_metadata_pure b k : keeps eq (Objects.get_object_metadata (DB := DB) b k).
Proof.
  unfold Objects.get_object_metadata. apply keeps_bind; [apply _|apply keeps_lift, _|intros _].
  apply keeps_bind; [apply _|by intros d r d' [-> _]%get_raw_spec|intros o]. solve_frame.
Qed.

(** The metadata a handler reads is the entry; of a stored entry that decodes, a
    read that fails fails with an internal error. *)
Lemma read_metadata_inv {X} err b k (c : ObjectMetadata -> PM (App DB B) ApiError.t X) a x a' :
  (m ← on_db err (MetadataStore.get_object_metadata join_error b k); c m) a = (x, a') ->
  exists d, same_data (app_db a) d /\
  ((exists m v, entry a b k = Some v /\ dec v = Ok m /\ c m (set_db a d) = (x, a')) \/
   (exists e, x = Some (Err (err e)) /\ a' = set_db a d /\
      forall v (m : ObjectMetadata), validate_object_key k = Ok tt -> entry a b k = Some v -> dec v = Ok m ->
        (exists t, e = TaskCancelled t) \/ fault ObjectMetadata (app_db a) e)).
Proof.
  intros [(m & d & Hg & Hrun)|(e & d & Hg & -> & ->)]%on_db_bind;
    pose proof (spawn_read _ join_keeps _ (get_metadata_pure b k) _ _ _ Hg) as Hs; exists d; (split; [done|]).
  - left. apply spawn_Ok in Hg. unfold Objects.get_object_metadata in Hg.
    apply bind_inv in Hg as [([] & t & [_ ->]%lift_inv & Hr)|(e & _ & [=])].
    apply bind_inv in Hr as [(o & t & [-> [[= ->]|(m' & [=] & _)]]%get_raw_spec & Hr)|(e & _ & [=])].
    unfold entry. destruct (meta (app_db a) !! object_db_key b k) as [v|]; [|done]. apply lift_inv in Hr as [Hd ->].
    unfold decode_m in Hd. destruct (dec v) eqn:Hv; simplify_eq/=. eauto 8.
  - right. exists e. split_and!; [done..|]. intros v m Hk Hv Hm. revert Hg.
    unfold MetadataStore.get_object_metadata, MetadataStore.spawn_blocking.
    destruct (join_error (app_db a)) as [[t d']|]; [intros [= <- <-]; left; eauto|]. intros Hg. right.
    eapply (get_object_metadata_spec b k _ (Some m)) in Hg as [_ [(e' & [= ->] & ?)|Hr]]; [done| |].
    + by rewrite Hk in Hr.
    + unfold entry in Hv. rewrite Hv. by constructor.
Qed.

Lemma read_locked_inv {X} cfg b k (c : PM (App DB B) ApiError.t X) a x a' : read_locked cfg lock_awaits b k c a = (x, a') ->
  (exists a1 a2, c a1 = (x, a2) /\ same_data (app_db a) (app_db a1) /\ same_rest a a1 /\
     same_data (app_db a2) (app_db a') /\ same_rest a2 a') \/
  (exists m, x = Some (Err (ApiError.Internal m)) /\ same_data (app_db a) (app_db a') /\ same_rest a a').
Proof.
  unfold read_locked. destruct (consistency_mode (cluster cfg)); [apply with_lock_inv|].
  intros Hc. left. by exists a, a'.
Qed.

(** A stored object: its entry decodes to [m] and its file holds [d]. *)
Definition object_is a b k (m : ObjectMetadata) (d : bytes) : Prop :=
  (exists v, entry a b k = Some v /\ dec v = Ok m) /\ files a !! final_of b k = Some d.

Lemma same_rest_files a a' : same_rest a a' -> files a' = files a.
Proof. intros [Hs _]. unfold files. by rewrite Hs. Qed.
Lemma same_data_entry a a' b k : same_data (app_db a) (app_db a') -> entry a' b k = entry a b k.
Proof. intros Hd. unfold entry. by apply Hd. Qed.

(** The answer of a read of the object, from the entry and the file it found. *)
Definition get_answer b k a (x : option (result ApiError.t Response)) : Prop :=
  match x with
  | Some (Ok resp) => exists m v ms r, entry a b k = Some v /\ dec v = Ok m /\
      resp = mkResponse 200 (object_headers m ++ [("x-storage-duration-ms", ms)]) (StreamBody r) /\
      forall d, files a !! final_of b k = Some d -> is_reader d r
  | Some (Err (ApiError.Internal _)) => True
  | Some (Err (ApiError.InvalidRequest _)) => validate_bucket_name b <> Ok tt \/ validate_object_key k <> Ok tt
  | Some (Err (ApiError.ObjectNotFound b' k')) =>
      b' = b /\ k' = k /\ forall v m, entry a b k = Some v -> dec v <> Ok (m : ObjectMetadata)
  | Some (Err _) => False
  | None => True
  end.
(** A read changes nothing. *)
Definition read_only a a' : Prop :=
  same_data (app_db a) (app_db a') /\ files a' = files a /\ (sb_ok (app_store a) -> sb_ok (app_store a')).
#[local] Instance read_only_preorder : PreOrder read_only.
Proof.
  split; [done|]. intros a a1 a2 (Hd1 & Hf1 & Hs1) (Hd2 & Hf2 & Hs2).
  split_and!; [by trans (app_db a1)|congruence|auto].
Qed.
Lemma read_only_rest a a' : same_data (app_db a) (app_db a') -> same_rest a a' -> read_only a a'.
Proof. intros Hd Hr. split_and!; [done|by apply same_rest_files|]. by destruct Hr as [-> _]. Qed.
Lemma get_answer_frame b k a a' x : read_only a a' -> get_answer b k a' x -> get_answer b k a x.
Proof. intros (Hd & Hf & _). unfold get_answer. by rewrite (same_data_entry _ _ b k Hd), Hf. Qed.

Lemma consistency_read a x a' : ensure_read_consistency (DB := DB) (B := B) config a = (x, a') ->
  read_only a a' /\ match x with Some (Ok _) | Some (Err (ApiError.Internal _)) => True | _ => False end.
Proof.
  intros Hc. split.
  - apply ensure_consistency_inv in Hc as (? & ? & _). by apply read_only_rest.
  - unfold ensure_read_consistency in Hc. destruct (consistency_mode _); [|by injection Hc as <- _].
    by apply on_db_inv in Hc as ([] & ? & _ & -> & _).
Qed.

Lemma get_locked_inv start b k a x a' : validate_object_key k = Ok tt -> sb_ok (app_store a) ->
  get_locked config join_error instant start b k a = (x, a') -> read_only a a' /\ get_answer b k a x.
Proof.
  intros Hk Hok. unfold get_locked.
  intros [(u & a1 & Hc & Hrun)|[(e & Hc & ->)|[Hc ->]]]%pbind_inv; apply consistency_read in Hc as [Hr1 Hx];
    [|by destruct e|done].
  enough (read_only a1 a' /\ get_answer b k a1 x) as [? ?]
    by (split; [by trans a1|by eapply get_answer_frame]).
  apply read_metadata_inv in Hrun as (d & Hsd & [(m & v & Hv & Hm & Hrun)|(e & -> & -> & He)]).
  2: { split; [by apply read_only_rest|]. destruct e; simpl; try done; (split; [done|]); (split; [done|]);
         intros v m Hv Hm; by destruct (He v m Hk Hv Hm) as [[? [=]]|Hf]. }
  apply on_store_bind in Hrun as [(r & s1 & Hg & Hrun)|[(e & s1 & Hg & -> & ->)|(s1 & Hg & -> & ->)]]; simpl in Hg;
    pose proof (sb_get_keeps _ _ _ _ (proj2 (proj2 Hr1) Hok) Hg) as [Hok4 Hs4]; [|by split..].
  injection Hrun as <- <-. split; [by split|]. exists m, v. do 2 eexists. split_and!; [done..|].
  intros d0 Hd0. eapply sb_get_ok; [|exact Hg|exact Hd0]. by apply Hr1.
Qed.

Lemma get_object_inv b k a x a' : sb_ok (app_store a) ->
  get_object config join_error instant lock_awaits b k a = (x, a') -> read_only a a' /\ get_answer b k a x.
Proof.
  intros Hok. unfold get_object. intros Hrun%asks_bind.
  apply check_names_cases in Hrun as [(_ & Hk & Hrun)|(m & -> & -> & Hn)]; [|done].
  apply read_locked_inv in Hrun as [(a1 & a2 & Hrun & Hd1 & Hr1 & Hd2 & Hr2)|(m & -> & Hd & Hr)];
    [|split; [by apply read_only_rest|done]].
  apply get_locked_inv in Hrun as [Hro Hx]; [|done|by destruct Hr1 as [-> _]].
  split; [|eapply get_answer_frame, Hx; by apply read_only_rest].
  trans a1; [by apply read_only_rest|]. trans a2; [done|by apply read_only_rest].
Qed.

Lemma stored_entry {A} `{Codec A} (o : option bytes) (m : A) : stored o (Some m) -> exists v, o = Some v /\ dec v = Ok m.
Proof. intros Hs. destruct o as [v|]; [|by inversion Hs]. apply stored_Some in Hs as (x & [= ->] & ?). eauto. Qed.

Lemma published_lookup b k d a a' : published b k d a a' -> files a' !! final_of b k = Some d.
Proof. intros ->. by rewrite lookup_insert_eq. Qed.

(** C10. A PUT that answered [200], then a GET of the same object: it never answers
    that the object is missing; when it answers [200] the headers carry the etag
    that the PUT returned and the length of the body that was sent, and the
    stream it returns gives, if it is read to its end, exactly that body. *)
Theorem put_then_get b k body a resp a1 x a2 :
  (forall d, read_to_end body = Ok d -> (N.of_nat (length d) < 2 ^ 64)%N) ->
  sb_ok (app_store a) ->
  put_object join_error instant utc lock_awaits b k body a = (Some (Ok resp), a1) ->
  get_object config join_error instant lock_awaits b k a1 = (x, a2) ->
  match x with
  | Some (Ok resp') => exists d r, read_to_end body = Ok d /\ resp_body resp' = StreamBody r /\
      (forall d', read_to_end r = Ok d' -> d' = d) /\ status resp' = 200%N /\
      head (headers resp') = head (headers resp) /\
      ("content-length", show (N.of_nat (length d))) ∈ headers resp'
  | Some (Err e) => exists m, e = ApiError.Internal m
  | None => True
  end.
Proof.
  intros Hsize Hok Hput Hget. pose proof Hput as Hput'. unfold put_object in Hput'. apply asks_bind in Hput'.
  apply check_names_cases in Hput' as [(Hb & Hk & _)|(? & [=] & _)].
  apply put_object_inv in Hput as (Hok1 & _ & d & Hd & (Hpub & now & Hent & _) & _ & Het); [|done..].
  apply get_object_inv in Hget as [_ Hx]; [|done]. apply stored_entry in Hent as (v & Hv & Hm).
  apply published_lookup in Hpub. destruct x as [[resp'|[]]|]; try done; [| |by destruct Hx as [?|?]|by eexists].
  - destruct Hx as (m & v' & ms & r & Hv' & Hm' & -> & Hr). rewrite Hv in Hv'. injection Hv' as <-.
    rewrite Hm in Hm'. injection Hm' as <-. exists d, r. split_and!; [done..| |done|by rewrite Het|].
    + intros d' Hd'. by eapply is_reader_read; [apply Hr|].
    + simpl. set_solver.
  - destruct Hx as (_ & _ & Hno). by destruct (Hno v _ Hv Hm).
Qed.

(** *** DELETE *)
Lemma delete_request_inv b k a x a' : sb_ok (app_store a) ->
  delete_object join_error lock_awaits b k a = (x, a') ->
  sb_ok (app_store a') /\
  match x with
  | Some (Ok resp) => resp = no_content /\ is_Some (entry a b k) /\ entry_set b k None a a' /\
      files a' = delete (final_of b k) (files a)
  | _ => files a' = files a /\ (same_data (app_db a) (app_db a') \/ entry_set b k None a a')
  end.
Proof.
  intros Hok. unfold delete_object.
  intros [(_ & Hk & Hrun)|(m & -> & -> & _)]%check_names_cases; [|split_and!; auto; by left].
  apply with_lock_inv in Hrun as [(a1 & a2 & Hrun & Hd1 & Hr1 & Hd2 & Hr2)|(m & -> & Hd & Hr)];
    [|destruct Hr as [Hs _]; unfold files; rewrite Hs; split_and!; auto].
  assert (Hok1 : sb_ok (app_store a1)) by by destruct Hr1 as [-> _].
  assert (Hst : app_store a' = app_store a2) by by destruct Hr2. rewrite Hst.
  rewrite <- (same_rest_files _ _ Hr1), (same_rest_files _ _ Hr2), <- (same_data_entry _ _ b k Hd1). clear Hst Hr1 Hr2.
  enough (sb_ok (app_store a2) /\ match x with
    | Some (Ok resp) => resp = no_content /\ is_Some (entry a1 b k) /\ entry_set b k None a1 a2 /\
        files a2 = delete (final_of b k) (files a1)
    | _ => files a2 = files a1 /\ (same_data (app_db a1) (app_db a2) \/ entry_set b k None a1 a2)
    end) as [Hok2 Hx].
  { split; [done|]. destruct x as [[resp|e]|].
    - destruct Hx as (? & ? & He & ?). split_and!; [done..| |done]. by eapply entry_set_frame.
    - destruct Hx as [? [He|He]]; (split; [done|]); [left|right; by eapply entry_set_frame].
      trans (app_db a1); [done|]. by trans (app_db a2).
    - destruct Hx as [? [He|He]]; (split; [done|]); [left|right; by eapply entry_set_frame].
      trans (app_db a1); [done|]. by trans (app_db a2). }
  clear dependent a a'. revert Hrun. unfold delete_locked.
  intros (d & Hsd & [(m & v & Hv & Hm & Hrun)|(e & -> & -> & He)])%read_metadata_inv; [|split_and!; auto].
  apply on_db_bind in Hrun as [([] & d2 & Hw & Hrun)|(e & d2 & Hw & -> & ->)];
    apply (write_entry_inv _ b k None (set_db a1 d)) in Hw; try (intros ???; apply applied_delete_object).
  2: { split_and!; [done..|]. destruct Hw as [Hw|Hw]; [left; by trans d|right].
       by eapply (entry_set_frame _ _ _ a1 (set_db a1 d)). }
  assert (Hent : forall s, entry_set b k None a1 (set_store (set_db (set_db a1 d) d2) s)).
  { intros s. by eapply (entry_set_frame _ _ _ a1 (set_db a1 d)). }
  apply on_store_bind in Hrun as [([] & s1 & Hs & Hrun)|[(e & s1 & Hs & -> & ->)|(s1 & Hs & -> & ->)]];
    simpl in Hs; pose proof (sb_delete_keeps _ _ _ _ Hok1 Hs) as [Hok2 Hkeep].
  - injection Hrun as <- <-. split_and!; [done..|by rewrite Hv|apply Hent|]. by apply sb_delete_ok in Hs.
  - split_and!; [done|by apply Hkeep|right; apply Hent].
  - split_and!; [done|by apply Hkeep|right; apply Hent].
Qed.

(** C28. DELETE: [204] means that the object had an entry and that its entry and its
    file are gone, with every other entry and file as it was.  On every other
    outcome no file has changed, and the entry may be gone: an object whose file
    was deleted is never listed. *)
Theorem delete_object_exact b k a x a' : sb_ok (app_store a) ->
  delete_object join_error lock_awaits b k a = (x, a') ->
  sb_ok (app_store a') /\
  match x with
  | Some (Ok resp) => resp = no_content /\ is_Some (entry a b k) /\ entry_set b k None a a' /\
      files a' = delete (final_of b k) (files a)
  | _ => files a' = files a /\ (same_data (app_db a) (app_db a') \/ entry_set b k None a a')
  end.
Proof. apply delete_request_inv. Qed.

(** *** LIST *)

(** Every entry of the bucket decodes to metadata that names its key. *)
Definition keys_wf a b : Prop :=
  forall k v, entry a b k = Some v -> exists m, dec v = Ok m /\ om_bucket m = b /\ om_key m = k.

(** A listing that answers is the page of exactly the bucket's objects whose key
    starts with the prefix, in the order of their keys; it changes nothing but
    the bucket cache. *)
Theorem list_result_exact b q a page a' : keys_wf a b ->
  list_result config join_error instant b q a = (Some (Ok page), a') ->
  same_data (app_db a) (app_db a') /\ app_store a' = app_store a /\
  exists objects, page = list_page b q objects /\ StronglySorted str_lt (om_key <$> objects) /\
    forall m, m ∈ objects <-> exists v, entry a b (om_key m) = Some v /\ dec v = Ok m /\
      starts_with (default "" (q_prefix q)) (om_key m) = true.
Proof.
  intros Hwf. unfold list_result.
  intros [(u & _ & Hrun)|(e & _ & [=] & _)]%checked_bind.
  apply pbind_inv in Hrun as [(u1 & a1 & Hv & Hrun)|[(e & _ & [=])|[_ [=]]]].
  apply (validate_bucket_inv _ join_keeps) in Hv as (Hd1 & Hs1 & _ & _).
  apply pbind_inv in Hrun as [(u2 & a2 & Hc & Hrun)|[(e & _ & [=])|[_ [=]]]].
  apply ensure_consistency_inv in Hc as (Hd2 & [Hs2 _] & _).
  apply on_db_bind in Hrun as [(objs & d & Hl & [= <- <-])|(e & d & _ & [=] & _)].
  pose proof (spawn_read _ join_keeps _ (list_objects_pure b (q_prefix q)) _ _ _ Hl) as Hd3.
  assert (Hd : same_data (app_db a) (app_db a2)) by (by trans (app_db a1)). clear Hd1 Hd2.
  split_and!; [by trans (app_db a2)|simpl; congruence|]. exists objs. split; [done|].
  apply spawn_Ok in Hl. set (obj := fun k => entry a b k ≫= fun v => match dec v with Ok m => Some (m : ObjectMetadata) | Err _ => None end).
  assert (Hobj : forall k, stored (A := ObjectMetadata) (meta (app_db a2) !! (("obj:" +:+ b +:+ "/") +:+ k)) (obj k)).
  { intros k. rewrite <- !(assoc_L String.append). change ("obj:" +:+ b +:+ "/" +:+ k) with (object_db_key b k).
    rewrite (Hd _ (object_not_lock b k)). unfold obj, entry. destruct (meta _ !! _) as [v|] eqn:Hv; simpl; [|constructor].
    destruct (Hwf k v Hv) as (m & Hm & _). rewrite Hm. by constructor. }
  apply (scan_family (app_db a2) ("obj:" +:+ b +:+ "/") obj (default "" (q_prefix q)) objs d) in Hobj
    as (ks & Hsort & Hks & Hin).
  2: { unfold Objects.list_objects in Hl. destruct (q_prefix q); simpl in *;
         by rewrite <- ?(assoc_L String.append), ?string_app_nil_r in *. }
  assert (Hkey : forall k m, obj k = Some m -> exists v, entry a b k = Some v /\ dec v = Ok m /\ om_key m = k).
  { intros k m. unfold obj. destruct (entry a b k) as [v|] eqn:Hv; simpl; [|done].
    destruct (Hwf k v Hv) as (m' & Hm & _ & Hk). rewrite Hm. intros [= <-]. eauto. }
  assert (Hmap : om_key <$> objs = ks).
  { clear -Hks Hkey. induction Hks as [|k m ks objs Hk _ IH]; csimpl; [done|].
    apply Hkey in Hk as (_ & _ & _ & ->). by rewrite IH. }
  split; [by rewrite Hmap|]. intros m. split.
  - intros (i & Hi)%list_elem_of_lookup. destruct (Forall2_lookup_r _ _ _ _ _ Hks Hi) as (k & Hk & Ho).
    apply Hkey in Ho as (v & Hv & Hm & <-). exists v. split_and!; [done..|]. apply Hin. by eapply list_elem_of_lookup_2.
  - intros (v & Hv & Hm & Hp).
    assert (Ho : obj (om_key m) = Some m) by (unfold obj; by rewrite Hv; simpl; rewrite Hm).
    assert (Hk : om_key m ∈ ks) by (apply Hin; rewrite Ho; eauto). apply list_elem_of_lookup in Hk as [i Hi].
    destruct (Forall2_lookup_l _ _ _ _ _ Hks Hi) as (m' & Hm' & Ho'). rewrite Ho in Ho'. injection Ho' as <-.
    by eapply list_elem_of_lookup_2.
Qed.
End theory.

(** ** Pages

    A client that follows the continuation tokens of the version 2 listing, over
    objects that do not change; [None]: it has not ended after [fuel] pages. *)
Definition with_token (q : ListObjectsQuery) (t : option string) : ListObjectsQuery :=
  mkListObjectsQuery (q_prefix q) (q_marker q) (q_max_keys q) (q_list_type q) t.
Fixpoint follow (fuel : nat) (b : string) (q : ListObjectsQuery) (t : option string) (objects : list ObjectMetadata)
  : option (list ObjectEntry) :=
  match fuel with
  | O => None
  | S fuel =>
      match list_page b (with_token q t) objects with
      | V1 _ => None
      | V2 r =>
          match l2_next_continuation_token r with
          | None => Some (l2_contents r)
          | Some t' => rest ← follow fuel b q (Some t') objects; Some (l2_contents r ++ rest)
          end
      end
  end.

Section pages.
Context (b : string) (q : ListObjectsQuery) (objects : list ObjectMetadata).
Context (Hv2 : is_v2 q = true) (Hsorted : StronglySorted str_lt (om_key <$> objects)).
Context (Hmax : default 1000 (q_max_keys q) <> 0).

Lemma after_key_suffix l1 o l2 : objects = l1 ++ o :: l2 -> after_key (om_key o) objects = l2.
Proof.
  intros Heq. rewrite Heq in Hsorted |- *. rewrite fmap_app, fmap_cons in Hsorted. unfold after_key.
  rewrite filter_app, filter_cons_False by (apply str_lt_irrefl).
  assert (H1 : Forall (fun x => str_lt (om_key x) (om_key o)) l1 /\ Forall (fun x => str_lt (om_key o) (om_key x)) l2).
  { clear -Hsorted. induction l1 as [|x l1 IH]; csimpl in *; apply StronglySorted_inv in Hsorted as [Hs Hf].
    - split; [constructor|]. by rewrite Forall_fmap in Hf.
    - destruct (IH Hs) as [? ?]. split; [|done]. constructor; [|done]. rewrite Forall_app, Forall_cons in Hf. by apply Hf. }
  destruct H1 as [H1 H2]. replace (filter _ l1) with ([] : list ObjectMetadata).
  - simpl. clear -H2. induction H2 as [|x l2 Hx _ IH]; [done|]. by rewrite filter_cons_True, IH.
  - clear -H1. induction H1 as [|x l1 Hx _ IH]; [done|]. rewrite filter_cons_False; [done|].
    intros Hy. eapply str_lt_irrefl. by etrans.
Qed.

(** The token that leads to the page after the objects [l1]. *)
Definition token_for (l1 : list ObjectMetadata) (t : option string) : Prop := t = om_key <$> list.last l1.

Lemma follow_suffix fuel l1 l2 t : objects = l1 ++ l2 -> token_for l1 t -> length l2 < fuel ->
  follow fuel b q t objects = Some (object_entry ∘ listed <$> l2).
Proof.
  revert l1 l2 t. induction fuel as [|fuel IH]; intros l1 l2 t Heq Ht Hf; [lia|]. cbn [follow].
  assert (Hrest : match t with Some t => after_key t objects | None => objects end = l2).
  { unfold token_for in Ht. destruct (list.last l1) as [o|] eqn:Hl; subst t; simpl.
    - apply last_Some in Hl as [l1' ->]. apply (after_key_suffix l1'). by rewrite Heq, <- (assoc_L (++)).
    - by apply last_None in Hl as ->. }
  unfold list_page, is_v2 in *. cbn [with_token q_list_type q_continuation_token q_max_keys q_prefix]. rewrite Hv2, Hrest.
  set (n := default 1000 (q_max_keys q) `min` 1000). assert (Hn : 0 < n) by (unfold n; lia).
  unfold ListBucketResultV2_new. cbn [l2_next_continuation_token l2_contents].
  destruct (Nat.ltb_spec n (length l2)) as [Hlt|Hge].
  - destruct (list.last (take n l2)) as [o|] eqn:Hlast.
    2: { apply last_None in Hlast. apply (f_equal length) in Hlast. rewrite length_take in Hlast. simpl in Hlast. lia. }
    rewrite fmap_last, Hlast. cbn [fmap option_fmap option_map listed].
    rewrite (IH (l1 ++ take n l2) (drop n l2)).
    + simpl. f_equal. by rewrite <- list_fmap_compose, <- fmap_app, take_drop.
    + by rewrite <- (assoc_L (++)), take_drop.
    + unfold token_for. rewrite last_app. destruct (take n l2) eqn:Htk; [done|]. rewrite <- Htk in *. by rewrite Hlast.
    + rewrite length_drop. lia.
  - by rewrite take_ge, list_fmap_compose by lia.
Qed.

Lemma follow_all : follow (S (length objects)) b q None objects = Some (object_entry ∘ listed <$> objects).
Proof. apply (follow_suffix _ []); [done|done|lia]. Qed.
End pages.

(** The same client on the handler: it asks for page after page, and between its
    requests the node goes on ([meanwhile]). *)
Inductive Browsed : Type := Listing (es : list ObjectEntry) | Refused (e : option ApiError.t) | Unfinished.
Section browse.
Context {DB B F : Type} `{NodeRaftLaws DB} `{!CodecLaws ObjectMetadata} `{StorageBackendLaws B F}
  `{Chrono, XmlWriter, Sha256}.
Context (config : SaveConfig) (join_error : DB -> option (string * DB))
  (join_keeps : forall d e d', join_error d = Some (e, d') -> same_data d d') (instant : App DB B -> N).
Context (b : string) (q : ListObjectsQuery) (meanwhile : App DB B -> App DB B).

Fixpoint browse (fuel : nat) (t : option string) (a : App DB B) : Browsed :=
  match fuel with
  | O => Unfinished
  | S fuel =>
      match list_result config join_error instant b (with_token q t) a with
      | (Some (Ok (V2 r)), a') =>
          match l2_next_continuation_token r with
          | None => Listing (l2_contents r)
          | Some t' => match browse fuel (Some t') (meanwhile a') with
                       | Listing rest => Listing (l2_contents r ++ rest)
                       | other => other
                       end
          end
      | (Some (Ok (V1 _)), _) => Unfinished
      | (Some (Err e), _) => Refused (Some e)
      | (None, _) => Refused None
      end
  end.

(** [objects] are the objects of the bucket whose keys start with the prefix, in
    the order of their keys. *)
Definition listing_of (a : App DB B) (objects : list ObjectMetadata) : Prop :=
  StronglySorted str_lt (om_key <$> objects) /\
  forall m, m ∈ objects <-> exists v, entry a b (om_key m) = Some v /\ dec v = Ok m /\
    starts_with (default "" (q_prefix q)) (om_key m) = true.
Lemma listing_unique a l l' : listing_of a l -> listing_of a l' -> l = l'.
Proof.
  intros [Hs Hm] [Hs' Hm'].
  assert (Hby : forall l, StronglySorted str_lt (om_key <$> l) -> StronglySorted (fun x y => str_lt (om_key x) (om_key y)) l).
  { clear. induction l as [|x l IH]; csimpl; intros Hs; [constructor|]. apply StronglySorted_inv in Hs as [Hs Hf].
    constructor; [by apply IH|]. by rewrite Forall_fmap in Hf. }
  apply Hby in Hs, Hs'.
  assert (Hnd : forall l, StronglySorted (fun x y => str_lt (om_key x) (om_key y)) l -> NoDup l).
  { clear. induction 1 as [|x l _ IH Hf]; constructor; [|done]. intros Hin. rewrite Forall_forall in Hf.
    by apply (str_lt_irrefl (om_key x)), Hf. }
  apply (StronglySorted_unique_strong (fun x y => str_lt (om_key x) (om_key y))); [|done..|].
  - intros x y _ _ Hxy Hyx. destruct (str_lt_irrefl (om_key x)). by trans (om_key y).
  - apply NoDup_Permutation; [by apply Hnd..|]. intros m. by rewrite Hm, Hm'.
Qed.

Context (quiet : forall a k, entry (meanwhile a) b k = entry a b k).
Lemma browse_follow fuel t a objects : keys_wf a b -> listing_of a objects -> is_v2 q = true ->
  (exists e, browse fuel t a = Refused e) \/
  browse fuel t a = match follow fuel b q t objects with Some es => Listing es | None => Unfinished end.
Proof.
  revert t a. induction fuel as [|fuel IH]; intros t a Hwf Hl Hv2; simpl; [by right|].
  destruct (list_result config join_error instant b (with_token q t) a) as [[[page|e]|] a'] eqn:Hrun; [|by left; eauto..].
  apply (list_result_exact config join_error join_keeps) in Hrun as (Hd & _ & objs & -> & Hs & Hin); [|done].
  assert (objs = objects) as -> by (apply (listing_unique a); [by split|done]).
  assert (Hpage : exists r, list_page b (with_token q t) objects = V2 r).
  { unfold list_page. change (is_v2 (with_token q t)) with (is_v2 q). rewrite Hv2. by eexists. }
  destruct Hpage as [r ->]. destruct (l2_next_continuation_token r) as [t'|]; [|by right].
  assert (Hent : forall k, entry (meanwhile a') b k = entry a b k).
  { intros k. rewrite quiet. apply (Hd _ (object_not_lock b k)). }
  destruct (IH (Some t') (meanwhile a')) as [[e ->]| ->]; [| |done|by left; eauto|].
  - intros k v. rewrite Hent. apply Hwf.
  - split; [apply Hl|]. intros m. rewrite Hent. apply Hl.
  - right. by destruct (follow fuel b q (Some t') objects).
Qed.

(** C24. A client that lists a bucket with version 2 of the listing and follows the
    continuation tokens sees every object exactly once: when [max-keys] is not
    zero, every entry of the bucket decodes to the metadata of its key and the
    bucket's objects do not change meanwhile (anything else may), then after at
    most one request more than there are objects whose keys start with the prefix
    the client has exactly these, in the order of their keys, unless one of its
    requests is refused. *)
Theorem list_pages_enumerate a objects : keys_wf a b -> is_v2 q = true -> default 1000 (q_max_keys q) <> 0 ->
  listing_of a objects ->
  browse (S (length objects)) None a = Listing (object_entry ∘ listed <$> objects) \/
  exists e, browse (S (length objects)) None a = Refused e.
Proof.
  intros Hwf Hv2 Hmax Hl. destruct (browse_follow (S (length objects)) None a objects Hwf Hl Hv2) as [?| ->]; [by right|].
  left. rewrite follow_all; [done|done|apply Hl|done].
Qed.
End browse.

(** With [max-keys] zero the page is empty and marked as truncated, but has no
    token to go on with. *)
Lemma zero_max_keys b q o l : is_v2 q = true -> q_max_keys q = Some 0 -> q_continuation_token q = None ->
  exists r, list_page b q (o :: l) = V2 r /\ l2_is_truncated r = true /\ l2_contents r = [] /\
    l2_next_continuation_token r = None.
Proof. intros Hv Hm Ht. unfold list_page. rewrite Hv, Hm, Ht. simpl. by eexists. Qed.
