(* ===== verification/MultipartHandlers.v ===== *)
(** * save-api: the multipart upload handlers

    Models [mod.rs], [initiate.rs], [upload_part.rs], [complete.rs], [abort.rs]
    and [list.rs] of [crates/save-api/src/handlers/multipart].  The parts of an
    upload are files of the node that received them; the upload's metadata is
    written to the node's store, not through Raft. *)
From Stdlib Require Import Strings.Byte Ascii.
From S2P Require Import Prelude Common Config Kv Fs ObjectStorage StorageBackend FsDirs Buckets Objects.
From S2P Require Import Multipart Locks StateMachine MetadataStore S3Xml Api ObjectHandlers.
From stdpp Require Import base gmap strings numbers sorting list.

(** ** Paths

    [PathBuf::join] of a text: an absolute one replaces the path, and empty and
    [.] components are dropped. *)
Definition components (s : string) : PathBuf :=
  filter (fun c => c <> "" /\ c <> ".") (split_char "/"%char s).
Definition path_push (p : PathBuf) (s : string) : PathBuf :=
  if starts_with_char "/"%char s then components s else p ++ components s.

Definition parts_dir (data_path : PathBuf) (upload_id : string) : PathBuf :=
  path_push (path_join (path_join data_path "temp") "parts") upload_id.
Definition part_path (data_path : PathBuf) (upload_id : string) (n : N) : PathBuf :=
  path_join (parts_dir data_path upload_id) (show n).
Definition complete_path (data_path : PathBuf) (upload_id : string) : PathBuf :=
  path_push (path_join data_path "temp") ("complete-" +:+ upload_id).

Record UploadPartQuery : Type := mkUploadPartQuery { upq_part_number : N; upq_upload_id : string }.

(** The part numbers in the order of the [BTreeMap]. *)
Definition part_numbers (parts : gmap N MultipartPart) : list N := merge_sort N.le (map_to_list parts).*1.

Section handlers.
Context {DB B F : Type} `{RocksDB DB, NodeRaft DB} `{Codec Bucket} `{Codec ObjectMetadata} `{Codec LockState}
  `{Codec MultipartPart} `{Codec MultipartMetadata}
  `{FileSystem F, DirFs F, StorageBackend B F} `{Chrono, XmlWriter, Sha256}.
Context (config : SaveConfig) (data_path : PathBuf) (join_error : DB -> option (string * DB))
  (instant : App DB B -> N) (utc : App DB B -> Z) (lock_awaits : App DB B -> nat) (uuid : App DB B -> string).
Abbreviation Handler := (PM (App DB B) ApiError.t).

Definition fs_of (a : App DB B) : F := sb_fs (app_store a).
Definition set_fs (a : App DB B) (f : F) : App DB B := set_store a (sb_set_fs (app_store a) f).
Definition on_fs {X} (err : io_error -> ApiError.t) (c : M F io_error X) : Handler X := fun a =>
  let '(r, f) := c (fs_of a) in (Some (map_err err r), set_fs a f).
Definition open_file (err : io_error -> ApiError.t) (p : PathBuf) : Handler Reader := fun a =>
  (Some (map_err err (fs_open (fs_of a) p)), a).
(** A call whose result is ignored or only logged. *)
Definition try_fs {X} (c : M F io_error X) : Handler unit := fun a => (Some (Ok tt), set_fs a (c (fs_of a)).2).
Definition fs_error (what : string) (e : io_error) : ApiError.t := ApiError.internal (what +:+ io_msg e).

Definition upload_error (upload_id : string) (e : MetadataError) : ApiError.t :=
  match e with
  | MultipartUploadNotFound _ => ApiError.InvalidRequest ("Upload ID not found: " +:+ upload_id)
  | _ => metadata_error "Metadata error: " e
  end.

(** [MultipartGaugeGuard]: the gauge goes up, and down again unless the guarded
    part succeeds. *)
Definition gauge_guarded {X} (c : Handler X) : Handler X := fun a =>
  match c (set_gauge a (multipart_uploads_in_progress a + 1)) with
  | (Some (Ok x), a') => (Some (Ok x), a')
  | (r, a') => (r, set_gauge a' (multipart_uploads_in_progress a' - 1))
  end.

Definition initiate_multipart (bucket key : string) (content_type : option string) : Handler Response :=
  ObjectHandlers.check_names bucket key ;;
  validate_bucket_exists join_error instant bucket ;;
  upload_id ← asks uuid;
  now ← asks utc;
  gauge_guarded (
    on_db (metadata_error "Metadata error: ")
      (MetadataStore.initiate_multipart_upload join_error now bucket key upload_id content_type) ;;
    on_fs (fs_error "Storage error: ") (fs_create_dir_all (parts_dir data_path upload_id))) ;;
  xml ← rendered (to_xml (InitiateMultipartUploadResult_new bucket key upload_id));
  mret (xml_response xml).

Definition MAX_PART_SIZE : N := 5 * 1024 * 1024 * 1024.

(** The loop that reads the body, with the bytes hashed so far. *)
Fixpoint part_loop (p : PathBuf) (r : Reader) (hasher : bytes) (size : N) : Handler (bytes * N) :=
  match r with
  | [] => mret (hasher, size)
  | Err e :: _ => fail (fs_error "I/O error: " e)
  | Ok c :: r' =>
      let size := wrapN 64 (size + N.of_nat (length c)) in
      if (MAX_PART_SIZE <? size)%N then
        fail (ApiError.InvalidRequest
          ("Part size exceeds maximum of " +:+ show MAX_PART_SIZE +:+ " bytes (5GB)"))
      else
        on_fs (fs_error "Storage error: ") (fs_write_all p c) ;;
        part_loop p r' (hasher ++ c) size
  end.

Definition upload_part (bucket key : string) (q : UploadPartQuery) (body : Reader) : Handler Response :=
  ObjectHandlers.check_names bucket key ;;
  if bool_decide (upq_part_number q = 0%N) || (10000 <? upq_part_number q)%N then
    fail (ApiError.InvalidRequest "Part number must be between 1 and 10000")
  else
    on_db (upload_error (upq_upload_id q))
      (MetadataStore.get_multipart_upload join_error bucket key (upq_upload_id q)) ;;
    let part_file_path := part_path data_path (upq_upload_id q) (upq_part_number q) in
    on_fs (fs_error "Storage error: ") (fs_create part_file_path) ;;
    '(hasher, size) ← part_loop part_file_path body [] 0;
    on_fs (fs_error "Storage error: ") (fs_flush part_file_path) ;;
    let etag := sha256_hex hasher in
    on_db (metadata_error "Metadata error: ")
      (MetadataStore.record_part join_error bucket key (upq_upload_id q) (upq_part_number q) etag size) ;;
    mret (mkResponse 200 [("etag", quoted etag)] NoBody).

(** One part copied to the file [dst]; [n] names it in the errors. *)
Fixpoint copy_loop (n : N) (dst : PathBuf) (r : Reader) (hasher : bytes) (total : N) : Handler (bytes * N) :=
  match r with
  | [] => mret (hasher, total)
  | Err _ :: _ => fail (ApiError.internal ("I/O error reading part " +:+ show n))
  | Ok c :: r' =>
      on_fs (fs_error "Storage error: ") (fs_write_all dst c) ;;
      copy_loop n dst r' (hasher ++ c) (wrapN 64 (total + N.of_nat (length c)))
  end.
Fixpoint parts_loop (upload_id : string) (dst : PathBuf) (ns : list N) (hasher : bytes) (total : N)
  : Handler (bytes * N) :=
  match ns with
  | [] => mret (hasher, total)
  | n :: ns' =>
      part_file ← open_file (fun _ => ApiError.internal ("Missing part " +:+ show n)) (part_path data_path upload_id n);
      '(hasher, total) ← copy_loop n dst part_file hasher total;
      parts_loop upload_id dst ns' hasher total
  end.

(** [MultipartCleanupGuard]: unless the guarded part succeeds, the temporary file
    and the whole directory of the parts are removed. *)
Definition cleanup_guarded {X} (temp_file dir : PathBuf) (c : Handler X) : Handler X := fun a =>
  match c a with
  | (Some (Ok x), a') => (Some (Ok x), a')
  | (r, a') => (r, ((try_fs (fs_remove_file temp_file) ;; try_fs (fs_remove_dir_all dir)) a').2)
  end.

(** The guarded part: from the parts to the stored object and the removal of the
    upload's metadata. *)
Definition complete_object (bucket key upload_id : string) (upload : MultipartUpload) : Handler string :=
  let temp_final_path := complete_path data_path upload_id in
  '(hasher, total_size) ← parts_loop upload_id temp_final_path (part_numbers (up_parts upload)) [] 0;
  on_fs (fs_error "Storage error: ") (fs_flush temp_final_path) ;;
  let final_etag := sha256_hex hasher in
  file_reader ← open_file (fs_error "Storage error: ") temp_final_path;
  temp_object ← on_store (storage_error "Storage error: ") (sb_write_temp_object (storage_key bucket key) file_reader);
  on_store (storage_error "Storage commit failed: ") (sb_commit_object temp_object) ;;
  metadata ← asks (fun a =>
    mkObjectMetadata bucket key total_size final_etag (up_content_type upload) (utc a) (utc a) []);
  on_db (metadata_error "Metadata commit failed: ") (nr_write (PutObjectMetadata metadata)) ;;
  on_db (metadata_error "Metadata error: ") (MetadataStore.abort_multipart_upload join_error bucket key upload_id) ;;
  mret final_etag.

Definition complete_locked (bucket key upload_id : string) : Handler Response :=
  upload ← on_db (upload_error upload_id) (MetadataStore.get_multipart_upload join_error bucket key upload_id);
  if bool_decide (up_parts upload = ∅) then
    fail (ApiError.InvalidRequest "Cannot complete upload with no parts")
  else
    let temp_final_path := complete_path data_path upload_id in
    let dir := parts_dir data_path upload_id in
    on_fs (fs_error "Storage error: ") (fs_create temp_final_path) ;;
    final_etag ← cleanup_guarded temp_final_path dir (complete_object bucket key upload_id upload);
    try_fs (fs_remove_dir_all dir) ;;
    try_fs (fs_remove_file temp_final_path) ;;
    modify (fun a => set_gauge a (multipart_uploads_in_progress a - 1)) ;;
    let endpoint := "http://" +:+ bind_address (server config) in
    xml ← rendered (to_xml (CompleteMultipartUploadResult_new bucket key final_etag endpoint));
    mret (xml_response xml).

Definition complete_multipart (bucket key upload_id : string) : Handler Response :=
  ObjectHandlers.check_names bucket key ;;
  with_lock lock_awaits Write bucket key (complete_locked bucket key upload_id).

(** The failures to remove a file are counted for the metrics only. *)
Fixpoint remove_parts (upload_id : string) (ns : list N) : Handler unit :=
  match ns with
  | [] => mret tt
  | n :: ns' => try_fs (fs_remove_file (part_path data_path upload_id n)) ;; remove_parts upload_id ns'
  end.
Definition cleanup_part_files (upload_id : string) (upload : MultipartUpload) : Handler unit :=
  remove_parts upload_id (part_numbers (up_parts upload)) ;;
  try_fs (fs_remove_dir (parts_dir data_path upload_id)).

Definition abort_multipart (bucket key upload_id : string) : Handler Response :=
  ObjectHandlers.check_names bucket key ;;
  upload ← on_db (upload_error upload_id) (MetadataStore.get_multipart_upload join_error bucket key upload_id);
  on_db (metadata_error "Metadata error: ") (MetadataStore.abort_multipart_upload join_error bucket key upload_id) ;;
  cleanup_part_files upload_id upload ;;
  modify (fun a => set_gauge a (multipart_uploads_in_progress a - 1)) ;;
  mret no_content.

Definition list_multipart_uploads (bucket : string) : Handler Response :=
  checked (validate_bucket_name bucket) ;;
  validate_bucket_exists join_error instant bucket ;;
  uploads ← on_db (metadata_error "Failed to list multipart uploads: ")
              (MetadataStore.list_multipart_uploads join_error bucket);
  let upload_list := (fun u => (up_key u, up_upload_id u, up_initiated_at u)) <$> uploads in
  xml ← rendered (to_xml (ListMultipartUploadsResult_new bucket upload_list));
  mret (xml_response xml).
End handlers.

(** ** Lemmas *)
Section theory.
Context {DB B F : Type} `{NodeRaftLaws DB} `{!CodecLaws ObjectMetadata}
  `{!Codec MultipartPart} `{!Codec MultipartMetadata} `{!CodecLaws MultipartPart} `{!CodecLaws MultipartMetadata}
  `{DirFsLaws F} `{!StorageBackend B F} `{!StorageBackendLaws B F} `{Chrono, XmlWriter, Sha256}.
Context (config : SaveConfig) (data_path : PathBuf) (join_error : DB -> option (string * DB)).
Context (join_keeps : forall d e d', join_error d = Some (e, d') -> same_data d d').
Context (instant : App DB B -> N) (utc : App DB B -> Z) (lock_awaits : App DB B -> nat) (uuid : App DB B -> string).
Implicit Types (a : App DB B).

(** Steps that change only the file system. *)
Definition moves a a' : Prop :=
  exists s, a' = set_store a s /\ (sb_ok (app_store a) -> sb_ok s).
#[local] Instance moves_preorder : PreOrder moves.
Proof.
  split; [intros []; by eexists|]. intros a a1 a2 (s1 & -> & Hk1) (s2 & -> & Hk2). exists s2. auto.
Qed.
Lemma files_set_fs a f : files (set_fs a f) = fs_view f.
Proof. unfold files, set_fs. simpl. by rewrite sb_fs_set. Qed.
Lemma fs_of_set a f : fs_of (set_fs a f) = f.
Proof. apply sb_fs_set. Qed.
Lemma moves_set_fs a f : moves a (set_fs a f).
Proof. eexists. split; [done|]. by apply sb_ok_set. Qed.

Lemma moves_db a a' : moves a a' -> app_db a' = app_db a.
Proof. by intros (s & -> & _). Qed.
Lemma moves_ok a a' : moves a a' -> sb_ok (app_store a) -> sb_ok (app_store a').
Proof. intros (s & -> & Hs). exact Hs. Qed.

Lemma on_fs_bind {X Y} err (c : M F io_error X) (k : X -> PM (App DB B) ApiError.t Y) a r a' :
  (x ← on_fs err c; k x) a = (r, a') ->
  exists f, moves a (set_fs a f) /\
  ((exists x, c (fs_of a) = (Ok x, f) /\ k x (set_fs a f) = (r, a')) \/
   (exists e, c (fs_of a) = (Err e, f) /\ r = Some (Err (err e)) /\ a' = set_fs a f)).
Proof.
  unfold mbind, PM_bind, on_fs. destruct (c (fs_of a)) as [[x|e] f]; simpl;
    [|intros [= <- <-]]; exists f; (split; [apply moves_set_fs|]); eauto 6.
Qed.
Lemma open_file_bind {Y} err p (k : Reader -> PM (App DB B) ApiError.t Y) a r a' :
  (x ← open_file err p; k x) a = (r, a') ->
  (exists x b, files a !! p = Some b /\ is_reader b x /\ k x a = (r, a')) \/
  (exists e, r = Some (Err e) /\ a' = a).
Proof.
  unfold mbind, PM_bind, open_file. destruct (fs_open (fs_of a) p) as [x|e] eqn:Ho; simpl.
  - intros Hr. left. apply fs_open_ok in Ho as (b & Hb & Hx). eauto.
  - intros [= <- <-]. right. eauto.
Qed.

(** The loop of [upload_part]. *)
Lemma part_loop_inv p r acc n b0 a x a' : files a !! p = Some b0 ->
  (forall d, read_to_end r = Ok d -> (n + N.of_nat (length d) < 2 ^ 64)%N) -> (n <= MAX_PART_SIZE)%N ->
  part_loop p r acc n a = (x, a') ->
  moves a a' /\ delete p (files a') = delete p (files a) /\ x <> None /\
  forall h sz, x = Some (Ok (h, sz)) -> exists d, read_to_end r = Ok d /\ h = acc ++ d /\
    sz = (n + N.of_nat (length d))%N /\ (sz <= MAX_PART_SIZE)%N /\ files a' = <[p := b0 ++ d]> (files a).
Proof.
  revert acc n b0 a. induction r as [|[c|e] r IH]; intros acc n b0 a Hp Hsz Hn; cbn [part_loop].
  - intros [= <- <-]. split_and!; [done..|]. intros h sz [= <- <-]. exists []. rewrite !app_nil_r, insert_id by done.
    split_and!; [done|done| |done|done]. simpl. lia.
  - case_match eqn:Hmax; [intros [= <- <-]; done|]. apply N.ltb_ge in Hmax.
    intros (f & Hmv & [([] & Hw & Hrun)|(e & Hw & -> & ->)])%on_fs_bind.
    2: { apply fs_write_err in Hw. split_and!; [done|by rewrite files_set_fs|done..]. }
    apply (fs_write_ok _ _ _ _ _ Hp) in Hw.
    apply (IH _ _ (b0 ++ c)) in Hrun as (Hmv2 & Hdel & Hne & Hok).
    + split_and!; [by trans (set_fs a f)| |done|].
      { rewrite Hdel, files_set_fs, Hw. apply delete_insert_eq. }
      intros h sz Hx. destruct (Hok h sz Hx) as (d & Hd & -> & -> & Hle & Hfl). exists (c ++ d).
      simpl. rewrite Hd. simpl. rewrite files_set_fs, Hw, insert_insert_eq, <- !(assoc_L (++)) in *.
      split_and!; [done|done| |done|done]. rewrite length_app.
      specialize (Hsz (c ++ d)). simpl in Hsz. rewrite Hd in Hsz. specialize (Hsz eq_refl). rewrite length_app in Hsz.
      unfold wrapN. rewrite N.mod_small; lia.
    + rewrite files_set_fs, Hw. by rewrite lookup_insert_eq.
    + intros d Hd. specialize (Hsz (c ++ d)). simpl in Hsz. rewrite Hd in Hsz. specialize (Hsz eq_refl).
      rewrite length_app in Hsz. unfold wrapN. rewrite N.mod_small; lia.
    + done.
  - intros [= <- <-]. done.
Qed.

(** *** Uploads *)

(** What the store should say of a part whose bytes are [d]. *)
Definition part_of (n : N) (d : bytes) : MultipartPart := mkPart n (sha256_hex d) (N.of_nat (length d)).

(** The upload has the metadata [md] and the parts [bodies]: the store lists
    exactly these parts, with the size and the hash of their bytes, and their
    files hold the bytes. *)
Record upload_is a (b k u : string) (md : MultipartMetadata) (bodies : gmap N bytes) : Prop := {
  ui_metadata : stored (meta (app_db a) !! mpu_db_key b k u) (Some md);
  ui_parts : parts_are (app_db a) b k u (map_imap (fun n d => Some (part_of n d)) bodies);
  ui_files : forall n d, bodies !! n = Some d -> files a !! part_path data_path u n = Some d;
}.

Lemma mpu_not_lock p key : starts_with ("mpu:" +:+ p) key = true -> starts_with "lock:" key = false.
Proof. destruct key as [|c key]; [done|]. simpl. case_bool_decide; [by subst|done]. Qed.
Lemma mpu_db_key_not_lock b k u : starts_with "lock:" (mpu_db_key b k u) = false.
Proof. done. Qed.
Lemma part_key_not_lock b k u n : starts_with "lock:" (part_key b k u n) = false.
Proof. done. Qed.

Lemma parts_are_data (d d' : DB) b k u parts : same_data d d' -> parts_are d b k u parts -> parts_are d' b k u parts.
Proof.
  intros Hd [H1' H2']. split.
  - intros key v Hv Hp. apply H1'; [|done]. rewrite <- Hd; [done|]. by eapply mpu_not_lock.
  - intros n p Hn. destruct (H2' n p Hn) as (Hp & v & Hv & Hdec). split; [done|]. exists v.
    rewrite Hd by apply part_key_not_lock. done.
Qed.

Lemma get_upload_pure b k u : keeps eq (Multipart.get_multipart_upload (DB := DB) b k u).
Proof.
  unfold Multipart.get_multipart_upload, Multipart.check_names.
  apply keeps_bind; [apply _|apply keeps_bind; [apply _|apply keeps_lift, _|intros _; apply keeps_lift, _]|intros _].
  apply keeps_bind; [apply _|by intros d r d' [-> _]%get_raw_spec|intros o].
  apply keeps_bind; [apply _|case_match; [apply keeps_lift, _|apply keeps_throw, _]|intros m].
  apply keeps_bind; [apply _| |intros ps; apply keeps_ret, _]. unfold read_parts.
  apply keeps_bind; [apply _|unfold scan_raw; apply keeps_reads, _|intros ps; apply keeps_ret, _].
Qed.

Lemma record_part_Err b k u n etag size (d : DB) e d' : Multipart.record_part b k u n etag size d = (Err e, d') -> d' = d.
Proof.
  unfold Multipart.record_part, Multipart.check_names.
  intros [([] & t & Hc & Hr)|(e' & Hc & _)]%bind_inv;
    apply bind_inv in Hc as [([] & t' & [_ ->]%lift_inv & [_ ->]%lift_inv)|(e'' & [_ ->]%lift_inv & ?)]; try done.
  apply bind_inv in Hr as [(o & t & [-> _]%get_raw_spec & Hr)|(e' & [-> _]%get_raw_spec & _)]; [|done].
  destruct o; [|by injection Hr as _ <-]. apply bind_inv in Hr as [([] & t & Hp & [=])|(e' & Hp & _)].
  by apply put_enc_entry in Hp as [[? _]|[-> _]].
Qed.

Lemma spawn_record b k u n etag size (d : DB) r d' :
  MetadataStore.record_part join_error b k u n etag size d = (r, d') ->
  match r with
  | Ok _ => entry_is d d' (part_key b k u n) (Some (mkPart n etag size))
  | Err _ => same_data d d'
  end.
Proof.
  unfold MetadataStore.record_part, MetadataStore.spawn_blocking. destruct (join_error d) as [[e d1]|] eqn:Hj.
  - intros [= <- <-]. by eapply join_keeps.
  - destruct r as [[]|e]; [apply record_part_inv|by intros ->%record_part_Err].
Qed.

Lemma part_path_inj u n m : part_path data_path u n = part_path data_path u m -> n = m.
Proof. unfold part_path, path_join. intros [_ [= Heq]]%app_inj_2; [|done]. by apply (inj show) in Heq. Qed.

Lemma upload_is_add a a' b k u md bodies n d (d0 : DB) :
  same_data (app_db a) d0 ->
  entry_is d0 (app_db a') (part_key b k u n) (Some (part_of n d)) ->
  files a' = <[part_path data_path u n := d]> (files a) ->
  upload_is a b k u md bodies -> upload_is a' b k u md (<[n := d]> bodies).
Proof.
  intros Hd Hent Hf [Hm Hp Hfl]. split.
  - destruct Hent as [_ He]. rewrite He, Hd by (done || (intros Heq; pose proof (db_key_not_part b k u) as Hn;
      by rewrite Heq, part_key_prefix, starts_with_app in Hn)). done.
  - rewrite map_imap_insert_Some with (y := part_of n d) by done.
    eapply parts_are_record; [done| |done]. by eapply parts_are_data.
  - intros m dm. rewrite Hf. destruct (decide (m = n)) as [->|Hne].
    + rewrite !lookup_insert_eq. done.
    + assert (Hpp : part_path data_path u n <> part_path data_path u m) by (intros Heq%part_path_inj; done).
      rewrite !lookup_insert_ne by done. apply Hfl.
Qed.

Lemma upload_part_inv b k q body a x a' :
  (forall d, read_to_end body = Ok d -> (N.of_nat (length d) < 2 ^ 64)%N) ->
  upload_part data_path join_error b k q body a = (x, a') ->
  let u := upq_upload_id q in
  let n := upq_part_number q in
  let path := part_path data_path u n in
  (sb_ok (app_store a) -> sb_ok (app_store a')) /\
  match x with
  | Some (Ok resp) => (1 <= n <= 10000)%N /\ exists d, read_to_end body = Ok d /\
      (N.of_nat (length d) <= MAX_PART_SIZE)%N /\
      resp = mkResponse 200 [("etag", quoted (sha256_hex d))] NoBody /\
      files a' = <[path := d]> (files a) /\
      (forall key, starts_with "lock:" key = false -> key <> part_key b k u n ->
         meta (app_db a') !! key = meta (app_db a) !! key) /\
      forall md bodies, upload_is a b k u md bodies -> upload_is a' b k u md (<[n := d]> bodies)
  | Some (Err _) => delete path (files a') = delete path (files a) /\ same_data (app_db a) (app_db a')
  | None => False
  end.
Proof.
  intros Hsz Hrun u n path. unfold upload_part in Hrun. fold n u in Hrun. fold path in Hrun.
  apply check_names_cases in Hrun as [(_ & _ & Hrun)|(m & -> & -> & _)]; [|done].
  destruct (bool_decide (n = 0%N) || (10000 <? n)%N) eqn:Hn; [injection Hrun as <- <-; done|].
  apply orb_false_iff in Hn as [Hn0%bool_decide_eq_false Hn1%N.ltb_ge].
  apply on_db_bind in Hrun as [(up & d1 & Hg & Hrun)|(e & d1 & Hg & -> & ->)];
    apply (spawn_read _ join_keeps _ (get_upload_pure b k u)) in Hg; [|done].
  apply on_fs_bind in Hrun as (f1 & Hmv1 & [([] & Hc & Hrun)|(e & Hc & -> & ->)]).
  2: { apply fs_create_err in Hc. split; [apply (moves_ok _ _ Hmv1)|]. split; [|done].
       rewrite files_set_fs. done. }
  apply fs_create_ok in Hc. set (a1 := set_fs (set_db a d1) f1) in *.
  assert (Hf1 : files a1 = <[path := []]> (files a)) by (unfold a1; by rewrite files_set_fs, Hc).
  assert (Hok1 : sb_ok (app_store a) -> sb_ok (app_store a1)) by apply (moves_ok _ _ Hmv1).
  assert (Hd1 : app_db a1 = d1) by done. clearbody a1. clear Hc Hmv1.
  apply pbind_inv in Hrun as [([h sz] & a2 & Hl & Hrun)|[(e & Hl & ->)|[Hl ->]]];
    apply (part_loop_inv path body [] 0 []) in Hl as (Hmv & Hdel & Hne & Hok);
    try (rewrite Hf1; by rewrite lookup_insert_eq); try done;
    pose proof (moves_ok _ _ Hmv) as Hokm; pose proof (moves_db _ _ Hmv) as Hdm; rewrite Hd1 in Hdm;
    rewrite Hf1, delete_insert_eq in Hdel.
  2: { split; [auto|]. split; [done|by rewrite Hdm]. }
  destruct (Hok h sz eq_refl) as (d & Hd & -> & -> & Hle & Hf2). rewrite Hf1, insert_insert_eq in Hf2. simpl in *.
  apply on_fs_bind in Hrun as (f3 & Hmv3 & Hcase).
  assert (Hv3 : fs_view f3 = files a2)
    by (destruct Hcase as [([] & Hfl & _)|(e & Hfl & _)]; by apply fs_flush_view in Hfl).
  assert (Hok3 : sb_ok (app_store a) -> sb_ok (app_store (set_fs a2 f3))) by (intros; apply (moves_ok _ _ Hmv3); auto).
  destruct Hcase as [([] & _ & Hrun)|(e & _ & -> & ->)].
  2: { split; [done|]. rewrite files_set_fs, Hv3. split; [done|]. simpl. by rewrite Hdm. }
  apply on_db_bind in Hrun as [([] & d4 & Hr%spawn_record & [= <- <-])|(e & d4 & Hr%spawn_record & -> & ->)];
    simpl in Hr; rewrite Hdm in Hr; (split; [exact Hok3|]).
  - change (files (set_db (set_fs a2 f3) d4)) with (files (set_fs a2 f3)). rewrite files_set_fs, Hv3.
    split; [lia|]. exists d. split_and!; [done..| |].
    + intros key Hk Hne'. destruct Hr as [_ Hfr]. simpl. rewrite Hfr by done. by apply Hg.
    + intros md bodies. eapply upload_is_add; [exact Hg|exact Hr|].
      change (files (set_db (set_fs a2 f3) d4)) with (files (set_fs a2 f3)). by rewrite files_set_fs, Hv3.
  - change (files (set_db (set_fs a2 f3) d4)) with (files (set_fs a2 f3)). rewrite files_set_fs, Hv3.
    split; [done|]. by trans d1.
Qed.

(** C27. Uploading a part.  [200] means that the number is in range, that the body was
    read to its end and is the content of the part's file, and that the part is
    recorded with its size and hash, in place of an earlier one of that number;
    nothing else has changed.  A failed request changes no entry, and no file
    but the part's own. *)
Theorem upload_part_exact b k q body a x a' :
  (forall d, read_to_end body = Ok d -> (N.of_nat (length d) < 2 ^ 64)%N) ->
  upload_part data_path join_error b k q body a = (x, a') ->
  let u := upq_upload_id q in
  let n := upq_part_number q in
  let path := part_path data_path u n in
  (sb_ok (app_store a) -> sb_ok (app_store a')) /\
  match x with
  | Some (Ok resp) => (1 <= n <= 10000)%N /\ exists d, read_to_end body = Ok d /\
      (N.of_nat (length d) <= MAX_PART_SIZE)%N /\
      resp = mkResponse 200 [("etag", quoted (sha256_hex d))] NoBody /\
      files a' = <[path := d]> (files a) /\
      (forall key, starts_with "lock:" key = false -> key <> part_key b k u n ->
         meta (app_db a') !! key = meta (app_db a) !! key) /\
      forall md bodies, upload_is a b k u md bodies -> upload_is a' b k u md (<[n := d]> bodies)
  | Some (Err _) => delete path (files a') = delete path (files a) /\ same_data (app_db a) (app_db a')
  | None => False
  end.
Proof. apply upload_part_inv. Qed.

(** *** Completion *)

(** The upload identifiers the server draws: one path component. *)
Definition plain (u : string) : Prop := contains_char "/"%char u = false /\ u <> "" /\ u <> ".".

Lemma components_plain s : contains_char "/"%char s = false -> s <> "" -> s <> "." -> components s = [s].
Proof.
  intros Hc Hn Hd. unfold components. rewrite split_char_none by done. by rewrite filter_cons_True.
Qed.
Lemma no_char_starts c s : contains_char c s = false -> starts_with_char c s = false.
Proof. destruct s; [done|]. simpl. by intros [? _]%orb_false_iff. Qed.
Lemma parts_dir_plain u : plain u -> parts_dir data_path u = data_path ++ ["temp"; "parts"; u].
Proof.
  intros (Hc & Hn & Hd). unfold parts_dir, path_push, path_join. rewrite (no_char_starts _ _ Hc), components_plain by done.
  by rewrite <- !(assoc_L (++)).
Qed.
Lemma complete_path_plain u : plain u -> complete_path data_path u = data_path ++ ["temp"; "complete-" +:+ u].
Proof.
  intros (Hc & _ & _). unfold complete_path, path_push, path_join. simpl starts_with_char. cbv iota.
  rewrite components_plain; [by rewrite <- (assoc_L (++))| |done..]. simpl. exact Hc.
Qed.

Lemma complete_not_part u v n : plain u -> plain v -> complete_path data_path u <> part_path data_path v n.
Proof.
  intros Hu Hv. rewrite complete_path_plain by done. unfold part_path. rewrite parts_dir_plain by done.
  unfold path_join. rewrite <- (assoc_L (++)). by intros ?%(inj (app data_path)).
Qed.
Lemma complete_not_in_dir u v : plain u -> plain v -> ~ parts_dir data_path v `prefix_of` complete_path data_path u.
Proof.
  intros Hu Hv. rewrite complete_path_plain, parts_dir_plain by done. intros Hp%prefix_app_inv.
  by apply prefix_length in Hp; simpl in Hp; lia.
Qed.

Lemma copy_loop_inv n dst r acc tot b0 a x a' : files a !! dst = Some b0 -> copy_loop n dst r acc tot a = (x, a') ->
  moves a a' /\ delete dst (files a') = delete dst (files a) /\ x <> None /\
  forall h t, x = Some (Ok (h, t)) -> exists d, read_to_end r = Ok d /\ h = acc ++ d /\
    ((tot + N.of_nat (length d) < 2 ^ 64)%N -> t = (tot + N.of_nat (length d))%N) /\
    files a' = <[dst := b0 ++ d]> (files a).
Proof.
  revert acc tot b0 a. induction r as [|[c|e] r IH]; intros acc tot b0 a Hp; cbn [copy_loop].
  - intros [= <- <-]. split_and!; [done..|]. intros h t [= <- <-]. exists []. rewrite !app_nil_r, insert_id by done.
    split_and!; [done|done|simpl; lia|done].
  - intros (f & Hmv & [([] & Hw & Hrun)|(e & Hw & -> & ->)])%on_fs_bind.
    2: { apply fs_write_err in Hw. split_and!; [done|by rewrite files_set_fs|done..]. }
    apply (fs_write_ok _ _ _ _ _ Hp) in Hw.
    apply (IH _ _ (b0 ++ c)) in Hrun as (Hmv2 & Hdel & Hne & Hok).
    + split_and!; [by trans (set_fs a f)| |done|].
      { rewrite Hdel, files_set_fs, Hw. apply delete_insert_eq. }
      intros h t Hx. destruct (Hok h t Hx) as (d & Hd & -> & Ht & Hfl). exists (c ++ d).
      simpl. rewrite Hd. simpl. rewrite files_set_fs, Hw, insert_insert_eq, <- !(assoc_L (++)) in *.
      split_and!; [done|done| |done]. rewrite length_app. intros Hlt.
      unfold wrapN in Ht. rewrite N.mod_small in Ht by lia. rewrite Ht; lia.
    + rewrite files_set_fs, Hw. by rewrite lookup_insert_eq.
  - intros [= <- <-]. done.
Qed.

Lemma parts_loop_inv u dst ns acc tot b0 a x a' : (forall n, dst <> part_path data_path u n) ->
  files a !! dst = Some b0 -> parts_loop data_path u dst ns acc tot a = (x, a') ->
  moves a a' /\ delete dst (files a') = delete dst (files a) /\ x <> None /\
  forall h t, x = Some (Ok (h, t)) -> exists ds,
    Forall2 (fun n d => files a !! part_path data_path u n = Some d) ns ds /\ h = acc ++ concat ds /\
    ((tot + N.of_nat (length (concat ds)) < 2 ^ 64)%N -> t = (tot + N.of_nat (length (concat ds)))%N) /\
    files a' = <[dst := b0 ++ concat ds]> (files a).
Proof.
  intros Hdst. revert acc tot b0 a. induction ns as [|n ns IH]; intros acc tot b0 a Hp; cbn [parts_loop].
  - intros [= <- <-]. split_and!; [done..|]. intros h t [= <- <-]. exists [].
    rewrite !app_nil_r, insert_id by done. split_and!; [constructor|done|simpl; lia|done].
  - intros [(r & b & Hb & Hr & Hrun)|(e & -> & ->)]%open_file_bind; [|done].
    apply pbind_inv in Hrun as [([h1 t1] & a1 & Hc & Hrun)|[(e & Hc & ->)|[Hc ->]]];
      apply (copy_loop_inv n dst r acc tot b0) in Hc as (Hmv & Hdel & Hne & Hok); try done.
    destruct (Hok h1 t1 eq_refl) as (d & Hd & -> & Ht1 & Hf1). apply (is_reader_read _ _ _ Hr) in Hd as ->.
    apply (IH _ _ (b0 ++ b)) in Hrun as (Hmv2 & Hdel2 & Hne2 & Hok2).
    + split_and!; [by trans a1|by rewrite Hdel2, Hdel|done|].
      intros h t Hx. destruct (Hok2 h t Hx) as (ds & Hds & -> & Ht & Hf). exists (b :: ds). simpl.
      rewrite Hf, Hf1, insert_insert_eq, <- !(assoc_L (++)). split_and!; [|done| |done].
      * constructor; [done|]. eapply Forall2_impl; [exact Hds|]. intros m dm Hm.
        rewrite Hf1, lookup_insert_ne in Hm by done. done.
      * rewrite length_app. intros Hlt. rewrite Ht1 in Ht by lia. rewrite Ht; lia.
    + rewrite Hf1. by rewrite lookup_insert_eq.
Qed.

(** The files of the objects lie outside the directories of the uploads. *)
Context (objects_apart : forall key u, plain u ->
  ~ parts_dir data_path u `prefix_of` sb_final key /\ ~ parts_dir data_path u `prefix_of` sb_temp key /\
  complete_path data_path u <> sb_final key /\ complete_path data_path u <> sb_temp key).

(** The files a completion may touch besides the object's. *)
Definition upload_files b k u (p : PathBuf) : Prop :=
  p = temp_of b k \/ p = complete_path data_path u \/ parts_dir data_path u `prefix_of` p.
Lemma final_not_upload b k b' k' u : plain u -> ~ upload_files b k u (final_of b' k').
Proof.
  intros Hu. destruct (objects_apart (storage_key b' k') u Hu) as (Hp & _ & Hc & _).
  intros [?|[?|?]]; [by eapply final_not_temp|by apply Hc|done].
Qed.

Lemma store_then {X} e1 e2 e3 mk key r (fin : PM (App DB B) ApiError.t X) a :
  (t ← on_store e1 (sb_write_temp_object key r); on_store e2 (sb_commit_object t) ;; m ← asks mk;
   on_db e3 (nr_write (PutObjectMetadata m)) ;; fin) a =
  ((t ← on_store e1 (sb_write_temp_object key r); z ← asks (fun _ => 0%Z); on_store e2 (sb_commit_object t) ;;
    m ← asks mk; on_db e3 (nr_write (PutObjectMetadata m)) ;; mret tt) ;; fin) a.
Proof.
  rewrite pbind_assoc. unfold mbind, PM_bind.
  destruct (on_store e1 _ a) as [[[t|e]|] a1]; [|done..]. simpl.
  destruct (on_store e2 _ a1) as [[[[]|e]|] a2]; [|done..].
  by destruct (on_db e3 _ a2) as [[[[]|e]|] a3].
Qed.

Lemma moves_quiet skip a a' : moves a a' -> (forall p, ~ skip p -> files a' !! p = files a !! p) -> quiet skip a a'.
Proof. intros Hmv Hf. split; [done|]. intros key _ _. by rewrite (moves_db _ _ Hmv). Qed.

Lemma delete_quiet p0 (skip : PathBuf -> Prop) a a' : moves a a' -> skip p0 ->
  delete p0 (files a') = delete p0 (files a) -> quiet skip a a'.
Proof.
  intros Hmv Hs Hd. apply moves_quiet; [done|]. intros p Hp. assert (p <> p0) by (intros ->; done).
  rewrite <- (lookup_delete_ne (files a') p0), Hd by done. by rewrite lookup_delete_ne.
Qed.

Lemma spawn_abort b k u (d : DB) r d' : MetadataStore.abort_multipart_upload join_error b k u d = (r, d') ->
  (forall key, starts_with "lock:" key = false -> starts_with "mpu:" key = false -> meta d' !! key = meta d !! key) /\
  (r = Ok tt -> forall key, meta d' !! key =
    if starts_with (part_prefix b k u) key || bool_decide (key = mpu_db_key b k u) then None else meta d !! key).
Proof.
  unfold MetadataStore.abort_multipart_upload, MetadataStore.spawn_blocking.
  destruct (join_error d) as [[e d1]|] eqn:Hj.
  { intros [= <- <-]. split; [|done]. intros key Hl _. by eapply join_keeps. }
  intros Ha. split; [|intros ->; by apply abort_removes]. intros key _ Hu. revert Ha.
  set (P := fun d d' : DB => meta d' !! key = meta d !! key).
  assert (HP : PreOrder P) by (unfold P; split; [done|intros ??? -> ->; done]).
  assert (Hdel : forall k0, starts_with "mpu:" k0 = true -> keeps P (delete_raw (DB := DB) k0)).
  { intros k0 Hk0 t x t' [[_ Hm]|[-> _]]%delete_raw_spec; [|done]. unfold P. rewrite Hm, lookup_delete_ne; [done|].
    intros ->. congruence. }
  revert d r d' Hj. assert (Hk : keeps P (Multipart.abort_multipart_upload (DB := DB) b k u)).
  { unfold Multipart.abort_multipart_upload, Multipart.check_names.
    apply keeps_bind; [done|apply keeps_bind; [done|apply keeps_lift, _|intros _; apply keeps_lift, _]|intros _].
    apply keeps_bind; [done|by apply Hdel|intros _].
    apply keeps_bind; [done| |intros _; apply keeps_ret, _]. unfold delete_prefix.
    intros t x t' [(ks & t1 & Hs & Hr)|(e & Hs & _)]%bind_inv; [|by injection Hs as _ <-].
    apply scan_raw_spec in Hs as (-> & l & [_ Hin] & Hks). rewrite scan_list_keys in Hks. injection Hks as <-.
    eapply (for_each_inv (fun t' => P t t')); [|done|exact Hr]. intros k0 y z y' Hk0 HPy Hd.
    trans y; [done|]. eapply Hdel, Hd. apply list_elem_of_fmap in Hk0 as ([k1 v] & -> & [_ Hp]%Hin).
    by eapply starts_with_trans; [apply (starts_with_app "mpu:")|]. }
  intros d r d' _. apply Hk.
Qed.

(** The bytes of the parts [ns], as the files of the upload hold them. *)
Definition part_files a u (ns : list N) (ds : list bytes) : Prop :=
  Forall2 (fun n d => files a !! part_path data_path u n = Some d) ns ds.

(** Storing the assembled file and committing its metadata. *)
Lemma complete_store_inv b k u ct d r a a2 y a3 : plain u -> sb_ok (app_store a2) -> quiet (upload_files b k u) a a2 ->
  is_reader d r ->
  (t ← on_store (storage_error "Storage error: ") (sb_write_temp_object (storage_key b k) r);
   z ← asks (fun _ => 0%Z); on_store (storage_error "Storage commit failed: ") (sb_commit_object t) ;;
   m ← asks (fun a => mkObjectMetadata b k (N.of_nat (length d)) (sha256_hex d) ct (utc a) (utc a) []);
   on_db (metadata_error "Metadata commit failed: ") (nr_write (PutObjectMetadata m)) ;; mret tt) a2 = (y, a3) ->
  sb_ok (app_store a3) /\ stores (upload_files b k u) b k ct a a3 /\ (y = Some (Ok tt) -> put_result b k d ct a2 a3).
Proof.
  intros Hu Hok2 Hq2 Hr Hs. pose proof (final_not_upload b k b k u Hu) as Hskip.
  assert (Hmk : forall (z : Z) (a0 : App DB B) d0, read_to_end r = Ok d0 -> exists now,
    mkObjectMetadata b k (N.of_nat (length d)) (sha256_hex d) ct (utc a0) (utc a0) [] =
    mkObjectMetadata b k (N.of_nat (length d0)) (sha256_hex d0) ct now now []).
  { intros z a0 d0 Hd0. apply (is_reader_read _ _ _ Hr) in Hd0 as ->. by exists (utc a0). }
  eapply (store_object_inv b k r _ _ _ _ (fun _ a0 =>
    mkObjectMetadata b k (N.of_nat (length d)) (sha256_hex d) ct (utc a0) (utc a0) [])) in Hs as [Hok3 Hy];
    [|exact Hok2|exact Hmk|intros ??? [= <- <-]; by eauto].
  split; [done|]. split.
  - eapply stores_after; [done|exact Hq2|]. eapply (stores_weaken (fun p => p = temp_of b k)); [by left|].
    destruct y as [[[]|e]|]; [destruct Hy as (? & _ & ?); by eapply put_result_stores|by eapply put_failed_stores..].
  - intros ->. destruct Hy as (d0 & Hd0 & Hy). by apply (is_reader_read _ _ _ Hr) in Hd0 as ->.
Qed.

(** The entry of the object that a completion with content [d] stores. *)
Definition completed b k u (ct : option string) (d : bytes) a a' : Prop :=
  files a' !! final_of b k = Some d /\
  (exists now, stored (entry a' b k)
     (Some (mkObjectMetadata b k (N.of_nat (length d)) (sha256_hex d) ct now now []))) /\
  forall key, starts_with (part_prefix b k u) key || bool_decide (key = mpu_db_key b k u) = true ->
    meta (app_db a') !! key = None.

Lemma object_not_mpu b k b' k' u : starts_with (part_prefix b' k' u) (object_db_key b k) || bool_decide
  (object_db_key b k = mpu_db_key b' k' u) = false.
Proof. done. Qed.

Lemma complete_object_inv b k u up a x a' : plain u -> sb_ok (app_store a) ->
  files a !! complete_path data_path u = Some [] ->
  (forall ds, part_files a u (part_numbers (up_parts up)) ds -> (N.of_nat (length (concat ds)) < 2 ^ 64)%N) ->
  complete_object data_path join_error utc b k u up a = (x, a') ->
  sb_ok (app_store a') /\ stores (upload_files b k u) b k (up_content_type up) a a' /\
  match x with
  | Some (Ok etag) => exists ds, part_files a u (part_numbers (up_parts up)) ds /\
      etag = sha256_hex (concat ds) /\ completed b k u (up_content_type up) (concat ds) a a'
  | _ => True
  end.
Proof.
  intros Hu Hok Hcp Hbound. unfold complete_object.
  pose proof (final_not_upload b k b k u Hu) as Hskip.
  set (cp := complete_path data_path u) in *.
  assert (Hcs : upload_files b k u cp) by (right; by left).
  intros [([h t] & a1 & Hl & Hrun)|[(e & Hl & ->)|[Hl ->]]]%pbind_inv;
    apply (parts_loop_inv u cp _ [] 0 []) in Hl as (Hmv & Hdel & Hne & Hparts);
    try (intros n; by apply complete_not_part); try done;
    pose proof (moves_ok _ _ Hmv Hok) as Hok1; pose proof (delete_quiet cp _ _ _ Hmv Hcs Hdel) as Hq1.
  2: { split_and!; [done|by apply stores_quiet|done]. }
  destruct (Hparts h t eq_refl) as (ds & Hds & -> & Ht & Hf1). specialize (Ht (Hbound ds Hds)). simpl in *. subst t.
  clear Hparts Hne Hbound Hdel. set (d := concat ds) in *.
  apply on_fs_bind in Hrun as (f2 & Hmv2 & Hcase).
  assert (Hv2 : fs_view f2 = files a1)
    by (destruct Hcase as [([] & Hfl & _)|(e & Hfl & _)]; by apply fs_flush_view in Hfl).
  assert (Hq2 : quiet (upload_files b k u) a (set_fs a1 f2)).
  { trans a1; [done|]. apply moves_quiet; [done|]. intros p _. by rewrite files_set_fs, Hv2. }
  pose proof (moves_ok _ _ Hmv2 Hok1) as Hok2.
  destruct Hcase as [([] & _ & Hrun)|(e & _ & -> & ->)]; [|split_and!; [done|by apply stores_quiet|done]].
  apply open_file_bind in Hrun as [(r & b0 & Hb0 & Hr & Hrun)|(e & -> & ->)];
    [|split_and!; [done|by apply stores_quiet|done]].
  rewrite files_set_fs, Hv2, Hf1, lookup_insert_eq in Hb0. injection Hb0 as <-.
  set (a2 := set_fs a1 f2) in *. clearbody a2. clear dependent a1.
  rewrite store_then in Hrun.
  apply pbind_inv in Hrun as [([] & a3 & Hs & Hrun)|[(e & Hs & ->)|[Hs ->]]];
    apply (complete_store_inv b k u _ _ _ _ _ _ _ Hu Hok2 Hq2 Hr) in Hs as (Hok3 & Hst3 & Hres); [|split_and!; done..].
  specialize (Hres eq_refl). destruct Hres as [Hpub [now [Hent Hfr]]].
  assert (Hqa : forall d4 r4, MetadataStore.abort_multipart_upload join_error b k u (app_db a3) = (r4, d4) ->
    quiet (upload_files b k u) a3 (set_db a3 d4)).
  { intros d4 r4 [Hab _]%spawn_abort. split; [done|]. exact Hab. }
  apply on_db_bind in Hrun as [([] & d4 & Hab & [= <- <-])|(e & d4 & Hab & -> & ->)]; pose proof (Hqa _ _ Hab) as Hq4.
  2: { split_and!; [done|by eapply stores_before|done]. }
  split_and!; [done|by eapply stores_before|]. exists ds. split_and!; [exact Hds|done|].
  split_and!; [by eapply published_lookup| |].
  - exists now. by rewrite (quiet_entry _ _ _ b k Hq4).
  - intros key Hkey. simpl. apply spawn_abort in Hab as [_ Hab]. rewrite (Hab eq_refl). by rewrite Hkey.
Qed.

Lemma remove_dir_quiet b k u a : quiet (upload_files b k u) a (set_fs a (fs_remove_dir_all (parts_dir data_path u) (fs_of a)).2).
Proof.
  apply moves_quiet; [apply moves_set_fs|]. intros p Hp. rewrite files_set_fs.
  destruct (fs_remove_dir_all _ _) as [r f] eqn:Hr. simpl. eapply fs_remove_dir_all_frame; [exact Hr|].
  intros ?. apply Hp. right. by right.
Qed.
Lemma remove_temp_quiet b k u a : quiet (upload_files b k u) a (set_fs a (fs_remove_file (complete_path data_path u) (fs_of a)).2).
Proof.
  destruct (fs_remove_file _ _) as [r f] eqn:Hr. simpl. apply (delete_quiet (complete_path data_path u)).
  - apply moves_set_fs.
  - right. by left.
  - rewrite files_set_fs. by eapply remove_frame.
Qed.

Lemma set_fs_ok a f : sb_ok (app_store a) -> sb_ok (app_store (set_fs a f)).
Proof. apply sb_ok_set. Qed.

(** The guard's cleanup, on the outcomes that are not [Ok]. *)
Lemma cleanup_guarded_inv {X} b k u (c : PM (App DB B) ApiError.t X) a x a' :
  cleanup_guarded (complete_path data_path u) (parts_dir data_path u) c a = (x, a') ->
  exists a1, c a = (x, a1) /\ quiet (upload_files b k u) a1 a' /\ (sb_ok (app_store a1) -> sb_ok (app_store a')) /\
    match x with
    | Some (Ok _) => a' = a1
    | _ => a' = set_fs (set_fs a1 (fs_remove_file (complete_path data_path u) (fs_of a1)).2)
        (fs_remove_dir_all (parts_dir data_path u)
           (fs_of (set_fs a1 (fs_remove_file (complete_path data_path u) (fs_of a1)).2))).2
    end.
Proof.
  unfold cleanup_guarded. destruct (c a) as [r a1]. intros Hrun. exists a1.
  set (a2 := set_fs a1 (fs_remove_file (complete_path data_path u) (fs_of a1)).2).
  set (a3 := set_fs a2 (fs_remove_dir_all (parts_dir data_path u) (fs_of a2)).2).
  assert (Hq : quiet (upload_files b k u) a1 a3) by (trans a2; [apply remove_temp_quiet|apply remove_dir_quiet]).
  assert (Hok : sb_ok (app_store a1) -> sb_ok (app_store a3)) by (intros; by apply set_fs_ok, set_fs_ok).
  destruct r as [[y|e]|]; injection Hrun as <- <-; split_and!; try done.
Qed.
(** The end of a completion removes the upload's files and lowers the gauge. *)
Lemma complete_end b k u rendering a x a' :
  (try_fs (fs_remove_dir_all (parts_dir data_path u)) ;; try_fs (fs_remove_file (complete_path data_path u)) ;;
   modify (fun a => set_gauge a (multipart_uploads_in_progress a - 1)) ;;
   xml ← rendered rendering; mret (xml_response xml)) a = (x, a') ->
  exists a6, quiet (upload_files b k u) a a6 /\ (sb_ok (app_store a) -> sb_ok (app_store a6)) /\ app_db a6 = app_db a /\
    a' = set_gauge a6 (multipart_uploads_in_progress a6 - 1).
Proof.
  set (a5 := set_fs a (fs_remove_dir_all (parts_dir data_path u) (fs_of a)).2).
  set (a6 := set_fs a5 (fs_remove_file (complete_path data_path u) (fs_of a5)).2).
  intros Hrun. exists a6. split_and!.
  - trans a5; [apply remove_dir_quiet|apply remove_temp_quiet].
  - intros Hok. by apply set_fs_ok, set_fs_ok.
  - done.
  - do 3 apply pbind_inv in Hrun as [([] & ? & [= <-] & Hrun)|[(? & [=] & _)|[[=] _]]].
    by apply pbind_inv in Hrun as [(xml & ? & [= _ <-] & [= _ <-])|[(? & [= _ <-] & _)|[[=] _]]].
Qed.

Lemma complete_locked_inv b k u a x a' : plain u -> sb_ok (app_store a) ->
  (forall ns ds, part_files a u ns ds -> NoDup ns -> (N.of_nat (length (concat ds)) < 2 ^ 64)%N) ->
  complete_locked config data_path join_error utc b k u a = (x, a') ->
  sb_ok (app_store a') /\
  exists ct, stores (upload_files b k u) b k ct a a' /\
  match x with
  | Some (Ok _) => exists up ds d1, Multipart.get_multipart_upload b k u (app_db a) = (Ok up, d1) /\
      up_parts up <> ∅ /\ ct = up_content_type up /\
      part_files a u (part_numbers (up_parts up)) ds /\ completed b k u ct (concat ds) a a'
  | _ => True
  end.
Proof.
  intros Hu Hok Hbound. unfold complete_locked. pose proof (final_not_upload b k b k u Hu) as Hskip.
  intros [(up & d1 & Hg & Hrun)|(e & d1 & Hg & -> & ->)]%on_db_bind;
    pose proof (spawn_read _ join_keeps _ (get_upload_pure b k u) _ _ _ Hg) as Hd1;
    assert (Hq1 : quiet (upload_files b k u) a (set_db a d1)) by by apply quiet_data.
  2: { split; [done|]. exists None. split; [by apply stores_quiet|done]. }
  apply spawn_Ok in Hg.
  case_bool_decide as Hne; [injection Hrun as <- <-; split; [done|]; exists None; split; [by apply stores_quiet|done]|].
  apply on_fs_bind in Hrun as (f & Hmv & Hcase). pose proof (moves_ok _ _ Hmv Hok) as Hok2.
  assert (Hq2 : quiet (upload_files b k u) a (set_fs (set_db a d1) f)).
  { trans (set_db a d1); [done|]. apply (delete_quiet (complete_path data_path u)); [done|right; by left|].
    rewrite files_set_fs. destruct Hcase as [([] & Hc & _)|(e & Hc & _)]; by eapply create_frame. }
  destruct Hcase as [([] & Hc & Hrun)|(e & _ & -> & ->)].
  2: { split; [done|]. exists None. split; [by apply stores_quiet|done]. }
  apply fs_create_ok in Hc. set (a2 := set_fs (set_db a d1) f) in *.
  assert (Hf2 : files a2 = <[complete_path data_path u := []]> (files a)) by (unfold a2; by rewrite files_set_fs, Hc).
  clearbody a2. clear Hmv Hc.
  assert (Hpf : forall ns ds, part_files a2 u ns ds -> part_files a u ns ds).
  { intros ns ds Hf. eapply Forall2_impl; [exact Hf|]. intros n d. simpl. rewrite Hf2, lookup_insert_ne by by apply complete_not_part. done. }
  assert (Hnd : NoDup (part_numbers (up_parts up)))
    by (unfold part_numbers; rewrite merge_sort_Permutation; apply NoDup_fst_map_to_list).
  apply pbind_inv in Hrun as [(etag & a4 & Hcg & Hrun)|[(e & Hcg & ->)|[Hcg ->]]];
    apply (cleanup_guarded_inv b k) in Hcg as (a3 & Hco & Hq4 & Hok4 & Ha4);
    apply complete_object_inv in Hco as (Hok3 & Hst & Hx); try done;
    try (rewrite Hf2; by rewrite lookup_insert_eq); try (intros ds Hds; by eapply Hbound, Hnd; apply Hpf).
  2, 3: split; [by apply Hok4|]; exists (up_content_type up); split; [|done];
    eapply stores_before; [done| |exact Hq4]; by eapply stores_after.
  destruct Hx as (ds & Hds & -> & Hcomp). simpl in Ha4. try subst a4.
  apply (complete_end b k) in Hrun as (a6 & Hq6 & Hok6 & Hdb & ->).
  split; [by apply Hok6, Hok4|]. exists (up_content_type up).
  split; [eapply stores_before; [done| |exact Hq6]; by eapply stores_after|].
  destruct x as [[resp|e]|]; [|done..]. exists up, ds, d1. split_and!; [done..|by apply Hpf|].
  destruct Hcomp as (Hf & Hent & Hgone). split_and!.
  - rewrite (proj1 Hq6); done.
  - change (exists now, stored (entry a6 b k) (Some (mkObjectMetadata b k (N.of_nat (length (concat ds)))
      (sha256_hex (concat ds)) (up_content_type up) now now []))). by rewrite (quiet_entry _ _ _ b k Hq6).
  - intros key Hkey. simpl. rewrite Hdb. exact (Hgone key Hkey).
Qed.

(** The number of bytes the files of the node hold. *)
Definition disk_bytes (m : gmap PathBuf bytes) : N := map_fold (fun _ d n => N.of_nat (length d) + n)%N 0%N m.

Lemma disk_bytes_delete m p d : m !! p = Some d -> disk_bytes m = (N.of_nat (length d) + disk_bytes (delete p m))%N.
Proof. intros Hp. unfold disk_bytes. rewrite (map_fold_delete_L _ _ p d m) by (done || (intros; lia)). done. Qed.

Lemma found_delete (p : PathBuf) (m : gmap PathBuf bytes) (ps : list PathBuf) (ds : list bytes) : p ∉ ps -> Forall2 (fun q d => m !! q = Some d) ps ds ->
  Forall2 (fun q d => delete p m !! q = Some d) ps ds.
Proof.
  intros Hp Hf. induction Hf as [|q d ps ds Hq Hf IH]; constructor; [|set_solver].
  rewrite lookup_delete_ne; [done|]. intros ->. set_solver.
Qed.
Lemma found_fit (ps : list PathBuf) (ds : list bytes) m : Forall2 (fun p d => m !! p = Some d) ps ds -> NoDup ps ->
  (N.of_nat (length (concat ds)) <= disk_bytes m)%N.
Proof.
  intros Hf. revert m Hf. revert ds. induction ps as [|p ps IH]; intros ds m Hf Hnd.
  { apply Forall2_nil_inv_l in Hf as ->. simpl. lia. }
  apply Forall2_cons_inv_l in Hf as (d & ds' & Hd & Hf & ->). apply NoDup_cons in Hnd as [Hn Hnd]. simpl.
  rewrite (disk_bytes_delete _ _ _ Hd), length_app.
  pose proof (IH ds' _ (found_delete p m ps ds' Hn Hf) Hnd). lia.
Qed.
Lemma part_files_fit u ns ds a : (disk_bytes (files a) < 2 ^ 64)%N -> part_files a u ns ds -> NoDup ns ->
  (N.of_nat (length (concat ds)) < 2 ^ 64)%N.
Proof.
  intros Hlt Hf Hnd. assert (Hinj : Inj (=) (=) (part_path data_path u)) by (intros n m; apply part_path_inj).
  pose proof (found_fit (part_path data_path u <$> ns) ds (files a)) as Hle. rewrite Forall2_fmap_l in Hle.
  specialize (Hle Hf (NoDup_fmap_2 _ _ Hnd)). lia.
Qed.

(** The content of the object: the parts in the order of their numbers. *)
Definition assembled (bodies : gmap N bytes) : bytes :=
  concat (omap (fun n => bodies !! n) (merge_sort N.le (elements (dom bodies)))).

Lemma part_numbers_bodies bodies : part_numbers (map_imap (fun n d => Some (part_of n d)) bodies) =
  merge_sort N.le (elements (dom bodies)).
Proof.
  assert (Hs : forall l, Sorted N.le (merge_sort N.le l)) by (intros l; apply Sorted_merge_sort, _).
  unfold part_numbers. apply (Sorted_unique N.le); [apply Hs..|].
  rewrite !merge_sort_Permutation. apply NoDup_Permutation; [apply NoDup_fst_map_to_list|apply NoDup_elements|].
  intros n. rewrite list_elem_of_fmap, elem_of_elements, elem_of_dom. split.
  - intros ([m p] & -> & Hp%elem_of_map_to_list). rewrite map_lookup_imap in Hp. simpl.
    destruct (bodies !! m); [done|by simpl in Hp].
  - intros (d & Hd). exists (n, part_of n d). split; [done|]. apply elem_of_map_to_list.
    by rewrite map_lookup_imap, Hd.
Qed.

Lemma part_files_bodies a u (bodies : gmap N bytes) ns ds : (forall n d, bodies !! n = Some d -> files a !! part_path data_path u n = Some d) ->
  (forall n, n ∈ ns -> is_Some (bodies !! n)) -> part_files a u ns ds -> omap (fun n => bodies !! n) ns = ds.
Proof.
  intros Hb Hin Hf. induction Hf as [|n d ns ds Hd Hf IH]; [done|]. simpl.
  destruct (Hin n ltac:(left)) as (d' & Hd'). rewrite Hd'.
  specialize (Hb n d' Hd'). rewrite Hd in Hb. injection Hb as <-. f_equal. apply IH. intros m Hm. apply Hin. by right.
Qed.

Lemma upload_key_not_lock b k u key : starts_with (part_prefix b k u) key || bool_decide (key = mpu_db_key b k u) = true ->
  starts_with "lock:" key = false.
Proof.
  intros [Hp|Hk]%orb_true_iff; [|by apply bool_decide_eq_true in Hk as ->].
  apply (mpu_not_lock ""). eapply starts_with_trans; [|exact Hp]. apply (starts_with_app "mpu:").
Qed.

Lemma complete_multipart_inv b k u a x a' : plain u -> sb_ok (app_store a) ->
  (disk_bytes (files a) < 2 ^ 64)%N ->
  complete_multipart config data_path join_error utc lock_awaits b k u a = (x, a') ->
  sb_ok (app_store a') /\
  exists ct, stores (upload_files b k u) b k ct a a' /\
  forall resp md bodies, x = Some (Ok resp) -> upload_is a b k u md bodies ->
    bodies <> ∅ /\ ct = mm_content_type md /\ completed b k u ct (assembled bodies) a a'.
Proof.
  intros Hu Hok Hfit. unfold complete_multipart. pose proof (final_not_upload b k b k u Hu) as Hskip.
  intros [(_ & _ & Hrun)|(m & -> & -> & _)]%check_names_cases;
    [|split; [done|]; exists None; split; [apply stores_refl|done]].
  apply with_lock_inv in Hrun as [(a1 & a2 & Hrun & Hd1 & Hr1 & Hd2 & Hr2)|(m & -> & Hd & Hr)].
  2: { split; [destruct Hr as [-> _]; done|]. exists None. split; [|done]. apply stores_quiet; [done|].
       apply quiet_data; [by apply same_rest_files|done]. }
  assert (Hq1 : quiet (upload_files b k u) a a1) by (apply quiet_data; [by apply same_rest_files|done]).
  assert (Hq2 : quiet (upload_files b k u) a2 a') by (apply quiet_data; [by apply same_rest_files|done]).
  pose proof (same_rest_files _ _ Hr1) as Hf1. pose proof (same_rest_files _ _ Hr2) as Hf2.
  apply complete_locked_inv in Hrun as (Hok2 & ct & Hst & Hx); [|done| |].
  2: { destruct Hr1 as [-> _]. done. }
  2: { intros ns ds. apply part_files_fit. by rewrite Hf1. }
  split; [destruct Hr2 as [-> _]; done|]. exists ct.
  split; [eapply stores_before; [done| |exact Hq2]; by eapply stores_after|].
  intros resp md bodies -> Hui. destruct Hx as (up & ds & d1 & Hg & Hne & -> & Hpf & Hc).
  apply (get_upload_spec _ _ _ (Some md) (map_imap (fun n d => Some (part_of n d)) bodies)) in Hg
    as (_ & md' & [= <-] & ->).
  2: { rewrite Hd1; [apply Hui|done]. }
  2: { eapply parts_are_data; [exact Hd1|apply Hui]. }
  simpl in *. rewrite part_numbers_bodies in Hpf.
  assert (Hds : assembled bodies = concat ds).
  { unfold assembled. f_equal. eapply part_files_bodies; [|intros n; rewrite merge_sort_Permutation, elem_of_elements; apply elem_of_dom|exact Hpf].
    rewrite Hf1. apply Hui. }
  split_and!; [|done|].
  - intros ->. apply Hne. apply map_eq. intros n. by rewrite map_lookup_imap, !lookup_empty.
  - rewrite Hds. destruct Hc as (Hfin & Hent & Hgone). split_and!.
    + by rewrite Hf2.
    + by rewrite (quiet_entry _ _ _ b k Hq2).
    + intros key Hkey. rewrite Hd2; [by apply Hgone|]. by eapply upload_key_not_lock.
Qed.

(** C9. Completing an upload whose id is a single path component, on a disk that holds
    less than 2^64 bytes.  When the part files agree with the upload's records
    ([upload_is]: every recorded part has a file of the recorded size and digest,
    which fails after a second upload of a part that broke off), [200] means that the object's file
    holds the bytes of all the parts in the order of their numbers, that its entry
    has their size, hash and content type, and that the entries of the upload are
    gone.  On every outcome, with or without that agreement, no other object is
    touched, and the object is as it was, or its file holds new bytes and its entry
    is as it was or describes them. *)
Theorem complete_multipart_exact b k u a x a' : plain u -> sb_ok (app_store a) ->
  (disk_bytes (files a) < 2 ^ 64)%N ->
  complete_multipart config data_path join_error utc lock_awaits b k u a = (x, a') ->
  sb_ok (app_store a') /\
  exists ct, stores (upload_files b k u) b k ct a a' /\
  forall resp md bodies, x = Some (Ok resp) -> upload_is a b k u md bodies ->
    bodies <> ∅ /\ ct = mm_content_type md /\ completed b k u ct (assembled bodies) a a'.
Proof. apply complete_multipart_inv. Qed.
End theory.

(** The layout of the object store keeps the objects and their temporary files
    apart from the uploads. *)
Lemma layout_apart `{Sha256Laws} (st : ObjectStorage) key u : plain u ->
  let data_path := base_path (layout st) in
  ~ parts_dir data_path u `prefix_of` key_final st key /\ ~ parts_dir data_path u `prefix_of` key_temp st key /\
  complete_path data_path u <> key_final st key /\ complete_path data_path u <> key_temp st key.
Proof.
  intros Hu data_path. rewrite parts_dir_plain, complete_path_plain by done.
  unfold key_final, key_temp, object_path_from_id, temp_path_from_id, path_join. fold data_path.
  rewrite <- !(assoc_L (++)). split_and!.
  - intros Hp%prefix_app_inv. by apply prefix_cons_inv_1 in Hp.
  - intros Hp%prefix_app_inv%prefix_length. simpl in Hp. lia.
  - by intros ?%(inj (app data_path)).
  - intros Heq%(inj (app data_path)). injection Heq as Heq. pose proof (sha256_chars (String.list_byte_of_string key)) as Hc.
    unfold key_id in Heq. destruct (sha256_hex _) as [|c1 [|c2 s]]; simplify_eq/=.
Qed.
Lemma layout_not_temp `{Sha256} (st : ObjectStorage) key : ~ temp_dir (layout st) `prefix_of` key_final st key.
Proof.
  unfold key_final, object_path_from_id, temp_dir, path_join. rewrite <- !(assoc_L (++)).
  intros Hp%prefix_app_inv. by apply prefix_cons_inv_1 in Hp.
Qed.
