(* ===== verification/Gc.v ===== *)
(** * save-api: the garbage collector

    Models [crates/save-api/src/gc.rs].  A cycle reads the active uploads from
    the metadata store, walks the temporary directory and removes the old files
    that belong to no active upload.  The state is the database, the file system
    and the time of the last completed cycle, which the readiness check reads. *)
From Stdlib Require Import Strings.Byte Ascii.
From S2P Require Import Prelude Common Kv Fs ObjectStorage FsDirs Buckets Objects Multipart MetadataStore.
From stdpp Require Import base gmap strings numbers list.

Record GcConfig : Type := mkGcConfig { gc_interval : N; temp_file_max_age : N }.
Definition GcConfig_default : GcConfig := mkGcConfig (10 * 60 * 1000000000) (60 * 60 * 1000000000).

(** [Path::file_name]. *)
Definition file_name (p : PathBuf) : option string := list.last p.

Definition should_keep_file (path : PathBuf) (active_upload_ids : gset string) : bool :=
  match parent path with
  | Some dir => match file_name dir with
                | Some upload_id => bool_decide (upload_id ∈ active_upload_ids)
                | None => false end
  | None => false
  end.

Section gc.
Context {DB F : Type} `{RocksDB DB} `{Codec MultipartPart} `{Codec MultipartMetadata}
  `{FileSystem F, DirFs F}.
Context (join_error : DB -> option (string * DB)).

Record World : Type := mkWorld { gc_db : DB; gc_fs : F; gc_last_run_seconds : Z }.

Definition get_active_upload_ids : M DB StorageError.t (gset string) :=
  uploads ← with_err (fun e => StorageError.Io (io_other (MetadataError_to_string e)))
              (MetadataStore.list_all_multipart_uploads join_error);
  mret (list_to_set (up_upload_id <$> uploads)).

(** The loop over the files, with the numbers of files deleted and of errors. *)
Fixpoint gc_files (cfg : GcConfig) (now : N) (ids : gset string) (files : list (PathBuf * N))
    (counts : nat * nat) (f : F) : (nat * nat) * F :=
  match files with
  | [] => (counts, f)
  | (path, modified) :: rest =>
      let age := (now - modified)%N in
      if (age <? temp_file_max_age cfg)%N then gc_files cfg now ids rest counts f
      else if should_keep_file path ids then gc_files cfg now ids rest counts f
      else
        let '(r, f') := remove_if_exists path f in
        gc_files cfg now ids rest
          match r with
          | Ok true => (S counts.1, counts.2)
          | Ok false => counts
          | Err _ => (counts.1, S counts.2)
          end f'
  end.

(** [start] and [now] are the two readings of the clock.  [None]: the walk over
    the directories has not ended within [fuel] turns. *)
Definition run_gc_cycle (fuel : nat) (start now : N) (temp_dir : PathBuf) (cfg : GcConfig) (w : World)
  : option (result StorageError.t unit * World) :=
  match get_active_upload_ids (gc_db w) with
  | (Err e, d) => Some (Err e, mkWorld d (gc_fs w) (gc_last_run_seconds w))
  | (Ok ids, d) =>
      files ← list_temp_files fuel (gc_fs w) temp_dir;
      match files with
      | Err e => Some (Err e, mkWorld d (gc_fs w) (gc_last_run_seconds w))
      | Ok files =>
          let '(_, f) := gc_files cfg now ids files (0, 0) (gc_fs w) in
          Some (Ok tt, mkWorld d f (Z.of_N (start / 1000000000)))
      end
  end.

(** The worker: a cycle at each tick, its error logged, until the shutdown. *)
Inductive GcEvent : Type := Tick (start now : N) | Shutdown.
Fixpoint run_gc_worker (fuel : nat) (temp_dir : PathBuf) (cfg : GcConfig) (evs : list GcEvent) (w : World)
  : option World :=
  match evs with
  | [] => Some w
  | Shutdown :: _ => Some w
  | Tick start now :: rest =>
      '(_, w') ← run_gc_cycle fuel start now temp_dir cfg w;
      run_gc_worker fuel temp_dir cfg rest w'
  end.
End gc.

(** ** Properties *)
Section properties.
Context {DB F : Type} `{RocksDBLaws DB} `{!Codec MultipartPart} `{!Codec MultipartMetadata} `{DirFsLaws F}.
Context (join_error : DB -> option (string * DB)).

(** The files a cycle may remove. *)
Definition collectable (cfg : GcConfig) (now : N) (ids : gset string) (p : PathBuf) (t : N) : Prop :=
  (temp_file_max_age cfg <= now - t)%N /\ should_keep_file p ids = false.

Lemma remove_if_exists_spec (p : PathBuf) (f : F) r f' : remove_if_exists p f = (r, f') ->
  (r = Ok true /\ fs_view f' = delete p (fs_view f)) \/
  (r = Ok false /\ fs_view f' = fs_view f /\ fs_view f !! p = None) \/
  (exists e, fs_remove_file p f = (Err e, f') /\ kind e <> NotFoundKind /\ fs_view f' = fs_view f).
Proof.
  unfold remove_if_exists. destruct (fs_remove_file p f) as [[[]|e] f1] eqn:Hr.
  - intros [= <- <-]. left. split; [done|]. by apply fs_remove_ok in Hr as [_ ?].
  - intros [= <- <-]. right. pose proof (fs_remove_err _ _ _ _ Hr) as Hv. destruct (kind e) eqn:Hk; [|right; exists e; split_and!; [done|congruence|done]].
    left. split_and!; [done..|]. by eapply fs_remove_not_found.
Qed.

(** A removal of [p] was tried between the states [f] and [f'] of the file system,
    when the cycle had done nothing but removals, and it failed. *)
Definition removes (f f' : F) : Prop := exists q r, fs_remove_file q f = (r, f').
Definition removal_failed (p : PathBuf) (f f' : F) : Prop :=
  exists g e g', rtc removes f g /\ fs_remove_file p g = (Err e, g') /\ kind e <> NotFoundKind /\ rtc removes g' f'.
Lemma remove_if_exists_removes p (f : F) r f' : remove_if_exists p f = (r, f') -> removes f f'.
Proof.
  unfold remove_if_exists, removes. destruct (fs_remove_file p f) as [[[]|e] f1] eqn:Hr; [intros [= _ <-]; by eauto|].
  destruct (kind e); intros [= _ <-]; by eauto.
Qed.
Lemma gc_files_removes cfg now ids files c (f : F) c' f' : gc_files cfg now ids files c f = (c', f') -> rtc removes f f'.
Proof.
  revert c f. induction files as [|[q t] files IH]; intros c f; simpl; [by intros [= _ <-]|].
  destruct (_ <? _)%N; [apply IH|]. destruct (should_keep_file q ids); [apply IH|].
  destruct (remove_if_exists q f) as [r f1] eqn:Hr. intros Hrest%IH. eapply rtc_l; [|exact Hrest].
  by eapply remove_if_exists_removes.
Qed.

Lemma gc_files_spec cfg now ids files c (f : F) c' f' : gc_files cfg now ids files c f = (c', f') ->
  (forall p, fs_view f' !! p = fs_view f !! p \/
     (fs_view f' !! p = None /\ exists t, (p, t) ∈ files /\ collectable cfg now ids p t)) /\
  (forall p t, (p, t) ∈ files -> collectable cfg now ids p t ->
     fs_view f' !! p = None \/ removal_failed p f f').
Proof.
  revert c f. induction files as [|[q t] files IH]; intros c f; simpl.
  { intros [= _ <-]. split; [by left|set_solver]. }
  assert (Hskip : ~ collectable cfg now ids q t -> gc_files cfg now ids files c f = (c', f') ->
    (forall p, fs_view f' !! p = fs_view f !! p \/
       (fs_view f' !! p = None /\ exists t0, (p, t0) ∈ (q, t) :: files /\ collectable cfg now ids p t0)) /\
    (forall p t0, (p, t0) ∈ (q, t) :: files -> collectable cfg now ids p t0 ->
       fs_view f' !! p = None \/ removal_failed p f f')).
  { intros Hn [Ha Hb]%IH. split.
    - intros p. destruct (Ha p) as [?|(? & t0 & ? & ?)]; [by left|right]. split; [done|]. exists t0. split; [by right|done].
    - intros p t0 [[= -> ->]|Hin]%elem_of_cons Hc; [done|by eapply Hb]. }
  destruct (N.ltb_spec (now - t) (temp_file_max_age cfg)) as [Hlt|Hge].
  { apply Hskip. intros [? _]. lia. }
  destruct (should_keep_file q ids) eqn:Hk; [apply Hskip; intros [_ ?]; congruence|]. clear Hskip.
  assert (Hc : collectable cfg now ids q t) by done.
  destruct (remove_if_exists q f) as [r f1] eqn:Hr. intros Hrest.
  pose proof (gc_files_removes _ _ _ _ _ _ _ _ Hrest) as Hpath. apply IH in Hrest as [Ha Hb].
  pose proof (remove_if_exists_removes _ _ _ _ Hr) as Hstep.
  assert (Hone : forall p, fs_view f1 !! p = fs_view f !! p \/ (p = q /\ fs_view f1 !! p = None)).
  { intros p. apply remove_if_exists_spec in Hr as [[_ ->]|[(_ & -> & _)|(e & _ & _ & ->)]]; [|by left..].
    destruct (decide (p = q)) as [->|]; [right; by rewrite lookup_delete_eq|left; by rewrite lookup_delete_ne]. }
  split.
  - intros p. destruct (Ha p) as [->|(? & t0 & ? & ?)].
    + destruct (Hone p) as [?|[-> ?]]; [by left|right]. split; [done|]. exists t. split; [by left|done].
    + right. split; [done|]. exists t0. split; [by right|done].
  - intros p t0 [[= -> ->]|Hin]%elem_of_cons Hc0.
    2: { destruct (Hb p t0 Hin Hc0) as [?|(g & e & g' & Hg & Hrest)]; [by left|right]. exists g, e, g'. split; [by eapply rtc_l|done]. }
    apply remove_if_exists_spec in Hr as [[_ Hv]|[(_ & Hv & Hn)|(e & He & Hk' & _)]]; [left|left|right; by exists f, e, f1].
    + destruct (Ha q) as [->|[? _]]; [|done]. by rewrite Hv, lookup_delete_eq.
    + destruct (Ha q) as [->|[? _]]; [|done]. by rewrite Hv.
Qed.

Lemma gc_cycle_inv fuel start now dir cfg (w : World (DB := DB) (F := F)) :
  size (fs_dirs (gc_fs w)) < fuel ->
  exists r w', run_gc_cycle join_error fuel start now dir cfg w = Some (r, w') /\
    (forall p, fs_view (gc_fs w') !! p = fs_view (gc_fs w) !! p \/
       (fs_view (gc_fs w') !! p = None /\ dir `prefix_of` p /\
        exists t ids d, get_active_upload_ids join_error (gc_db w) = (Ok ids, d) /\
          fs_mtime (gc_fs w) p = Some t /\ collectable cfg now ids p t)) /\
    (r = Ok tt -> gc_last_run_seconds w' = Z.of_N (start / 1000000000) /\
       exists ids, get_active_upload_ids join_error (gc_db w) = (Ok ids, gc_db w') /\
       (tree_wf (gc_fs w) -> kinds_wf (gc_fs w) -> forall q t, q <> [] ->
          is_Some (fs_view (gc_fs w) !! (dir ++ q)) -> fs_mtime (gc_fs w) (dir ++ q) = Some t ->
          collectable cfg now ids (dir ++ q) t ->
          fs_view (gc_fs w') !! (dir ++ q) = None \/ removal_failed (dir ++ q) (gc_fs w) (gc_fs w'))).
Proof.
  intros Hfuel. unfold run_gc_cycle.
  destruct (get_active_upload_ids join_error (gc_db w)) as [[ids|e] d] eqn:Hids.
  2: { do 2 eexists. split; [done|]. split; [by left|done]. }
  destruct (list_temp_files_bound fuel (gc_fs w) dir Hfuel) as (r & -> & Hfiles). cbn [mbind option_bind].
  destruct r as [files|e]; [|do 2 eexists; split; [done|split; [by left|done]]].
  destruct (Hfiles files eq_refl) as [Hsound Hcomplete].
  destruct (gc_files cfg now ids files (0, 0) (gc_fs w)) as [c f] eqn:Hgc.
  apply gc_files_spec in Hgc as [Ha Hb]. do 2 eexists. split; [done|]. simpl. split.
  - intros p. destruct (Ha p) as [?|(Hn & t & Hin & Hc)]; [by left|right].
    destruct (Hsound _ _ Hin) as (? & _ & ?). split_and!; [done..|]. exists t, ids, d. done.
  - intros _. split; [done|]. exists ids. split; [done|]. intros Hwf Hk q t Hq Hf Ht Hc.
    eapply Hb, Hc. by apply Hcomplete.
Qed.

End properties.

(** ** Witnesses *)
Module GcWit.
Import Mem MemFs MpWit.
Definition mt (p : PathBuf) : option N := Some 1%N.
#[local] Instance dirs : DirFs MemFs.t := MemDirs.dirfs mt.
#[local] Instance dirs_laws : DirFsLaws MemFs.t := MemDirs.laws mt.
Definition no_join : Mem.t -> option (string * Mem.t) := fun _ => None.
Definition part (u : string) : PathBuf := ["temp"; "parts"; u; "1"].
(** A part of an upload [u1] and one of an upload [u2], both written long ago. *)
Definition f0 : MemFs.t :=
  MemFs.mk (<[ part "u1" := [x01] ]> (<[ part "u2" := [x02] ]> ∅))
    (list_to_set [[]; ["temp"]; ["temp"; "parts"]; ["temp"; "parts"; "u1"]; ["temp"; "parts"; "u2"]]) ∅ ∅ ∅.
Definition late : N := 7200 * 1000000000.
Definition w0 (d : Mem.t) : World := mkWorld d f0 0.
Definition cycle (d : Mem.t) := run_gc_cycle no_join 10 late late ["temp"] GcConfig_default (w0 d).
Definition part_after (d : Mem.t) (u : string) : option bytes :=
  '(_, w) ← cycle d; fs_view (gc_fs w) !! part u.

Lemma cycle_ok : fst <$> cycle d0 = Some (Ok tt).
Proof. vm_compute. reflexivity. Qed.
Lemma listed_u2 : match get_active_upload_ids no_join d0 with (Ok ids, _) => bool_decide ("u2" ∈ ids) | _ => true end = false.
Proof. vm_compute. reflexivity. Qed.
Lemma f0_files p : is_Some (fs_view f0 !! p) -> p = part "u1" \/ p = part "u2".
Proof.
  change (fs_view f0) with (<[ part "u1" := [x01] ]> (<[ part "u2" := [x02] ]> ∅) : gmap PathBuf bytes).
  intros [v [[<- _]|[_ [[<- _]|[_ Hn]]%lookup_insert_Some]]%lookup_insert_Some]; [by left|by right|done].
Qed.
Lemma f0_tree : tree_wf f0.
Proof.
  intros p q Hq [Hp|Hp]%f0_files; unfold part in Hp;
    (do 4 (destruct p as [|? p]; [apply (bool_decide_unpack _); vm_compute; done|injection Hp as -> Hp]);
     by apply app_nil in Hp as [_ ->]).
Qed.
Lemma f0_kinds : kinds_wf f0.
Proof.
  intros p Hp. apply eq_None_not_Some. intros [->| ->]%f0_files;
    by apply (bool_decide_unpack _) in Hp || (revert Hp; apply (bool_decide_unpack _); vm_compute).
Qed.

(** The part of the upload [u1], which the store lists, stays; that of [u2]
    goes. *)
Example gc_keeps_listed_upload : part_after d0 "u1" = Some [x01] /\ part_after d0 "u2" = None.
Proof. vm_compute. done. Qed.

(** An active upload of an object whose key contains [:part:] is not listed, so
    its parts are collected although the upload can still be completed. *)
Example gc_collects_hidden_upload :
  (exists up, (get_multipart_upload "photos" "a:part:b" "u1" dp).1 = Ok up) /\ part_after dp "u1" = None.
Proof. split; [eexists|]; vm_compute; reflexivity. Qed.
End GcWit.
