(* ===== verification/Routes.v ===== *)
(** * save-api: the routes, and the invariant of a node

    Models [crates/save-api/src/routes/{bucket,objects,multipart}.rs]: the choice
    of the handler from the method, the matched path and the query.  The second
    part puts the components together: whatever requests a node serves, and
    whatever the garbage collector removes between them, an object's metadata
    never names a file that does not exist. *)
From Stdlib Require Import Strings.Byte Ascii.
From S2P Require Import Prelude Common Config Kv Fs ObjectStorage StorageBackend FsDirs Buckets Objects.
From S2P Require Import Multipart Locks StateMachine MetadataStore S3Xml Api BucketHandlers ObjectHandlers.
From S2P Require Import MultipartHandlers Gc.
From stdpp Require Import base gmap strings numbers sorting relations list.

(** ** Requests

    The router, which is axum's, matches the path [/], [/{bucket}] (with or
    without a slash at the end) or [/{bucket}/{*key}] and parses the query. *)
Inductive Method : Type := GET | PUT | POST | DELETE | HEAD.
Inductive Route : Type :=
| RootRoute
| BucketRoute (bucket : string)
| ObjectRoute (bucket key : string).
Record MultipartQueryParams : Type := mkMultipartQueryParams { mq_part_number : option N; mq_upload_id : option string }.
Record BucketListQuery : Type := mkBucketListQuery { bl_uploads : option string; bl_objects : ListObjectsQuery }.
Record Request : Type := mkRequest {
  req_method : Method; req_route : Route; req_multipart : MultipartQueryParams; req_list : BucketListQuery;
  req_uploads : option string; req_content_type : option string; req_body : Reader }.

Section routes.
Context {DB B F : Type} `{RocksDB DB, NodeRaft DB} `{Codec Bucket} `{Codec ObjectMetadata} `{Codec LockState}
  `{Codec MultipartPart} `{Codec MultipartMetadata}
  `{FileSystem F, DirFs F, StorageBackend B F} `{Chrono, XmlWriter, Sha256}.
Context (config : SaveConfig) (data_path : PathBuf) (join_error : DB -> option (string * DB))
  (instant : App DB B -> N) (utc : App DB B -> Z) (lock_awaits : App DB B -> nat) (uuid : App DB B -> string).
(** axum's answer to a method that the matched route does not have. *)
Context (method_not_allowed : Response).
Abbreviation Handler := (PM (App DB B) ApiError.t).

Definition put_or_upload_part (bucket key : string) (params : MultipartQueryParams) (body : Reader) : Handler Response :=
  match mq_part_number params, mq_upload_id params with
  | Some part_number, Some upload_id =>
      upload_part data_path join_error bucket key (mkUploadPartQuery part_number upload_id) body
  | _, _ => put_object join_error instant utc lock_awaits bucket key body
  end.

Definition delete_or_abort (bucket key : string) (params : MultipartQueryParams) : Handler Response :=
  match mq_upload_id params with
  | Some upload_id => abort_multipart data_path join_error bucket key upload_id
  | None => delete_object join_error lock_awaits bucket key
  end.

Definition initiate_or_complete (bucket key : string) (params : MultipartQueryParams) (uploads : option string)
    (content_type : option string) : Handler Response :=
  match mq_upload_id params with
  | Some upload_id => complete_multipart config data_path join_error utc lock_awaits bucket key upload_id
  | None =>
      match uploads with
      | Some _ => initiate_multipart data_path join_error instant utc uuid bucket key content_type
      | None => mret (mkResponse 400 [] NoBody)
      end
  end.

Definition get_bucket_handler (bucket : string) (params : BucketListQuery) : Handler Response :=
  match bl_uploads params with
  | Some _ => list_multipart_uploads join_error instant bucket
  | None => list_objects config join_error instant bucket (bl_objects params)
  end.

(** A GET route serves HEAD too, without the body. *)
Definition api_routes (r : Request) : Handler Response :=
  match req_route r, req_method r with
  | RootRoute, (GET | HEAD) => list_buckets config join_error
  | BucketRoute b, PUT => create_bucket join_error instant utc b
  | BucketRoute b, DELETE => delete_bucket join_error b
  | BucketRoute b, GET => get_bucket_handler b (req_list r)
  | BucketRoute b, HEAD => head_bucket config join_error b
  | ObjectRoute b k, GET => get_object config join_error instant lock_awaits b k
  | ObjectRoute b k, PUT => put_or_upload_part b k (req_multipart r) (req_body r)
  | ObjectRoute b k, DELETE => delete_or_abort b k (req_multipart r)
  | ObjectRoute b k, HEAD => head_object config join_error lock_awaits b k
  | ObjectRoute b k, POST => initiate_or_complete b k (req_multipart r) (req_uploads r) (req_content_type r)
  | _, _ => mret method_not_allowed
  end.
End routes.

(** ** The invariant *)
Section theory.
Context {DB B F : Type} `{NodeRaftLaws DB} `{!CodecLaws Bucket, !CodecLaws ObjectMetadata}
  `{!Codec MultipartPart} `{!Codec MultipartMetadata} `{!CodecLaws MultipartPart} `{!CodecLaws MultipartMetadata}
  `{DirFsLaws F} `{!StorageBackend B F} `{!StorageBackendLaws B F} `{Chrono, XmlWriter, Sha256}.
Context (config : SaveConfig) (data_path : PathBuf) (join_error : DB -> option (string * DB)).
Context (join_keeps : forall d e d', join_error d = Some (e, d') -> same_data d d').
Context (instant : App DB B -> N) (utc : App DB B -> Z) (lock_awaits : App DB B -> nat) (uuid : App DB B -> string).
Context (method_not_allowed : Response).
Context (objects_apart : forall key u, plain u ->
  ~ parts_dir data_path u `prefix_of` sb_final key /\ ~ parts_dir data_path u `prefix_of` sb_temp key /\
  complete_path data_path u <> sb_final key /\ complete_path data_path u <> sb_temp key).
(** The temporary directory, which the collector walks, holds no object file. *)
Context (objects_not_temp : forall key, ~ path_join data_path "temp" `prefix_of` sb_final key).
Implicit Types (a : App DB B).

(** Files that belong to no object, and steps that change nothing else but
    uploads and locks. *)
Definition scratch (p : PathBuf) : Prop := forall b k, p <> final_of b k.
Definition harmless a a' : Prop := quiet scratch a a' /\ (sb_ok (app_store a) -> sb_ok (app_store a')).
#[local] Instance harmless_preorder : PreOrder harmless.
Proof. split; [by split|]. intros a a1 a2 [Hq1 Hk1] [Hq2 Hk2]. split; [by trans a1|auto]. Qed.

Lemma harmless_data a a' : same_data (app_db a) (app_db a') -> app_store a' = app_store a -> harmless a a'.
Proof. intros Hd Hs. split; [apply quiet_data; [unfold files; by rewrite Hs|done]|by rewrite Hs]. Qed.
Lemma harmless_read a a' : read_only a a' -> harmless a a'.
Proof. intros (Hd & Hf & Hk). split; [by apply quiet_data|done]. Qed.
Lemma quiet_weaken (s s' : PathBuf -> Prop) a a' : (forall p, s p -> s' p) -> quiet s a a' -> quiet s' a a'.
Proof. intros Hi [Hf Hm]. split; [|done]. intros p Hp. apply Hf. auto. Qed.

Lemma checked_harmless {X} (v : result Error.t X) : pkeeps harmless (checked v).
Proof. intros a x a' [= _ <-]. done. Qed.
Lemma asks_harmless {X} (f : App DB B -> X) : pkeeps harmless (asks f).
Proof. intros a x a' [= _ <-]. done. Qed.
Lemma rendered_harmless t : pkeeps harmless (rendered (DB := DB) (B := B) t).
Proof. intros a x a' [= _ <-]. done. Qed.
Lemma fail_harmless {X} e : pkeeps harmless (fail (X := X) e).
Proof. intros a x a' [= _ <-]. done. Qed.
Lemma gauge_harmless f : pkeeps harmless (modify (fun a => set_gauge a (f a))).
Proof. intros a x a' [= _ <-]. by apply harmless_data. Qed.
Lemma ret_harmless {X} (x : X) : pkeeps harmless (mret x : PM (App DB B) ApiError.t X).
Proof. apply pkeeps_ret, _. Qed.
Lemma bind_harmless {X Y} (c : PM (App DB B) ApiError.t X) (f : X -> PM (App DB B) ApiError.t Y) :
  pkeeps harmless c -> (forall x, pkeeps harmless (f x)) -> pkeeps harmless (x ← c; f x).
Proof. apply pkeeps_bind, _. Qed.
Lemma names_harmless b k : pkeeps harmless (ObjectHandlers.check_names b k).
Proof. apply bind_harmless; [apply checked_harmless|intros _; apply checked_harmless]. Qed.

(** Reads of the store, and steps on the uploads. *)
Lemma db_harmless {X} err (c : M DB MetadataError X) : keeps same_data c -> pkeeps harmless (on_db (B := B) err c).
Proof. intros Hc a x a' (y & d & Hd & _ & ->)%on_db_inv. apply harmless_data; [by eapply Hc|done]. Qed.
Lemma read_harmless {X} err (c : M DB MetadataError X) : keeps eq c ->
  pkeeps harmless (on_db (B := B) err (MetadataStore.spawn_blocking join_error c)).
Proof. intros Hc. apply db_harmless. by apply spawn_read. Qed.
Definition uploads_only (d d' : DB) : Prop :=
  forall key, starts_with "lock:" key = false -> starts_with "mpu:" key = false -> meta d' !! key = meta d !! key.
#[local] Instance uploads_only_preorder : PreOrder uploads_only.
Proof. split; [done|]. intros d d1 d2 Ha Hb key Hl Hm. by rewrite Hb, Ha. Qed.
Lemma uploads_harmless {X} err (c : M DB MetadataError X) : keeps uploads_only c -> pkeeps harmless (on_db (B := B) err c).
Proof. intros Hc a x a' (y & d & Hd & _ & ->)%on_db_inv. split; [|done]. split; [done|]. by eapply Hc. Qed.

Lemma fs_harmless {X} err (c : M F io_error X) :
  (forall f r f', c f = (r, f') -> forall p, ~ scratch p -> fs_view f' !! p = fs_view f !! p) ->
  pkeeps harmless (on_fs (DB := DB) (B := B) err c).
Proof.
  intros Hc a x a'. unfold on_fs. destruct (c (fs_of a)) as [r f] eqn:Hr. intros [= _ <-]. split; [|by apply set_fs_ok].
  apply moves_quiet; [apply moves_set_fs|]. intros p Hp. rewrite files_set_fs. by eapply Hc.
Qed.
Lemma try_harmless {X} (c : M F io_error X) :
  (forall f r f', c f = (r, f') -> forall p, ~ scratch p -> fs_view f' !! p = fs_view f !! p) ->
  pkeeps harmless (try_fs (DB := DB) (B := B) c).
Proof.
  intros Hc a x a' [= _ <-]. split; [|by apply set_fs_ok]. apply moves_quiet; [apply moves_set_fs|].
  intros p Hp. rewrite files_set_fs. destruct (c (fs_of a)) as [r f] eqn:Hr. by eapply Hc.
Qed.

Lemma validate_harmless b : pkeeps harmless (validate_bucket_exists join_error instant b).
Proof. intros a x a' (Hd & Hs & _)%validate_bucket_inv; [by apply harmless_data|done]. Qed.
Lemma consistency_harmless : pkeeps harmless (ensure_read_consistency (DB := DB) (B := B) config).
Proof. intros a x a' [? _]%consistency_read. by apply harmless_read. Qed.

Ltac harmless := repeat first
  [ apply names_harmless | apply checked_harmless | apply asks_harmless | apply rendered_harmless | apply fail_harmless
  | apply ret_harmless | apply validate_harmless | apply consistency_harmless | apply gauge_harmless
  | apply bind_harmless; [|intros ?] ].

Lemma list_buckets_harmless : pkeeps harmless (list_buckets config join_error).
Proof.
  unfold list_buckets. harmless. apply read_harmless. unfold Buckets.list_buckets, scan_raw. apply keeps_reads, _.
Qed.
Lemma head_bucket_harmless b : pkeeps harmless (head_bucket config join_error b).
Proof. unfold head_bucket. harmless. apply read_harmless, get_bucket_pure. Qed.
Lemma list_objects_harmless b q : pkeeps harmless (list_objects config join_error instant b q).
Proof. unfold list_objects, list_result. harmless. apply read_harmless, list_objects_pure. Qed.
Lemma list_uploads_harmless b : pkeeps harmless (list_multipart_uploads join_error instant b).
Proof.
  unfold list_multipart_uploads. harmless. apply read_harmless.
  unfold Multipart.list_multipart_uploads, list_multipart_uploads_with_prefix. apply keeps_reads, _.
Qed.

Lemma locked_harmless {X} ty b k (c : PM (App DB B) ApiError.t X) : pkeeps harmless c ->
  pkeeps harmless (with_lock lock_awaits ty b k c).
Proof.
  intros Hc a x a' [(a1 & a2 & Hrun & Hd1 & [Hs1 _] & Hd2 & [Hs2 _])|(m & -> & Hd & [Hs _])]%with_lock_inv.
  - trans a1; [by apply harmless_data|]. trans a2; [by eapply Hc|by apply harmless_data].
  - by apply harmless_data.
Qed.
Lemma head_object_harmless b k : pkeeps harmless (head_object config join_error lock_awaits b k).
Proof.
  unfold head_object. harmless.
  assert (Hc : pkeeps harmless (head_locked (B := B) config join_error b k)).
  { unfold head_locked. harmless. apply read_harmless, get_metadata_pure. }
  unfold read_locked. destruct (consistency_mode _); [by apply locked_harmless|done].
Qed.

Lemma upload_scratch u p : plain u ->
  (p = complete_path data_path u \/ parts_dir data_path u `prefix_of` p) -> scratch p.
Proof.
  intros Hu Hp b k ->. destruct (objects_apart (storage_key b k) u Hu) as (Hd & _ & Hc & _).
  destruct Hp as [?|?]; [by apply Hc|done].
Qed.
Lemma part_scratch u n : plain u -> scratch (part_path data_path u n).
Proof. intros Hu. apply (upload_scratch u); [done|]. right. apply prefix_app_r. done. Qed.
Lemma temp_scratch b k : scratch (temp_of b k).
Proof. intros b' k' Heq. by eapply final_not_temp. Qed.
Lemma remove_scratch p : scratch p -> forall (f : F) r f', fs_remove_file p f = (r, f') ->
  forall q, ~ scratch q -> fs_view f' !! q = fs_view f !! q.
Proof.
  intros Hp f r f' Hr q Hq. assert (q <> p) by (intros ->; done). apply remove_frame in Hr.
  rewrite <- (lookup_delete_ne (fs_view f') p), Hr by done. by rewrite lookup_delete_ne.
Qed.

Lemma gauge_guarded_harmless {X} (c : PM (App DB B) ApiError.t X) : pkeeps harmless c -> pkeeps harmless (gauge_guarded c).
Proof.
  intros Hc a x a'. unfold gauge_guarded. destruct (c _) as [y a1] eqn:Hr. apply Hc in Hr.
  assert (H1' : harmless a a1) by (trans (set_gauge a (multipart_uploads_in_progress a + 1)); [by apply harmless_data|done]).
  destruct y as [[y|e]|]; intros [= _ <-]; [done|trans a1; [done|by apply harmless_data]..].
Qed.

Lemma initiate_harmless b k ct : pkeeps harmless (initiate_multipart data_path join_error instant utc uuid b k ct).
Proof.
  unfold initiate_multipart. harmless. apply gauge_guarded_harmless. harmless.
  - apply uploads_harmless. intros d r d'. unfold MetadataStore.initiate_multipart_upload, MetadataStore.spawn_blocking.
    destruct (join_error d) as [[e d1]|] eqn:Hj.
    { intros [= _ <-] key Hl _. by eapply join_keeps. }
    clear Hj. revert d r d'. unfold Multipart.initiate_multipart_upload, Multipart.check_names.
    apply keeps_bind; [apply _|apply keeps_bind; [apply _|apply keeps_lift, _|intros _; apply keeps_lift, _]|intros _].
    apply keeps_bind; [apply _| |intros _; apply keeps_ret, _].
    intros d r d' [[_ [_ Hf]]|[-> _]]%put_enc_entry; [|done]. intros key _ Hm. apply Hf. by intros ->.
  - apply fs_harmless. intros f r f' Hc p _. by apply fs_create_dir_all_view in Hc as ->.
Qed.

Lemma upload_part_harmless b k q body : plain (upq_upload_id q) ->
  (forall d, read_to_end body = Ok d -> (N.of_nat (length d) < 2 ^ 64)%N) ->
  pkeeps harmless (upload_part data_path join_error b k q body).
Proof.
  intros Hu Hsz a x a' Hr. pose proof (part_scratch _ (upq_part_number q) Hu) as Hs.
  eapply upload_part_inv in Hr as [Hok Hx]; [|done..]. split; [|done].
  destruct x as [[resp|e]|]; [..|done].
  - destruct Hx as (_ & d & _ & _ & _ & Hf & Hm & _). split.
    + intros p Hp. rewrite Hf, lookup_insert_ne; [done|]. by intros <-.
    + intros key Hl Hu'. apply Hm; [done|]. intros ->. done.
  - destruct Hx as [Hf Hd]. split; [|intros key Hl _; by apply Hd].
    intros p Hp. assert (p <> part_path data_path (upq_upload_id q) (upq_part_number q)) by (intros ->; done).
    rewrite <- (lookup_delete_ne (files a')) with (i := part_path data_path (upq_upload_id q) (upq_part_number q)), Hf by done.
    by rewrite lookup_delete_ne.
Qed.

Lemma abort_harmless b k u : plain u -> pkeeps harmless (abort_multipart data_path join_error b k u).
Proof.
  intros Hu. unfold abort_multipart, cleanup_part_files. harmless.
  - apply read_harmless, get_upload_pure.
  - apply uploads_harmless. intros d r d' Ha. eapply spawn_abort in Ha as [Ha _]; [exact Ha|done].
  - generalize (part_numbers (up_parts x0)) as ns. induction ns as [|n ns IH]; cbn [remove_parts]; harmless; [|done].
      apply try_harmless, remove_scratch. by apply part_scratch.
  - apply try_harmless. intros f r f' Hr p _. by apply fs_remove_dir_view in Hr as ->.
Qed.

(** The invariant of a node: every metadata entry of an object decodes, names the
    object whose entry it is, and the object has its file. *)
Record consistent a : Prop := {
  cs_store : sb_ok (app_store a);
  cs_entry : forall b k v, entry a b k = Some v -> exists m, dec v = Ok m /\
    storage_key (om_bucket m) (om_key m) = storage_key b k /\ contains_char "/"%char (om_bucket m) = false;
  cs_file : forall b k, is_Some (entry a b k) -> is_Some (files a !! final_of b k);
}.

Lemma entry_storage_key a b k b' k' : storage_key b k = storage_key b' k' -> entry a b k = entry a b' k'.
Proof. unfold entry, object_db_key, storage_key. by intros ->. Qed.
Lemma final_storage_key b k b' k' : storage_key b k = storage_key b' k' -> final_of b k = final_of b' k'.
Proof. unfold final_of. by intros ->. Qed.
Lemma db_key_storage_key b k b' k' : storage_key b k <> storage_key b' k' -> object_db_key b k <> object_db_key b' k'.
Proof. unfold object_db_key, storage_key. by intros Hne ?%(inj (String.append "obj:")). Qed.

Lemma harmless_consistent a a' : harmless a a' -> consistent a -> consistent a'.
Proof.
  intros [Hq Hok] [Hs He Hf]. split; [auto|..].
  - intros b k v. rewrite (quiet_entry _ _ _ b k Hq). apply He.
  - intros b k. rewrite (quiet_entry _ _ _ b k Hq), (proj1 Hq) by (intros Hsc; by eapply Hsc). apply Hf.
Qed.

(** A request that stores an object, on every outcome. *)
Lemma stores_consistent (skip : PathBuf -> Prop) b k ct a a' : (forall p, skip p -> scratch p) ->
  contains_char "/"%char b = false -> sb_ok (app_store a') -> stores skip b k ct a a' -> consistent a -> consistent a'.
Proof.
  intros Hskip Hb Hok [Hsf Hsm Hso] [_ He Hf].
  assert (Hmeta : forall b' k', storage_key b' k' <> storage_key b k -> entry a' b' k' = entry a b' k').
  { intros b' k' Hne. apply Hsm; [done..|]. by apply db_key_storage_key. }
  assert (Hfile : forall b' k', is_Some (files a !! final_of b' k') -> is_Some (files a' !! final_of b' k')).
  { intros b' k'. destruct (decide (final_of b' k' = final_of b k)) as [->|Hne].
    - destruct Hso as [[-> _]|(d & -> & _)]; done.
    - rewrite Hsf; [done| |done]. intros Hs. by eapply Hskip. }
  split; [done|..].
  - intros b' k' v. destruct (decide (storage_key b' k' = storage_key b k)) as [Heq|]; [|rewrite Hmeta by done; apply He].
    rewrite (entry_storage_key _ _ _ _ _ Heq), Heq. destruct Hso as [[_ ->]|(d & _ & [->|(now & Hs)])]; [apply He..|].
    intros Hv. rewrite Hv in Hs. apply stored_Some in Hs as (x & [= <-] & Hx). eexists. by split_and!.
  - intros b' k' [v Hv]. destruct (decide (storage_key b' k' = storage_key b k)) as [Heq|Hne].
    + rewrite (entry_storage_key _ _ _ _ _ Heq) in Hv. rewrite (final_storage_key _ _ _ _ Heq).
      destruct Hso as [[Hfe Hee]|(d & -> & _)]; [|done]. rewrite Hfe. apply Hf. by rewrite <- Hee, Hv.
    + apply Hfile, Hf. rewrite <- Hmeta, Hv by done. done.
Qed.

(** The path of the object is not that of another stored object: no collision of
    the hash. *)
Definition no_collision a b k : Prop :=
  forall b' k', is_Some (entry a b' k') -> final_of b' k' = final_of b k -> storage_key b' k' = storage_key b k.

Lemma delete_consistent b k a x a' : no_collision a b k ->
  delete_object join_error lock_awaits b k a = (x, a') -> consistent a -> consistent a'.
Proof.
  intros Hnc Hrun [Hs He Hf]. apply delete_request_inv in Hrun as [Hok Hx]; [|done..].
  assert (Hset : entry_set b k None a a' -> forall b' k' v, entry a' b' k' = Some v ->
    storage_key b' k' <> storage_key b k /\ entry a b' k' = Some v).
  { intros [Hent Hfr] b' k' v Hv. destruct (decide (storage_key b' k' = storage_key b k)) as [Heq|Hne].
    - rewrite (entry_storage_key _ _ _ _ _ Heq) in Hv. rewrite Hv in Hent. by inversion Hent.
    - split; [done|]. rewrite <- Hv. symmetry. apply Hfr; [done|]. by apply db_key_storage_key. }
  assert (Hgone : entry_set b k None a a' -> files a' = delete (final_of b k) (files a) \/ files a' = files a -> consistent a').
  { intros Hes Hfiles. split; [done| |].
    - intros b' k' v [_ Hv]%(Hset Hes). by eapply He.
    - intros b' k' [v [Hne Hv]%(Hset Hes)]. specialize (Hf b' k' ltac:(by rewrite Hv)).
      destruct Hfiles as [-> | ->]; [|done]. rewrite lookup_delete_ne; [done|].
      intros Heq. apply Hne, Hnc; [by rewrite Hv|done]. }
  assert (Hsame : files a' = files a -> same_data (app_db a) (app_db a') -> consistent a').
  { intros Hfe Hd. apply (harmless_consistent a); [|done]. split; [by apply quiet_data|done]. }
  destruct x as [[resp|e]|]; [destruct Hx as (_ & _ & ? & ?); auto|destruct Hx as [? [?|?]]; auto..].
Qed.

(** The requests on buckets change no entry of an object. *)
Lemma entries_consistent a a' : app_store a' = app_store a -> (forall b k, entry a' b k = entry a b k) ->
  consistent a -> consistent a'.
Proof.
  intros Hs He [Hok Hent Hf]. split; [by rewrite Hs|..].
  - intros b k v. rewrite He. apply Hent.
  - intros b k. rewrite He. unfold files. rewrite Hs. apply Hf.
Qed.
Lemma create_consistent b a x a' : create_bucket join_error instant utc b a = (x, a') -> consistent a -> consistent a'.
Proof.
  intros [Hs Hx]%create_bucket_inv; [|done..]. apply entries_consistent; [done|]. intros b' k'.
  destruct x as [[resp|e]|]; [|destruct Hx as [_ [Hd|[_ Hm]]]|done].
  - destruct Hx as (_ & _ & _ & _ & Hm & _). by apply Hm.
  - by apply same_data_entry.
  - by apply Hm.
Qed.
Lemma drop_consistent b a x a' : delete_bucket join_error b a = (x, a') -> consistent a -> consistent a'.
Proof.
  intros Hrun. apply delete_bucket_inv in Hrun as [Hs Hx]; [|done..]. apply entries_consistent; [done|]. intros b' k'.
  assert (Hgone : (forall key, starts_with "lock:" key = false ->
    meta (app_db a') !! key = delete (bucket_key b) (meta (app_db a)) !! key) -> entry a' b' k' = entry a b' k').
  { intros Hm. unfold entry. rewrite Hm by done. by rewrite lookup_delete_ne. }
  destruct x as [[resp|e]|]; [|destruct Hx as [Hd|[_ Hm]]|done]; [|by apply same_data_entry|auto].
  destruct Hx as (_ & _ & _ & Hm & _). auto.
Qed.

Lemma put_consistent b k body a x a' : (forall d, read_to_end body = Ok d -> (N.of_nat (length d) < 2 ^ 64)%N) ->
  put_object join_error instant utc lock_awaits b k body a = (x, a') -> consistent a -> consistent a'.
Proof.
  intros Hsz Hrun Hc. pose proof Hrun as Hrun'. unfold put_object in Hrun. apply asks_bind in Hrun.
  apply check_names_cases in Hrun as [(Hb & _ & _)|(m & -> & -> & _)]; [|done].
  apply put_object_inv in Hrun' as [Hok Hx]; [|done..|apply Hc].
  eapply (stores_consistent (fun p => p = temp_of b k) b k None a); try done.
  - intros p ->. apply temp_scratch.
  - by apply validate_bucket_name_no_slash.
  - destruct x as [[resp|e]|]; [destruct Hx as (_ & d & _ & Hp & _); by eapply put_result_stores|by eapply put_failed_stores..].
Qed.

Lemma complete_consistent b k u a x a' : plain u -> (disk_bytes (files a) < 2 ^ 64)%N ->
  complete_multipart config data_path join_error utc lock_awaits b k u a = (x, a') -> consistent a -> consistent a'.
Proof.
  intros Hu Hfit Hrun Hc. pose proof Hrun as Hrun'. unfold complete_multipart in Hrun.
  apply check_names_cases in Hrun as [(Hb & _ & _)|(m & -> & -> & _)]; [|done].
  eapply complete_multipart_inv in Hrun' as (Hok & ct & Hst & _); [|done..|apply Hc|done].
  eapply (stores_consistent (upload_files data_path b k u) b k ct a); try done.
  - intros p [->|Hp]; [apply temp_scratch|by eapply upload_scratch].
  - by apply validate_bucket_name_no_slash.
Qed.

(** ** Runs of a node

    A request is admissible when its body and the node's files hold less than
    2^64 bytes, the upload identifier it names is one the server could have
    drawn, and an object it deletes has a path of its own. *)
Record admissible (r : Request) a : Prop := {
  adm_body : forall d, read_to_end (req_body r) = Ok d -> (N.of_nat (length d) < 2 ^ 64)%N;
  adm_upload : forall u, mq_upload_id (req_multipart r) = Some u -> plain u;
  adm_disk : (disk_bytes (files a) < 2 ^ 64)%N;
  adm_path : forall b k, req_method r = DELETE -> req_route r = ObjectRoute b k -> no_collision a b k;
}.

(** A node serves a request, to whatever outcome; the collector runs; the Raft
    node works in the background without touching the data; the bucket cache is
    cleaned. *)
Inductive node_step : App DB B -> App DB B -> Prop :=
| step_request r a x a' : admissible r a ->
    api_routes config data_path join_error instant utc lock_awaits uuid method_not_allowed r a = (x, a') -> node_step a a'
| step_gc fuel start now cfg last a r w :
    size (fs_dirs (fs_of a)) < fuel ->
    run_gc_cycle join_error fuel start now (path_join data_path "temp") cfg (mkWorld (app_db a) (fs_of a) last) = Some (r, w) ->
    node_step a (set_fs (set_db a (gc_db w)) (gc_fs w))
| step_raft a d : same_data (app_db a) d -> node_step a (set_db a d)
| step_cache now a : node_step a (set_cache a (cleanup_expired now (bucket_cache a))).

Lemma active_ids_data (d : DB) r d' : get_active_upload_ids join_error d = (r, d') -> same_data d d'.
Proof.
  unfold get_active_upload_ids.
  assert (Hk : keeps same_data (MetadataStore.list_all_multipart_uploads (DB := DB) join_error)).
  { apply spawn_read; [done|]. unfold Multipart.list_all_multipart_uploads, list_multipart_uploads_with_prefix.
    apply keeps_reads, _. }
  revert d r d'. change (keeps same_data (get_active_upload_ids join_error)). unfold get_active_upload_ids.
  apply keeps_bind; [apply _|by apply keeps_with_err|intros ups; apply keeps_ret, _].
Qed.

Lemma gc_harmless fuel start now cfg last a r w : size (fs_dirs (fs_of a)) < fuel ->
  run_gc_cycle join_error fuel start now (path_join data_path "temp") cfg (mkWorld (app_db a) (fs_of a) last) = Some (r, w) ->
  harmless a (set_fs (set_db a (gc_db w)) (gc_fs w)).
Proof.
  intros Hfuel Hrun.
  assert (Hdb : same_data (app_db a) (gc_db w)).
  { revert Hrun. unfold run_gc_cycle. simpl. destruct (get_active_upload_ids join_error (app_db a)) as [[ids|e] d] eqn:Hids;
      apply active_ids_data in Hids; [|by intros [= _ <-]].
    destruct (list_temp_files _ _ _) as [[fl|e]|]; simpl; [|by intros [= _ <-]|done].
    destruct (gc_files _ _ _ _ _ _) as [c f]. by intros [= _ <-]. }
  destruct (gc_cycle_inv join_error fuel start now (path_join data_path "temp") cfg (mkWorld (app_db a) (fs_of a) last) Hfuel)
    as (r' & w' & Hrun' & Hf & _). rewrite Hrun in Hrun'. injection Hrun' as <- <-.
  split; [|intros Hok; by apply (set_fs_ok (set_db a (gc_db w)))]. split; [|intros key Hl _; by apply Hdb].
  intros p Hp. rewrite files_set_fs. destruct (Hf p) as [Heq|(_ & Hpre & _)]; [exact Heq|].
  destruct Hp. intros b k ->. by eapply objects_not_temp.
Qed.

Lemma get_consistent b k a x a' : get_object config join_error instant lock_awaits b k a = (x, a') ->
  consistent a -> consistent a'.
Proof.
  intros Hrun Hc. apply get_object_inv in Hrun as [Hr _]; [|done|apply Hc].
  by apply (harmless_consistent a); [apply harmless_read|].
Qed.

(** Every step keeps the invariant. *)
Lemma step_consistent a a' : node_step a a' -> consistent a -> consistent a'.
Proof.
  intros Hstep. destruct Hstep as [r a x a' [Hbody Hup Hdisk Hpath] Hrun|fuel start now cfg last a r w Hfuel Hrun|a d Hd|now a].
  2: { apply harmless_consistent. by eapply gc_harmless. }
  2: { apply harmless_consistent. by apply harmless_data. }
  2: { apply harmless_consistent. by apply harmless_data. }
  revert Hrun. unfold api_routes, put_or_upload_part, delete_or_abort, initiate_or_complete, get_bucket_handler.
  repeat case_match; intros Hrun; try (injection Hrun as _ <-; done);
    try (by eapply get_consistent); try (by eapply create_consistent); try (by eapply drop_consistent); try (by eapply put_consistent);
    try (by eapply delete_consistent; [by apply Hpath|]); try (by eapply complete_consistent; [apply Hup| |]);
    apply harmless_consistent; revert Hrun;
    first [apply list_buckets_harmless|apply head_bucket_harmless|apply list_objects_harmless|apply list_uploads_harmless
      |apply head_object_harmless|apply initiate_harmless|apply upload_part_harmless; [by apply Hup|done]
      |apply abort_harmless; by apply Hup].
Qed.

(** C1. Whatever a node that starts without objects serves, collects and fails at,
    every metadata entry of an object decodes to metadata of that object, and the
    object has its file; so a read of an object with an entry never answers that
    it does not exist. *)
Theorem metadata_never_dangles a0 a : sb_ok (app_store a0) -> (forall b k, entry a0 b k = None) ->
  rtc node_step a0 a ->
  consistent a /\ (forall b, contains_char "/"%char b = false -> keys_wf a b) /\
  forall b k x a', is_Some (entry a b k) -> get_object config join_error instant lock_awaits b k a = (x, a') ->
    forall b' k', x <> Some (Err (ApiError.ObjectNotFound b' k')).
Proof.
  intros Hok Hempty Hrun.
  assert (Hc : consistent a).
  { assert (Hc0 : consistent a0).
    { split; [done| |]; intros b k; rewrite Hempty; [done|by intros []]. }
    clear -Hrun Hc0 join_keeps objects_apart objects_not_temp CodecLaws0 CodecLaws1 CodecLaws2 CodecLaws3 H5 H9.
    induction Hrun as [|a0 a1 a Hs _ IH]; [done|]. apply IH. by eapply step_consistent. }
  split_and!; [done| |].
  - intros b Hb k v Hv. destruct (cs_entry _ Hc b k v Hv) as (m & Hm & Heq & Hs). exists m. split; [done|].
    unfold storage_key in Heq. by apply sep_app_inj in Heq.
  - intros b k x a' [v Hv] Hget b' k' ->. apply get_object_inv in Hget as [_ (_ & _ & Hno)]; [|done|apply Hc].
    destruct (cs_entry _ Hc b k v Hv) as (m & Hm & _). by eapply Hno.
Qed.
End theory.
