(* ===== verification/Middleware.v ===== *)
(** * save-api: the layers in front of the routes

    Models [crates/save-common/src/tracing.rs], and [middleware.rs],
    [forward.rs] and the router of [lib.rs] of [crates/save-api/src]: trace
    contexts, the request tracker, the request counters, forwarding to the
    leader, the check that the cluster is initialized, and authentication in
    front of the S3 routes.  A service answers a request or panics ([None]). *)
From Stdlib Require Import Strings.Byte Ascii.
From S2P Require Import Prelude Common Config Kv Fs ObjectStorage StorageBackend FsDirs Buckets Objects.
From S2P Require Import Multipart Locks StateMachine MetadataStore S3Xml Api Auth BucketHandlers ObjectHandlers.
From S2P Require Import MultipartHandlers Routes.
From stdpp Require Import base gmap strings numbers list.

(** ** [tracing.rs] *)
Definition TRACE_ID_HEADER : string := "x-trace-id".
Definition PARENT_SPAN_HEADER : string := "x-parent-span-id".
Definition REQUEST_ID_HEADER : string := "x-request-id".

Record TraceContext : Type := mkTraceContext {
  trace_id : string; span_id : string; parent_span_id : option string; tc_request_id : string }.

(** [format!("{:016x}")] of a random 64-bit number. *)
Definition hex_digit (n : N) : ascii := default "0"%char (String.get (N.to_nat n) "0123456789abcdef").
Fixpoint hex_pad (digits : nat) (n : N) (acc : string) : string :=
  match digits with
  | O => acc
  | S k => hex_pad k (n / 16) (String (hex_digit (n mod 16)) acc)
  end.
Definition generate_span_id (random : N) : string := hex_pad 16 random "".

(** The identifiers drawn are arguments. *)
Definition TraceContext_new (uuid1 uuid2 : string) (random : N) : TraceContext :=
  mkTraceContext uuid1 (generate_span_id random) None uuid2.
Definition TraceContext_child (c : TraceContext) (random : N) : TraceContext :=
  mkTraceContext (trace_id c) (generate_span_id random) (Some (span_id c)) (tc_request_id c).
Definition to_headers (c : TraceContext) : list (string * string) :=
  [(TRACE_ID_HEADER, trace_id c); (PARENT_SPAN_HEADER, span_id c); (REQUEST_ID_HEADER, tc_request_id c)].

Definition trace_context_from_headers (uuid1 uuid2 : string) (random : N) (headers : HeaderMap) : TraceContext :=
  mkTraceContext (default uuid1 (header_str headers TRACE_ID_HEADER)) (generate_span_id random)
    (header_str headers PARENT_SPAN_HEADER) (default uuid2 (header_str headers REQUEST_ID_HEADER)).

(** ** Requests and services *)
Record HttpRequest : Type := mkHttpRequest {
  hq_method : string; hq_path : string; hq_query : option string; hq_headers : HeaderMap; hq_body : Reader;
  hq_trace : option TraceContext   (* the extension *) }.
Definition with_trace (r : HttpRequest) (c : TraceContext) : HttpRequest :=
  mkHttpRequest (hq_method r) (hq_path r) (hq_query r) (hq_headers r) (hq_body r) (Some c).
Definition signed_part (r : HttpRequest) : SignedRequest :=
  mkSignedRequest (hq_method r) (hq_path r) (hq_query r) (hq_headers r).

(** [HeaderMap::insert]: the values under the name are replaced. *)
Definition insert_header (name value : string) (hs : list (string * string)) : list (string * string) :=
  filter (fun kv => kv.1 <> name) hs ++ [(name, value)].
Definition set_header (name value : string) (r : Response) : Response :=
  mkResponse (status r) (insert_header name value (headers r)) (resp_body r).

(** ** [forward.rs] *)
Inductive ForwardError : Type :=
| BodyRead (e : string)
| RequestFailed (e : string)
| ResponseRead (e : string)
| InvalidUri (e : string).
Definition ForwardError_to_string (e : ForwardError) : string :=
  match e with
  | BodyRead e => "failed to read request body: " +:+ e
  | RequestFailed e => "forward request failed: " +:+ e
  | ResponseRead e => "failed to read response body: " +:+ e
  | InvalidUri e => "invalid target URI: " +:+ e
  end.
Definition ForwardError_into_response (e : ForwardError) : Response :=
  mkResponse 502 [("content-type", "application/xml")] (TextBody (
    "<?xml version=" +:+ quoted "1.0" +:+ " encoding=" +:+ quoted "UTF-8" +:+ "?>" +:+ newline +:+ "<Error>" +:+ newline +:+
    "    <Code>ServiceUnavailable</Code>" +:+ newline +:+ "    <Message>" +:+ ForwardError_to_string e +:+ "</Message>" +:+ newline +:+ "</Error>")).

Definition should_forward_header (name : string) : bool :=
  let lower := to_lowercase name in
  bool_decide (lower ∈ ["content-type"; "content-length"; "authorization"; "x-amz-date"; "x-amz-content-sha256";
                        "x-amz-decoded-content-length"; "x-amz-meta-"; "host"])
  || starts_with "x-amz-" lower || bool_decide (lower = TRACE_ID_HEADER) || bool_decide (lower = PARENT_SPAN_HEADER)
  || bool_decide (lower = REQUEST_ID_HEADER).

Definition is_already_forwarded (headers : HeaderMap) : bool := bool_decide (is_Some (header_get headers "x-forwarded-by")).
Definition is_write_method (method : string) : bool := bool_decide (method ∈ ["PUT"; "POST"; "DELETE"; "PATCH"]).

(** The headers of the request that is sent on. *)
Definition forwarded_headers (headers : HeaderMap) : HeaderMap :=
  filter (fun kv => is_Some kv.2 /\ should_forward_header kv.1 = true) headers ++ [("x-forwarded-by", Some "save-node")].

(** reqwest: the answer to a request, or the error of sending it; the answer's
    body may fail to arrive.  [uri_parse] is the parsing of http's [Uri]. *)
Class HttpClient (Net : Type) : Type := {
  http_send : string -> string -> HeaderMap -> bytes -> Net ->
    result string (N * list (string * string) * result string bytes) * Net;
  uri_parse : string -> result string string;
}.

Section forward.
Context {Net : Type} `{HttpClient Net}.

Definition path_and_query (r : HttpRequest) : string :=
  hq_path r +:+ match hq_query r with Some q => "?" +:+ q | None => "" end.
Definition build_target_uri (leader_addr : string) (r : HttpRequest) : result ForwardError string :=
  map_err InvalidUri (uri_parse (leader_addr +:+ path_and_query r)).

Definition copy_headers (hs : list (string * string)) (r : Response) : Response :=
  foldl (fun r kv => set_header kv.1 kv.2 r) r hs.

Definition forward (leader_addr : string) (r : HttpRequest) (net : Net) : result ForwardError Response * Net :=
  match read_to_end (hq_body r) with
  | Err e => (Err (BodyRead (io_msg e)), net)
  | Ok body_bytes =>
      match build_target_uri leader_addr r with
      | Err e => (Err e, net)
      | Ok target_uri =>
          let '(answer, net') := http_send target_uri (hq_method r) (forwarded_headers (hq_headers r)) body_bytes net in
          match answer with
          | Err e => (Err (RequestFailed e), net')
          | Ok (_, _, Err e) => (Err (ResponseRead e), net')
          | Ok (code, hs, Ok body) =>
              let response := copy_headers hs (mkResponse code [] (StreamBody (slice_reader body))) in
              (Ok (set_header "x-forwarded-from" leader_addr response), net')
          end
      end
  end.
End forward.

(** ** [middleware.rs] *)

(** The state of a server: the node, the network, the number of requests in
    flight (an [AtomicUsize]) and the counters of requests. *)
Record Server (A Net : Type) : Type := mkServer {
  sv_app : A; sv_net : Net; in_flight : N; http_requests_total : gmap (string * string * N) N }.
Arguments mkServer {A Net}. Arguments sv_app {A Net}. Arguments sv_net {A Net}. Arguments in_flight {A Net}.
Arguments http_requests_total {A Net}.

Definition normalize_endpoint (path : string) : string :=
  if bool_decide (path = "/health") then "/health"
  else if bool_decide (path = "/metrics") then "/metrics"
  else if bool_decide (path = "/") then "/"
  else if length (split_char "/"%char path) - 1 =? 1 then "/{bucket}" else "/{bucket}/{key}".

Definition EXEMPT_PATHS : list string :=
  ["/cluster/initialize"; "/cluster/status"; "/cluster/members"; "/cluster/members/promote"; "/cluster/trigger-elect";
   "/health"; "/health/ready"; "/metrics"].
Definition is_exempt_from_initialization_check (path : string) : bool :=
  bool_decide (path ∈ EXEMPT_PATHS)
  || (starts_with "/cluster/members/" path && negb (bool_decide (path = "/cluster/members/promote"))).

Section middleware.
Context {A Net : Type} `{HttpClient Net} `{XmlWriter}.
Abbreviation Srv := (Server A Net).
Definition Service : Type := HttpRequest -> Srv -> option Response * Srv.
Implicit Types (s : Srv) (next : Service).

(** The Raft node's view, and the identifiers drawn. *)
Context (is_leader : A -> bool) (leader_http_addr : A -> option string) (is_initialized : A -> bool)
  (draws : Srv -> string * string * N).

Definition set_app s (a : A) : Srv := mkServer a (sv_net s) (in_flight s) (http_requests_total s).
Definition set_net s (n : Net) : Srv := mkServer (sv_app s) n (in_flight s) (http_requests_total s).
Definition set_in_flight s (n : N) : Srv := mkServer (sv_app s) (sv_net s) n (http_requests_total s).
Definition count_request s (k : string * string * N) : Srv :=
  mkServer (sv_app s) (sv_net s) (in_flight s)
    (<[k := (default 0 (http_requests_total s !! k) + 1)%N]> (http_requests_total s)).

Definition increment s : Srv := set_in_flight s (wrapN 64 (in_flight s + 1)).
Definition decrement s : Srv := set_in_flight s (wrapN 64 (in_flight s + 2 ^ 64 - 1)).

Definition track_requests next : Service := fun r s =>
  if bool_decide (hq_path r ∈ ["/metrics"; "/health"; "/health/ready"]) then next r s
  else
    match next r (increment s) with
    | (Some resp, s') => (Some resp, decrement s')
    | (None, s') => (None, s')
    end.

(** The header values of the trace context are set if they parse as header
    values; [ok] is that check of the http crate. *)
Definition request_id (ok : string -> bool) next : Service := fun r s =>
  let '(u1, u2, rnd) := draws s in
  let c := trace_context_from_headers u1 u2 rnd (hq_headers r) in
  let set n v resp := if ok v then set_header n v resp else resp in
  match next (with_trace r c) s with
  | (Some resp, s') =>
      (Some (set PARENT_SPAN_HEADER (span_id c) (set TRACE_ID_HEADER (trace_id c)
               (set REQUEST_ID_HEADER (tc_request_id c) resp))), s')
  | (None, s') => (None, s')
  end.

Definition track_metrics next : Service := fun r s =>
  match next r s with
  | (Some resp, s') => (Some resp, count_request s' (normalize_endpoint (hq_path r), hq_method r, status resp))
  | (None, s') => (None, s')
  end.

Definition forward_to_leader next : Service := fun r s =>
  if bool_decide (hq_path r ∈ ["/metrics"; "/health"; "/health/ready"; "/cluster/status"]) then next r s
  else if negb (is_write_method (hq_method r)) then next r s
  else if is_already_forwarded (hq_headers r) then next r s
  else if is_leader (sv_app s) then next r s
  else
    match leader_http_addr (sv_app s) with
    | None => next r s
    | Some leader_addr =>
        let '(x, net) := forward leader_addr r (sv_net s) in
        match x with
        | Ok response => (Some response, set_net s net)
        | Err e => (Some (ForwardError_into_response e), set_net s net)
        end
    end.

(** The answer to a request before the cluster is initialized. *)
Definition unavailable (uuid : string) (rid : option string) : Response :=
  let error := service_unavailable uuid "Cluster is not initialized. Please initialize the cluster first." in
  let error := match rid with Some rid => with_request_id error rid | None => error end in
  mkResponse 503 [("content-type", "application/xml"); ("x-amz-request-id", S3Xml.request_id error)]
    (TextBody (S3Error_to_xml error)).

Definition require_initialized_cluster next : Service := fun r s =>
  if is_exempt_from_initialization_check (hq_path r) then next r s
  else if is_initialized (sv_app s) then next r s
  else let '(u1, _, _) := draws s in (Some (unavailable u1 (tc_request_id <$> hq_trace r)), s).
End middleware.

(** ** [lib.rs]: the application *)
Section app.
Context {DB B F Net : Type} `{RocksDB DB, NodeRaft DB} `{Codec Bucket} `{Codec ObjectMetadata} `{Codec LockState}
  `{Codec MultipartPart} `{Codec MultipartMetadata}
  `{FileSystem F, DirFs F, StorageBackend B F} `{Chrono, XmlWriter, Sha256, Hmac, HttpClient Net}.
Context (config : SaveConfig) (data_path : PathBuf) (join_error : DB -> option (string * DB))
  (instant : App DB B -> N) (utc : App DB B -> Z) (lock_awaits : App DB B -> nat) (uuid : App DB B -> string).
Context (method_not_allowed : Response).
Abbreviation Srv := (Server (App DB B) Net).
Context (is_leader : App DB B -> bool) (leader_http_addr : App DB B -> option string) (is_initialized : App DB B -> bool)
  (draws : Srv -> string * string * N) (header_ok : string -> bool).
(** axum's matching and extraction for the S3 routes, with its own answer when a
    query does not parse; the health and cluster routes, which come first. *)
Context (extract : HttpRequest -> result Response Request)
  (specific : HttpRequest -> option (Srv -> option Response * Srv)).

Definition respond (u : string) (x : option (result ApiError.t Response)) : option Response :=
  match x with
  | Some (Ok resp) => Some resp
  | Some (Err e) => Some (into_response u e)
  | None => None
  end.

Definition api_service : Service := fun r (s : Srv) =>
  let '(u, _, _) := draws s in
  match validate_sigv4 (utc (sv_app s)) (credentials config) (signed_part r) with
  | None => (None, s)
  | Some (Err e) => (Some (into_response u e), s)
  | Some (Ok _) =>
      match extract r with
      | Err resp => (Some resp, s)
      | Ok q =>
          let '(x, a) := api_routes config data_path join_error instant utc lock_awaits uuid method_not_allowed q (sv_app s) in
          (respond u x, set_app s a)
      end
  end.

Definition router : Service := fun r (s : Srv) =>
  match specific r with Some svc => svc s | None => api_service r s end.

Definition app : Service :=
  request_id draws header_ok (track_metrics (track_requests
    (forward_to_leader is_leader leader_http_addr (require_initialized_cluster is_initialized draws router)))).
End app.

(** ** Properties *)
Lemma lower_ascii_idem c : lower_ascii (lower_ascii c) = lower_ascii c.
Proof. destruct c as [[] [] [] [] [] [] [] []]; reflexivity. Qed.
Lemma to_lowercase_idem s : to_lowercase (to_lowercase s) = to_lowercase s.
Proof. induction s as [|c s IH]; simpl; [done|]. by rewrite lower_ascii_idem, IH. Qed.
Lemma should_forward_lower n : should_forward_header (to_lowercase n) = should_forward_header n.
Proof. unfold should_forward_header. by rewrite to_lowercase_idem. Qed.

Lemma header_get_app hs hs' n : header_get (hs ++ hs') n =
  match header_get hs n with Some v => Some v | None => header_get hs' n end.
Proof. induction hs as [|[m v] hs IH]; simpl; [done|]. by case_bool_decide. Qed.

Lemma header_get_forwarded hs n : Forall (fun kv => is_Some kv.2) hs -> should_forward_header n = true ->
  header_get (forwarded_headers hs) n = header_get hs n.
Proof.
  intros Hv Hn. unfold forwarded_headers. rewrite header_get_app. induction Hv as [|[m v] hs Hm _ IH].
  - simpl. rewrite bool_decide_eq_false_2; [done|]. intros Hx. rewrite <- should_forward_lower, <- Hx in Hn. by vm_compute in Hn.
  - destruct (decide (m = to_lowercase n)) as [->|Hne].
    + rewrite filter_cons_True by (split; [done|]; simpl; by rewrite should_forward_lower). simpl.
      by rewrite bool_decide_eq_true_2.
    + simpl. rewrite (bool_decide_eq_false_2 (m = _)) by done. rewrite <- IH.
      rewrite filter_cons. case_decide; [|done]. simpl. by rewrite bool_decide_eq_false_2.
Qed.

Lemma forwarded_marked hs extra : is_already_forwarded (forwarded_headers hs ++ extra) = true.
Proof.
  unfold is_already_forwarded, forwarded_headers. rewrite bool_decide_eq_true, !header_get_app.
  destruct (header_get (filter _ hs) _); [by eexists|]. simpl. by eexists.
Qed.

Section layers.
Context {A Net : Type} `{HttpClient Net} `{XmlWriter}.
Context (is_leader : A -> bool) (leader_http_addr : A -> option string).

(** The request as the leader receives it: what was sent, and the headers that
    the client library adds. *)
Definition received (r : HttpRequest) (d : bytes) (extra : HeaderMap) : HttpRequest :=
  mkHttpRequest (hq_method r) (hq_path r) (hq_query r) (forwarded_headers (hq_headers r) ++ extra) (slice_reader d) None.

(** A request is forwarded at most once: the node that receives it handles it
    itself, whether or not it is the leader. *)
Theorem forwarded_at_most_once (r : HttpRequest) (d : bytes) (extra : HeaderMap) (next : Service (A := A) (Net := Net)) s :
  forward_to_leader is_leader leader_http_addr next (received r d extra) s = next (received r d extra) s.
Proof.
  unfold forward_to_leader. destruct (bool_decide (_ ∈ _)); [done|]. destruct (negb _); [done|].
  cbn [hq_headers received]. by rewrite forwarded_marked.
Qed.

(** Forwarding keeps the signature: when the client signed only headers that are
    forwarded, the leader's check of the forwarded request gives the answer of
    the check of the original. *)
Theorem forwarded_signature_kept `{Sha256, Hmac} now creds r d extra :
  Forall (fun kv => is_Some kv.2) (hq_headers r) ->
  (forall n, should_forward_header n = true -> header_get (hq_headers r) n = None -> header_get extra n = None) ->
  (forall auth info, header_str (hq_headers r) "authorization" = Some auth -> parse_authorization_header auth = Ok info ->
     Forall (fun n => should_forward_header n = true) (ai_signed_headers info)) ->
  validate_sigv4 now creds (signed_part (received r d extra)) = validate_sigv4 now creds (signed_part r).
Proof.
  intros Hv Hextra Hsigned.
  assert (Hget : forall n, should_forward_header n = true ->
    header_str (forwarded_headers (hq_headers r) ++ extra) n = header_str (hq_headers r) n).
  { intros n Hn. unfold header_str. rewrite header_get_app, header_get_forwarded by done.
    destruct (header_get (hq_headers r) n) eqn:Hg; [done|]. by rewrite Hextra. }
  unfold validate_sigv4. cbn [signed_part sr_headers sr_method sr_path sr_query received hq_method hq_path hq_query hq_headers].
  rewrite !Hget by done.
  destruct (header_str (hq_headers r) "authorization") as [auth|] eqn:Ha; [|done].
  destruct (negb _); [done|]. destruct (parse_authorization_header auth) as [info|] eqn:Hp; [|done].
  specialize (Hsigned auth info eq_refl Hp).
  assert (Hmap : forall l, Forall (fun n => should_forward_header n = true) l ->
    header_map (forwarded_headers (hq_headers r) ++ extra) l = header_map (hq_headers r) l).
  { intros l. unfold header_map. generalize (∅ : gmap string string) as m.
    induction l as [|n l IH]; intros m Hl; [done|]. apply Forall_cons in Hl as [Hn Hl]. simpl. rewrite Hget by done. by apply IH. }
  unfold build_canonical_request. by rewrite Hmap.
Qed.
End layers.

Section whole.
Context {DB B F Net : Type} `{RocksDB DB, NodeRaft DB} `{Codec Bucket} `{Codec ObjectMetadata} `{Codec LockState}
  `{Codec MultipartPart} `{Codec MultipartMetadata}
  `{FileSystem F, DirFs F, StorageBackend B F} `{Chrono, XmlWriter, Sha256, HmacLaws, HttpClient Net}.
Context (config : SaveConfig) (data_path : PathBuf) (join_error : DB -> option (string * DB))
  (instant : App DB B -> N) (utc : App DB B -> Z) (lock_awaits : App DB B -> nat) (uuid : App DB B -> string).
Context (method_not_allowed : Response).
Abbreviation Srv := (Server (App DB B) Net).
Context (is_leader : App DB B -> bool) (leader_http_addr : App DB B -> option string) (is_initialized : App DB B -> bool)
  (draws : Srv -> string * string * N) (header_ok : string -> bool).
Context (extract : HttpRequest -> result Response Request)
  (specific : HttpRequest -> option (Srv -> option Response * Srv)).
Implicit Types (r : HttpRequest) (s : Srv).
Abbreviation the_app := (app config data_path join_error instant utc lock_awaits uuid method_not_allowed
  is_leader leader_http_addr is_initialized draws header_ok extract specific).
Abbreviation the_router := (router config data_path join_error instant utc lock_awaits uuid method_not_allowed
  draws extract specific).

(** The node's state after the request is what the layer below left. *)
Lemma layers_app r s x s' : the_app r s = (x, s') ->
  exists c s0 x1 s1, sv_app s0 = sv_app s /\ sv_app s' = sv_app s1 /\
    forward_to_leader is_leader leader_http_addr (require_initialized_cluster is_initialized draws the_router)
      (with_trace r c) s0 = (x1, s1).
Proof.
  unfold app, request_id. destruct (draws s) as [[u1 u2] rnd].
  set (c := trace_context_from_headers u1 u2 rnd (hq_headers r)).
  destruct (track_metrics _ _ s) as [y t] eqn:Hm. intros Hx.
  assert (Ht : sv_app s' = sv_app t) by (destruct y; by injection Hx as _ <-). rewrite Ht. clear Hx Ht.
  unfold track_metrics in Hm. destruct (track_requests _ _ s) as [y' t'] eqn:Hr.
  assert (Ht : sv_app t = sv_app t') by (destruct y'; by injection Hm as _ <-). rewrite Ht. clear Hm Ht.
  unfold track_requests in Hr. destruct (bool_decide _).
  - exists c, s, y', t'. done.
  - destruct (forward_to_leader _ _ _ _ _) as [z t1] eqn:Hf. exists c, (increment s), z, t1.
    split_and!; [done| |done]. destruct z; by injection Hr as _ <-.
Qed.

Lemma forward_keeps_app next r s x s' : forward_to_leader is_leader leader_http_addr next r s = (x, s') ->
  sv_app s' = sv_app s \/
  (next r s = (x, s') /\ (is_write_method (hq_method r) = true -> is_already_forwarded (hq_headers r) = true \/
     is_leader (sv_app s) = true \/ leader_http_addr (sv_app s) = None \/
     hq_path r ∈ ["/metrics"; "/health"; "/health/ready"; "/cluster/status"])).
Proof.
  unfold forward_to_leader. case_bool_decide as Hp; [intros Hn; right; tauto|].
  destruct (is_write_method (hq_method r)) eqn:Hw; simpl; [|intros Hn; right; done].
  destruct (is_already_forwarded (hq_headers r)) eqn:Hf; [intros Hn; right; auto|].
  destruct (is_leader (sv_app s)) eqn:Hl; [intros Hn; right; auto|].
  destruct (leader_http_addr (sv_app s)) as [addr|] eqn:Ha; [|intros Hn; right; auto 6].
  destruct (forward addr r (sv_net s)) as [[resp|e] net]; intros [= <- <-]; by left.
Qed.

(** A request that changes the node has reached the router. *)
Lemma change_reaches_router r s x s' : the_app r s = (x, s') -> sv_app s' <> sv_app s ->
  exists c s0 x1 s1, sv_app s0 = sv_app s /\ sv_app s' = sv_app s1 /\ the_router (with_trace r c) s0 = (x1, s1) /\
  (is_initialized (sv_app s) = true \/ is_exempt_from_initialization_check (hq_path r) = true) /\
  (is_write_method (hq_method r) = true -> is_already_forwarded (hq_headers r) = true \/
     is_leader (sv_app s) = true \/ leader_http_addr (sv_app s) = None \/
     hq_path r ∈ ["/metrics"; "/health"; "/health/ready"; "/cluster/status"]).
Proof.
  intros (c & s0 & x1 & s1 & Hs0 & Hs' & Hf)%layers_app Hne. rewrite Hs' in Hne. rewrite <- Hs0 in Hne |- *.
  apply forward_keeps_app in Hf as [?|[Hn Hw]]; [done|]. exists c, s0, x1, s1.
  assert (Hr : (is_initialized (sv_app s0) = true \/ is_exempt_from_initialization_check (hq_path r) = true) /\
    the_router (with_trace r c) s0 = (x1, s1)).
  { revert Hn. unfold require_initialized_cluster. cbn [with_trace hq_path].
    destruct (is_exempt_from_initialization_check (hq_path r)); [by auto|].
    destruct (is_initialized (sv_app s0)); [by auto|]. destruct (draws s0) as [[u1 u2] rnd]. by intros [= _ <-]. }
  destruct Hr as [Hi Hr]. by split_and!.
Qed.
Lemma api_service_authentic r c s x s' :
  api_service config data_path join_error instant utc lock_awaits uuid method_not_allowed draws extract (with_trace r c) s = (x, s') ->
  sv_app s' <> sv_app s ->
  exists auth info amz_date t, authentic (utc (sv_app s)) (credentials config) (signed_part r) auth info amz_date t.
Proof.
  unfold api_service. destruct (draws s) as [[u1 u2] rnd]. change (signed_part (with_trace r c)) with (signed_part r).
  destruct (validate_sigv4 (utc (sv_app s)) (credentials config) (signed_part r)) as [[[]|e]|] eqn:Hv;
    [|by intros [= _ <-]..]. intros _ _. by apply validate_sigv4_inv in Hv.
Qed.

(** Only a request that passes the signature check changes the node: whatever
    arrives on the S3 routes, the node's state is left as it is unless the
    request is authentic, the cluster is initialized (or the path is one of the
    exempt ones), and a write is handled by the leader, or by a node that knows
    of none or was chosen by another node. *)
Theorem only_authentic_requests_change r s x s' : specific r = None -> (forall c, specific (with_trace r c) = specific r) ->
  the_app r s = (x, s') -> sv_app s' <> sv_app s ->
  (exists auth info amz_date t, authentic (utc (sv_app s)) (credentials config) (signed_part r) auth info amz_date t) /\
  (is_initialized (sv_app s) = true \/ is_exempt_from_initialization_check (hq_path r) = true) /\
  (is_write_method (hq_method r) = true -> is_already_forwarded (hq_headers r) = true \/
     is_leader (sv_app s) = true \/ leader_http_addr (sv_app s) = None \/
     hq_path r ∈ ["/metrics"; "/health"; "/health/ready"; "/cluster/status"]).
Proof.
  intros Hsp Htr Hx Hne. destruct (change_reaches_router _ _ _ _ Hx Hne) as (c & s0 & x1 & s1 & Hs0 & Hs1 & Hr & Hrest).
  split; [|done]. unfold router in Hr. rewrite Htr, Hsp in Hr. rewrite <- Hs0.
  eapply api_service_authentic; [exact Hr|]. congruence.
Qed.

(** The tracker around a service that leaves the counter alone: the service sees
    one request more, and afterwards the counter is what it was. *)
Definition tracked_path (path : string) : bool := negb (bool_decide (path ∈ ["/metrics"; "/health"; "/health/ready"])).
Lemma track_requests_counts (next : Service (A := App DB B) (Net := Net)) r s resp s' : (in_flight s + 1 < 2 ^ 64)%N ->
  (forall q s0 z s1, next q s0 = (z, s1) -> in_flight s1 = in_flight s0) ->
  track_requests next r s = (Some resp, s') -> in_flight s' = in_flight s /\
  exists s0 s1, next r s0 = (Some resp, s1) /\
    in_flight s0 = (if tracked_path (hq_path r) then in_flight s + 1 else in_flight s)%N.
Proof.
  intros Hlt Hnext. unfold track_requests, tracked_path. destruct (bool_decide _); simpl.
  { intros Hn. split; [by eapply Hnext|]. by exists s, s'. }
  destruct (next r (increment s)) as [[z|] t] eqn:Hf; [|done]. intros [= <- <-]. pose proof (Hnext _ _ _ _ Hf) as Hi.
  assert (Hinc : in_flight (increment s) = (in_flight s + 1)%N) by (apply N.mod_small; done).
  split; [|by exists (increment s), t]. unfold decrement, wrapN. cbn [in_flight set_in_flight]. rewrite Hi, Hinc.
  replace (in_flight s + 1 + 2 ^ 64 - 1)%N with (in_flight s + 1 * 2 ^ 64)%N by lia.
  rewrite N.Div0.mod_add. apply N.mod_small. lia.
Qed.
Lemma layers_counted r s resp s' : (in_flight s + 1 < 2 ^ 64)%N ->
  (forall q svc s1 y s2, specific q = Some svc -> svc s1 = (y, s2) -> in_flight s2 = in_flight s1) ->
  the_app r s = (Some resp, s') -> in_flight s' = in_flight s /\
  exists c s0 x1 s1,
    forward_to_leader is_leader leader_http_addr (require_initialized_cluster is_initialized draws the_router)
      (with_trace r c) s0 = (Some x1, s1) /\
    in_flight s0 = (if tracked_path (hq_path r) then in_flight s + 1 else in_flight s)%N.
Proof.
  intros Hlt Hsp. unfold app, request_id. destruct (draws s) as [[u1 u2] rnd].
  set (c := trace_context_from_headers u1 u2 rnd (hq_headers r)).
  destruct (track_metrics _ _ s) as [[y|] t] eqn:Hm; [|done]. intros [= _ <-].
  unfold track_metrics in Hm. destruct (track_requests _ _ s) as [[y'|] t'] eqn:Hr; [|done].
  injection Hm as _ <-. cbn [in_flight count_request].
  apply track_requests_counts in Hr as (Hc & s0 & s1 & Hn & Hfl); [by eauto 8|done|]. clear -Hsp.
  intros q s0 z s1. unfold forward_to_leader.
  assert (Hnx : forall z s1, require_initialized_cluster is_initialized draws the_router q s0 = (z, s1) ->
    in_flight s1 = in_flight s0).
  { intros z' s1'. unfold require_initialized_cluster, router, api_service.
    destruct (draws s0) as [[v1 v2] rnd']. repeat case_match; intros Heq; simplify_eq/=; try done; by eapply Hsp. }
  repeat case_match; intros Heq; simplify_eq/=; try done; by eapply Hnx.
Qed.
End whole.
