(* ===== verification/Cluster.v ===== *)
(** * save-storage: the cluster's state and its manager

    Models [crates/save-storage/src/cluster/state.rs] and [manager.rs].  Instants
    are nanoseconds of the monotonic clock; two readings with no await between
    them are equal.  The manager's world is its [ClusterState], the coordinator
    it shares with the storage backend (the state of [Coordinator]), the events
    sent so far and whether the heartbeat task runs.  The operations are given as
    they run alone; [wstep] has what each does under the state's lock as a step, so
    that the theorems hold for all interleavings.  The code sends most events after
    it has released the lock, where those of two calls may overtake each other; no
    theorem speaks of their order. *)
From Stdlib Require Import Strings.Byte Floats.SpecFloat.
From S2P Require Import Prelude Common Config Retry Kv Peers Fs ObjectStorage ReplicationService ReplicationClient Coordinator Backends.
From stdpp Require Import base gmap strings numbers list fin_maps.

(** ** [state.rs] *)
Inductive NodeHealth : Type := Healthy | Degraded | Unreachable | Unknown.
#[export] Instance NodeHealth_eq_dec : EqDecision NodeHealth.
Proof. solve_decision. Defined.

Inductive PartitionStatus : Type := Connected | PossibleMinority | Minority | UnknownPartition.
#[export] Instance PartitionStatus_eq_dec : EqDecision PartitionStatus.
Proof. solve_decision. Defined.

Definition is_available (h : NodeHealth) : bool :=
  match h with Healthy | Degraded => true | Unreachable | Unknown => false end.

Record NodeState : Type := mkNodeState {
  ns_node_id : N; address : string; health : NodeHealth; last_seen : option N; last_check : option N;
  consecutive_failures : N; latency_ms : option N }.

Definition NodeState_new (node_id : N) (address : string) : NodeState :=
  mkNodeState node_id address Unknown None None 0 None.

Definition mark_healthy (now latency : N) (n : NodeState) : NodeState :=
  mkNodeState (ns_node_id n) (address n) Healthy (Some now) (Some now) 0 (Some latency).
Definition mark_degraded (now latency : N) (n : NodeState) : NodeState :=
  mkNodeState (ns_node_id n) (address n) Degraded (Some now) (Some now) 0 (Some latency).
(** The counter is a [u32] and wraps. *)
Definition mark_unreachable (now : N) (n : NodeState) : NodeState :=
  mkNodeState (ns_node_id n) (address n) Unreachable (last_seen n) (Some now)
    (wrapN 32 (consecutive_failures n + 1)) None.

Record ClusterState : Type := mkClusterState {
  cl_local_node_id : N; nodes : gmap N NodeState; leader_id : option N; has_quorum : bool;
  partition_status : PartitionStatus; last_updated : N }.

Definition ClusterState_new (now id : N) : ClusterState :=
  mkClusterState id ∅ None false UnknownPartition now.

(** [self.nodes.values()], for a count that does not depend on the order. *)
Definition count_nodes (p : NodeState -> bool) (s : ClusterState) : nat :=
  length (filter (fun n => p n = true) (map_to_list (nodes s)).*2).

Definition available_node_count (s : ClusterState) : nat :=
  count_nodes (fun n => is_available (health n)) s.
Definition total_node_count (s : ClusterState) : nat := size (nodes s) + 1.
Definition check_quorum (s : ClusterState) : bool :=
  let total := total_node_count s in
  let available := available_node_count s + 1 in
  total / 2 <? available.

Section lists.
Context (hash_order : list N -> list N).
(** The table's entries in its own order. *)
Definition entries (s : ClusterState) : list (N * NodeState) :=
  omap (fun i => (fun n => (i, n)) <$> nodes s !! i) (hash_order (map_to_list (nodes s)).*1).
Definition ids_where (p : NodeHealth -> bool) (s : ClusterState) : list N :=
  (fun e => ns_node_id e.2) <$> filter (fun e => p (health e.2) = true) (entries s).
Definition healthy_nodes : ClusterState -> list N := ids_where (fun h => bool_decide (h = Healthy)).
Definition available_nodes : ClusterState -> list N := ids_where is_available.
Definition unreachable_nodes : ClusterState -> list N := ids_where (fun h => bool_decide (h = Unreachable)).
End lists.

Definition detect_partition (s : ClusterState) : PartitionStatus :=
  let total := total_node_count s in
  let unreachable := count_nodes (fun n => negb (is_available (health n))) s in
  if unreachable =? 0 then Connected
  else if check_quorum s then Connected
  else if 1 <? total then Minority else UnknownPartition.

(** [Instant::duration_since] saturates at zero. *)
Definition is_possibly_partitioned (now stale_threshold : N) (s : ClusterState) : bool :=
  existsb (fun n => bool_decide (health n = Unreachable) &&
    match last_seen n with Some t => (stale_threshold <? now - t)%N | None => false end)
    (map_to_list (nodes s)).*2.

Definition should_accept_writes (s : ClusterState) : bool :=
  has_quorum s && negb (bool_decide (partition_status s = Minority)).
Definition is_leader (s : ClusterState) : bool := bool_decide (leader_id s = Some (cl_local_node_id s)).

(** The fields the manager assigns. *)
Definition set_nodes (m : gmap N NodeState) (s : ClusterState) : ClusterState :=
  mkClusterState (cl_local_node_id s) m (leader_id s) (has_quorum s) (partition_status s) (last_updated s).
Definition update_quorum (now : N) (s : ClusterState) : ClusterState :=
  mkClusterState (cl_local_node_id s) (nodes s) (leader_id s) (check_quorum s) (partition_status s) now.
Definition update_partition (s : ClusterState) : ClusterState :=
  mkClusterState (cl_local_node_id s) (nodes s) (leader_id s) (has_quorum s) (detect_partition s)
    (last_updated s).

(** ** [manager.rs] *)
Record ClusterManagerConfig : Type := mkManagerConfig {
  heartbeat_interval : N; health_check_timeout : N; failure_threshold : N;
  degraded_latency_threshold_ms : N; cm_connect_timeout : N; cm_rpc_timeout : N }.
Definition ClusterManagerConfig_default : ClusterManagerConfig :=
  mkManagerConfig (5 * 1000000000) (2 * 1000000000) 3 500 (5 * 1000000000) (30 * 1000000000).

Record ClusterTopology : Type := mkTopology {
  tp_local_node_id : N; total_nodes : nat; tp_healthy_nodes : nat; degraded_nodes : nat;
  tp_unreachable_nodes : nat; tp_has_quorum : bool; tp_partition_status : PartitionStatus;
  tp_leader_id : option N }.

Inductive ClusterEvent : Type :=
| NodeHealthChanged (node_id : N) (h : NodeHealth)
| LeaderChanged (new_leader : option N)
| QuorumChanged (q : bool)
| PartitionChanged (status : PartitionStatus)
| NodeAdded (node_id : N)
| NodeRemoved (node_id : N).

(** What a health check gives: an answer, an error or a timeout. *)
Inductive CheckResult : Type := Answered (healthy : bool) | Failed | TimedOut.

Definition mark_latency (cfg : ClusterManagerConfig) (now latency : N) : NodeState -> NodeState :=
  if (degraded_latency_threshold_ms cfg <? latency)%N then mark_degraded now latency
  else mark_healthy now latency.

(** [if old != new { let _ = event_tx.send(event); }]. *)
Definition when_changed {A} `{EqDecision A} (old new : A) (e : ClusterEvent) : list ClusterEvent :=
  if bool_decide (old <> new) then [e] else [].

Section state_ops.
Context (cfg : ClusterManagerConfig).

(** The part of [add_node] under the state's lock: the node's first check has
    given a latency or nothing. *)
Definition node_added (now : N) (n : N) (addr : string) (checked : option N) (s : ClusterState)
  : ClusterState * list ClusterEvent :=
  let node0 := NodeState_new n addr in
  let node := match checked with
              | Some latency => mark_latency cfg now latency node0
              | None => mark_unreachable now node0 end in
  let s' := update_quorum now (set_nodes (<[n := node]> (nodes s)) s) in
  (s', [NodeAdded n; NodeHealthChanged n (health node)] ++
       when_changed (has_quorum s) (has_quorum s') (QuorumChanged (has_quorum s'))).

Definition node_removed (now : N) (n : N) (s : ClusterState) : ClusterState * list ClusterEvent :=
  let s' := update_partition (update_quorum now (set_nodes (delete n (nodes s)) s)) in
  (s', NodeRemoved n :: when_changed (has_quorum s) (has_quorum s') (QuorumChanged (has_quorum s'))).

Definition leader_updated (now : N) (l : option N) (s : ClusterState) : ClusterState * list ClusterEvent :=
  if bool_decide (leader_id s <> l) then
    (mkClusterState (cl_local_node_id s) (nodes s) l (has_quorum s) (partition_status s) now,
     [LeaderChanged l])
  else (s, []).

(** The peers that could not be added, and the quorum at the end of
    [discover_peers]. *)
Definition peer_unknown (n : N) (addr : string) (s : ClusterState) : ClusterState :=
  set_nodes (<[n := NodeState_new n addr]> (nodes s)) s.
Definition peers_discovered (now : N) (s : ClusterState) : ClusterState * list ClusterEvent :=
  let s' := update_quorum now s in
  (s', when_changed (has_quorum s) (has_quorum s') (QuorumChanged (has_quorum s'))).

(** The body of the heartbeat loop under the lock; the third component tells
    that the task goes on to reconnect ([continue] before the update). *)
Definition heartbeat_update (now : N) (n : N) (res : CheckResult) (latency : N) (s : ClusterState)
  : ClusterState * list ClusterEvent * bool :=
  match nodes s !! n with
  | None => (s, [], false)
  | Some node =>
      let node' := match res with
                   | Answered true => mark_latency cfg now latency node
                   | Answered false => mark_degraded now latency node
                   | Failed | TimedOut => mark_unreachable now node
                   end in
      let s1 := set_nodes (<[n := node']> (nodes s)) s in
      if match res with
         | Failed => (failure_threshold cfg <=? consecutive_failures node')%N
         | _ => false end
      then (s1, [], true)
      else
        let s2 := update_partition (update_quorum now s1) in
        (s2, when_changed (health node) (health node') (NodeHealthChanged n (health node')) ++
             when_changed (has_quorum s) (has_quorum s2) (QuorumChanged (has_quorum s2)) ++
             when_changed (partition_status s) (partition_status s2)
               (PartitionChanged (partition_status s2)), false)
  end.
End state_ops.

Definition can_remove_node (n : N) (s : ClusterState) : bool :=
  match nodes s !! n with
  | None => true
  | Some node =>
      if negb (is_available (health node)) then true
      else
        let total_after := total_node_count s - 1 in
        let available_after := available_node_count s - 1 + 1 in
        total_after / 2 <? available_after
  end.

Definition topology (hash_order : list N -> list N) (s : ClusterState) : ClusterTopology :=
  mkTopology (cl_local_node_id s) (total_node_count s) (length (healthy_nodes hash_order s) + 1)
    (count_nodes (fun n => bool_decide (health n = Degraded)) s) (length (unreachable_nodes hash_order s))
    (has_quorum s) (partition_status s) (leader_id s).

Definition validate_config (replication_factor : nat) : result StorageError.t unit :=
  let quorum := replication_factor / 2 + 1 in
  if quorum <? 1 then Err (io_err "Invalid replication factor: quorum must be at least 1") else Ok tt.

Section manager.
Context {F Net Ch : Type} `{FileSystem F, Sha256, ReplTransport Net Ch}
  (sample : spec_float -> spec_float -> spec_float)
  (elapsed : N -> ReplicationClient Ch * Net -> option (ReplicationClient Ch * Net))
  (hash_order : list N -> list N) (read_file : string -> result io_error bytes).
Abbreviation St := (Coordinator.St (F := F) (Net := Net) (Ch := Ch)).
(** The clock, and a timeout around the coordinator's health check of a node
    that fires, with what has been done by then. *)
Context (clock : St -> N) (check_elapsed : N -> N -> St -> option St).

Record World : Type := mkWorld {
  manager_node_id : N; mconfig : ClusterManagerConfig; cstate : ClusterState; shared : St;
  events : list ClusterEvent; heartbeat_running : bool }.
Abbreviation Op := (PM World StorageError.t).

Definition manager_with_coordinator (id : N) (cfg : ClusterManagerConfig) (s : St) : World :=
  mkWorld id cfg (ClusterState_new (clock s) id) s [] false.
Definition manager_new (id : N) (q : QuorumConfig) (cfg : ClusterManagerConfig) (n : Net) (f : F) : World :=
  manager_with_coordinator id cfg
    (mkSt (coordinator_with_timeouts id q (cm_connect_timeout cfg) (cm_rpc_timeout cfg)) n f []).

Definition set_shared (w : World) (s : St) : World :=
  mkWorld (manager_node_id w) (mconfig w) (cstate w) s (events w) (heartbeat_running w).
(** A step on the state under its lock, with the events it sends. *)
Definition locked (step : N -> ClusterState -> ClusterState * list ClusterEvent) (w : World) : World :=
  let '(s, es) := step (clock (shared w)) (cstate w) in
  mkWorld (manager_node_id w) (mconfig w) s (shared w) (events w ++ es) (heartbeat_running w).

Definition on_coordinator {A} (c : PM St StorageError.t A) : Op A := fun w =>
  let '(r, s) := c (shared w) in (r, set_shared w s).

(** [timeout(t, coordinator.health_check(n)).await] with the latency in
    milliseconds. *)
Definition timed_check (n : N) : Op (CheckResult * N) := fun w =>
  let start := clock (shared w) in
  let ms (s : St) := wrapN 64 ((clock s - start) / 1000000) in
  match check_elapsed (health_check_timeout (mconfig w)) n (shared w) with
  | Some s => (Some (Ok (TimedOut, ms s)), set_shared w s)
  | None =>
      match health_check sample elapsed n (shared w) with
      | (Some (Ok b), s) => (Some (Ok (Answered b, ms s)), set_shared w s)
      | (Some (Err _), s) => (Some (Ok (Failed, ms s)), set_shared w s)
      | (None, s) => (None, set_shared w s)
      end
  end.

Definition check_node_health (n : N) : Op (option N) :=
  '(res, latency) ← timed_check n;
  mret (match res with Answered true => Some latency | _ => None end).

Definition apply_locked (step : N -> ClusterState -> ClusterState * list ClusterEvent) : Op unit :=
  fun w => (Some (Ok tt), locked step w).

Definition add_node (n : N) (addr : string) : Op unit := fun w =>
  if (n =? manager_node_id w)%N then (Some (Err (io_err "Cannot add self as peer")), w)
  else
    (on_coordinator (safe (Coordinator.add_node read_file n addr)) ;;
     checked ← check_node_health n;
     apply_locked (fun now => node_added (mconfig w) now n addr checked)) w.

Definition remove_node (n : N) : Op unit := fun w =>
  (Some (Ok tt),
   locked (fun now => node_removed now n) (set_shared w (Coordinator.remove_node n (shared w)))).

(** The loop over the peers: a peer that cannot be added is kept as unknown. *)
Fixpoint discover_loop (peers : list PeerInfo.t) : Op unit :=
  match peers with
  | [] => mret tt
  | p :: rest => fun w =>
      if (PeerInfo.node_id p =? manager_node_id w)%N then discover_loop rest w
      else
        match add_node (PeerInfo.node_id p) (PeerInfo.http_addr p) w with
        | (Some (Ok _), w') => discover_loop rest w'
        | (Some (Err _), w') =>
            discover_loop rest
              (locked (fun _ s => (peer_unknown (PeerInfo.node_id p) (PeerInfo.http_addr p) s, [])) w')
        | (None, w') => (None, w')
        end
  end.

Definition discover_peers (peer_strings : list string) : Op unit :=
  match peer_strings with
  | [] => mret tt
  | _ =>
      match parse_peers peer_strings with
      | Err e => fun w => (Some (Err (io_err ("Failed to parse peers: " +:+ Error.to_string e))), w)
      | Ok peers => discover_loop peers ;; apply_locked peers_discovered
      end
  end.

Definition update_leader (l : option N) : World -> World := locked (fun now => leader_updated now l).
Definition can_write (w : World) : bool := should_accept_writes (cstate w).
Definition is_in_minority_partition (w : World) : bool :=
  bool_decide (partition_status (cstate w) = Minority).

Definition start_heartbeat (w : World) : World :=
  mkWorld (manager_node_id w) (mconfig w) (cstate w) (shared w) (events w) true.
Definition stop_heartbeat (w : World) : World :=
  mkWorld (manager_node_id w) (mconfig w) (cstate w) (shared w) (events w) false.

(** What a heartbeat does with the result of a check: the update under the
    lock, and the reconnection, whose error is only logged. *)
Definition heartbeat_settle (n : N) (addr : string) (checked : CheckResult * N) : Op unit := fun w =>
  let '(s, es, reconnect) :=
    heartbeat_update (mconfig w) (clock (shared w)) n checked.1 checked.2 (cstate w) in
  let w' := mkWorld (manager_node_id w) (mconfig w) s (shared w) (events w ++ es) (heartbeat_running w) in
  if reconnect : bool then
    (Some (Ok tt), set_shared w' (Coordinator.add_node read_file n addr (shared w')).2)
  else (Some (Ok tt), w').

(** One node of a heartbeat round. *)
Definition heartbeat_node (entry : N * string) : Op unit :=
  checked ← timed_check entry.1;
  heartbeat_settle entry.1 entry.2 checked.

Fixpoint heartbeat_nodes (l : list (N * string)) : Op unit :=
  match l with [] => mret tt | e :: l' => heartbeat_node e ;; heartbeat_nodes l' end.

(** One turn of the heartbeat loop. *)
Definition heartbeat_round : Op unit := fun w =>
  heartbeat_nodes ((fun e => (e.1, address e.2)) <$> entries hash_order (cstate w)) w.
End manager.

(** ** Counting *)
Definition up_nodes (m : gmap N NodeState) : gmap N NodeState :=
  filter (fun kv => is_available (health kv.2) = true) m.

Lemma count_nodes_size p s :
  count_nodes p s = size (filter (fun kv : N * NodeState => p kv.2 = true) (nodes s)).
Proof.
  unfold count_nodes. generalize (nodes s). intros m. induction m as [|i n m Hi IH] using map_ind.
  { by rewrite map_to_list_empty, map_filter_empty, map_size_empty. }
  rewrite map_to_list_insert by done. csimpl. destruct (decide (p n = true)) as [Hp|Hp].
  - rewrite filter_cons_True, map_filter_insert_True by done.
    rewrite map_size_insert_None by (apply map_lookup_filter_None; by left). simpl. by rewrite IH.
  - rewrite filter_cons_False, map_filter_insert_False, delete_id by done. done.
Qed.

Lemma available_size s : available_node_count s = size (up_nodes (nodes s)).
Proof. apply count_nodes_size. Qed.

(** The nodes that are not available are the rest. *)
Lemma down_count s :
  available_node_count s + count_nodes (fun n => negb (is_available (health n))) s = size (nodes s).
Proof.
  unfold available_node_count, count_nodes. generalize (nodes s). intros m.
  induction m as [|i n m Hi IH] using map_ind; [by rewrite map_to_list_empty|].
  rewrite map_size_insert_None, map_to_list_insert by done. rewrite fmap_cons, !filter_cons. simpl.
  destruct (is_available (health n)); simpl; lia.
Qed.

Lemma div2_majority a b : b / 2 < a <-> b < 2 * a.
Proof.
  pose proof (Nat.div_mod b 2 ltac:(lia)). pose proof (Nat.mod_upper_bound b 2 ltac:(lia)). lia.
Qed.

(** [check_quorum] is a strict majority of the members. *)
Lemma check_quorum_majority s :
  check_quorum s = true <-> size (nodes s) + 1 < 2 * (size (up_nodes (nodes s)) + 1).
Proof.
  unfold check_quorum, total_node_count. rewrite Nat.ltb_lt, available_size. apply div2_majority.
Qed.

(** The state of a partition is exactly whether the node sees a majority: the
    two other values of the type are never computed. *)
Lemma detect_partition_spec s : detect_partition s = if check_quorum s then Connected else Minority.
Proof.
  unfold detect_partition. pose proof (down_count s) as Hd.
  destruct (Nat.eqb_spec (count_nodes (fun n => negb (is_available (health n))) s) 0) as [H0|H0].
  - rewrite (proj2 (check_quorum_majority s)); [done|]. rewrite <- available_size. lia.
  - destruct (check_quorum s); [done|]. unfold total_node_count.
    rewrite (proj2 (Nat.ltb_lt _ _)) by lia. done.
Qed.

Lemma up_nodes_same m i n n' : m !! i = Some n -> is_available (health n') = is_available (health n) ->
  size (up_nodes (<[i := n']> m)) = size (up_nodes m).
Proof.
  intros Hi Hh. unfold up_nodes. destruct (is_available (health n)) eqn:Hn.
  - rewrite map_filter_insert_True by (simpl; by rewrite Hh). apply map_size_insert_Some.
    exists n. apply map_lookup_filter_Some. done.
  - rewrite map_filter_insert_False by (simpl; by rewrite Hh). f_equal. apply map_filter_delete_not.
    intros x Hx. simpl. rewrite Hi in Hx. injection Hx as <-. by rewrite Hn.
Qed.

Lemma check_quorum_same s i n n' : nodes s !! i = Some n ->
  is_available (health n') = is_available (health n) ->
  check_quorum (set_nodes (<[i := n']> (nodes s)) s) = check_quorum s.
Proof.
  intros Hi Hh. unfold check_quorum, total_node_count. rewrite !available_size. simpl.
  rewrite (up_nodes_same _ _ _ _ Hi Hh), map_size_insert_Some by eauto. done.
Qed.

(** ** The table of members *)
Record node_wf (n : NodeState) : Prop := {
  nw_failures : consecutive_failures n <> 0%N -> health n = Unreachable;
  nw_latency : is_Some (latency_ms n) <-> is_available (health n) = true;
  nw_seen : is_available (health n) = true -> is_Some (last_seen n) }.

Lemma node_wf_new i a : node_wf (NodeState_new i a).
Proof. split; simpl; [done| |done]. split; [by intros [? ?]|done]. Qed.
Lemma node_wf_healthy t l n : node_wf (mark_healthy t l n).
Proof. split; simpl; [done|split; eauto|eauto]. Qed.
Lemma node_wf_degraded t l n : node_wf (mark_degraded t l n).
Proof. split; simpl; [done|split; eauto|eauto]. Qed.
Lemma node_wf_latency cfg t l n : node_wf (mark_latency cfg t l n).
Proof. unfold mark_latency. destruct (_ <? _)%N; [apply node_wf_degraded|apply node_wf_healthy]. Qed.
Lemma node_wf_unreachable t n : node_wf (mark_unreachable t n).
Proof. split; simpl; [done| |done]. split; [by intros [? ?]|done]. Qed.
#[local] Hint Resolve node_wf_new node_wf_latency node_wf_degraded node_wf_unreachable : core.

Lemma mark_latency_id cfg t l n : ns_node_id (mark_latency cfg t l n) = ns_node_id n.
Proof. unfold mark_latency. by destruct (_ <? _)%N. Qed.
Lemma mark_latency_up cfg t l n : is_available (health (mark_latency cfg t l n)) = true.
Proof. unfold mark_latency. by destruct (_ <? _)%N. Qed.

Definition table_wf (s : ClusterState) : Prop :=
  forall i n, nodes s !! i = Some n -> ns_node_id n = i /\ i <> cl_local_node_id s /\ node_wf n.

(** [has_quorum] is what the table says, or nothing has been recorded yet. *)
Definition quorum_current (s : ClusterState) : Prop :=
  has_quorum s = check_quorum s \/ (nodes s = ∅ /\ has_quorum s = false).

Record cluster_inv (s : ClusterState) : Prop := {
  ci_table : table_wf s;
  ci_quorum : quorum_current s }.

Lemma table_insert i n s : table_wf s -> ns_node_id n = i -> i <> cl_local_node_id s -> node_wf n ->
  table_wf (set_nodes (<[i := n]> (nodes s)) s).
Proof.
  intros Hs Hid Hl Hn j m. simpl. intros [[<- <-]|[Hne Hj]]%lookup_insert_Some; [done|by apply Hs].
Qed.

Lemma inv_new t i : cluster_inv (ClusterState_new t i).
Proof. split; [intros j n; simpl; by rewrite lookup_empty|by right]. Qed.

Lemma inv_node_added cfg t i a c s : i <> cl_local_node_id s -> table_wf s ->
  cluster_inv (node_added cfg t i a c s).1.
Proof.
  intros Hi Ht. split; [|by left]. simpl. apply (table_insert i _ s); [done| |done|].
  - destruct c; [by rewrite mark_latency_id|done].
  - destruct c; auto.
Qed.

Lemma inv_node_removed t i s : table_wf s -> cluster_inv (node_removed t i s).1.
Proof.
  intros Ht. split; [|by left]. intros j n. simpl. intros [_ Hj]%lookup_delete_Some. by apply Ht.
Qed.

(** The reconnection is tried on a node that was unreachable before, so it
    leaves the number of available nodes as it was. *)
Lemma reconnect_was_down cfg t n : node_wf n -> (2 <= failure_threshold cfg)%N ->
  (failure_threshold cfg <= consecutive_failures (mark_unreachable t n))%N -> health n = Unreachable.
Proof.
  intros Hn H2 Hle. apply (nw_failures _ Hn). intros H0. simpl in Hle. rewrite H0 in Hle. change (wrapN 32 (0 + 1)) with 1%N in Hle. lia.
Qed.

Definition synced (s : ClusterState) : Prop :=
  has_quorum s = check_quorum s /\ partition_status s = detect_partition s.

(** What a heartbeat does to the table, and to the rest. *)
Lemma heartbeat_update_spec cfg t i res l s s' es b :
  (2 <= failure_threshold cfg)%N -> table_wf s ->
  heartbeat_update cfg t i res l s = (s', es, b) ->
  cl_local_node_id s' = cl_local_node_id s /\ table_wf s' /\ (quorum_current s -> quorum_current s') /\
  (synced s -> synced s') /\
  (b = false -> is_Some (nodes s !! i) -> synced s') /\
  dom (nodes s') = dom (nodes s) /\
  (forall j, j <> i -> nodes s' !! j = nodes s !! j) /\
  (forall n', nodes s' !! i = Some n' ->
     is_available (health n') = match res with Answered _ => true | _ => false end) /\
  (b = true -> res = Failed).
Proof.
  intros H2 Ht. unfold heartbeat_update. destruct (nodes s !! i) as [n|] eqn:Hi.
  2: { intros [= <- <- <-]. split_and!; try (intros; congruence); done. }
  destruct (Ht i n Hi) as (Hid & Hl & Hn).
  set (n' := match res with
             | Answered true => mark_latency cfg t l n
             | Answered false => mark_degraded t l n
             | _ => mark_unreachable t n end).
  assert (Hn' : ns_node_id n' = i /\ node_wf n' /\
    is_available (health n') = match res with Answered _ => true | _ => false end).
  { unfold n'. destruct res as [[]| |]; split_and!; rewrite ?mark_latency_id, ?mark_latency_up; auto. }
  destruct Hn' as (Hid' & Hwf' & Hup').
  set (s1 := set_nodes (<[i := n']> (nodes s)) s).
  assert (Ht1 : table_wf s1) by by apply table_insert.
  assert (Hdom : dom (nodes s1) = dom (nodes s)).
  { simpl. rewrite dom_insert_L. assert (i ∈ dom (nodes s)) by (apply elem_of_dom; eauto). set_solver. }
  assert (Hothers : forall j, j <> i -> nodes s1 !! j = nodes s !! j)
    by (intros j Hj; simpl; by rewrite lookup_insert_ne).
  assert (Hself : forall m, nodes s1 !! i = Some m ->
    is_available (health m) = match res with Answered _ => true | _ => false end)
    by (intros m; simpl; rewrite lookup_insert_eq; by intros [= <-]).
  destruct (match res with Failed => (failure_threshold cfg <=? _)%N | _ => _ end) eqn:Hb;
    intros [= <- <- <-].
  - assert (res = Failed) as -> by by destruct res as [[]| |].
    apply N.leb_le in Hb. pose proof (reconnect_was_down _ _ _ Hn H2 Hb) as Hun.
    assert (Hsame : check_quorum s1 = check_quorum s)
      by (apply (check_quorum_same _ _ n); [done|simpl; by rewrite Hun]).
    assert (Hsync : synced s -> synced s1).
    { unfold synced. rewrite !detect_partition_spec, Hsame. done. }
    assert (Hcur : quorum_current s -> quorum_current s1).
    { intros Hq. left. rewrite Hsame. destruct Hq as [Hq|[He _]]; [done|]. by rewrite He, lookup_empty in Hi. }
    split_and!; done.
  - split_and!; try done; by left.
Qed.

Lemma disjoint_size (A B M : gset N) : A ⊆ M -> B ⊆ M -> A ## B -> size A + size B <= size M.
Proof. intros HA HB Hd. rewrite <- size_union by done. apply subseteq_size. set_solver. Qed.

(** ** Reachable managers

    The manager's methods and its heartbeat run at the same time; the state's lock
    orders their accesses.  A step is what is done under the lock, so the steps of
    several calls interleave freely: the check of a heartbeat, whose result may be
    old, the peers of [discover_peers] one by one.  The number next to the manager
    counts the runs of [discover_peers] that have not yet updated the quorum.  The
    coordinator is shared, so anything may happen to it between two steps. *)
Section reachable.
Context {F Net Ch : Type} `{FileSystem F, Sha256, ReplTransport Net Ch}
  (sample : spec_float -> spec_float -> spec_float)
  (elapsed : N -> ReplicationClient Ch * Net -> option (ReplicationClient Ch * Net))
  (hash_order : list N -> list N) (read_file : string -> result io_error bytes).
Abbreviation St := (Coordinator.St (F := F) (Net := Net) (Ch := Ch)).
Context (clock : St -> N) (check_elapsed : N -> N -> St -> option St).
Abbreviation World := (World (F := F) (Net := Net) (Ch := Ch)).
Implicit Types w : World.

Definition heartbeat_locked (n : N) (res : CheckResult) (latency : N) w : World :=
  let '(s, es, _) := heartbeat_update (mconfig w) (clock (shared w)) n res latency (cstate w) in
  mkWorld (manager_node_id w) (mconfig w) s (shared w) (events w ++ es) (heartbeat_running w).

Inductive wstep : World * nat -> World * nat -> Prop :=
| w_added n a c w d : n <> manager_node_id w ->
    wstep (w, d) (locked clock (fun now => node_added (mconfig w) now n a c) w, d)
| w_removed n w d : wstep (w, d) (locked clock (fun now => node_removed now n) w, d)
| w_discover w d : wstep (w, d) (w, S d)
| w_unknown n a w d : n <> manager_node_id w ->
    wstep (w, S d) (locked clock (fun _ s => (peer_unknown n a s, [])) w, S d)
| w_discovered w d : wstep (w, S d) (locked clock peers_discovered w, d)
| w_leader l w d : wstep (w, d) (update_leader clock l w, d)
| w_heartbeat n res latency w d : wstep (w, d) (heartbeat_locked n res latency w, d)
| w_shared s w d : wstep (w, d) (set_shared w s, d).

(** The manager's invariant, with [P] of its state. *)
Record world_inv (P : ClusterState -> Prop) w : Prop := {
  wi_local : cl_local_node_id (cstate w) = manager_node_id w;
  wi_state : P (cstate w) }.
Record run_inv (wd : World * nat) : Prop := {
  ri_table : world_inv table_wf wd.1;
  ri_quorum : wd.2 = 0 -> quorum_current (cstate wd.1) }.

Lemma leader_updated_keeps t l s : let s' := (leader_updated t l s).1 in
  cl_local_node_id s' = cl_local_node_id s /\ nodes s' = nodes s /\ has_quorum s' = has_quorum s.
Proof. unfold leader_updated. by case_bool_decide. Qed.

Lemma locked_inv (Q : Prop) (step : N -> ClusterState -> ClusterState * list ClusterEvent) w d :
  (forall t, cl_local_node_id (step t (cstate w)).1 = cl_local_node_id (cstate w)) ->
  (forall t, table_wf (cstate w) -> cl_local_node_id (cstate w) = manager_node_id w -> table_wf (step t (cstate w)).1) ->
  (forall t, d = 0 -> Q -> quorum_current (step t (cstate w)).1) ->
  world_inv table_wf w -> Q ->
  run_inv (locked clock step w, d) /\ mconfig (locked clock step w) = mconfig w.
Proof.
  intros Hl Ht Hq [Hlw Hw] HQ. unfold locked.
  specialize (Hl (clock (shared w))). specialize (Ht (clock (shared w)) Hw Hlw). specialize (Hq (clock (shared w))).
  destruct (step (clock (shared w)) (cstate w)) as [s es]. simpl in *. split; [|done].
  split; simpl; [split; simpl; [congruence|done]|]. auto.
Qed.

Lemma wstep_inv wd wd' : wstep wd wd' -> (2 <= failure_threshold (mconfig wd.1))%N -> run_inv wd ->
  run_inv wd' /\ mconfig wd'.1 = mconfig wd.1.
Proof.
  intros Hstep H2 [Hw Hq]. destruct Hstep as [n a c w d Hn|n w d|w d|n a w d Hn|w d|l w d|n res latency w d|s w d]; simpl in *.
  - apply (locked_inv True); [done| |by left|done..]. intros t Ht Hl. apply inv_node_added; [by rewrite Hl|done].
  - apply (locked_inv True); [done| |by left|done..]. intros t Ht _. apply inv_node_removed. done.
  - done.
  - apply (locked_inv True); [done| |done..]. intros _ Ht Hl. apply table_insert; [done|done|by rewrite Hl|auto].
  - by apply (locked_inv True); [| |by left|..].
  - apply (locked_inv (d = 0 -> quorum_current (cstate w))); [..|done|done]; intros t; pose proof (leader_updated_keeps t l (cstate w)) as (Hl & Hn & Hh).
    + done.
    + intros Ht _ i m. rewrite Hn, Hl. apply Ht.
    + intros Hd Hcur. unfold quorum_current, check_quorum, total_node_count, available_node_count, count_nodes.
      rewrite Hn, Hh. by apply Hcur.
  - unfold heartbeat_locked. destruct Hw as [Hl Ht]. destruct (heartbeat_update _ _ _ _ _ _) as [[s es] b] eqn:Hu.
    apply heartbeat_update_spec in Hu as (Hl' & Ht' & Hq' & _); [|done..]. split; [|done].
    split; simpl; [split; simpl; [congruence|done]|auto].
  - split; [|done]. split; simpl; [by destruct Hw|done].
Qed.

Lemma reachable_run id cfg s wd : (2 <= failure_threshold cfg)%N ->
  rtc wstep (manager_with_coordinator clock id cfg s, 0) wd -> run_inv wd /\ mconfig wd.1 = cfg.
Proof.
  intros H2 Hr. remember (manager_with_coordinator clock id cfg s, 0) as w0 eqn:Hw0.
  assert (Hi : run_inv w0 /\ mconfig w0.1 = cfg).
  { subst w0. split; [|done]. destruct (inv_new (clock s) id). split; [by split|done]. }
  clear Hw0. induction Hr as [w|w w1 w2 Hs _ IH]; [done|]. destruct Hi as [Hi Hcfg].
  apply IH. rewrite <- Hcfg. apply wstep_inv; [done|by rewrite Hcfg|done].
Qed.
(** Outside of a discovery the recorded quorum is the current one. *)
Lemma reachable_inv id cfg s w : (2 <= failure_threshold cfg)%N ->
  rtc wstep (manager_with_coordinator clock id cfg s, 0) (w, 0) -> world_inv cluster_inv w /\ mconfig w = cfg.
Proof.
  intros H2 Hr. destruct (reachable_run _ _ _ _ H2 Hr) as [[[Hl Ht] Hq] Hcfg]. split; [|done].
  split; [done|]. split; [done|by apply Hq].
Qed.

(** Only the coordinator changes. *)
Definition same_but_shared w w' : Prop := w' = set_shared w (shared w').
#[local] Instance same_but_shared_preorder : PreOrder same_but_shared.
Proof. split; [by intros []|]. intros w w1 w2 -> ->. done. Qed.

Lemma on_coordinator_frame {A} (c : PM St StorageError.t A) : pkeeps same_but_shared (on_coordinator c).
Proof. intros w r w'. unfold on_coordinator. destruct (c (shared w)). by intros [= _ <-]. Qed.
Lemma timed_check_frame n : pkeeps same_but_shared (timed_check sample elapsed clock check_elapsed n).
Proof.
  intros w r w'. unfold timed_check. destruct (check_elapsed _ _ _); [by intros [= _ <-]|].
  destruct (health_check _ _ _ _) as [[[]|] s]; by intros [= _ <-].
Qed.
Lemma check_frame n : pkeeps same_but_shared (check_node_health sample elapsed clock check_elapsed n).
Proof.
  apply pkeeps_bind; [apply _|apply timed_check_frame|]. intros [res l]. apply pkeeps_ret, _.
Qed.

(** *** The operations are made of these steps *)
Abbreviation path d w w' := (rtc wstep (w, d) (w', d)).
Lemma path_shared d w w' : same_but_shared w w' -> path d w w'.
Proof. intros ->. apply rtc_once, w_shared. Qed.

Lemma add_node_path d n a w r w' :
  add_node sample elapsed read_file clock check_elapsed n a w = (r, w') ->
  path d w w' /\ manager_node_id w' = manager_node_id w.
Proof.
  unfold add_node. destruct (N.eqb_spec n (manager_node_id w)) as [|Hne]; [by intros [= _ <-]|].
  assert (Hout : forall w1, same_but_shared w w1 -> path d w w1 /\ manager_node_id w1 = manager_node_id w).
  { intros w1 Hs. split; [by apply path_shared|by rewrite Hs]. }
  intros [([] & w1 & Ha & Hr)|[(e & Ha & _)|[Ha _]]]%pbind_inv; apply on_coordinator_frame in Ha; [|by apply Hout..].
  apply pbind_inv in Hr as [(c & w2 & Hb & Hr)|[(e & Hb & _)|[Hb _]]]; apply check_frame in Hb;
    pose proof (transitivity Ha Hb) as Hs; [|by apply Hout..].
  destruct (Hout _ Hs) as [Hp Hid]. assert (Hcfg : mconfig w2 = mconfig w) by by rewrite Hs.
  injection Hr as _ <-. split; [|done]. eapply rtc_r; [exact Hp|]. rewrite <- Hcfg. apply w_added. by rewrite Hid.
Qed.
Lemma remove_node_path d n w r w' : remove_node clock n w = (r, w') -> path d w w'.
Proof. intros [= _ <-]. eapply rtc_l; [apply w_shared|]. apply rtc_once, w_removed. Qed.
Lemma update_leader_path d l w : path d w (update_leader clock l w).
Proof. apply rtc_once, w_leader. Qed.

Lemma discover_loop_path d ps w r w' :
  discover_loop sample elapsed read_file clock check_elapsed ps w = (r, w') ->
  path (S d) w w' /\ (forall e, r <> Some (Err e)).
Proof.
  revert w. induction ps as [|p ps IH]; intros w; simpl; [by intros [= <- <-]|].
  destruct (N.eqb_spec (PeerInfo.node_id p) (manager_node_id w)) as [|Hne]; [by apply IH|].
  destruct (add_node _ _ _ _ _ _ _ w) as [r1 w1] eqn:Ha. apply (add_node_path (S d)) in Ha as [Hp Hid].
  destruct r1 as [[[]|e]|]; [|intros [Hl ?]%IH|by intros [= <- <-]].
  - intros [Hl ?]%IH. split; [by etrans|done].
  - split; [|done]. etrans; [exact Hp|]. eapply rtc_l; [|exact Hl]. apply w_unknown. by rewrite Hid.
Qed.
Lemma discover_path d ps w r w' :
  discover_peers sample elapsed read_file clock check_elapsed ps w = (Some r, w') -> path d w w'.
Proof.
  unfold discover_peers. destruct ps as [|p0 ps0]; [by intros [= _ <-]|].
  destruct (parse_peers _) as [ps|e]; [|by intros [= _ <-]].
  intros [([] & w1 & Hl & Hr)|[(e & Hl & _)|[_ [=]]]]%pbind_inv; apply (discover_loop_path d) in Hl as [Hl He].
  - injection Hr as _ <-. eapply rtc_l; [apply w_discover|]. eapply rtc_r; [exact Hl|apply w_discovered].
  - by destruct (He e).
Qed.
Lemma heartbeat_path d e w r w' : heartbeat_node sample elapsed read_file clock check_elapsed e w = (r, w') -> path d w w'.
Proof.
  unfold heartbeat_node.
  intros [(c & w1 & Hc & Hr)|[(e' & Hc & _)|[Hc _]]]%pbind_inv; apply timed_check_frame, (path_shared d) in Hc; [|done..].
  etrans; [exact Hc|]. eapply rtc_l; [apply (w_heartbeat e.1 c.1 c.2)|]. revert Hr. unfold heartbeat_settle, heartbeat_locked.
  destruct (heartbeat_update _ _ _ _ _ _) as [[s es] []]; intros [= _ <-]; [|done]. by apply path_shared.
Qed.
Lemma heartbeat_inv e w r w' : (2 <= failure_threshold (mconfig w))%N -> world_inv cluster_inv w ->
  heartbeat_node sample elapsed read_file clock check_elapsed e w = (r, w') ->
  world_inv cluster_inv w' /\ mconfig w' = mconfig w.
Proof.
  intros H2 [Hl [Ht Hq]] Hh%(heartbeat_path 0).
  assert (Hi : run_inv (w, 0)) by (split; [by split|done]).
  cut (forall wd wd', rtc wstep wd wd' -> run_inv wd -> (2 <= failure_threshold (mconfig wd.1))%N ->
    run_inv wd' /\ mconfig wd'.1 = mconfig wd.1).
  { intros Hc. destruct (Hc _ _ Hh Hi H2) as [[[Hl' Ht'] Hq'] Hcfg]. split; [|done]. split; [done|]. split; [done|by apply Hq']. }
  clear. intros wd wd' Hr. induction Hr as [|w w1 w2 Hs _ IH]; [done|]. intros Hi H2.
  destruct (wstep_inv _ _ Hs H2 Hi) as [Hi1 Hc1]. rewrite <- Hc1 in H2 |- *. by apply IH.
Qed.

(** ** Properties *)

(** The members a manager knows, and those of them it can reach, itself included. *)
Definition members w : gset N := {[ manager_node_id w ]} ∪ dom (nodes (cstate w)).
Definition reach w : gset N := {[ manager_node_id w ]} ∪ dom (up_nodes (nodes (cstate w))).

Lemma members_size w : world_inv cluster_inv w -> size (members w) = size (nodes (cstate w)) + 1.
Proof.
  intros [Hl [Ht _]]. unfold members. rewrite size_union, size_singleton, size_dom; [lia|].
  intros i ->%elem_of_singleton [n Hn]%elem_of_dom. destruct (Ht _ _ Hn) as (_ & Hne & _). by rewrite Hl in Hne.
Qed.
Lemma reach_size w : world_inv cluster_inv w -> size (reach w) = size (up_nodes (nodes (cstate w))) + 1.
Proof.
  intros [Hl [Ht _]]. unfold reach. rewrite size_union, size_singleton, size_dom; [lia|].
  intros i ->%elem_of_singleton [n Hn]%elem_of_dom. apply map_lookup_filter_Some in Hn as [Hn _].
  destruct (Ht _ _ Hn) as (_ & Hne & _). by rewrite Hl in Hne.
Qed.
Lemma reach_members w : reach w ⊆ members w.
Proof. unfold reach, members, up_nodes. apply union_mono_l, dom_filter_subseteq. Qed.

Lemma can_write_majority w : world_inv cluster_inv w -> can_write w = true ->
  size (members w) < 2 * size (reach w).
Proof.
  intros Hw. rewrite members_size, reach_size by done. unfold can_write, should_accept_writes.
  intros [Hq _]%andb_true_iff. destruct (ci_quorum _ (wi_state _ _ Hw)) as [Hc|[_ Hc]]; [|congruence].
  apply check_quorum_majority. congruence.
Qed.

(** C25. In every state that a manager whose failure threshold is at least two
    reaches, whatever way its methods and its heartbeat interleave, the table of
    members is well-formed (every node under its own id, never this node, a node
    with failures is unreachable, one with a latency is available); and unless a
    run of [discover_peers] has not finished or no member has been recorded yet,
    [has_quorum] says that a strict majority of the members is available. *)
Theorem cluster_view_sound id cfg s w d : (2 <= failure_threshold cfg)%N ->
  rtc wstep (manager_with_coordinator clock id cfg s, 0) (w, d) ->
  table_wf (cstate w) /\
  (d = 0 -> (has_quorum (cstate w) = true <-> size (members w) < 2 * size (reach w)) \/
            (nodes (cstate w) = ∅ /\ has_quorum (cstate w) = false)).
Proof.
  intros H2 Hr. destruct (reachable_run _ _ _ _ H2 Hr) as [[[Hl Ht] _] _]. split; [done|]. intros ->.
  destruct (reachable_inv _ _ _ _ H2 Hr) as [Hw _]. rewrite members_size, reach_size by done.
  destruct (ci_quorum _ (wi_state _ _ Hw)) as [Hq|?]; [left|by right]. rewrite Hq. apply check_quorum_majority.
Qed.

(** ** A heartbeat round *)
Context (up : gset N) (I : World -> Prop).
(** While [I] holds, and a heartbeat keeps it, the members in [up] answer their
    checks and the others fail or time out. *)
Definition checks_as_up : Prop :=
  (forall e w r w', I w -> heartbeat_node sample elapsed read_file clock check_elapsed e w = (r, w') -> I w') /\
  forall n w r w', I w -> n ∈ dom (nodes (cstate w)) ->
    timed_check sample elapsed clock check_elapsed n w = (r, w') ->
    exists res l, r = Some (Ok (res, l)) /\
      if decide (n ∈ up) then res = Answered true else res = Failed \/ res = TimedOut.

(** The nodes of [l] have been checked between [w] and [w']. *)
Record checked (l : list N) w w' : Prop := {
  ck_inv : world_inv cluster_inv w';
  ck_id : manager_node_id w' = manager_node_id w;
  ck_config : mconfig w' = mconfig w;
  ck_dom : dom (nodes (cstate w')) = dom (nodes (cstate w));
  ck_others : forall j, j ∉ l -> nodes (cstate w') !! j = nodes (cstate w) !! j;
  ck_seen : forall j n, j ∈ l -> nodes (cstate w') !! j = Some n ->
    is_available (health n) = bool_decide (j ∈ up);
  ck_synced : synced (cstate w) -> synced (cstate w');
  ck_syncs : (exists j, j ∈ l /\ j ∈ up /\ j ∈ dom (nodes (cstate w))) -> synced (cstate w') }.

Lemma heartbeat_node_checked e w : checks_as_up -> I w -> e.1 ∈ dom (nodes (cstate w)) ->
  (2 <= failure_threshold (mconfig w))%N -> world_inv cluster_inv w ->
  exists w', heartbeat_node sample elapsed read_file clock check_elapsed e w = (Some (Ok tt), w') /\
    I w' /\ checked [e.1] w w'.
Proof.
  intros [Hkeep Hup] HI Hin H2 Hw. destruct (heartbeat_node _ _ _ _ _ e w) as [r w'] eqn:Hh.
  destruct (heartbeat_inv _ _ _ _ H2 Hw Hh) as [Hw' Hcfg]. exists w'.
  destruct (timed_check sample elapsed clock check_elapsed e.1 w) as [rc w1] eqn:Hc.
  destruct (Hup _ _ _ _ HI Hin Hc) as (res & l & -> & Hres).
  assert (HI' : I w') by by eapply Hkeep. revert Hh.
  unfold heartbeat_node, mbind, PM_bind. rewrite Hc. apply timed_check_frame in Hc.
  assert (Hs1 : cstate w1 = cstate w) by by rewrite Hc. assert (Hcfg1 : mconfig w1 = mconfig w) by by rewrite Hc.
  assert (Hid1 : manager_node_id w1 = manager_node_id w) by by rewrite Hc.
  unfold heartbeat_settle. simpl. rewrite Hs1, Hcfg1.
  destruct (heartbeat_update _ _ _ _ _ _) as [[s es] b] eqn:Hu.
  apply heartbeat_update_spec in Hu as (_ & _ & _ & Hsync & Hsyncs & Hdom & Hoth & Hself & Hb); [|done|apply Hw].
  assert (Hlift : cstate w' = s -> manager_node_id w' = manager_node_id w -> checked [e.1] w w').
  { intros Hs Hid. split; rewrite ?Hs; try done.
    - intros j Hj. apply Hoth. set_solver.
    - intros j n ->%list_elem_of_singleton Hn. rewrite (Hself _ Hn). destruct (decide (e.1 ∈ up)).
      + subst res. by rewrite bool_decide_eq_true_2.
      + rewrite bool_decide_eq_false_2 by done. by destruct Hres as [->| ->].
    - intros (j & ->%list_elem_of_singleton & Hj & [n Hn]%elem_of_dom). apply Hsyncs; [|by eauto].
      rewrite decide_True in Hres by done. subst res. destruct b; [by specialize (Hb eq_refl)|done]. }
  destruct b; intros [= <- <-]; (split_and!; [done..|]); by apply Hlift.
Qed.

Lemma heartbeat_nodes_checked l w : checks_as_up -> I w -> (forall e, e ∈ l -> e.1 ∈ dom (nodes (cstate w))) ->
  (2 <= failure_threshold (mconfig w))%N -> world_inv cluster_inv w ->
  exists w', heartbeat_nodes sample elapsed read_file clock check_elapsed l w = (Some (Ok tt), w') /\
    checked l.*1 w w'.
Proof.
  intros Hup. revert w. induction l as [|e l IH]; intros w HI Hin H2 Hw; simpl.
  { exists w. split; [done|]. split; try done; set_solver. }
  destruct (heartbeat_node_checked e w) as (w1 & He & HI1 & [Hi1 Hid1 Hc1 Hd1 Ho1 Hs1 Hy1 Hz1]);
    [done|done|apply Hin; by left|done..|].
  destruct (IH w1) as (w2 & Hl & [Hi2 Hid2 Hc2 Hd2 Ho2 Hs2 Hy2 Hz2]);
    [done|intros e' ?; rewrite Hd1; apply Hin; by right|by rewrite Hc1|done|].
  exists w2. unfold mbind, PM_bind. rewrite He, Hl. split; [done|]. split; try congruence; try done.
  - intros j Hj. rewrite Ho2, Ho1 by set_solver. done.
  - intros j n Hj Hn. destruct (decide (j ∈ l.*1)); [by apply Hs2|]. rewrite Ho2 in Hn by done.
    apply Hs1; [set_solver|done].
  - auto.
  - intros (j & Hj & Hju & Hjd). apply elem_of_cons in Hj as [->|Hj].
    + apply Hy2, Hz1. exists e.1. set_solver.
    + apply Hz2. exists j. by rewrite Hd1.
Qed.

Lemma entries_ids (hash_perm : forall l, hash_order l ≡ₚ l) s i :
  i ∈ (entries hash_order s).*1 <-> i ∈ dom (nodes s).
Proof.
  unfold entries. rewrite list_elem_of_fmap. setoid_rewrite list_elem_of_omap. split.
  - intros ([j n] & -> & k & _ & Hk). destruct (nodes s !! k) as [m|] eqn:Hm; simplify_eq/=. apply elem_of_dom. eauto.
  - intros [n Hn]%elem_of_dom. exists (i, n). split; [done|]. exists i. rewrite Hn. split; [|done].
    rewrite hash_perm. apply list_elem_of_fmap. exists (i, n). by rewrite elem_of_map_to_list.
Qed.

End reachable.

(** Removing a node that [can_remove_node] allows keeps the quorum; for a node
    that is available the answer is exactly whether the others still have one. *)
Theorem can_remove_node_exact n s t :
  (can_remove_node n s = true -> check_quorum s = true -> has_quorum (node_removed t n s).1 = true) /\
  (forall node, nodes s !! n = Some node -> is_available (health node) = true ->
     can_remove_node n s = has_quorum (node_removed t n s).1).
Proof.
  assert (Hup : forall node, nodes s !! n = Some node -> is_available (health node) = true ->
    can_remove_node n s = check_quorum (set_nodes (delete n (nodes s)) s)).
  { intros node Hn Ha. unfold can_remove_node. rewrite Hn, Ha. cbn [negb]. unfold check_quorum, total_node_count.
    rewrite !available_size. cbn [set_nodes nodes].
    assert (Hu : up_nodes (nodes s) !! n = Some node) by by apply map_lookup_filter_Some.
    assert (Hsz : size (up_nodes (delete n (nodes s))) = size (up_nodes (nodes s)) - 1).
    { unfold up_nodes. rewrite map_filter_delete, map_size_delete_Some by eauto. lia. }
    rewrite Hsz, map_size_delete_Some by eauto. apply eq_true_iff_eq.
    rewrite !Nat.ltb_lt, !div2_majority.
    assert (size (nodes s) <> 0) by (intros He%map_size_empty_inv; by rewrite He, lookup_empty in Hn). lia. }
  split; [|intros node Hn Ha; by rewrite (Hup node)].
  intros Hc Hq. simpl. destruct (nodes s !! n) as [node|] eqn:Hn.
  - destruct (is_available (health node)) eqn:Ha; [change (check_quorum (set_nodes (delete n (nodes s)) s) = true); by rewrite <- (Hup node)|].
    apply check_quorum_majority in Hq. apply (check_quorum_majority (set_nodes (delete n (nodes s)) s)). simpl.
    assert (Hu : up_nodes (delete n (nodes s)) = up_nodes (nodes s)).
    { unfold up_nodes. apply map_filter_delete_not. simpl. intros x Hx. rewrite Hn in Hx. injection Hx as <-. by rewrite Ha. }
    rewrite Hu, map_size_delete_Some by eauto. lia.
  - change (check_quorum (set_nodes (delete n (nodes s)) s) = true).
    rewrite delete_id by done. by destruct s.
Qed.

(** A cluster of one node never accepts writes: [has_quorum] starts as [false],
    [discover_peers] returns before the update when there is no peer, and a
    heartbeat with no member to check updates nothing, although [check_quorum]
    holds all along. *)
Theorem standalone_never_writes {F Net Ch} `{FileSystem F, Sha256, ReplTransport Net Ch} sample elapsed hash_order
    read_file (clock : Coordinator.St (F := F) (Net := Net) (Ch := Ch) -> N) check_elapsed id cfg s :
  (forall l, hash_order l ≡ₚ l) ->
  let w := manager_with_coordinator clock id cfg s in
  discover_peers sample elapsed read_file clock check_elapsed [] w = (Some (Ok tt), w) /\
  heartbeat_round sample elapsed hash_order read_file clock check_elapsed w = (Some (Ok tt), w) /\
  can_write w = false /\ check_quorum (cstate w) = true.
Proof.
  intros hash_perm w. split_and!; try done. unfold heartbeat_round, entries. simpl.
  rewrite map_to_list_empty. simpl. by rewrite (proj1 (Permutation_nil_r _) (hash_perm [])).
Qed.

(** With a failure threshold of one the first failed check takes the path that
    reconnects, which leaves [has_quorum] as it was. *)
Lemma low_threshold_stale_quorum cfg t i l s n :
  (failure_threshold cfg <= 1)%N -> nodes s !! i = Some n -> consecutive_failures n = 0%N ->
  has_quorum (heartbeat_update cfg t i Failed l s).1.1 = has_quorum s /\
  check_quorum (heartbeat_update cfg t i Failed l s).1.1
    = check_quorum (set_nodes (<[i := mark_unreachable t n]> (nodes s)) s).
Proof.
  intros Hc Hi Hf. unfold heartbeat_update. rewrite Hi. rewrite (proj2 (N.leb_le _ _)); [done|].
  simpl. rewrite Hf. done.
Qed.

(** While [discover_peers] runs, a peer it could not reach counts as a member before
    the quorum is updated: the manager still accepts writes with one of three. *)
Example discovery_stale_quorum :
  let s := (node_added ClusterManagerConfig_default 0 2 "n2" None (ClusterState_new 0 1)).1 in
  let s := (node_removed 0 2 s).1 in
  let s := peer_unknown 3 "n3" (peer_unknown 2 "n2" s) in
  should_accept_writes s = true /\ check_quorum s = false.
Proof. vm_compute. done. Qed.

(** Removing a node may change the partition status without an event. *)
Example remove_silences_partition :
  let down := mark_unreachable 0 (NodeState_new 2 "n2") in
  let s := mkClusterState 1 {[ 2%N := down ]} None false Minority 0 in
  partition_status (node_removed 0 2 s).1 = Connected /\
  (node_removed 0 2 s).2 = [NodeRemoved 2; QuorumChanged true].
Proof. vm_compute. done. Qed.

(** ** Witnesses *)
Module ClusterWit.
Import MemFs ToySha ReplWit MemNet BackendWit.

Abbreviation S0 := (Coordinator.St (F := MemFs.t) (Net := MemNet.t) (Ch := string)).
Definition clock0 : S0 -> N := fun _ => 0%N.
Definition no_timeout : N -> N -> S0 -> option S0 := fun _ _ _ => None.
Definition cfg0 : ClusterManagerConfig := ClusterManagerConfig_default.
Definition boot (id : N) (dead : gset string) := manager_with_coordinator clock0 id cfg0 (start ∅ dead).
Definition grow (n : N) (a : string) w := (add_node sample0 never no_files clock0 no_timeout n a w).2.
Lemma grow_path n a w : rtc (wstep clock0) (w, 0) (grow n a w, 0).
Proof. eapply add_node_path. apply surjective_pairing. Qed.

(** Node 1 reaches both others. *)
Definition full := grow 3 "n3" (grow 2 "n2" (boot 1 ∅)).
Lemma full_reachable : rtc (wstep clock0) (boot 1 ∅, 0) (full, 0).
Proof. etrans; apply grow_path. Qed.

Lemma cluster_view_sound_witness :
  has_quorum (cstate full) = true /\ (table_wf (cstate full) /\
  (0 = 0 -> (has_quorum (cstate full) = true <-> size (members full) < 2 * size (reach full)) \/
   (Cluster.nodes (cstate full) = ∅ /\ has_quorum (cstate full) = false))).
Proof.
  split; [vm_compute; reflexivity|].
  exact (cluster_view_sound clock0 1 cfg0 (start ∅ ∅) full 0 ltac:(vm_compute; discriminate) full_reachable).
Defined.

(** Nodes 1 and 2 do not reach each other. *)
Definition alone1 := grow 2 "n2" (boot 1 {[ "n2" ]}).
Definition alone2 := grow 1 "n1" (boot 2 ∅).

(** A network in which node 2 answers and node 3 times out. *)
#[local] Instance calm : ReplTransport unit unit := {
  rt_connect _ _ _ _ n := (Ok tt, n);
  rt_ready _ n := (Ok tt, n);
  rt_prepare _ _ n := (Err "unused", n);
  rt_commit _ _ n := (Err "unused", n);
  rt_abort _ _ n := (Err "unused", n);
  rt_delete _ _ n := (Err "unused", n);
  rt_exists _ _ n := (Err "unused", n);
  rt_health _ n := (Ok (proto.mkHealthCheckResponse 0 "" 0), n);
  rt_stream_prepare _ _ n := (Err "unused", n);
  rt_read _ _ n := (Err "unused", n);
}.
Abbreviation S1 := (Coordinator.St (F := MemFs.t) (Net := unit) (Ch := unit)).
Definition never1 : N -> ReplicationClient unit * unit -> option (ReplicationClient unit * unit) := fun _ _ => None.
Definition clock1 : S1 -> N := fun _ => 0%N.
Definition up2 : gset N := {[ 2%N ]}.
Definition late : N -> N -> S1 -> option S1 := fun _ n s => if bool_decide (n ∈ up2) then None else Some s.
Definition has_clients (w : World (F := MemFs.t) (Net := unit) (Ch := unit)) : Prop :=
  forall n, n ∈ up2 -> is_Some (clients (coord (shared w)) !! n).

Lemma calm_healthy t (c : ReplicationClient unit * unit) :
  exists c', Health.is_healthy sample0 never1 t c = (Some (Ok true), c').
Proof.
  destruct c as [[i a ct rt rc tls [[]|]] []]; eexists; reflexivity.
Qed.

Lemma calm_checked n w r w' : has_clients w ->
  timed_check sample0 never1 clock1 late n w = (r, w') ->
  has_clients w' /\ exists res l, r = Some (Ok (res, l)) /\
    if decide (n ∈ up2) then res = Answered true else res = Failed \/ res = TimedOut.
Proof.
  intros Hc. unfold timed_check, late. destruct (decide (n ∈ up2)) as [Hn|Hn].
  - rewrite bool_decide_eq_true_2 by done. unfold health_check. destruct (Hc n Hn) as [c Hcn]. rewrite Hcn.
    destruct (health_of sample0 never1 n (shared w)) as [r0 s0] eqn:Hh.
    pose proof (health_of_cluster _ _ _ _ _ _ Hh) as [_ _ Hdom _ _].
    revert Hh. unfold health_of, on_client. rewrite Hcn.
    destruct (calm_healthy (health_timeout (coord (shared w))) (c, net (shared w))) as [[c' n'] ->].
    intros [= <- <-]. intros [= <- <-]. split; [|eauto].
    intros m Hm. apply Hdom. by apply Hc.
  - rewrite bool_decide_eq_false_2 by done. intros [= <- <-]. split; [done|]. eauto.
Qed.

Lemma calm_round : checks_as_up sample0 never1 no_files clock1 late up2 has_clients.
Proof.
  split; [|intros n w r w' Hc _ Ht; by eapply calm_checked in Ht as [_ ?]].
  intros e w r w' Hc. unfold heartbeat_node.
  intros [(c & w1 & Ht & Hr)|[(e' & Ht & _)|[Ht _]]]%pbind_inv;
    destruct (calm_checked _ _ _ _ Hc Ht) as [Hc1 _]; try done.
  revert Hr. unfold heartbeat_settle. destruct (heartbeat_update _ _ _ _ _ _) as [[s es] []]; intros [= _ <-]; [|done].
  intros n Hn. destruct (Hc1 n Hn) as [c1 Hn1]. simpl. unfold Coordinator.add_node.
  repeat case_match; simpl; try (apply lookup_insert_is_Some'; right); eauto.
Qed.

Definition w0 : World (F := MemFs.t) (Net := unit) (Ch := unit) :=
  manager_new clock1 1 (with_replication_factor 3) cfg0 tt MemFs.empty.
Definition grow1 n a w := (add_node sample0 never1 no_files clock1 late n a w).2.
Definition w3 := grow1 3 "n3" (grow1 2 "n2" w0).

End ClusterWit.
