(* ===== verification/ClusterApi.v ===== *)
(** * save-api: membership of the cluster

    Models [crates/save-api/src/handlers/cluster/] ([initialize.rs],
    [membership.rs], [status.rs]) in the Module [Http] and
    [internal_api/service.rs] in the Module [Admin], over the Raft node of
    [RaftNode].  An answer is its status code and its JSON record, or the gRPC
    message.  openraft's membership is the interface [RaftMembers]: the committed
    voters and nodes, and what each call does to them. *)
From Stdlib Require Import Ascii.
From S2P Require Import Prelude Common Peers Config Kv Buckets Locks StateMachine RaftTypes RaftRpc RaftNode.
From stdpp Require Import base gmap strings numbers list.

(** ** The membership *)
Record Members : Type := mkMembers { voters : gset N; nodes : gmap N SaveNode }.

(** What a change does to the membership.  [promote_voters], [remove_voters] and
    [remove_node] pass [retain = false]: a voter that is removed leaves the
    cluster. *)
Definition change (c : ChangeMembers) (m : Members) : Members :=
  match c with
  | AddVoterIds ids => mkMembers (voters m ∪ ids) (nodes m)
  | RemoveVoters ids => mkMembers (voters m ∖ ids) (filter (fun kv => kv.1 ∉ voters m ∩ ids) (nodes m))
  | RemoveNodes ids => mkMembers (voters m) (filter (fun kv => kv.1 ∉ ids) (nodes m))
  end.
(** A node that is a member already keeps its entry. *)
Definition learn (id : N) (n : SaveNode) (m : Members) : Members :=
  mkMembers (voters m) (if bool_decide (id ∈ dom (nodes m)) then nodes m else <[id := n]> (nodes m)).

(** openraft's documentation: every voter has a node entry; a call that returns
    [Ok] has done its change, one that failed may have been committed later. *)
Class RaftMembers (RS : Type) `{RaftHandle RS} : Type := {
  members : RS -> Members;
  members_valid : forall s, voters (members s) ⊆ dom (nodes (members s));
  members_initialize : forall ns s r s', raft_initialize ns s = (r, s') ->
    match r with
    | Ok _ => members s' = mkMembers (dom ns) ns
    | Err _ => members s' = members s \/ members s' = mkMembers (dom ns) ns
    end;
  members_learn : forall id n s r s', raft_add_learner id n s = (r, s') ->
    match r with
    | Ok _ => members s' = learn id n (members s)
    | Err _ => members s' = members s \/ members s' = learn id n (members s)
    end;
  members_change : forall c s r s', raft_change_membership c s = (r, s') ->
    match r with
    | Ok _ => members s' = change c (members s)
    | Err _ => members s' = members s \/ members s' = change c (members s)
    end;
}.

(** [{:?}] of a list of numbers. *)
Definition debug_ids (ids : list N) : string := "[" +:+ String.concat ", " (show <$> ids) +:+ "]".

(** ** The HTTP handlers *)
Record InitializeResponse : Type := mkInitializeResponse { ir_success : bool; ir_message : string }.
Record MembershipResponse : Type := mkMembershipResponse { mr_success : bool; mr_message : string }.
Record InitializeRequest : Type := mkInitializeRequest { ir_members : list string }.
Record AddLearnerRequest : Type := mkAddLearnerRequest { al_node : string }.
Record PromoteVotersRequest : Type := mkPromoteVotersRequest { pv_node_ids : list N }.

Module Http.
Section handlers.
Context {RS : Type} `{RaftHandle RS} (node_id : N).

(** A handler either goes on or returns the answer of an early return, which is
    the error of the monad. *)
Definition answered {A : Type} (x : result A A) : A := match x with Ok a | Err a => a end.

Definition refused (code : N) (msg : string) : N * InitializeResponse := (code, mkInitializeResponse false msg).
Definition failed (what : string) (e : MetadataError) : N * InitializeResponse :=
  refused 500 (what +:+ MetadataError_to_string e).

Definition other_members (ms : list PeerInfo.t) : list PeerInfo.t :=
  filter (fun p => PeerInfo.node_id p <> node_id) ms.

Fixpoint add_learners (ps : list PeerInfo.t) : M RS (N * InitializeResponse) unit :=
  match ps with
  | [] => mret tt
  | p :: ps' =>
      with_err (failed ("Failed to add learner " +:+ show (PeerInfo.node_id p) +:+ ": "))
        (RaftNode.add_learner (PeerInfo.node_id p) (PeerInfo.raft_addr p) (PeerInfo.http_addr p) (PeerInfo.replication_addr p)) ;;
      add_learners ps'
  end.

(** Step 3: the other nodes become learners and then voters. *)
Definition add_others (others : list PeerInfo.t) : M RS (N * InitializeResponse) unit :=
  if bool_decide (others = []) then mret tt
  else
    add_learners others ;;
    (fun s => (Ok tt, raft_sleep 100 s)) ;;
    with_err (failed "Failed to promote voters: ") (RaftNode.promote_voters (PeerInfo.node_id <$> others)).

Definition wait_leader : PM RS (N * InitializeResponse) N := fun s =>
  match wait_for_leader 5000 s with
  | Some (r, s') => (Some (map_err (failed "Failed to become leader: ") r), s')
  | None => (None, s)
  end.

Definition initialize_steps (request : InitializeRequest) : PM RS (N * InitializeResponse) (N * InitializeResponse) :=
  safe (reads (fun s => if is_initialized s then Err (refused 409 "Cluster already initialized") else Ok tt)) ;;
  ms ← safe (lift (map_err (fun e => refused 400 (Error.to_string e)) (parse_peers (ir_members request))));
  my_peer ← safe (lift (ok_or (refused 400 ("This node (id=" +:+ show node_id +:+ ") must be included in members list"))
              (head (filter (fun p => PeerInfo.node_id p = node_id) ms))));
  safe (with_err (failed "Failed to initialize: ") (RaftNode.initialize [my_peer])) ;;
  wait_leader ;;
  safe (add_others (other_members ms)) ;;
  mret (200%N, mkInitializeResponse true "Cluster initialized").
Definition cluster_initialize (request : InitializeRequest) (s : RS) : option (N * InitializeResponse) * RS :=
  let '(x, s') := initialize_steps request s in (answered <$> x, s').

Definition reply (code : N) (ok : bool) (msg : string) : N * MembershipResponse := (code, mkMembershipResponse ok msg).
Definition not_leader : N * MembershipResponse :=
  reply 421 false "Not the leader. Forward request to the leader node.".
Definition error_reply (what : string) (e : MetadataError) : N * MembershipResponse :=
  reply 500 false (what +:+ MetadataError_to_string e).

(** A handler of the leader: the guard, then the body. *)
Definition of_leader (body : M RS (N * MembershipResponse) (N * MembershipResponse)) (s : RS)
  : (N * MembershipResponse) * RS :=
  if negb (is_leader node_id s) then (not_leader, s)
  else let '(x, s') := body s in (answered x, s').

Definition add_learner (request : AddLearnerRequest) : RS -> (N * MembershipResponse) * RS :=
  of_leader (
    peer_info ← lift (map_err (fun e => reply 400 false (Error.to_string e)) (parse_peer (al_node request)));
    with_err (error_reply "Failed to add learner: ")
      (RaftNode.add_learner (PeerInfo.node_id peer_info) (PeerInfo.raft_addr peer_info) (PeerInfo.http_addr peer_info)
         (PeerInfo.replication_addr peer_info)) ;;
    mret (reply 200 true ("Node " +:+ show (PeerInfo.node_id peer_info) +:+ " added as learner"))).

Definition promote_voters (request : PromoteVotersRequest) : RS -> (N * MembershipResponse) * RS :=
  of_leader (
    lift (if bool_decide (pv_node_ids request = []) then Err (reply 400 false "node_ids cannot be empty") else Ok tt) ;;
    with_err (error_reply "Failed to promote voters: ") (RaftNode.promote_voters (pv_node_ids request)) ;;
    mret (reply 200 true ("Nodes " +:+ debug_ids (pv_node_ids request) +:+ " promoted to voters"))).

Definition trigger_elect (s : RS) : (N * MembershipResponse) * RS :=
  match RaftNode.trigger_elect s with
  | (Ok _, s') => (reply 200 true "Election triggered", s')
  | (Err e, s') => (error_reply "Failed to trigger election: " e, s')
  end.

Definition remove_steps (id : N) : M RS (N * MembershipResponse) (N * MembershipResponse) :=
  lift (if (id =? node_id)%N
        then Err (reply 400 false "Cannot remove the leader node. Transfer leadership first.") else Ok tt) ;;
  is_voter ← reads (fun s => Ok (bool_decide (id ∈ cs_voters (get_status node_id s))));
  (if is_voter : bool then with_err (error_reply "Failed to demote voter to learner: ") (RaftNode.remove_voters [id])
   else mret tt) ;;
  with_err (error_reply "Failed to remove node: ") (RaftNode.remove_node id) ;;
  mret (reply 200 true ("Node " +:+ show id +:+ " removed from cluster")).
Definition remove_node (id : N) : RS -> (N * MembershipResponse) * RS := of_leader (remove_steps id).

(** The answer has the status flattened into its record. *)
Definition cluster_status (s : RS) : N * ClusterStatus := (200%N, get_status node_id s).
End handlers.
End Http.

(** ** The administration service *)
Module Admin.
Record GetStatusResponse : Type := mkGetStatusResponse {
  gs_node_id : N; gs_initialized : bool; gs_state : RaftState; gs_current_term : N; gs_leader_id : option N;
  gs_voters : list N; gs_learners : list N; gs_last_applied_index : option N; gs_last_log_index : option N }.
Record AddLearnerRequest : Type := mkAddLearnerRequest {
  ar_node_id : N; ar_raft_address : string; ar_http_address : string; ar_replication_address : string }.
(** The answers of [AddLearner], [PromoteVoters], [RemoveNode] and [TriggerElect]
    have the same two fields. *)
Record AdminResponse : Type := mkAdminResponse { ad_success : bool; ad_error_message : string }.
Record DrainNodeResponse : Type := mkDrainNodeResponse {
  dr_success : bool; dr_error_message : string; dr_drained_requests : N }.

Definition validate_add_learner_request (req : AddLearnerRequest) : option string :=
  if (ar_node_id req =? 0)%N then Some "node_id must be > 0"
  else if bool_decide (ar_raft_address req = "") then Some "raft_address cannot be empty"
  else if bool_decide (ar_http_address req = "") then Some "http_address cannot be empty"
  else if bool_decide (ar_replication_address req = "") then Some "replication_address cannot be empty"
  else None.

Definition finished (r : result MetadataError unit) : AdminResponse :=
  match r with
  | Ok _ => mkAdminResponse true ""
  | Err e => mkAdminResponse false (MetadataError_to_string e)
  end.
Definition rejected (msg : string) : AdminResponse := mkAdminResponse false msg.

Section service.
Context {RS : Type} `{RaftHandle RS} (node_id : N) (config : SaveConfig).

(** The requests in flight, which the other tasks of the node change while this
    one sleeps. *)
Context (in_flight_count : RS -> N).

Definition get_status (s : RS) : GetStatusResponse :=
  let status := RaftNode.get_status node_id s in
  mkGetStatusResponse (cs_node_id status) (cs_initialized status) (cs_state status) (cs_current_term status)
    (cs_current_leader status) (cs_voters status) (cs_learners status) (cs_last_applied_index status)
    (cs_last_log_index status).

Definition add_learner (req : AddLearnerRequest) (s : RS) : AdminResponse * RS :=
  match validate_add_learner_request req with
  | Some msg => (rejected msg, s)
  | None =>
      let '(r, s') := RaftNode.add_learner (ar_node_id req) (ar_raft_address req) (ar_http_address req)
                        (ar_replication_address req) s in
      (finished r, s')
  end.

Definition promote_voters (node_ids : list N) (s : RS) : AdminResponse * RS :=
  if bool_decide (node_ids = []) then (rejected "node_ids cannot be empty", s)
  else let '(r, s') := RaftNode.promote_voters node_ids s in (finished r, s').

Definition remove_node (id : N) (s : RS) : AdminResponse * RS :=
  if (id =? 0)%N then (rejected "node_id must be > 0", s)
  else if (id =? node_id)%N && is_leader node_id s then
    (rejected "Cannot remove the leader node. Transfer leadership first.", s)
  else let '(r, s') := RaftNode.remove_node id s in (finished r, s').

Definition trigger_elect (s : RS) : AdminResponse * RS :=
  let '(r, s') := RaftNode.trigger_elect s in (finished r, s').

(** Each turn sleeps 100 ms, so a timeout of [t] ms needs at most [t / 100 + 2]
    turns. *)
Fixpoint drain_loop (fuel : nat) (start timeout drained : N) (s : RS) : option (DrainNodeResponse * RS) :=
  match fuel with
  | 0 => None
  | S fuel' =>
      let in_flight := in_flight_count s in
      if (in_flight =? 0)%N then Some (mkDrainNodeResponse true "" drained, s)
      else if (timeout <=? raft_now s - start)%N then
        Some (mkDrainNodeResponse false ("Drain timeout: " +:+ show in_flight +:+ " requests still in flight") drained, s)
      else
        let prev_in_flight := in_flight in
        let s' := raft_sleep 100 s in
        let new_in_flight := in_flight_count s' in
        drain_loop fuel' start timeout
          (if (new_in_flight <? prev_in_flight)%N then wrapN 64 (drained + (prev_in_flight - new_in_flight)) else drained) s'
  end.
Definition drain_node (timeout_secs : N) (s : RS) : option (DrainNodeResponse * RS) :=
  let timeout_secs := if (timeout_secs =? 0)%N then drain_timeout_secs (shutdown config) else timeout_secs in
  let timeout := (timeout_secs * 1000)%N in
  drain_loop (N.to_nat (timeout / 100) + 2) (raft_now s) timeout 0 s.
End service.
End Admin.

(** ** Lemmas on the membership *)
Definition node_of (p : PeerInfo.t) : SaveNode :=
  SaveNode_new (PeerInfo.raft_addr p) (PeerInfo.http_addr p) (PeerInfo.replication_addr p).
Definition ids_of (ps : list PeerInfo.t) : gset N := list_to_set (PeerInfo.node_id <$> ps).
Definition learns (ps : list PeerInfo.t) (m : Members) : Members :=
  foldl (fun m p => learn (PeerInfo.node_id p) (node_of p) m) m ps.

Lemma learn_voters id n m : voters (learn id n m) = voters m. Proof. done. Qed.
Lemma learn_dom id n m : dom (nodes (learn id n m)) = {[ id ]} ∪ dom (nodes m).
Proof. simpl. case_bool_decide; [set_solver|by rewrite dom_insert_L]. Qed.
Lemma learn_keeps id n m i x : nodes m !! i = Some x -> nodes (learn id n m) !! i = Some x.
Proof.
  intros Hi. simpl. case_bool_decide as Hd; [done|]. rewrite lookup_insert_ne; [done|].
  intros ->. apply Hd, elem_of_dom. eauto.
Qed.
Lemma learn_new id n m : id ∉ dom (nodes m) -> nodes (learn id n m) !! id = Some n.
Proof. intros Hd. simpl. rewrite bool_decide_eq_false_2 by done. by rewrite lookup_insert_eq. Qed.

Lemma learns_voters ps m : voters (learns ps m) = voters m.
Proof. revert m. induction ps as [|p ps IH]; intros m; [done|]. simpl. by rewrite IH. Qed.
Lemma learns_dom ps m : dom (nodes (learns ps m)) = ids_of ps ∪ dom (nodes m).
Proof.
  revert m. induction ps as [|p ps IH]; intros m; unfold ids_of; simpl; [set_solver|].
  rewrite IH, learn_dom. unfold ids_of. set_solver.
Qed.
Lemma learns_keeps ps m i x : nodes m !! i = Some x -> nodes (learns ps m) !! i = Some x.
Proof. revert m. induction ps as [|p ps IH]; intros m Hi; [done|]. by apply IH, learn_keeps. Qed.
(** The first of the peers with an id gives its node. *)
Lemma learns_new ps1 p ps2 m : PeerInfo.node_id p ∉ ids_of ps1 ∪ dom (nodes m) ->
  nodes (learns (ps1 ++ p :: ps2) m) !! PeerInfo.node_id p = Some (node_of p).
Proof.
  intros Hp. unfold learns. rewrite foldl_app. simpl. apply learns_keeps, learn_new.
  change (PeerInfo.node_id p ∉ dom (nodes (learns ps1 m))). by rewrite learns_dom.
Qed.

Lemma filter_dom_not (X : gset N) (m : gmap N SaveNode) : dom (filter (fun kv => kv.1 ∉ X) m) = dom m ∖ X.
Proof.
  apply set_eq. intros i. rewrite elem_of_difference, !elem_of_dom. split.
  - intros [n [Hn Hi]%map_lookup_filter_Some]. split; [by eexists|done].
  - intros [[n Hn] Hi]. exists n. by apply map_lookup_filter_Some.
Qed.

Section theory.
Context {RS : Type} `{RaftMembers RS} (node_id : N).

Lemma call_inv {A} (c : M RS string A) s r s' : (with_err Raft c ;; mret tt) s = (r, s') ->
  exists r0, c s = (r0, s') /\ match r0 with Ok _ => r = Ok tt | Err e => r = Err (Raft e) end.
Proof.
  unfold mbind, M_bind, with_err, mret, M_ret. destruct (c s) as [[a|e] s1]; intros [= <- <-]; eexists; (split; [done|done]).
Qed.
Lemma add_learner_members id a b c s r s' : RaftNode.add_learner id a b c s = (r, s') ->
  members s' = learn id (SaveNode_new a b c) (members s) \/ (is_ok r = false /\ members s' = members s).
Proof. intros (r0 & Hc & Hr)%call_inv. apply members_learn in Hc. destruct r0; subst r; naive_solver. Qed.
Lemma change_members c s r s' : (with_err Raft (raft_change_membership c) ;; mret tt) s = (r, s') ->
  members s' = change c (members s) \/ (is_ok r = false /\ members s' = members s).
Proof. intros (r0 & Hc & Hr)%call_inv. apply members_change in Hc. destruct r0; subst r; naive_solver. Qed.

Lemma add_learners_members ps s r s' : Http.add_learners ps s = (r, s') ->
  exists ps1 ps2, ps = ps1 ++ ps2 /\ members s' = learns ps1 (members s) /\ (is_ok r = true -> ps2 = []).
Proof.
  revert s. induction ps as [|p ps IH]; intros s; simpl.
  { intros [= <- <-]. by exists [], []. }
  intros [(u & s1 & Hl & Hrun)|(e & Hl & ->)]%bind_inv.
  - apply with_err_inv in Hl as ([v|] & Hl & [=]). apply add_learner_members in Hl as [Hm|[[=] _]].
    apply IH in Hrun as (ps1 & ps2 & -> & Hs' & Hok). exists (p :: ps1), ps2. split_and!; [done| |done].
    by rewrite Hs', Hm.
  - apply with_err_inv in Hl as ([|e0] & Hl & [=]). apply add_learner_members in Hl as [Hm|[_ Hm]].
    + exists [p], ps. by split_and!.
    + exists [], (p :: ps). by split_and!.
Qed.

Context `{!RaftHandleLaws RS} (quiet : forall ms s, members (raft_sleep ms s) = members s).

Lemma wait_members fuel start timeout s r s' : wait_loop fuel start timeout s = Some (r, s') -> members s' = members s.
Proof.
  revert s. induction fuel as [|fuel IH]; intros s; simpl; [done|].
  destruct (raft_current_leader s); [by intros [= <- <-]|]. destruct (_ <? _)%N; [by intros [= <- <-]|].
  intros ->%IH. apply quiet.
Qed.

(** The membership after step 3: all the peers are voters, or some of them are
    members. *)
Lemma add_others_members others s r s' : Http.add_others others s = (r, s') ->
  (is_ok r = true -> members s' = mkMembers (voters (members s) ∪ ids_of others) (nodes (learns others (members s)))) /\
  dom (nodes (members s')) ⊆ ids_of others ∪ dom (nodes (members s)).
Proof.
  unfold Http.add_others. case_bool_decide as He.
  { subst others. intros [= <- <-]. split; [|set_solver]. intros _. simpl. destruct (members s) as [vs ns]; simpl.
    f_equal. unfold ids_of. set_solver. }
  assert (Hsub : forall ps1 ps2 m, dom (nodes (learns ps1 m)) ⊆ ids_of (ps1 ++ ps2) ∪ dom (nodes m)).
  { intros ps1 ps2 m. rewrite learns_dom. unfold ids_of. rewrite fmap_app, list_to_set_app_L. set_solver. }
  intros [(u & s1 & Hl & Hrun)|(e & Hl & ->)]%bind_inv.
  - apply add_learners_members in Hl as (ps1 & ps2 & Heq & Hm & Hok). rewrite (Hok eq_refl), app_nil_r in Heq. subst ps1.
    apply bind_inv in Hrun as [(u' & s2 & [= _ <-] & Hrun)|(e & [=] & _)].
    apply with_err_inv in Hrun as (r0 & Hrun & ->). apply change_members in Hrun. rewrite quiet, Hm in Hrun.
    specialize (Hsub others [] (members s)). rewrite app_nil_r in Hsub.
    destruct Hrun as [-> |[Hr ->]].
    + split; [|done]. intros _. simpl. by rewrite learns_voters.
    + split; [|done]. by destruct r0.
  - apply add_learners_members in Hl as (ps1 & ps2 & -> & -> & _). by split.
Qed.

(** Every failure of step 3 is answered with [500]. *)
Lemma others_refused others s e s' : Http.add_others others s = (Err e, s') ->
  e = (500%N, mkInitializeResponse false (ir_message e.2)).
Proof.
  assert (Hf : forall what e0, Http.failed what e0 = (500%N, mkInitializeResponse false (ir_message (Http.failed what e0).2)))
    by done.
  unfold Http.add_others. case_bool_decide; [done|].
  intros [(u & s1 & _ & Hrun)|(e' & Hl & [= <-])]%bind_inv.
  - apply bind_inv in Hrun as [(u' & s2 & _ & Hrun)|(e' & [=] & _)].
    apply with_err_inv in Hrun as ([|e0] & _ & [= ->]). apply Hf.
  - revert s Hl. induction others as [|p ps IH]; intros s; simpl; [done|].
    intros [(u & s1 & _ & Hrun)|(e0 & Hl & [= <-])]%bind_inv.
    + destruct ps; [done|]. by eapply IH.
    + apply with_err_inv in Hl as ([|e1] & _ & [= ->]). apply Hf.
Qed.

Lemma single_member p : foldl add_member ∅ [p] = {[ PeerInfo.node_id p := node_of p ]}.
Proof. done. Qed.

Lemma initialize_members p s r s' : RaftNode.initialize [p] s = (r, s') ->
  members s' = mkMembers {[ PeerInfo.node_id p ]} {[ PeerInfo.node_id p := node_of p ]} \/
  (is_ok r = false /\ members s' = members s).
Proof.
  unfold RaftNode.initialize. destruct (is_initialized s); [intros [= <- <-]; by right|]. rewrite single_member.
  intros [(u & s1 & Hi & [= <- <-])|(e & Hi & ->)]%bind_inv; apply with_err_inv in Hi as (r0 & Hi & Hr);
    apply members_initialize in Hi; rewrite dom_singleton_L in Hi; destruct r0; simplify_eq/=; naive_solver.
Qed.

Lemma ids_others p ms : p ∈ ms -> PeerInfo.node_id p = node_id ->
  ids_of ms = {[ node_id ]} ∪ ids_of (Http.other_members node_id ms).
Proof.
  intros Hp Hid. unfold ids_of, Http.other_members. apply set_eq. intros i.
  rewrite elem_of_union, elem_of_singleton, !elem_of_list_to_set, !list_elem_of_fmap. split.
  - intros (q & -> & Hq). destruct (decide (PeerInfo.node_id q = node_id)); [by left|right].
    exists q. by rewrite list_elem_of_filter.
  - intros [-> |(q & -> & Hq%list_elem_of_filter)]; [by exists p|]. exists q. naive_solver.
Qed.

(** The nodes after all peers were added. *)
Lemma learned_nodes my ms p : NoDup (PeerInfo.node_id <$> ms) -> my ∈ ms -> PeerInfo.node_id my = node_id -> p ∈ ms ->
  nodes (learns (Http.other_members node_id ms) (mkMembers {[ node_id ]} {[ node_id := node_of my ]})) !! PeerInfo.node_id p
  = Some (node_of p).
Proof.
  intros Hnd Hmy Hid Hp. destruct (decide (PeerInfo.node_id p = node_id)) as [Heq|Hne].
  - assert (p = my) as ->.
    { apply list_elem_of_lookup in Hp as [i Hi], Hmy as [j Hj].
      assert (i = j) as ->; [|congruence]. eapply NoDup_lookup; [exact Hnd| |]; rewrite list_lookup_fmap; [by rewrite Hi|].
      rewrite Hj. simpl. congruence. }
    rewrite Heq. apply learns_keeps. simpl. by rewrite lookup_singleton_eq.
  - assert (Hin : p ∈ Http.other_members node_id ms) by (unfold Http.other_members; by apply list_elem_of_filter).
    assert (Hnd' : NoDup (PeerInfo.node_id <$> Http.other_members node_id ms)).
    { eapply sublist_NoDup; [exact Hnd|]. apply fmap_sublist. unfold Http.other_members. apply sublist_filter. }
    apply list_elem_of_split in Hin as (l1 & l2 & Hl). rewrite Hl in Hnd' |- *. apply learns_new.
    rewrite fmap_app in Hnd'. apply NoDup_app in Hnd' as (_ & Hd & _). simpl. rewrite dom_singleton_L.
    unfold ids_of. rewrite elem_of_union, elem_of_singleton, elem_of_list_to_set. intros [Hq|Hq]; [|done].
    apply (Hd _ Hq). simpl. by left.
Qed.

Lemma wait_leader_members s r s' : Http.wait_leader s = (r, s') ->
  members s' = members s /\ exists x, r = Some x.
Proof.
  unfold Http.wait_leader. destruct (wait_for_leader_total 5000 s) as (r0 & s0 & Hw). rewrite Hw. intros [= <- <-].
  split; [by eapply wait_members|by eexists].
Qed.

(** The steps after the members are known. *)
Lemma initialize_rest_inv my ms s r s' : my ∈ ms -> PeerInfo.node_id my = node_id ->
  (safe (with_err (Http.failed "Failed to initialize: ") (RaftNode.initialize [my])) ;;
   Http.wait_leader ;; safe (Http.add_others (Http.other_members node_id ms)) ;;
   mret (200%N, mkInitializeResponse true "Cluster initialized")) s = (r, s') ->
  (r = Some (Ok (200%N, mkInitializeResponse true "Cluster initialized")) /\
   let m := mkMembers {[ node_id ]} {[ node_id := node_of my ]} in
   members s' = mkMembers (ids_of ms) (nodes (learns (Http.other_members node_id ms) m))) \/
  (exists msg, r = Some (Err (500%N, mkInitializeResponse false msg)) /\
   (members s' = members s \/ dom (nodes (members s')) ⊆ ids_of ms)).
Proof.
  intros Hmy Hid Hrun. pose proof (ids_others my ms Hmy Hid) as Hids.
  apply safe_bind in Hrun as [(u & s1 & (r0 & Hi & Hr)%with_err_inv & Hrun)|(e & (r0 & Hi & Hr)%with_err_inv & ->)];
    apply initialize_members in Hi; rewrite Hid in Hi.
  2: { right. destruct r0 as [|e0]; [done|]. injection Hr as ->. eexists. split; [done|].
       destruct Hi as [-> |[_ ->]]; [right|by left]. simpl. rewrite dom_singleton_L. set_solver. }
  destruct r0 as [v|]; [|done]. destruct Hi as [Hm|[[=] _]].
  apply pbind_inv in Hrun as [(l & s2 & Hw & Hrun)|[(e & Hw & ->)|[Hw ->]]].
  2: { unfold Http.wait_leader in Hw. destruct (wait_for_leader 5000 s1) as [[[l|e0] s2]|] eqn:Hl; simplify_eq/=.
       right. eexists. split; [done|]. right. rewrite (wait_members _ _ _ _ _ _ Hl), Hm. simpl. rewrite dom_singleton_L. set_solver. }
  2: { by apply wait_leader_members in Hw as [_ [? [=]]]. }
  apply wait_leader_members in Hw as [Hm2 _]. rewrite Hm in Hm2.
  apply safe_bind in Hrun as [(u' & s3 & Ha & [= <- <-])|(e & Ha & ->)];
    pose proof Ha as Ha'; apply add_others_members in Ha as [Hok Hsub]; rewrite Hm2 in Hok, Hsub; simpl in Hsub;
    rewrite dom_singleton_L in Hsub.
  - left. split; [done|]. rewrite Hok by done. simpl. by rewrite Hids.
  - right. exists (ir_message e.2). split; [|right; set_solver].
    f_equal. f_equal. by apply others_refused in Ha'.
Qed.

End theory.

(** *** Membership changes *)
Section changes.
Context {RS : Type} `{RaftMembers RS} (node_id : N).

Definition without (i : N) (m : Members) : Members :=
  mkMembers (voters m ∖ {[ i ]}) (filter (fun kv => kv.1 ∉ ({[ i ]} : gset N)) (nodes m)).

Lemma remove_nodes_members i s r s' : RaftNode.remove_node i s = (r, s') ->
  (i ∉ voters (members s) /\ members s' = without i (members s)) \/ (is_ok r = false /\ members s' = members s).
Proof.
  intros [Hm|?]%change_members; [left|by right]. simpl in Hm.
  assert (Hi : i ∉ voters (members s)).
  { intros Hi. pose proof (members_valid s') as Hv. rewrite Hm in Hv. simpl in Hv. apply Hv in Hi.
    apply elem_of_dom in Hi as [n Hn]. apply map_lookup_filter_Some in Hn as [_ Hn]. set_solver. }
  split; [done|]. rewrite Hm. unfold without. f_equal. set_solver.
Qed.

Lemma remove_voters_members i s r s' : RaftNode.remove_voters [i] s = (r, s') ->
  members s' = members s \/ (i ∈ voters (members s) /\ members s' = without i (members s)).
Proof.
  intros [Hm|[_ ?]]%change_members; [|by left]. simpl in Hm. rewrite (right_id_L ∅ (∪)) in Hm.
  destruct (decide (i ∈ voters (members s))) as [Hi|Hi]; [right; split; [done|]|left]; rewrite Hm.
  - unfold without. f_equal. apply map_filter_ext. intros j n _. set_solver.
  - destruct (members s) as [vs ns]; simpl in *. f_equal; [set_solver|]. apply map_filter_id. intros j n _. set_solver.
Qed.

Lemma without_again i m : without i (without i m) = without i m.
Proof.
  unfold without. simpl. f_equal; [set_solver|]. rewrite map_filter_filter. apply map_filter_ext. intros j n _. naive_solver.
Qed.

Lemma http_remove_node_inv i s x s' : Http.remove_node node_id i s = (x, s') ->
  (i = node_id -> members s' = members s) /\
  if mr_success x.2 then
    x.1 = 200%N /\ is_leader node_id s = true /\ i <> node_id /\ members s' = without i (members s)
  else
    x.1 <> 200%N /\ (members s' = members s \/ members s' = without i (members s)).
Proof.
  unfold Http.remove_node, Http.of_leader. destruct (is_leader node_id s); simpl; [|intros [= <- <-]; simpl; auto].
  destruct (Http.remove_steps node_id i s) as [y t] eqn:Hrun. intros [= <- <-].
  apply bind_inv in Hrun as [(u & s1 & [Hi ->]%lift_inv & Hrun)|(e & [Hi ->]%lift_inv & ->)].
  2: { destruct (i =? node_id)%N; [|done]. injection Hi as <-. simpl. auto. }
  destruct (N.eqb_spec i node_id) as [|Hne]; [done|]. clear Hi.
  assert (Hv : exists v : bool, ((if v then with_err (Http.error_reply "Failed to demote voter to learner: ") (RaftNode.remove_voters [i])
    else mret tt) ;; with_err (Http.error_reply "Failed to remove node: ") (RaftNode.remove_node i) ;;
    mret (Http.reply 200 true ("Node " +:+ show i +:+ " removed from cluster"))) s = (y, t)).
  { eexists. exact Hrun. }
  clear Hrun. destruct Hv as [v Hrun].
  apply bind_inv in Hrun as [(u' & s1 & Hr & Hrun)|(e & Hr & ->)].
  - assert (Hm : members s1 = members s \/ members s1 = without i (members s)).
    { destruct v; [|by injection Hr as _ <-; left]. apply with_err_inv in Hr as (r0 & Hr & _).
      apply remove_voters_members in Hr as [?|[_ ?]]; auto. }
    apply bind_inv in Hrun as [(u2 & s2 & (r0 & Hn & Hok)%with_err_inv & [= <- <-])|(e & (r0 & Hn & Hok)%with_err_inv & ->)];
      apply remove_nodes_members in Hn as [[_ Hn]|[Hf Hn]]; destruct r0; simplify_eq/=; (split; [done|]); rewrite Hn;
      destruct Hm as [-> | ->]; rewrite ?without_again; auto.
  - destruct v; [|done]. apply with_err_inv in Hr as (r0 & Hr & Hok). destruct r0; simplify_eq/=. split; [done|].
    apply remove_voters_members in Hr as [?|[_ ?]]; auto.
Qed.

(** C33. Removing a node over HTTP.  [200] means that this node is the leader, that
    the node is not itself, and that the node is neither voter nor member any
    more, with every other member as it was.  Otherwise the membership is as it
    was or lacks just that node; the leader never removes itself. *)
Theorem http_remove_node_exact i s x s' : Http.remove_node node_id i s = (x, s') ->
  (i = node_id -> members s' = members s) /\
  if mr_success x.2 then
    x.1 = 200%N /\ is_leader node_id s = true /\ i <> node_id /\ members s' = without i (members s)
  else
    x.1 <> 200%N /\ (members s' = members s \/ members s' = without i (members s)).
Proof. apply http_remove_node_inv. Qed.

(** The administration service cannot remove a voter: it does not take the
    voting right first, as the HTTP handler does, and openraft removes only
    learners. *)
Theorem admin_remove_voter_fails i s x s' : i ∈ voters (members s) ->
  Admin.remove_node node_id i s = (x, s') -> Admin.ad_success x = false /\ members s' = members s.
Proof.
  intros Hi. unfold Admin.remove_node. repeat case_match; intros [= <- <-]; try done.
  match goal with Hr : RaftNode.remove_node _ _ = _ |- _ => apply remove_nodes_members in Hr as [[? _]|[Hr ?]] end; [done|].
  by destruct r.
Qed.
End changes.

(** ** Draining *)
Section drain.
Context {RS : Type} `{RaftHandleLaws RS} (config : SaveConfig) (in_flight_count : RS -> N).

(** How a drain ends, [drained] requests after it began with [start]. *)
Definition drained_to (start timeout drained : N) (s : RS) (resp : Admin.DrainNodeResponse) (s' : RS) : Prop :=
  (start <= raft_now s')%N /\
  (Admin.dr_success resp = true <-> in_flight_count s' = 0%N) /\
  (Admin.dr_success resp = false -> (start + timeout <= raft_now s')%N) /\
  ((forall ms t, in_flight_count (raft_sleep ms t) <= in_flight_count t)%N ->
   (drained + in_flight_count s < 2 ^ 64)%N ->
   (Admin.dr_drained_requests resp + in_flight_count s' = drained + in_flight_count s)%N).

Lemma drain_loop_spec fuel start timeout drained s :
  (start + timeout <= raft_now s + 100 * N.of_nat (fuel - 1))%N -> 0 < fuel -> (start <= raft_now s)%N ->
  exists resp s', Admin.drain_loop in_flight_count fuel start timeout drained s = Some (resp, s') /\
    drained_to start timeout drained s resp s'.
Proof.
  revert drained s. induction fuel as [|fuel IH]; intros drained s Hf Hpos Hs; [lia|]. simpl.
  destruct (N.eqb_spec (in_flight_count s) 0) as [Hz|Hnz].
  { do 2 eexists. split; [done|]. split_and!; simpl; [done|done|done|by rewrite Hz]. }
  destruct (N.leb_spec timeout (raft_now s - start)) as [Ht|Ht].
  { do 2 eexists. split; [done|]. split_and!; simpl; [done|done|lia|done]. }
  pose proof (raft_sleep_elapses 100 s) as Hsl.
  destruct fuel as [|fuel]; [lia|].
  edestruct (IH (if (in_flight_count (raft_sleep 100 s) <? in_flight_count s)%N
      then wrapN 64 (drained + (in_flight_count s - in_flight_count (raft_sleep 100 s))) else drained)
    (raft_sleep 100 s)) as (resp & s' & Hrun & Hle & Hok & Hto & Hc); [lia..|].
  exists resp, s'. split; [exact Hrun|]. split_and!; [done..|]. intros Hmono Hlt. specialize (Hmono 100%N s) as Hm.
  revert Hc. destruct (N.ltb_spec (in_flight_count (raft_sleep 100 s)) (in_flight_count s)) as [Hl|Hl]; intros Hc.
  - unfold wrapN in Hc. rewrite N.mod_small in Hc by lia. rewrite Hc by (done || lia). lia.
  - rewrite Hc by (done || lia). lia.
Qed.

(** Draining a node ends.  It succeeds exactly when no request is in flight any
    more; otherwise the timeout (the configured one when none is given) has
    passed.  While no new requests arrive the answer counts exactly the requests
    that ended. *)
Theorem drain_node_exact timeout_secs s :
  let timeout := (if (timeout_secs =? 0)%N then drain_timeout_secs (shutdown config) else timeout_secs) in
  exists resp s', Admin.drain_node config in_flight_count timeout_secs s = Some (resp, s') /\
  (Admin.dr_success resp = true <-> in_flight_count s' = 0%N) /\
  (Admin.dr_success resp = false -> (raft_now s + timeout * 1000 <= raft_now s')%N) /\
  ((forall ms t, in_flight_count (raft_sleep ms t) <= in_flight_count t)%N -> (in_flight_count s < 2 ^ 64)%N ->
   (Admin.dr_drained_requests resp + in_flight_count s' = in_flight_count s)%N).
Proof.
  intros timeout. unfold Admin.drain_node. fold timeout.
  pose proof (N.div_mod (timeout * 1000) 100 ltac:(lia)) as Hd. pose proof (N.mod_lt (timeout * 1000) 100 ltac:(lia)) as Hm.
  destruct (drain_loop_spec (N.to_nat (timeout * 1000 / 100) + 2) (raft_now s) (timeout * 1000) 0 s)
    as (resp & s' & Hrun & _ & Hok & Hto & Hc); [|lia|done|].
  { revert Hd Hm. generalize (timeout * 1000 / 100)%N, ((timeout * 1000) mod 100)%N. intros; lia. }
  exists resp, s'. split_and!; [exact Hrun|done|done|]. intros. by apply Hc.
Qed.
End drain.

(** ** A cluster in memory

    The leader's node, without failures of its own: changes are refused when
    they would leave a voter without a node.  A request ends every 100 ms. *)
Module MemRaft.
Record t : Type := mk { mvoters : gset N; mnodes : gmap N SaveNode; clock : N; leader : option N; flight : N }.
Definition view (s : t) : Members := mkMembers (mvoters s ∩ dom (mnodes s)) (mnodes s).
Definition set (m : Members) (s : t) : t := mk (voters m) (nodes m) (clock s) (leader s) (flight s).
Definition allowed (c : ChangeMembers) (m : Members) : bool :=
  match c with
  | AddVoterIds ids => bool_decide (ids ⊆ dom (nodes m))
  | RemoveVoters _ => true
  | RemoveNodes ids => bool_decide (ids ## voters m)
  end.

#[export] Instance handle : RaftHandle t := {
  raft_metrics s := mkMetrics SLeader 1 (leader s) None None (elements (voters (view s)))
    (elements (dom (mnodes s) ∖ voters (view s))) (mnodes s);
  raft_current_leader := leader;
  raft_now := clock;
  raft_sleep ms s := mk (mvoters s) (mnodes s) (clock s + ms)
    (match leader s with Some l => Some l | None => head (elements (voters (view s))) end) (flight s - 1);
  raft_client_write _ s := (Ok tt, s);
  raft_initialize ns s := (Ok tt, set (mkMembers (dom ns) ns) s);
  raft_add_learner id n s := (Ok tt, set (learn id n (view s)) s);
  raft_change_membership c s :=
    if allowed c (view s) then (Ok tt, set (change c (view s)) s) else (Err "Learner not found", s);
  raft_trigger_elect s := (Ok tt, s);
  raft_ensure_linearizable s := (Ok tt, s);
}.
#[export] Instance handle_laws : RaftHandleLaws t.
Proof. intros ms s. simpl. lia. Qed.

Lemma view_set m s : voters m ⊆ dom (nodes m) -> view (set m s) = m.
Proof. intros Hv. destruct m as [vs ns]. unfold view, set. simpl in *. f_equal. set_solver. Qed.
Lemma view_valid s : voters (view s) ⊆ dom (nodes (view s)).
Proof. simpl. set_solver. Qed.
Lemma allowed_valid c m : voters m ⊆ dom (nodes m) -> allowed c m = true ->
  voters (change c m) ⊆ dom (nodes (change c m)).
Proof.
  intros Hv. destruct c; simpl; rewrite ?filter_dom_not; [intros Ha%bool_decide_eq_true| |intros Ha%bool_decide_eq_true]; set_solver.
Qed.

#[export] Program Instance raft_members : RaftMembers t := { members := view }.
Next Obligation. apply view_valid. Qed.
Next Obligation. intros ns s r s' [= <- <-]. by apply view_set. Qed.
Next Obligation.
  intros id n s r s' [= <- <-]. apply view_set. rewrite learn_dom, learn_voters. pose proof (view_valid s). set_solver.
Qed.
Next Obligation.
  intros c s r s' Hrun. simpl in Hrun. destruct (allowed c (view s)) eqn:Ha; injection Hrun as <- <-; [|by left].
  apply view_set, allowed_valid; [apply view_valid|done].
Qed.
Lemma sleep_quiet ms s : members (raft_sleep ms s) = members s.
Proof. done. Qed.

Definition empty : t := mk ∅ ∅ 0 None 3.
End MemRaft.

(** ** Witnesses *)
Module MemberWit.
Import MemRaft.
Definition request : InitializeRequest := mkInitializeRequest ["1:n1:9001:9000:9002"; "2:n2:9001:9000:9002"].
Definition s1 : t := (Http.cluster_initialize 1 request empty).2.
Lemma initialized_two : Http.cluster_initialize 1 request empty
  = (Some (200%N, mkInitializeResponse true "Cluster initialized"), s1).
Proof. apply run_eq. vm_compute. reflexivity. Qed.


Definition s2 : t := (Http.remove_node 1 2 s1).2.
Lemma removed_voter : Http.remove_node 1 2 s1
  = ((200%N, mkMembershipResponse true "Node 2 removed from cluster"), s2).
Proof. apply run_eq. vm_compute. reflexivity. Qed.
Lemma http_remove_node_exact_witness : members s2 = without 2 (members s1).
Proof.
  exact (proj2 (proj2 (proj2 (proj2 (http_remove_node_exact 1 2 s1 _ s2 removed_voter))))).
Defined.

Definition s3 : t := (Admin.remove_node 1 2 s1).2.
Lemma refused_voter : Admin.remove_node 1 2 s1
  = (Admin.mkAdminResponse false (MetadataError_to_string (Raft "Learner not found")), s3).
Proof. apply run_eq. vm_compute. reflexivity. Qed.
Lemma admin_remove_voter_fails_witness : members s3 = members s1.
Proof.
  refine (proj2 (admin_remove_voter_fails 1 2 s1 _ s3 _ refused_voter)). apply (bool_decide_unpack _). vm_compute. done.
Defined.

Definition cfg : SaveConfig :=
  mkSaveConfig (mkServerConfig DEFAULT_HTTP_BIND default_max_body_size 4 512 60 60)
    (mkStorageConfig "/data" "/meta" None 600 3600 "data") MetadataConfig_default
    (mkCredentialsConfig "ak" "sk") LimitsConfig_default ShutdownConfig_default ClusterConfig_default.
Definition drained : option (Admin.DrainNodeResponse * t) := Admin.drain_node cfg flight 1 empty.
Lemma drain_node_exact_witness : exists resp s, drained = Some (resp, s) /\ Admin.dr_success resp = true /\
  (Admin.dr_drained_requests resp + flight s = flight empty)%N.
Proof.
  destruct (drain_node_exact cfg flight 1 empty) as (resp & s & Hrun & _ & _ & Hc). exists resp, s.
  split; [exact Hrun|]. split.
  - assert (Hs : Admin.dr_success <$> (fst <$> drained) = Some true) by (vm_compute; reflexivity).
    unfold drained in Hs. rewrite Hrun in Hs. by injection Hs.
  - apply Hc; [|vm_compute; reflexivity]. intros ms [vs ns c l f]. simpl. lia.
Defined.
End MemberWit.
