(* ===== verification/AdminServer.v ===== *)
(** * save-api: the gRPC server of the administration service

    Models [crates/save-api/src/internal_api/server.rs]: decoding, dispatch by
    path, the answers and the request counter, over the frames of [Grpc] and the
    service of [ClusterApi].  The counter of a method and status is the number
    of requests recorded; durations are not modelled.  The answer is [None] when
    the response builder panics or the drain loop does not return. *)
From Stdlib Require Import Strings.Byte Ascii.
From S2P Require Import Prelude Common Peers Config Kv Fs ObjectStorage Buckets Locks StateMachine RaftTypes RaftNode Grpc ClusterApi.
From stdpp Require Import base gmap strings numbers list.

Record GetDebugInfoResponse : Type := mkGetDebugInfoResponse {
  gd_node_info : string; gd_cluster_info : string; gd_recent_logs : list string }.
Record GetDebugInfoRequest : Type := mkGetDebugInfoRequest { gd_include_log_entries : bool; gd_max_log_entries : N }.
Record RemoveNodeRequest : Type := mkRemoveNodeRequest { rn_node_id : N }.
Record DrainNodeRequest : Type := mkDrainNodeRequest { dn_timeout_secs : N }.
(** [TriggerElectRequest] has no field. *)
Abbreviation TriggerElectRequest := unit.

Definition status_to_code (s : Status) : string := show (code_i32 (Grpc.code s)).

(** [path.rsplit('/').next()]. *)
Definition extract_method (path : string) : string :=
  match rsplit_once "/"%char path with Some (_, m) => m | None => path end.

(** [serde_json::Value] as the [json!] macro makes it; an object lists its members
    in the order of the source. *)
Inductive Json : Type :=
| JNull | JBool (b : bool) | JNum (n : N) | JStr (s : string) | JArr (l : list Json) | JObj (l : list (string * Json)).
Definition json_opt (o : option N) : Json := match o with Some n => JNum n | None => JNull end.
(** [{:?}] of [RaftState]. *)
Definition debug_state (st : RaftState) : string :=
  match st with
  | Leader => "Leader" | Follower => "Follower" | Candidate => "Candidate" | Learner => "Learner" | Shutdown => "Shutdown"
  end.

Section server.
Context {RS : Type} `{RaftHandle RS} (node_id : N) (config : SaveConfig) (in_flight_count : RS -> N).
(** [Value::to_string] of serde_json. *)
Context (to_json : Json -> string).
Context `{Codec Admin.GetStatusResponse, Codec Admin.AddLearnerRequest, Codec PromoteVotersRequest, Codec RemoveNodeRequest,
  Codec DrainNodeRequest, Codec GetDebugInfoRequest, Codec TriggerElectRequest, Codec Admin.AdminResponse,
  Codec Admin.DrainNodeResponse, Codec GetDebugInfoResponse}.
Context (header_value_ok : string -> bool).
Abbreviation error_response := (create_grpc_error_response header_value_ok).

(** The log entries that a request may ask for are never returned. *)
Definition get_debug_info (_ : GetDebugInfoRequest) (s : RS) : GetDebugInfoResponse :=
  let status := get_status node_id s in
  let node_info := JObj
    [("node_id", JNum (cs_node_id status)); ("initialized", JBool (cs_initialized status));
     ("state", JStr (debug_state (cs_state status))); ("current_term", JNum (cs_current_term status));
     ("leader_id", json_opt (cs_current_leader status)); ("last_applied_index", json_opt (cs_last_applied_index status));
     ("last_log_index", json_opt (cs_last_log_index status)); ("in_flight_requests", JNum (in_flight_count s))] in
  let cluster_info := JObj
    [("voters", JArr (JNum <$> cs_voters status)); ("learners", JArr (JNum <$> cs_learners status));
     ("voters_count", JNum (N.of_nat (length (cs_voters status))));
     ("learners_count", JNum (N.of_nat (length (cs_learners status))))] in
  mkGetDebugInfoResponse (to_json node_info) (to_json cluster_info) [].

(** The server's state: the node and [grpc_requests_total], by method and status. *)
Record Server : Type := mkServer { sv_node : RS; grpc_requests_total : gmap (string * string) N }.
Definition record_request (method status : string) (s : Server) : Server :=
  mkServer (sv_node s) (<[(method, status) := (default 0 (grpc_requests_total s !! (method, status)) + 1)%N]> (grpc_requests_total s)).

(** [HandlerResult]: the response and the status label; [None] when the handler
    does not return. *)
Definition Handled : Type := option (option HttpResponse * string * RS).

Definition handle {Req Resp} `{Codec Req} `{Codec Resp} (service : Req -> RS -> option (Resp * RS)) (body : bytes) (s : RS) : Handled :=
  match parse_grpc_frame body with
  | None => Some (None, "", s)
  | Some (Err status) => Some (error_response status, status_to_code status, s)
  | Some (Ok data) =>
      match dec data with
      | Ok req => '(resp, s') ← service req s; Some (create_grpc_response resp, "0", s')
      | Err e => Some (error_response (invalid_argument e), "3", s)
      end
  end.
Definition handle_get_status (body : bytes) (s : RS) : Handled :=
  let answer := Some (create_grpc_response (Admin.get_status node_id s), "0", s) in
  if bool_decide (body = []) then answer
  else match parse_grpc_frame body with
       | Some (Ok _) => answer
       | Some (Err _) => Some (error_response (invalid_argument "invalid grpc frame"), "3", s)
       | None => Some (None, "", s)
       end.
Definition handle_add_learner : bytes -> RS -> Handled := handle (fun req s => Some (Admin.add_learner req s)).
Definition handle_promote_voters : bytes -> RS -> Handled :=
  handle (fun req s => Some (Admin.promote_voters (pv_node_ids req) s)).
Definition handle_remove_node : bytes -> RS -> Handled :=
  handle (fun req s => Some (Admin.remove_node node_id (rn_node_id req) s)).
Definition handle_drain_node : bytes -> RS -> Handled :=
  handle (fun req s => Admin.drain_node config in_flight_count (dn_timeout_secs req) s).
Definition handle_get_debug_info : bytes -> RS -> Handled :=
  handle (fun req s => Some (get_debug_info req s, s)).
Definition handle_trigger_elect : bytes -> RS -> Handled :=
  handle (fun (_ : TriggerElectRequest) s => Some (Admin.trigger_elect s)).

Definition dispatch (path : string) : option (bytes -> RS -> Handled) :=
  if bool_decide (path = "/cluster.ClusterAdmin/GetStatus") then Some handle_get_status
  else if bool_decide (path = "/cluster.ClusterAdmin/AddLearner") then Some handle_add_learner
  else if bool_decide (path = "/cluster.ClusterAdmin/PromoteVoters") then Some handle_promote_voters
  else if bool_decide (path = "/cluster.ClusterAdmin/RemoveNode") then Some handle_remove_node
  else if bool_decide (path = "/cluster.ClusterAdmin/DrainNode") then Some handle_drain_node
  else if bool_decide (path = "/cluster.ClusterAdmin/GetDebugInfo") then Some handle_get_debug_info
  else if bool_decide (path = "/cluster.ClusterAdmin/TriggerElect") then Some handle_trigger_elect
  else None.

(** [require_auth] is only logged: TLS has checked the client's certificate, if
    it is configured. *)
Definition call (require_auth : bool) (path : string) (body : result string bytes) (s : Server)
  : option (option HttpResponse * Server) :=
  let method := extract_method path in
  match body with
  | Err _ => Some (error_response (internal "failed to read body"), record_request method "invalid_argument" s)
  | Ok body =>
      match dispatch path with
      | None => Some (error_response (unimplemented "unknown method"), record_request method "unimplemented" s)
      | Some h =>
          '(response, grpc_status, n) ← h body (sv_node s);
          let s' := mkServer n (grpc_requests_total s) in
          Some (response, match response with Some _ => record_request method grpc_status s' | None => s' end)
      end
  end.
End server.
Arguments mkServer {RS}. Arguments sv_node {RS}. Arguments grpc_requests_total {RS}.

(** ** Properties *)
Section theory.
Context {RS : Type} `{RaftHandleLaws RS} (node_id : N) (config : SaveConfig) (in_flight_count : RS -> N)
  (to_json : Json -> string).
Context `{Codec Admin.GetStatusResponse} `{CodecLaws Admin.AddLearnerRequest} `{CodecLaws PromoteVotersRequest}
  `{CodecLaws RemoveNodeRequest} `{CodecLaws DrainNodeRequest} `{Codec GetDebugInfoRequest} `{CodecLaws TriggerElectRequest}
  `{CodecLaws Admin.AdminResponse} `{CodecLaws Admin.DrainNodeResponse} `{Codec GetDebugInfoResponse}.
Context (header_value_ok : string -> bool).
Abbreviation the_call := (call node_id config in_flight_count to_json header_value_ok).

(** A request reaches the service as it was sent and is counted once; its answer
    can be read back. *)
Definition delivered {Req Resp} `{Codec Req} `{Codec Resp} (path : string) (service : Req -> RS -> option (Resp * RS)) : Prop :=
  forall require_auth req body s resp n r, fits req -> encode_frame req = Some body ->
    service req (sv_node s) = Some (resp, n) -> fits resp -> create_grpc_response resp = Some r ->
    the_call require_auth path (Ok body) s
      = Some (Some r, record_request (extract_method path) "0" (mkServer n (grpc_requests_total s))) /\
    exists data, parse_grpc_frame (resp_body r) = Some (Ok data) /\ dec data = Ok resp.

Lemma handle_delivered {Req Resp} `{CodecLaws Req} `{CodecLaws Resp} path (service : Req -> RS -> option (Resp * RS)) :
  dispatch node_id config in_flight_count to_json header_value_ok path = Some (handle header_value_ok service) ->
  delivered path service.
Proof.
  intros Hp auth req body s resp n r Hfit (data & Hd & ->)%encode_frame_inv Hsvc Hfit' Hr.
  split; [|by apply response_readable]. unfold call. rewrite Hp. unfold handle.
  rewrite parse_frame_ok by (by apply Hfit). rewrite (codec_roundtrip _ _ Hd), Hsvc. simpl. by rewrite Hr.
Qed.

(** The calls of the administration client reach the service as they were sent
    and are counted, and the answers come back as they were given; whether
    authentication is required makes no difference to any call. *)
Theorem admin_calls_delivered :
  delivered "/cluster.ClusterAdmin/AddLearner" (fun req s => Some (Admin.add_learner req s)) /\
  delivered "/cluster.ClusterAdmin/PromoteVoters" (fun req s => Some (Admin.promote_voters (pv_node_ids req) s)) /\
  delivered "/cluster.ClusterAdmin/RemoveNode" (fun req s => Some (Admin.remove_node node_id (rn_node_id req) s)) /\
  delivered "/cluster.ClusterAdmin/DrainNode" (fun req s => Admin.drain_node config in_flight_count (dn_timeout_secs req) s) /\
  delivered "/cluster.ClusterAdmin/TriggerElect" (fun (_ : TriggerElectRequest) s => Some (Admin.trigger_elect s)) /\
  forall path body s, the_call true path body s = the_call false path body s.
Proof. split_and!; [by apply handle_delivered..|done]. Qed.
End theory.
