(* ===== verification/Scaling.v ===== *)
(** * save-api: joining and leaving a cluster

    Models [crates/save-api/src/scaling.rs].  The state is what the node sees of
    the world: its own Raft node ([RaftHandle]), the HTTP interface of other
    nodes ([ClusterHttp]: the transport's error or the status code and the body
    decoded as JSON) and the signal to shut down; time is in milliseconds.
    [CLUSTER_JOINED] is the flag of [Proc].  [None] stands for a loop that did
    not return. *)
From Stdlib Require Import Ascii.
From S2P Require Import Prelude Common Peers Config Kv Buckets Locks StateMachine RaftTypes RaftRpc RaftNode ClusterApi.
From stdpp Require Import base gmap strings numbers list pretty.

Module ScalingError.
Inductive t : Type :=
| NoPeers
| ConnectionFailed (msg : string)
| NoLeader
| JoinFailed (msg : string)
| LeaveFailed (msg : string)
| Timeout
| LeadershipTransferTimeout (secs : N)
| VoterRemovalFailed (msg : string)
| Http (msg : string).
Definition to_string (e : t) : string :=
  match e with
  | NoPeers => "No peers configured"
  | ConnectionFailed m => "Failed to connect to any peer: " +:+ m
  | NoLeader => "No leader available in cluster"
  | JoinFailed m => "Join operation failed: " +:+ m
  | LeaveFailed m => "Leave operation failed: " +:+ m
  | Timeout => "Operation timed out"
  | LeadershipTransferTimeout n => "Leadership transfer timed out after " +:+ show n +:+ " seconds"
  | VoterRemovalFailed m => "Failed to remove self from voter set: " +:+ m
  | Http m => "HTTP request error: " +:+ m
  end.
End ScalingError.

Record ClusterStatusResponse : Type := mkClusterStatusResponse {
  sr_node_id : N; sr_current_leader : option N; sr_voters : list N; sr_learners : list N }.

(** The HTTP client: the first argument is the timeout it was built with. *)
Class ClusterHttp (W : Type) : Type := {
  http_get_status : N -> string -> M W string (N * result string ClusterStatusResponse);
  http_post_learner : N -> string -> AddLearnerRequest -> M W string (N * result string MembershipResponse);
  http_post_voters : N -> string -> PromoteVotersRequest -> M W string (N * result string MembershipResponse);
  http_delete : N -> string -> M W string (N * result string MembershipResponse);
  status_text : N -> string;
  shutdown_received : W -> bool * W;              (* try_recv *)
  sleep_or_shutdown : N -> W -> bool * W;         (* true when the signal came first *)
}.

Section scaling.
Context {W : Type} `{RaftHandle W, ClusterHttp W} (res : N).
Implicit Types (w : W).

Definition is_member (id : N) w : bool :=
  let status := get_status id w in
  bool_decide (id ∈ cs_voters status) || bool_decide (id ∈ cs_learners status).

Definition get_cluster_status (client : N) (base_url : string) : M W ScalingError.t ClusterStatusResponse :=
  '(code, body) ← with_err ScalingError.Http (http_get_status client (base_url +:+ "/cluster/status"));
  if negb ((200 <=? code) && (code <? 300))%N then
    throw (ScalingError.ConnectionFailed ("Status request failed: " +:+ status_text code))
  else lift (map_err (fun e => ScalingError.ConnectionFailed ("Invalid response: " +:+ e)) body).

Definition node_spec (p : PeerInfo.t) : string :=
  show (PeerInfo.node_id p) +:+ ":" +:+ PeerInfo.host p +:+ ":" +:+ show (PeerInfo.raft_port p)
  +:+ ":" +:+ show (PeerInfo.http_port p) +:+ ":" +:+ show (PeerInfo.replication_port p).

(** [true] when joined, [false] when the leader says it is a member already. *)
Definition join_via_leader (client : N) (leader_url : string) (self_peer : PeerInfo.t) (learner_catchup_delay : N)
  : M W ScalingError.t bool :=
  '(_, body) ← with_err ScalingError.Http
     (http_post_learner client (leader_url +:+ "/cluster/members") (mkAddLearnerRequest (node_spec self_peer)));
  resp ← lift (map_err (fun e => ScalingError.JoinFailed ("Invalid response from leader: " +:+ e)) body);
  if negb (mr_success resp) then
    let msg_lower := to_lowercase (mr_message resp) in
    if contains_str "already" msg_lower || contains_str "exists" msg_lower then mret false
    else throw (ScalingError.JoinFailed (mr_message resp))
  else
    (fun w => (Ok tt, raft_sleep learner_catchup_delay w)) ;;
    '(_, body) ← with_err ScalingError.Http
       (http_post_voters client (leader_url +:+ "/cluster/members/promote") (mkPromoteVotersRequest [PeerInfo.node_id self_peer]));
    lift (map_err (fun e => ScalingError.JoinFailed ("Invalid promote response: " +:+ e)) body) ;;
    mret true.

Definition parsed (s : string) : option PeerInfo.t := match parse_peer s with Ok p => Some p | Err _ => None end.
(** The first peer of the list with the id. *)
Definition find_peer (id : N) (peers : list string) : option PeerInfo.t :=
  head (filter (fun p => PeerInfo.node_id p = id) (omap parsed peers)).

Fixpoint try_join_loop (client : N) (all : list string) (self_peer : PeerInfo.t) (delay : N) (peers : list string)
    (connection_errors : list string) : M W ScalingError.t bool :=
  match peers with
  | [] =>
      if bool_decide (connection_errors = []) then throw ScalingError.NoLeader
      else throw (ScalingError.ConnectionFailed (String.concat ", " connection_errors))
  | peer :: rest =>
      match parse_peer peer with
      | Err _ => try_join_loop client all self_peer delay rest connection_errors
      | Ok peer_info => fun w =>
          let base_url := PeerInfo.http_addr peer_info in
          match get_cluster_status client base_url w with
          | (Err e, w1) =>
              try_join_loop client all self_peer delay rest
                (connection_errors ++ [PeerInfo.host peer_info +:+ ": " +:+ ScalingError.to_string e]) w1
          | (Ok status, w1) =>
              match sr_current_leader status with
              | None => try_join_loop client all self_peer delay rest connection_errors w1
              | Some leader_id =>
                  if (leader_id =? PeerInfo.node_id peer_info)%N then join_via_leader client base_url self_peer delay w1
                  else
                    match find_peer leader_id all with
                    | Some other => join_via_leader client (PeerInfo.http_addr other) self_peer delay w1
                    | None => try_join_loop client all self_peer delay rest connection_errors w1
                    end
              end
          end
      end
  end.
Definition try_join_cluster (peers : list string) (self_peer : PeerInfo.t) (timeout delay : N) : M W ScalingError.t bool :=
  try_join_loop timeout peers self_peer delay peers [].

(** [500 * 2u64.pow(attempt - 1)], in the arithmetic of [u64]. *)
Definition join_delay (attempt : N) : N := wrapN 64 (500 * wrapN 64 (2 ^ (attempt - 1))).

Fixpoint join_loop (left : nat) (attempt : N) (config : ClusterConfig) (self_peer : PeerInfo.t)
    (last_error : option ScalingError.t) : M W ScalingError.t bool :=
  match left with
  | 0 => throw (default (ScalingError.JoinFailed "Unknown error") last_error)
  | S left' => fun w =>
      let w0 := if (0 <? attempt)%N then raft_sleep (join_delay attempt) w else w in
      match try_join_cluster (seed_nodes config) self_peer (join_timeout_secs config * 1000)
              (learner_catchup_delay_ms config) w0 with
      | (Ok joined, w1) => (Ok joined, w1)
      | (Err e, w1) => join_loop left' (attempt + 1) config self_peer (Some e) w1
      end
  end.

Definition auto_join (config : ClusterConfig) (self_peer : PeerInfo.t) : M W ScalingError.t bool := fun w =>
  if bool_decide (seed_nodes config = []) then (Err ScalingError.NoPeers, w)
  else if is_member (PeerInfo.node_id self_peer) w then (Ok false, w)
  else join_loop (S (N.to_nat (join_max_retries config))) 0 config self_peer None w.

(** *** The worker *)
Record Proc : Type := mkProc { world : W; CLUSTER_JOINED : bool }.
Definition set_joined (w : W) : Proc := mkProc w true.

(** [2u32.saturating_pow(attempt.min(5) - 1)]. *)
Definition backoff_factor (attempt : N) : N :=
  let e := wrapN 32 (N.min attempt 5 + 2 ^ 32 - 1) in
  if (e <? 32)%N then 2 ^ e else 2 ^ 32 - 1.
Definition worker_delay (attempt : N) : N := N.min (1000 * backoff_factor attempt) 30000.

Fixpoint worker_loop (fuel : nat) (attempt : N) (config : ClusterConfig) (self_peer : PeerInfo.t) (p : Proc) : option Proc :=
  match fuel with
  | 0 => None
  | S fuel' =>
      let attempt := wrapN 32 (attempt + 1) in
      let '(stop, w) := shutdown_received (world p) in
      if stop then Some (mkProc w (CLUSTER_JOINED p))
      else
        let was_joined := CLUSTER_JOINED p in
        let currently_member := is_member (PeerInfo.node_id self_peer) w in
        if currently_member then Some (set_joined w)
        else if was_joined then Some (mkProc w was_joined)
        else
          match auto_join config self_peer w with
          | (Ok _, w1) => Some (set_joined w1)
          | (Err _, w1) =>
              let '(stop, w2) := sleep_or_shutdown (worker_delay attempt) w1 in
              if stop then Some (mkProc w2 was_joined)
              else worker_loop fuel' attempt config self_peer (mkProc w2 was_joined)
          end
  end.
Definition run_auto_join_worker (fuel : nat) (config : ClusterConfig) (self_peer : PeerInfo.t) (p : Proc) : option Proc :=
  if bool_decide (seed_nodes config = []) then Some (set_joined (world p))
  else worker_loop fuel 0 config self_peer p.

(** *** Leaving *)
Definition remove_via_http (client : N) (base_url : string) (node_id : N) : M W ScalingError.t unit :=
  '(_, body) ← with_err ScalingError.Http (http_delete client (base_url +:+ "/cluster/members/" +:+ show node_id));
  resp ← lift (map_err (fun e => ScalingError.LeaveFailed ("Invalid response: " +:+ e)) body);
  if mr_success resp then mret tt else throw (ScalingError.LeaveFailed (mr_message resp)).

(** The peers of the list that have the leader's id, one after the other, until
    one removed the node. *)
Fixpoint remove_via_known (client leader_id node_id : N) (peers : list string) (w : W) : bool * W :=
  match peers with
  | [] => (false, w)
  | peer :: rest =>
      match parsed peer with
      | Some info =>
          if (PeerInfo.node_id info =? leader_id)%N then
            match remove_via_http client (PeerInfo.http_addr info) node_id w with
            | (Ok _, w1) => (true, w1)
            | (Err _, w1) => remove_via_known client leader_id node_id rest w1
            end
          else remove_via_known client leader_id node_id rest w
      | None => remove_via_known client leader_id node_id rest w
      end
  end.

(** The fallback: the answers are whether the node was removed and whether any
    peer reported a leader. *)
Fixpoint remove_via_any (client node_id : N) (all peers : list string) (found_any_leader : bool) (w : W)
  : bool * bool * W :=
  match peers with
  | [] => (false, found_any_leader, w)
  | peer :: rest =>
      match parsed peer with
      | None => remove_via_any client node_id all rest found_any_leader w
      | Some peer_info =>
          let base_url := PeerInfo.http_addr peer_info in
          match get_cluster_status client base_url w with
          | (Err _, w1) => remove_via_any client node_id all rest found_any_leader w1
          | (Ok status, w1) =>
              match sr_current_leader status with
              | None => remove_via_any client node_id all rest found_any_leader w1
              | Some reported =>
                  match (if (reported =? PeerInfo.node_id peer_info)%N then Some base_url
                         else PeerInfo.http_addr <$> find_peer reported all) with
                  | None => remove_via_any client node_id all rest true w1
                  | Some leader_url =>
                      match remove_via_http client leader_url node_id w1 with
                      | (Ok _, w2) => (true, true, w2)
                      | (Err _, w2) => remove_via_any client node_id all rest true w2
                      end
                  end
              end
          end
      end
  end.

Definition removal_delay (attempt : N) : N := N.min (500 * backoff_factor attempt) 5000.

Fixpoint removal_loop (fuel : nat) (deadline attempt client node_id : N) (peers : list string) (w : W)
  : option (result ScalingError.t unit * W) :=
  match fuel with
  | 0 => None
  | S fuel' =>
      let attempt := wrapN 32 (attempt + 1) in
      let remaining := (deadline - raft_now w)%N in
      if (remaining =? 0)%N then Some (Err ScalingError.Timeout, w)
      else
        let '(removed, w1) :=
          match current_leader w with
          | Some leader_id => remove_via_known client leader_id node_id peers w
          | None => (false, w)
          end in
        if removed then Some (Ok tt, w1)
        else
          let '(removed, found_any_leader, w2) := remove_via_any client node_id peers peers false w1 in
          if removed : bool then Some (Ok tt, w2)
          else
            removal_loop fuel' deadline attempt client node_id peers
              (if found_any_leader : bool then w2 else raft_sleep (N.min (removal_delay attempt) remaining) w2)
  end.
(** Every turn takes at least one of the [res] units of time that the clock
    distinguishes in a millisecond. *)
Definition request_removal_from_leader (peers : list string) (node_id timeout : N) (w : W)
  : option (result ScalingError.t unit * W) :=
  removal_loop (S (N.to_nat (res * timeout))) (raft_now w + timeout) 0 timeout node_id peers w.

Definition MAX_TRANSFER_WAIT_SECS : N := 10.
(** Each turn sleeps 100 ms: at most [10000 / 100 + 2] turns. *)
Fixpoint transfer_loop (fuel : nat) (node_id start : N) (w : W) : option (result ScalingError.t unit * W) :=
  match fuel with
  | 0 => None
  | S fuel' =>
      if negb (is_leader node_id w) then Some (Ok tt, w)
      else if (MAX_TRANSFER_WAIT_SECS * 1000 <? raft_now w - start)%N then
        Some (Err (ScalingError.LeadershipTransferTimeout MAX_TRANSFER_WAIT_SECS), w)
      else transfer_loop fuel' node_id start (raft_sleep 100 w)
  end.

(** The last step: ask the leader, within the time that is left. *)
Definition leave_via_leader (config : ClusterConfig) (deadline : N) (w : W) : option (result ScalingError.t bool * W) :=
  let remaining_time := (deadline - raft_now w)%N in
  if (remaining_time =? 0)%N then Some (Err ScalingError.Timeout, w)
  else
    '(r, w1) ← request_removal_from_leader (seed_nodes config) (cluster_node_id config) remaining_time w;
    Some (match r with Ok _ => Ok true | Err e => Err e end, w1).

Definition leave_steps (config : ClusterConfig) (w : W) : option (result ScalingError.t bool * W) :=
  let node_id := cluster_node_id config in
  if negb (is_member node_id w) then Some (Ok false, w)
  else
    let deadline := (raft_now w + leave_timeout_secs config * 1000)%N in
    if is_leader node_id w then
      if length (cs_voters (get_status node_id w)) <=? 1 then
        let '(_, w1) := RaftNode.remove_node node_id w in Some (Ok true, w1)
      else
        match RaftNode.remove_voters [node_id] w with
        | (Err e, w1) => Some (Err (ScalingError.VoterRemovalFailed (MetadataError_to_string e)), w1)
        | (Ok _, w1) =>
            '(r, w2) ← transfer_loop 102 node_id (raft_now w1) w1;
            match r with
            | Err e => Some (Err e, w2)
            | Ok _ => leave_via_leader config deadline w2
            end
        end
    else leave_via_leader config deadline w.

(** The flag is set before the first step, so that a turn of the worker that
    comes in between sees it. *)
Definition graceful_leave (config : ClusterConfig) (p : Proc) : option (result ScalingError.t bool * Proc) :=
  let p := set_joined (world p) in
  '(r, w) ← leave_steps config (world p); Some (r, mkProc w (CLUSTER_JOINED p)).
End scaling.
Arguments mkProc {W}. Arguments world {W}. Arguments CLUSTER_JOINED {W}.

(** ** Properties *)

(** What the node relies on: the answers it decodes come from the handlers of a
    leader; a request whose answer was lost may or may not have been handled; time
    and status requests leave the leader's membership alone, and nobody else changes
    it meanwhile. *)
Class ServedBy {W L : Type} `{RaftHandle W, ClusterHttp W} `{RaftMembers L} (leader : W -> L) : Prop := {
  served_learner : forall c url req w code resp w',
    http_post_learner c (url +:+ "/cluster/members") req w = (Ok (code, Ok resp), w') ->
    exists id, Http.add_learner id req (leader w) = ((code, resp), leader w');
  served_voters : forall c url req w code resp w',
    http_post_voters c (url +:+ "/cluster/members/promote") req w = (Ok (code, Ok resp), w') ->
    exists id, Http.promote_voters id req (leader w) = ((code, resp), leader w');
  served_delete : forall c url n w code resp w',
    http_delete c (url +:+ "/cluster/members/" +:+ show n) w = (Ok (code, Ok resp), w') ->
    exists id, Http.remove_node id n (leader w) = ((code, resp), leader w');
  served_sleep : forall ms w, members (leader (raft_sleep ms w)) = members (leader w);
  served_status : forall c url w r w', http_get_status c url w = (r, w') -> members (leader w') = members (leader w);
  lost_learner : forall c url req w r w', http_post_learner c url req w = (r, w') ->
    members (leader w') = members (leader w) \/ exists id x, Http.add_learner id req (leader w) = (x, leader w');
  lost_voters : forall c url req w r w', http_post_voters c url req w = (r, w') ->
    members (leader w') = members (leader w) \/ exists id x, Http.promote_voters id req (leader w) = (x, leader w');
}.

Section theory.
Context {W L : Type} `{RaftHandle W, ClusterHttp W} `{RaftMembers L} (leader : W -> L) `{!ServedBy leader} (res : N).
Implicit Types (w : W).

Lemma of_leader_inv {RS} `{RaftHandle RS} id (body : M RS (N * MembershipResponse) (N * MembershipResponse)) s x s' :
  Http.of_leader id body s = (x, s') ->
  (x = Http.not_leader /\ s' = s) \/ exists y, body s = (y, s') /\ x = Http.answered y.
Proof.
  unfold Http.of_leader. destruct (negb _); [intros [= <- <-]; by left|]. destruct (body s) as [y t].
  intros [= <- <-]. right. eauto.
Qed.

(** The leader's answer to a request to join. *)
Lemma learner_answer id p s x s' : peer_wf p ->
  Http.add_learner id (mkAddLearnerRequest (node_spec p)) s = (x, s') ->
  members s' = learn (PeerInfo.node_id p) (node_of p) (members s) \/ (mr_success x.2 = false /\ members s' = members s).
Proof.
  intros Hwf [[-> ->]|(y & Hy & ->)]%of_leader_inv; [by right|].
  apply bind_inv in Hy as [(p' & s1 & [Hp ->]%lift_inv & Hy)|(e & [Hp ->]%lift_inv & ->)];
    change (al_node (mkAddLearnerRequest (node_spec p))) with (peer_string p) in Hp;
    rewrite parse_peer_string in Hp by done; [|done]. injection Hp as <-.
  apply bind_inv in Hy as [(u & s2 & (r0 & Ha & Hr)%with_err_inv & [= <- <-])|(e & (r0 & Ha & Hr)%with_err_inv & ->)];
    destruct r0; simplify_eq/=; apply add_learner_members in Ha as [?|[? ?]]; auto; done.
Qed.

Lemma voters_answer id n s x s' :
  Http.promote_voters id (mkPromoteVotersRequest [n]) s = (x, s') ->
  members s' = members s \/ members s' = change (AddVoterIds {[ n ]}) (members s).
Proof.
  intros [[_ ->]|(y & Hy & _)]%of_leader_inv; [by left|].
  apply bind_inv in Hy as [(u & s1 & [_ ->]%lift_inv & Hy)|(e & [_ ->]%lift_inv & _)]; [|by left].
  assert (Hc : exists r0, RaftNode.promote_voters [n] s = (r0, s')).
  { apply bind_inv in Hy as [(u' & s2 & (r0 & Ha & _)%with_err_inv & [= _ <-])|(e & (r0 & Ha & _)%with_err_inv & _)]; eauto. }
  destruct Hc as [r0 [Hm|[_ ?]]%change_members]; [right|by left]. simpl in Hm. by rewrite (right_id_L ∅ (∪)) in Hm.
Qed.

(** [m'] is [m] with at most the node of [p] added, with its own addresses unless it
    was known before, and its vote. *)
Record with_at_most (p : PeerInfo.t) (m m' : Members) : Prop := {
  wm_kept : forall j n, nodes m !! j = Some n -> nodes m' !! j = Some n;
  wm_new : forall j, j ∉ dom (nodes m) -> nodes m' !! j = None \/ (j = PeerInfo.node_id p /\ nodes m' !! j = Some (node_of p));
  wm_votes : forall j, j <> PeerInfo.node_id p -> (j ∈ voters m' <-> j ∈ voters m);
  wm_stays : voters m ⊆ voters m' }.
#[local] Instance with_at_most_preorder p : PreOrder (with_at_most p).
Proof.
  split.
  - intros m. split; [done| |done|done]. intros j Hj. left. by apply not_elem_of_dom.
  - intros m m1 m2 [Hk Hn Hv Hs] [Hk' Hn' Hv' Hs']. split.
    + eauto.
    + intros j Hj. destruct (Hn j Hj) as [Hone|[-> Hone]]; [by apply Hn', not_elem_of_dom|right; eauto].
    + intros j Hj. by rewrite Hv', Hv.
    + by etrans.
Qed.
Lemma learn_at_most p m : with_at_most p m (learn (PeerInfo.node_id p) (node_of p) m).
Proof.
  split; [by intros; apply learn_keeps| |done|done]. intros j Hj. simpl. case_bool_decide as Hd.
  - left. by apply not_elem_of_dom.
  - destruct (decide (j = PeerInfo.node_id p)) as [->|Hne]; [right; by rewrite lookup_insert_eq|left].
    rewrite lookup_insert_ne by done. by apply not_elem_of_dom.
Qed.
Lemma vote_at_most p m : with_at_most p m (change (AddVoterIds {[ PeerInfo.node_id p ]}) m).
Proof. split; simpl; [done| |set_solver|set_solver]. intros j Hj. left. by apply not_elem_of_dom. Qed.

(** The membership of the leader before and after. *)
Abbreviation grows p w w' := (with_at_most p (members (leader w)) (members (leader w'))).
Lemma post_learner_grows c url p w r w' : peer_wf p ->
  http_post_learner c url (mkAddLearnerRequest (node_spec p)) w = (r, w') -> grows p w w'.
Proof.
  intros Hwf [->|(id & x & Ha)]%lost_learner; [done|]. apply learner_answer in Ha as [->|[_ ->]]; [|done..].
  apply learn_at_most.
Qed.
Lemma post_voters_grows c url p w r w' :
  http_post_voters c url (mkPromoteVotersRequest [PeerInfo.node_id p]) w = (r, w') -> grows p w w'.
Proof. intros [->|(id & x & Ha)]%lost_voters; [done|]. apply voters_answer in Ha as [->| ->]; [done|apply vote_at_most]. Qed.

Lemma join_inv c url p d w r w' : peer_wf p -> join_via_leader c url p d w = (r, w') ->
  grows p w w' /\ (r = Ok true -> PeerInfo.node_id p ∈ dom (nodes (members (leader w')))).
Proof.
  intros Hwf Hrun. unfold join_via_leader in Hrun.
  apply bind_inv in Hrun as [([code body] & w1 & (r0 & Hl & Hr)%with_err_inv & Hrun)|(e & (r0 & Hl & _)%with_err_inv & ->)].
  2: { split; [by eapply post_learner_grows|done]. }
  destruct r0 as [[code' body']|]; [|done]. injection Hr as <- <-. pose proof (post_learner_grows _ _ _ _ _ _ Hwf Hl) as Hg.
  apply bind_inv in Hrun as [(resp & w2 & [Hb ->]%lift_inv & Hrun)|(e & [_ ->]%lift_inv & ->)]; [|by split].
  destruct body as [resp'|]; [|done]. injection Hb as ->. apply served_learner in Hl as [id Hl].
  apply learner_answer in Hl; [|done].
  destruct (mr_success resp) eqn:Hok; simpl in Hrun; [|destruct (_ || _); injection Hrun as <- <-; by split].
  destruct Hl as [Hl|[Hl _]]; [|simpl in Hl; congruence].
  apply bind_inv in Hrun as [(u & w2 & [= _ <-] & Hrun)|(e & [=] & _)].
  assert (Hw2 : members (leader (raft_sleep d w1)) = members (leader w1)) by apply served_sleep.
  assert (Hin : forall w3, grows p (raft_sleep d w1) w3 ->
    grows p w w3 /\ PeerInfo.node_id p ∈ dom (nodes (members (leader w3)))).
  { intros w3 Hg3. rewrite Hw2 in Hg3. split; [by etrans|].
    assert (Hd : PeerInfo.node_id p ∈ dom (nodes (members (leader w1)))) by (rewrite Hl, learn_dom; set_solver).
    apply elem_of_dom in Hd as [n Hn]. apply elem_of_dom. eexists. by eapply wm_kept. }
  apply bind_inv in Hrun as [([code2 body2] & w3 & (r1 & Hv & _)%with_err_inv & Hrun)|(e & (r1 & Hv & _)%with_err_inv & ->)];
    apply post_voters_grows, Hin in Hv as [Hg3 Hd3]; [|by split].
  apply bind_inv in Hrun as [(resp2 & w4 & [_ ->]%lift_inv & [= <- <-])|(e & [_ ->]%lift_inv & ->)]; by split.
Qed.

Lemma status_grows c url p w r w' : get_cluster_status c url w = (r, w') -> grows p w w'.
Proof.
  unfold get_cluster_status. intros [([code body] & w1 & (r0 & Hg%served_status & _)%with_err_inv & Hrun)
    |(e & (r0 & ->%served_status & _)%with_err_inv & _)]%bind_inv; [|done].
  destruct (negb _); injection Hrun as _ <-; by rewrite Hg.
Qed.

Lemma try_join_inv c all p d peers errs w r w' : peer_wf p -> try_join_loop c all p d peers errs w = (r, w') ->
  grows p w w' /\ (r = Ok true -> PeerInfo.node_id p ∈ dom (nodes (members (leader w')))).
Proof.
  intros Hwf. revert errs w. induction peers as [|peer rest IH]; intros errs w; simpl.
  { case_bool_decide; intros [= <- <-]; by split. }
  destruct (parse_peer peer) as [info|]; [|by apply IH].
  destruct (get_cluster_status _ _ w) as [st w1] eqn:Hst. apply (status_grows _ _ p) in Hst.
  assert (Hthen : forall x, grows p w1 w' /\ x -> grows p w w' /\ x) by (intros x [Hone Htwo]; split; [by etrans|done]).
  destruct st as [status|e]; [|intros Hr; by eapply Hthen, IH].
  destruct (sr_current_leader status) as [l|]; [|intros Hr; by eapply Hthen, IH].
  destruct (l =? _)%N; [intros Hj; by eapply Hthen, join_inv|].
  destruct (find_peer l all) as [other|]; [intros Hj; by eapply Hthen, join_inv|intros Hr; by eapply Hthen, IH].
Qed.

Lemma join_loop_inv left attempt cfg p last w r w' : peer_wf p -> join_loop left attempt cfg p last w = (r, w') ->
  grows p w w' /\ (r = Ok true -> PeerInfo.node_id p ∈ dom (nodes (members (leader w')))).
Proof.
  intros Hwf. revert attempt last w. induction left as [|left IH]; intros attempt last w; simpl; [by intros [= <- <-]|].
  set (w0 := if (0 <? attempt)%N then _ else _).
  assert (Hw0 : members (leader w0) = members (leader w)) by (unfold w0; destruct (0 <? attempt)%N; [apply served_sleep|done]).
  destruct (try_join_cluster _ _ _ _ _) as [[b|e] w1] eqn:Ht; apply try_join_inv in Ht as [Hg Hd]; [|done| |done].
  - intros [= <- <-]. rewrite Hw0 in Hg. by split.
  - intros [Hg' Hd']%IH. rewrite Hw0 in Hg. split; [by etrans|done].
Qed.

(** C34. A node that joined is a member: when [auto_join] answers that it joined, the
    leader's membership has the node.  However it ends, compared with the leader's
    membership at the beginning every member is still there with its addresses and
    its vote, and at most this node was added, with its own addresses, and given a
    vote; so a node that was not known is a member with its own addresses when it
    has joined.  This is when nobody else changes the membership meanwhile
    ([ServedBy]).  A node that is a member already contacts nobody, and without
    seed nodes there is nobody to ask. *)
Theorem auto_join_exact cfg p w r w' : peer_wf p -> auto_join cfg p w = (r, w') ->
  let id := PeerInfo.node_id p in let m := members (leader w) in let m' := members (leader w') in
  (seed_nodes cfg = [] -> r = Err ScalingError.NoPeers /\ w' = w) /\
  (seed_nodes cfg <> [] -> is_member id w = true -> r = Ok false /\ w' = w) /\
  with_at_most p m m' /\
  (r = Ok true -> id ∈ dom (nodes m') /\ (id ∉ dom (nodes m) -> nodes m' !! id = Some (node_of p))).
Proof.
  intros Hwf Hrun. cbv zeta. revert Hrun. unfold auto_join. case_bool_decide as Hs.
  { intros [= <- <-]. by split_and!. }
  destruct (is_member _ w) eqn:Hm. { intros [= <- <-]. by split_and!. }
  intros [Hg Hd]%join_loop_inv; [|done]. split_and!; [done|done|done|]. intros Hr. split; [by apply Hd|].
  intros Hnew. destruct (wm_new _ _ _ Hg _ Hnew) as [Hnone|[_ ?]]; [|done].
  by apply Hd, elem_of_dom in Hr as [? ?]; congruence.
Qed.

(** *** Leaving *)
Context (node_id : N).

Lemma removed_inv c url w w' : remove_via_http c url node_id w = (Ok tt, w') ->
  node_id ∉ dom (nodes (members (leader w'))).
Proof.
  intros [([code body] & w1 & (r0 & Hd & Hr)%with_err_inv & Hrun)|(e & _ & [=])]%bind_inv.
  destruct r0 as [[code' body']|]; [|done]. injection Hr as <- <-.
  apply bind_inv in Hrun as [(resp & w2 & [Hb ->]%lift_inv & Hrun)|(e & _ & [=])].
  destruct body as [resp'|]; [|done]. injection Hb as ->. apply served_delete in Hd as [id Hd].
  apply http_remove_node_inv in Hd as [_ Hd]. simpl in Hd.
  destruct (mr_success resp); [|done]. injection Hrun as <-. destruct Hd as (_ & _ & _ & ->).
  unfold without. simpl. rewrite filter_dom_not. set_solver.
Qed.

Lemma known_inv c l peers w w' : remove_via_known c l node_id peers w = (true, w') ->
  node_id ∉ dom (nodes (members (leader w'))).
Proof.
  revert w. induction peers as [|peer rest IH]; intros w; simpl; [done|].
  destruct (parsed peer) as [info|]; [|by apply IH]. destruct (_ =? l)%N; [|by apply IH].
  destruct (remove_via_http _ _ _ w) as [[[]|e] w1] eqn:Hr; [|by apply IH]. intros [= <-]. by eapply removed_inv.
Qed.
Lemma any_inv c all peers b w b' w' : remove_via_any c node_id all peers b w = (true, b', w') ->
  node_id ∉ dom (nodes (members (leader w'))).
Proof.
  revert b w. induction peers as [|peer rest IH]; intros b w; simpl; [done|].
  destruct (parsed peer) as [info|]; [|by apply IH].
  destruct (get_cluster_status _ _ w) as [[status|e] w1]; [|by apply IH].
  destruct (sr_current_leader status) as [l|]; [|by apply IH].
  destruct (if (_ =? _)%N then _ else _) as [url|]; [|by apply IH].
  destruct (remove_via_http _ _ _ w1) as [[[]|e] w2] eqn:Hr; [|by apply IH]. intros [= _ <-]. by eapply removed_inv.
Qed.
Lemma removal_inv fuel deadline attempt c peers w w' :
  removal_loop fuel deadline attempt c node_id peers w = Some (Ok tt, w') ->
  node_id ∉ dom (nodes (members (leader w'))).
Proof.
  revert attempt w. induction fuel as [|fuel IH]; intros attempt w; simpl; [done|].
  destruct (_ =? 0)%N; [done|].
  destruct (match current_leader w with Some _ => _ | None => _ end) as [[] w1] eqn:Hk.
  { intros [= <-]. destruct (current_leader w); [by eapply known_inv|done]. }
  destruct (remove_via_any _ _ _ _ _ w1) as [[[] found] w2] eqn:Ha; [intros [= <-]; by eapply any_inv|].
  destruct found; apply IH.
Qed.

(** The clock of the process is finer than a millisecond: a millisecond is [res] of
    its units, and an HTTP exchange takes at least one of them. *)
Context `{!RaftHandleLaws W} (fine : W -> N) (res_pos : (0 < res)%N) (fine_clock : forall w, raft_now w = (fine w / res)%N).
Context (get_takes : forall c url w r w', http_get_status c url w = (r, w') -> (fine w < fine w')%N)
  (delete_takes : forall c url w r w', http_delete c url w = (r, w') -> (fine w < fine w')%N).

Lemma status_takes c url w r w' : get_cluster_status c url w = (r, w') -> (fine w < fine w')%N.
Proof.
  unfold get_cluster_status. intros [([code body] & w1 & (r0 & Hg%get_takes & _)%with_err_inv & Hrun)
    |(e & (r0 & Hg%get_takes & _)%with_err_inv & _)]%bind_inv; [|done].
  destruct (negb _); by injection Hrun as _ <-.
Qed.
Lemma remove_takes c url w r w' : remove_via_http c url node_id w = (r, w') -> (fine w < fine w')%N.
Proof.
  unfold remove_via_http. intros [([code body] & w1 & (r0 & Hg%delete_takes & _)%with_err_inv & Hrun)
    |(e & (r0 & Hg%delete_takes & _)%with_err_inv & _)]%bind_inv; [|done].
  apply bind_inv in Hrun as [(resp & w2 & [_ ->]%lift_inv & Hrun)|(e & [_ ->]%lift_inv & _)]; [|done].
  destruct (mr_success resp); by injection Hrun as _ <-.
Qed.
Lemma known_takes c l peers w b w' : remove_via_known c l node_id peers w = (b, w') -> (fine w <= fine w')%N.
Proof.
  revert w. induction peers as [|peer rest IH]; intros w; simpl; [intros [= _ <-]; lia|].
  destruct (parsed peer) as [info|]; [|by apply IH]. destruct (_ =? l)%N; [|by apply IH].
  destruct (remove_via_http _ _ _ w) as [[[]|e] w1] eqn:Hr; apply remove_takes in Hr; [intros [= _ <-]; lia|].
  intros Hk%IH. lia.
Qed.
Lemma any_takes c all peers b w r b' w' : remove_via_any c node_id all peers b w = (r, b', w') ->
  (fine w <= fine w')%N /\ (b' = true -> b = true \/ (fine w < fine w')%N).
Proof.
  revert b w. induction peers as [|peer rest IH]; intros b w; simpl; [intros [= <- <- <-]; split; [lia|by left]|].
  destruct (parsed peer) as [info|]; [|by apply IH].
  destruct (get_cluster_status _ _ w) as [[status|e] w1] eqn:Hg; apply status_takes in Hg;
    [|intros [Hle _]%IH; split; [lia|right; lia]].
  destruct (sr_current_leader status) as [l|]; [|intros [Hle _]%IH; split; [lia|right; lia]].
  destruct (if (_ =? _)%N then _ else _) as [url|]; [|intros [Hle _]%IH; split; [lia|right; lia]].
  destruct (remove_via_http _ _ _ w1) as [[[]|e] w2] eqn:Hr; apply remove_takes in Hr;
    [intros [= <- <- <-]; split; [lia|right; lia]|intros [Hle _]%IH; split; [lia|right; lia]].
Qed.

Lemma removal_delay_pos attempt : (0 < removal_delay attempt)%N.
Proof.
  unfold removal_delay, backoff_factor. cbv zeta. destruct (_ <? 32)%N; [|done].
  pose proof (N.pow_nonzero 2 (wrapN 32 (N.min attempt 5 + 2 ^ 32 - 1))). lia.
Qed.

Lemma fine_sleep ms w : (0 < ms)%N -> (fine w < fine (raft_sleep ms w))%N.
Proof.
  intros Hms. pose proof (raft_sleep_elapses ms w) as Hs. rewrite !fine_clock in Hs.
  destruct (N.le_gt_cases (fine (raft_sleep ms w)) (fine w)) as [Hle|]; [|done].
  apply (N.Div0.div_le_mono _ _ res) in Hle. lia.
Qed.
Lemma removal_total fuel deadline attempt c peers w : 0 < fuel -> (res * deadline < fine w + N.of_nat fuel)%N ->
  exists r w', removal_loop fuel deadline attempt c node_id peers w = Some (r, w').
Proof.
  revert attempt w. induction fuel as [|fuel IH]; intros attempt w Hpos Hd; [lia|]. simpl.
  destruct (N.eqb_spec (deadline - raft_now w) 0) as [|Hrem]; [by eauto|].
  assert (Hlate : (fine w < res * deadline)%N).
  { rewrite fine_clock in Hrem. destruct (N.le_gt_cases (res * deadline) (fine w)) as [Hle|]; [|done].
    apply (N.Div0.div_le_mono _ _ res) in Hle. rewrite (N.mul_comm res), N.div_mul in Hle by lia. lia. }
  destruct (match current_leader w with Some _ => _ | None => _ end) as [[] w1] eqn:Hk; [by eauto|].
  assert (Hw1 : (fine w <= fine w1)%N).
  { destruct (current_leader w); [by eapply known_takes|]. injection Hk as <-. lia. }
  destruct (remove_via_any _ _ _ _ _ w1) as [[[] found] w2] eqn:Ha; [by eauto|].
  apply any_takes in Ha as [Hle Hf]. apply IH; [lia|]. destruct found.
  - destruct Hf as [?|?]; [done|done|lia].
  - pose proof (removal_delay_pos (wrapN 32 (attempt + 1))).
    pose proof (fine_sleep (N.min (removal_delay (wrapN 32 (attempt + 1))) (deadline - raft_now w)) w2 ltac:(lia)). lia.
Qed.

Lemma transfer_total fuel start w : (start + 10000 < raft_now w + 100 * N.of_nat (fuel - 1))%N -> 0 < fuel ->
  (start <= raft_now w)%N -> exists r w', transfer_loop fuel node_id start w = Some (r, w').
Proof.
  revert w. induction fuel as [|fuel IH]; intros w Hf Hpos Hs; [lia|]. simpl.
  destruct (negb _); [by eauto|]. change (MAX_TRANSFER_WAIT_SECS * 1000)%N with 10000%N.
  destruct (N.ltb_spec 10000 (raft_now w - start)); [by eauto|].
  pose proof (raft_sleep_elapses 100 w). apply IH; lia.
Qed.

(** The last step of leaving. *)
Lemma leave_via_total cfg deadline w : cluster_node_id cfg = node_id ->
  exists r w', leave_via_leader res cfg deadline w = Some (r, w') /\ r <> Ok false /\
    (r = Ok true -> node_id ∉ dom (nodes (members (leader w')))).
Proof.
  intros Hid. unfold leave_via_leader. destruct (_ =? 0)%N; [by exists (Err ScalingError.Timeout), w|]. rewrite Hid. unfold request_removal_from_leader.
  destruct (removal_total (S (N.to_nat (res * (deadline - raft_now w)))) (raft_now w + (deadline - raft_now w)) 0
    (deadline - raft_now w) (seed_nodes cfg) w) as (r & w' & Hr); [apply Nat.lt_0_succ| |].
  { pose proof (N.Div0.mul_div_le (fine w) res) as Hm. rewrite <- fine_clock in Hm.
    rewrite N.mul_add_distr_l. lia. }
  rewrite Hr. simpl.
  do 2 eexists. split; [done|]. destruct r as [[]|e]; [|done]. split; [done|]. intros _. by eapply removal_inv.
Qed.

Lemma graceful_leave_spec cfg p : cluster_node_id cfg = node_id ->
  exists r p', graceful_leave res cfg p = Some (r, p') /\ CLUSTER_JOINED p' = true /\
    (r = Ok false <-> is_member node_id (world p) = false) /\
    (r = Ok true -> node_id ∉ dom (nodes (members (leader (world p')))) \/
       (is_leader node_id (world p) = true /\ length (cs_voters (get_status node_id (world p))) <= 1)).
Proof.
  intros Hid.
  assert (Hs : exists r w', leave_steps res cfg (world p) = Some (r, w') /\
    (r = Ok false <-> is_member node_id (world p) = false) /\
    (r = Ok true -> node_id ∉ dom (nodes (members (leader w'))) \/
       (is_leader node_id (world p) = true /\ length (cs_voters (get_status node_id (world p))) <= 1))).
  2: { destruct Hs as (r & w' & Hr & ? & ?). exists r, (mkProc w' true). unfold graceful_leave. simpl. by rewrite Hr. }
  unfold leave_steps. rewrite Hid. destruct (is_member node_id (world p)) eqn:Hm; cbn [negb]; [|by exists (Ok false), (world p)].
  assert (Hvia : forall deadline w, exists r w', leave_via_leader res cfg deadline w = Some (r, w') /\
    (r = Ok false <-> true = false) /\ (r = Ok true -> node_id ∉ dom (nodes (members (leader w'))) \/
       (is_leader node_id (world p) = true /\ length (cs_voters (get_status node_id (world p))) <= 1))).
  { intros deadline w. destruct (leave_via_total cfg deadline w Hid) as (r & w' & ? & ? & ?). exists r, w'. naive_solver. }
  destruct (is_leader node_id (world p)) eqn:Hl; [|apply Hvia].
  destruct (Nat.leb_spec (length (cs_voters (get_status node_id (world p)))) 1) as [Hone|Hone].
  - destruct (RaftNode.remove_node node_id (world p)) as [r w1]. do 2 eexists. split; [done|]. split; [done|]. auto.
  - destruct (RaftNode.remove_voters [node_id] (world p)) as [[u|e] w1]; [|do 2 eexists; split; [done|by split]].
    destruct (transfer_total 102 (raft_now w1) w1) as (r & w2 & Hr); [lia..|]. rewrite Hr. cbn [mbind option_bind].
    destruct r; [apply Hvia|]. do 2 eexists. split; [done|by split].
Qed.

(** A node that leaves is gone: [graceful_leave] returns, with the flag set that
    stops the worker from joining again.  [Ok false] means that the node was not
    a member; [Ok true] means that the leader's membership does not have it any
    more, unless it was the only voter, whose removal is only attempted. *)
Theorem graceful_leave_exact cfg p : cluster_node_id cfg = node_id ->
  exists r p', graceful_leave res cfg p = Some (r, p') /\ CLUSTER_JOINED p' = true /\
    (r = Ok false <-> is_member node_id (world p) = false) /\
    (r = Ok true -> node_id ∉ dom (nodes (members (leader (world p')))) \/
       (is_leader node_id (world p) = true /\ length (cs_voters (get_status node_id (world p))) <= 1)).
Proof. apply graceful_leave_spec. Qed.
End theory.

(** A node that leaves does not join again: once [graceful_leave] has begun, a
    turn of the worker, in whatever state of the world it comes, ends the worker
    without contacting anybody. *)
Theorem no_rejoin_after_leave {W} `{RaftHandle W, ClusterHttp W} res cfg self (p : Proc (W := W)) r p' fuel attempt w :
  graceful_leave res cfg p = Some (r, p') ->
  worker_loop (S fuel) attempt cfg self (mkProc w (CLUSTER_JOINED p'))
  = Some (mkProc (shutdown_received w).2 true).
Proof.
  unfold graceful_leave. destruct (leave_steps res cfg _) as [[r0 w0]|]; [|done]. intros [= <- <-]. simpl.
  destruct (shutdown_received w) as [[] w1]; [done|]. simpl. by destruct (is_member _ w1).
Qed.

(** The only voter cannot leave, and is told that it did. *)
Theorem single_voter_stays {W} `{RaftMembers W, ClusterHttp W} res cfg (p : Proc (W := W)) :
  let id := cluster_node_id cfg in
  is_member id (world p) = true -> is_leader id (world p) = true ->
  length (cs_voters (get_status id (world p))) <= 1 -> id ∈ voters (members (world p)) ->
  exists p', graceful_leave res cfg p = Some (Ok true, p') /\ members (world p') = members (world p).
Proof.
  intros id Hm Hl Hlen Hv. unfold graceful_leave, leave_steps. cbn [set_joined world]. fold id. rewrite Hm, Hl. simpl in *.
  rewrite (proj2 (Nat.leb_le _ _) Hlen). destruct (RaftNode.remove_node id (world p)) as [r w1] eqn:Hr. simpl.
  eexists. split; [done|]. simpl. by apply remove_nodes_members in Hr as [[? _]|[_ ?]].
Qed.

(** A refusal whose text has the word already counts as membership, whatever it
    refuses. *)
Lemma busy_leader_counts_as_joined {W} `{RaftHandle W, ClusterHttp W} c url self d (w w' : W) code :
  http_post_learner c (url +:+ "/cluster/members") (mkAddLearnerRequest (node_spec self)) w
    = (Ok (code, Ok (mkMembershipResponse false
        "Failed to add learner: the cluster is already undergoing a configuration change")), w') ->
  join_via_leader c url self d w = (Ok false, w').
Proof. intros Hp. unfold join_via_leader, mbind, M_bind, with_err. by rewrite Hp. Qed.

(** The pause before a retry doubles from half a second; beyond 56 attempts the
    product leaves [u64], and from the 63rd on it is zero. *)
Theorem join_delay_bounds attempt :
  ((1 <= attempt <= 56)%N -> join_delay attempt = (500 * 2 ^ (attempt - 1))%N) /\
  ((63 <= attempt)%N -> join_delay attempt = 0%N).
Proof.
  unfold join_delay, wrapN. split.
  - intros Ha. assert (Hp : (2 ^ (attempt - 1) <= 2 ^ 55)%N) by (apply N.pow_le_mono_r; lia).
    revert Hp. generalize (2 ^ (attempt - 1))%N. change (2 ^ 64)%N with (512 * 2 ^ 55)%N. intros x Hp.
    assert (Hb : (0 < 2 ^ 55)%N) by done. revert Hp Hb. generalize (2 ^ 55)%N. intros y Hp Hb.
    rewrite (N.mod_small x), N.mod_small by lia. done.
  - intros Ha. replace (attempt - 1)%N with (62 + (attempt - 63))%N by lia. rewrite N.pow_add_r.
    rewrite N.Div0.mul_mod_idemp_r. apply N.Lcm0.mod_divide. exists (125 * 2 ^ (attempt - 63))%N.
    generalize (2 ^ (attempt - 63))%N. intros x. change (2 ^ 64)%N with (4 * 2 ^ 62)%N. generalize (2 ^ 62)%N. intros y. lia.
Qed.

(** ** Witnesses

    Node 2 and, behind HTTP, the leader of the cluster, node 1. *)
Module ScalingWit.
Import MemRaft.
Record net : Type := mkNet { me : t; lead : t }.
Definition on_me {A} (c : t -> A * t) (w : net) : A * net := let '(a, s) := c (me w) in (a, mkNet s (lead w)).
Definition tick (s : t) : t := mk (mvoters s) (mnodes s) (clock s + 1) (MemRaft.leader s) (flight s).
Definition exchange {A} (c : t -> A * t) (w : net) : A * net := let '(a, s) := c (lead w) in (a, mkNet (tick (me w)) s).
#[local] Instance net_handle : RaftHandle net := {
  raft_metrics w := raft_metrics (me w);
  raft_current_leader w := raft_current_leader (me w);
  raft_now w := clock (me w);
  raft_sleep ms w := mkNet (raft_sleep ms (me w)) (lead w);
  raft_client_write c := on_me (raft_client_write c);
  raft_initialize ns := on_me (raft_initialize ns);
  raft_add_learner id n := on_me (raft_add_learner id n);
  raft_change_membership c := on_me (raft_change_membership c);
  raft_trigger_elect := on_me raft_trigger_elect;
  raft_ensure_linearizable := on_me raft_ensure_linearizable;
}.
#[local] Instance net_laws : RaftHandleLaws net.
Proof. intros ms w. simpl. lia. Qed.
Definition body {A} (x : N * A) : result string (N * result string A) := Ok (x.1, Ok x.2).
#[local] Instance net_http : ClusterHttp net := {
  http_get_status _ _ := exchange (fun s =>
    let st := get_status 1 s in
    (body (200%N, mkClusterStatusResponse 1 (cs_current_leader st) (cs_voters st) (cs_learners st)), s));
  http_post_learner _ _ req := exchange (fun s => let '(x, s') := Http.add_learner 1 req s in (body x, s'));
  http_post_voters _ _ req := exchange (fun s => let '(x, s') := Http.promote_voters 1 req s in (body x, s'));
  http_delete _ url := exchange (fun s =>
    match rsplit_once "/"%char url with
    | Some (_, id) => if String.eqb id "2" then let '(x, s') := Http.remove_node 1 2 s in (body x, s') else (Err "refused", s)
    | None => (Err "refused", s)
    end);
  status_text := show;
  shutdown_received w := (false, w);
  sleep_or_shutdown ms w := (false, raft_sleep ms w);
}.

Lemma exchanged {A} (c : t -> A * t) w a w' : exchange c w = (a, w') -> c (lead w) = (a, lead w').
Proof. unfold exchange. destruct (c (lead w)) as [x s]. by intros [= <- <-]. Qed.
Lemma served {A} (h : t -> (N * A) * t) w code resp w' :
  exchange (fun s => let '(x, s') := h s in (body x, s')) w = (Ok (code, Ok resp), w') ->
  h (lead w) = ((code, resp), lead w').
Proof. intros Hx%exchanged. destruct (h (lead w)) as [[c r] s]. by injection Hx as -> -> ->. Qed.
#[local] Instance net_served : ServedBy lead.
Proof.
  split.
  - intros c url req w code resp w' Hx. exists 1%N. exact (served _ _ _ _ _ Hx).
  - intros c url req w code resp w' Hx. exists 1%N. exact (served _ _ _ _ _ Hx).
  - intros c url n w code resp w' Hx. unfold http_delete, net_http in Hx. apply exchanged in Hx. exists 1%N.
    replace (url +:+ "/cluster/members/" +:+ show n) with ((url +:+ "/cluster/members") +:+ String "/"%char (show n)) in Hx
      by (by rewrite <- (assoc_L String.append)).
    rewrite rsplit_once_app in Hx by (by apply show_no_char).
    destruct (String.eqb_spec (show n) "2") as [He|]; [|done]. change "2" with (show 2%N) in He. unfold show in He. apply (inj pretty) in He as ->.
    destruct (Http.remove_node 1 2 (lead w)) as [[a b] s]. by injection Hx as -> -> ->.
  - done.
  - intros c url w r w' Hx. unfold http_get_status, net_http in Hx. apply exchanged in Hx. by injection Hx as _ <-.
  - intros c url req w r w' Hx. unfold http_post_learner, net_http in Hx. apply exchanged in Hx. right. exists 1%N.
    destruct (Http.add_learner 1 req (lead w)) as [x s].
    injection Hx as _ <-. by exists x.
  - intros c url req w r w' Hx. unfold http_post_voters, net_http in Hx. apply exchanged in Hx. right. exists 1%N.
    destruct (Http.promote_voters 1 req (lead w)) as [x s].
    injection Hx as _ <-. by exists x.
Qed.

Definition cluster0 : t := mk {[ 1%N ]} {[ 1%N := mkSaveNode "http://n1:9001" "http://n1:9000" "http://n1:9002" ]} 0 (Some 1%N) 0.
Definition peer2 : PeerInfo.t := PeerInfo.mk 2 "n2" 9001 9000 9002.
Definition cfg2 : ClusterConfig :=
  let d := ClusterConfig_default in
  mkClusterConfig 2 (raft_bind_addr d) ["1:n1:9001:9000:9002"] (consistency_mode d) (connect_timeout_secs d)
    (rpc_timeout_secs d) (heartbeat_interval_ms d) (election_timeout_min_ms d) (election_timeout_max_ms d)
    (join_timeout_secs d) (leave_timeout_secs d) (learner_catchup_delay_ms d) (join_max_retries d) (replication d)
    (internal_api d).
Definition w0 : net := mkNet empty cluster0.
Definition w1 : net := (auto_join cfg2 peer2 w0).2.
Lemma joined_run : auto_join cfg2 peer2 w0 = (Ok true, w1).
Proof. apply run_eq. vm_compute. reflexivity. Qed.
Lemma peer2_wf : peer_wf peer2.
Proof. by vm_compute. Qed.
Lemma auto_join_exact_witness : 2%N ∈ dom (nodes (members (lead w1))).
Proof.
  exact (proj1 (proj2 (proj2 (proj2 (auto_join_exact lead cfg2 peer2 w0 (Ok true) w1 peer2_wf joined_run))) eq_refl)).
Defined.

(** The node that leaves has learned the membership. *)
Definition p1 : Proc := mkProc (mkNet (lead w1) (lead w1)) true.
Lemma exchange_takes {A} (c : t -> A * t) w a w' : exchange c w = (a, w') -> (raft_now w < raft_now w')%N.
Proof. unfold exchange. destruct (c (lead w)) as [x s]. intros [= _ <-]. simpl. unfold tick. simpl. lia. Qed.
Lemma get_takes c url (w : net) r w' : http_get_status c url w = (r, w') -> (raft_now w < raft_now w')%N.
Proof. exact (exchange_takes _ w r w'). Qed.
Lemma delete_takes c url (w : net) r w' : http_delete c url w = (r, w') -> (raft_now w < raft_now w')%N.
Proof. exact (exchange_takes _ w r w'). Qed.
Lemma ms_clock (w : net) : raft_now w = (raft_now w / 1)%N.
Proof. by rewrite N.div_1_r. Qed.
Definition left_run : option (result ScalingError.t bool * Proc) := graceful_leave 1 cfg2 p1.
Lemma left_answer : fst <$> left_run = Some (Ok true).
Proof. vm_compute. reflexivity. Qed.
Lemma graceful_leave_exact_witness : exists p, left_run = Some (Ok true, p) /\ 2%N ∉ dom (nodes (members (lead (world p)))).
Proof.
  destruct (graceful_leave_exact lead 1 2 raft_now ltac:(lia) ms_clock get_takes delete_takes cfg2 p1 eq_refl) as (r & p & Hrun & _ & _ & Hok).
  pose proof left_answer as Ha. unfold left_run in *. rewrite Hrun in Ha. injection Ha as ->. exists p.
  split; [exact Hrun|]. destruct (Hok eq_refl) as [?|[Hl _]]; [done|]. vm_compute in Hl. done.
Defined.
Lemma no_rejoin_after_leave_witness : exists p' : Proc (W := net), CLUSTER_JOINED p' = true /\
  worker_loop 1 0 cfg2 peer2 (mkProc w0 (CLUSTER_JOINED p')) = Some (mkProc w0 true).
Proof.
  destruct (graceful_leave 1 cfg2 p1) as [[r p']|] eqn:Hrun.
  - exists p'. split; [|exact (no_rejoin_after_leave 1 cfg2 peer2 p1 r p' 0 0 w0 Hrun)].
    revert Hrun. unfold graceful_leave. destruct (leave_steps _ _) as [[]|]; [|done]. by intros [= <- <-].
  - exfalso. pose proof left_answer as Ha. unfold left_run in Ha. by rewrite Hrun in Ha.
Defined.
End ScalingWit.
