(* ===== verification/Readiness.v ===== *)
(** * save-api: health and readiness

    Models [crates/save-api/src/handlers/health/liveness.rs] and
    [readiness.rs] (on a Unix system).  The clock, [statvfs], the time of the
    last garbage collection and the formatting of [f64] are arguments; integers
    have the arithmetic of [u64] and [i64], fractions that of [f64]. *)
From Stdlib Require Import Strings.Byte SpecFloat ZArith.
From S2P Require Import Prelude Common Peers Config Retry Kv Fs Buckets Objects Locks StateMachine RaftTypes RaftRpc RaftNode.
From S2P Require Import MetadataStore ClusterApi.
From stdpp Require Import base gmap strings numbers list.

Inductive ComponentStatus : Type := Healthy | Degraded | Unhealthy.
#[export] Instance ComponentStatus_eq_dec : EqDecision ComponentStatus.
Proof. solve_decision. Defined.
Record ComponentHealth : Type := mkComponentHealth {
  ch_status : ComponentStatus; ch_message : option string; ch_details : option (gmap string string) }.
Record ReadinessResponse : Type := mkReadinessResponse {
  rd_status : ComponentStatus; rd_timestamp : Z; rd_components : gmap string ComponentHealth }.
Record HealthResponse : Type := mkHealthResponse { hr_status : string; hr_timestamp : Z; hr_uptime_seconds : N }.

Definition health_check (now : Z) (uptime : N) : HealthResponse := mkHealthResponse "ok" now uptime.

Definition show_bool (b : bool) : string := if b then "true" else "false".
Definition show_Z (z : Z) : string := if (z <? 0)%Z then "-" +:+ show (Z.to_N (- z)) else show (Z.to_N z).
(** The value of a number in [i64]. *)
Definition i64 (z : Z) : Z := ((z + 2 ^ 63) mod 2 ^ 64 - 2 ^ 63)%Z.

(** ** Disk space *)
Record Statvfs : Type := mkStatvfs { blocks : N; blocks_available : N; block_size : N }.
Definition f64_div : spec_float -> spec_float -> spec_float := SFdiv F64.prec F64.emax.
Definition f64_sub : spec_float -> spec_float -> spec_float := SFsub F64.prec F64.emax.

Definition used_percent (stat : Statvfs) : spec_float :=
  let total_bytes := wrapN 64 (blocks stat * block_size stat) in
  let available_bytes := wrapN 64 (blocks_available stat * block_size stat) in
  let used_bytes := wrapN 64 (total_bytes + 2 ^ 64 - available_bytes) in
  F64.mul (f64_div (F64.of_N used_bytes) (F64.of_N total_bytes)) (F64.of_N 100).
Definition disk_status (available_percent : spec_float) : ComponentStatus * string :=
  if F64.lt available_percent (F64.of_N 5) then (Unhealthy, "Critical: Less than 5% disk space available")
  else if F64.lt available_percent (F64.of_N 10) then (Degraded, "Warning: Less than 10% disk space available")
  else (Healthy, "Sufficient disk space available").

(** ** Garbage collection *)
Definition gc_status (since interval : Z) : ComponentStatus * string :=
  let max_expected_interval := i64 (interval * 2) in
  if (i64 (max_expected_interval * 2) <? since)%Z then
    (Unhealthy, "GC worker hasn't run in " +:+ show_Z since +:+ " seconds")
  else if (max_expected_interval <? since)%Z then
    (Degraded, "GC worker delayed, last run " +:+ show_Z since +:+ " seconds ago")
  else (Healthy, "GC worker operational").

(** ** The components *)
Section readiness.
Context {DB F RS : Type} `{RocksDB DB, Codec Bucket} `{FileSystem F} `{RaftHandle RS}.
Context (config : SaveConfig) (data_path : PathBuf) (join_error : DB -> option (string * DB)).
(** [format!("{:.n}", x)]. *)
Context (fixed : nat -> spec_float -> string).

(** What the handler sees and changes; the Raft node is only read. *)
Record Probe : Type := mkProbe { pb_db : DB; pb_fs : F; pb_raft : RS }.

Definition healthy (msg : string) : ComponentHealth := mkComponentHealth Healthy (Some msg) None.
Definition unhealthy (msg : string) : ComponentHealth := mkComponentHealth Unhealthy (Some msg) None.

Definition check_rocksdb (d : DB) : ComponentHealth * DB :=
  match MetadataStore.list_buckets join_error d with
  | (Ok _, d') => (healthy "RocksDB operational", d')
  | (Err e, d') => (unhealthy ("RocksDB error: " +:+ MetadataError_to_string e), d')
  end.

Definition test_path : PathBuf := path_join data_path ".health_check".
(** [fs::write]: the file is created and written. *)
Definition check_filesystem (f : F) : ComponentHealth * F :=
  match (fs_create test_path ;; fs_write_all test_path (String.list_byte_of_string "health_check")) f with
  | (Ok _, f1) => let '(_, f2) := fs_remove_file test_path f1 in (healthy "Filesystem writable", f2)
  | (Err e, f1) => (unhealthy ("Filesystem error: " +:+ io_msg e), f1)
  end.

Definition check_disk_space (statvfs : result string Statvfs) : ComponentHealth :=
  match statvfs with
  | Ok stat =>
      let total_bytes := wrapN 64 (blocks stat * block_size stat) in
      let available_bytes := wrapN 64 (blocks_available stat * block_size stat) in
      let giga := F64.of_N 1000000000 in
      let details := <["used_percent" := fixed 1 (used_percent stat)]>
        (<["available_gb" := fixed 2 (f64_div (F64.of_N available_bytes) giga)]>
        (<["total_gb" := fixed 2 (f64_div (F64.of_N total_bytes) giga)]> ∅)) in
      let '(status, message) := disk_status (f64_sub (F64.of_N 100) (used_percent stat)) in
      mkComponentHealth status (Some message) (Some details)
  | Err e => mkComponentHealth Degraded (Some ("Could not check disk space: " +:+ e)) None
  end.

Definition check_cluster_membership (is_joined : bool) (s : RS) : ComponentHealth :=
  let node_id := cluster_node_id (cluster config) in
  let raft_status := get_status node_id s in
  let is_voter := bool_decide (node_id ∈ cs_voters raft_status) in
  let is_learner := bool_decide (node_id ∈ cs_learners raft_status) in
  let is_raft_member := is_voter || is_learner in
  let details := <["voters" := debug_ids (cs_voters raft_status)]> (<["is_voter" := show_bool is_voter]>
    (<["node_id" := show node_id]> ∅)) in
  if is_raft_member then
    mkComponentHealth Healthy (Some ("Cluster member (" +:+ (if is_voter then "voter" else "learner") +:+ ")")) (Some details)
  else if is_joined then
    mkComponentHealth Degraded (Some "Marked as joined but not in current membership") (Some details)
  else if negb (bool_decide (seed_nodes (cluster config) = [])) then
    mkComponentHealth Unhealthy (Some "Waiting to join cluster") (Some details)
  else mkComponentHealth Degraded (Some "Initializing cluster") (Some details).

Definition check_gc_worker (gc_last_run now_secs : Z) : ComponentHealth :=
  if (gc_last_run =? 0)%Z then healthy "GC worker not yet run (system recently started)"
  else
    let time_since_last_run := i64 (now_secs - gc_last_run) in
    let gc_interval := i64 (Z.of_N (gc_interval_secs (storage config))) in
    let details := <["gc_interval_seconds" := show_Z gc_interval]>
      (<["last_run_seconds_ago" := show_Z time_since_last_run]> ∅) in
    let '(status, message) := gc_status time_since_last_run gc_interval in
    mkComponentHealth status (Some message) (Some details).

Definition any_is (st : ComponentStatus) (components : gmap string ComponentHealth) : bool :=
  existsb (fun c => bool_decide (ch_status c = st)) (map_to_list components).*2.
Definition overall (components : gmap string ComponentHealth) : ComponentStatus :=
  if any_is Unhealthy components then Unhealthy
  else if any_is Degraded components then Degraded
  else Healthy.

Definition readiness_check (statvfs : result string Statvfs) (gc_last_run : Z) (is_joined : bool) (now : Z) (p : Probe)
  : (N * ReadinessResponse) * Probe :=
  let '(rocksdb, d) := check_rocksdb (pb_db p) in
  let '(filesystem, f) := check_filesystem (pb_fs p) in
  let components := <["cluster_membership" := check_cluster_membership is_joined (pb_raft p)]>
    (<["gc_worker" := check_gc_worker gc_last_run now]> (<["disk_space" := check_disk_space statvfs]>
    (<["filesystem" := filesystem]> (<["rocksdb" := rocksdb]> ∅)))) in
  let overall_status := overall components in
  let status_code := if bool_decide (overall_status = Unhealthy) then 503%N else 200%N in
  ((status_code, mkReadinessResponse overall_status now components), mkProbe d f (pb_raft p)).
End readiness.
Arguments mkProbe {DB F RS}. Arguments pb_db {DB F RS}. Arguments pb_fs {DB F RS}. Arguments pb_raft {DB F RS}.

(** ** Properties *)
Lemma any_is_spec st m : any_is st m = true <-> exists k c, m !! k = Some c /\ ch_status c = st.
Proof.
  unfold any_is. rewrite existsb_exists. split.
  - intros (c & Hc & Hst%bool_decide_eq_true). apply list_elem_of_In, list_elem_of_fmap in Hc as ([k c'] & -> & Hkc).
    apply elem_of_map_to_list in Hkc. eauto.
  - intros (k & c & Hk & Hst). exists c. split; [|by apply bool_decide_eq_true].
    apply list_elem_of_In, list_elem_of_fmap. exists (k, c). by rewrite elem_of_map_to_list.
Qed.

Lemma overall_spec m : (overall m = Unhealthy <-> exists k c, m !! k = Some c /\ ch_status c = Unhealthy) /\
  (overall m = Healthy <-> forall k c, m !! k = Some c -> ch_status c = Healthy).
Proof.
  unfold overall. pose proof (any_is_spec Unhealthy m) as HU. pose proof (any_is_spec Degraded m) as HD.
  assert (Hfound : forall st, st <> Healthy -> (exists k c, m !! k = Some c /\ ch_status c = st) ->
    ~ forall k c, m !! k = Some c -> ch_status c = Healthy).
  { intros st Hst (k & c & Hk & Hc) Hall. rewrite (Hall _ _ Hk) in Hc. done. }
  destruct (any_is Unhealthy m).
  - split; [split; [intros _; by apply HU|done]|]. split; [done|]. intros Hall. by destruct (Hfound Unhealthy); [|apply HU|].
  - split; [split; [by destruct (any_is Degraded m)|by intros ?%HU]|]. destruct (any_is Degraded m).
    + split; [done|]. intros Hall. by destruct (Hfound Degraded); [|apply HD|].
    + split; [|done]. intros _ k c Hk. destruct (ch_status c) eqn:Hc; [done| |]; exfalso.
      * by assert (false = true) by (apply HD; eauto).
      * by assert (false = true) by (apply HU; eauto).
Qed.

Section theory.
Context {DB F RS : Type} `{RocksDB DB, Codec Bucket} `{FileSystemLaws F} `{RaftHandle RS}.
Context (config : SaveConfig) (data_path : PathBuf) (join_error : DB -> option (string * DB)) (fixed : nat -> spec_float -> string).

Definition write_probe : M F io_error unit :=
  fs_create (test_path data_path) ;; fs_write_all (test_path data_path) (String.list_byte_of_string "health_check").

Lemma write_probe_frame : keeps (same_but (test_path data_path)) write_probe.
Proof.
  intros f r f' [([] & g & Hc & Hw)|(e & Hc & ->)]%bind_inv; [|by eapply create_frame].
  trans g; [by eapply create_frame|]. apply fs_create_ok in Hc. destruct r as [[]|e]; [|by eapply fs_write_err].
  unfold same_but. eapply fs_write_ok in Hw as ->; [|by rewrite Hc, lookup_insert_eq]. apply delete_insert_eq.
Qed.

Lemma check_filesystem_spec f c f' : check_filesystem data_path f = (c, f') ->
  same_but (test_path data_path) f f' /\ ch_status c = if is_ok (write_probe f).1 then Healthy else Unhealthy.
Proof.
  unfold check_filesystem. fold write_probe. destruct (write_probe f) as [[u|e] g] eqn:Hw; apply write_probe_frame in Hw.
  - destruct (fs_remove_file _ g) as [r h] eqn:Hr. intros [= <- <-]. split; [|done]. trans g; [done|]. by eapply remove_frame.
  - intros [= <- <-]. done.
Qed.

Lemma exists_insert (P : ComponentHealth -> Prop) (k : string) x (m : gmap string ComponentHealth) : m !! k = None ->
  (exists k' c, <[k := x]> m !! k' = Some c /\ P c) <-> P x \/ exists k' c, m !! k' = Some c /\ P c.
Proof.
  intros Hk. split.
  - intros (k' & c & [[<- <-]|[Hne Hc]]%lookup_insert_Some & HP); eauto.
  - intros [HP|(k' & c & Hc & HP)]; [exists k, x; by rewrite lookup_insert_eq|].
    exists k', c. rewrite lookup_insert_ne; [done|congruence].
Qed.

Lemma rocksdb_unhealthy d c d' : check_rocksdb join_error d = (c, d') ->
  ch_status c = Unhealthy <-> is_ok (MetadataStore.list_buckets join_error d).1 = false.
Proof. unfold check_rocksdb. destruct (MetadataStore.list_buckets join_error d) as [[l|e] g]; by intros [= <- <-]. Qed.
Lemma disk_unhealthy statvfs : ch_status (check_disk_space fixed statvfs) = Unhealthy <->
  exists stat, statvfs = Ok stat /\ F64.lt (f64_sub (F64.of_N 100) (used_percent stat)) (F64.of_N 5) = true.
Proof.
  destruct statvfs as [stat|e]; unfold check_disk_space; [|naive_solver].
  assert (Hd : forall av, (disk_status av).1 = Unhealthy <-> F64.lt av (F64.of_N 5) = true).
  { intros av. unfold disk_status. destruct (F64.lt av (F64.of_N 5)); [done|]. by destruct (F64.lt av (F64.of_N 10)). }
  specialize (Hd (f64_sub (F64.of_N 100) (used_percent stat))). destruct (disk_status _) as [st msg]. simpl in *.
  rewrite Hd. split; [eauto|]. by intros (s & [= <-] & Hs).
Qed.
Lemma gc_unhealthy last now : ch_status (check_gc_worker config last now) = Unhealthy <->
  last <> 0%Z /\ (gc_status (i64 (now - last)) (i64 (Z.of_N (gc_interval_secs (storage config))))).1 = Unhealthy.
Proof.
  unfold check_gc_worker. destruct (Z.eqb_spec last 0); [naive_solver|].
  destruct (gc_status _ _) as [st msg]. simpl. naive_solver.
Qed.
Lemma membership_unhealthy joined (s : RS) :
  let id := cluster_node_id (cluster config) in
  ch_status (check_cluster_membership config joined s) = Unhealthy <->
  bool_decide (id ∈ cs_voters (get_status id s) \/ id ∈ cs_learners (get_status id s)) = false /\
  joined = false /\ seed_nodes (cluster config) <> [].
Proof.
  intros id. unfold check_cluster_membership. fold id. rewrite bool_decide_or.
  destruct (bool_decide (id ∈ cs_voters _) || bool_decide (id ∈ cs_learners _)); [naive_solver|].
  destruct joined; [naive_solver|]. case_bool_decide; simpl; naive_solver.
Qed.

Lemma code_spec st : (if bool_decide (st = Unhealthy) then 503%N else 200%N) = 503%N <-> st = Unhealthy.
Proof. by destruct st. Qed.

(** Readiness: [503] means exactly that the metadata could not be listed, the
    data directory not be written, the disk is nearly full, the collector is
    overdue by more than four intervals, or the node waits to join the cluster
    of its seed nodes; [Healthy] means that no component has a complaint.  The
    check changes no file but its own. *)
Theorem readiness_exact statvfs gc_last joined now p x p' :
  readiness_check config data_path join_error fixed statvfs gc_last joined now p = (x, p') ->
  let id := cluster_node_id (cluster config) in
  let member := bool_decide (id ∈ cs_voters (get_status id (pb_raft p)) \/ id ∈ cs_learners (get_status id (pb_raft p))) in
  same_but (test_path data_path) (pb_fs p) (pb_fs p') /\
  (x.1 = 503%N \/ x.1 = 200%N) /\
  (x.1 = 503%N <->
     is_ok (MetadataStore.list_buckets join_error (pb_db p)).1 = false \/
     is_ok (write_probe (pb_fs p)).1 = false \/
     (exists stat, statvfs = Ok stat /\ F64.lt (f64_sub (F64.of_N 100) (used_percent stat)) (F64.of_N 5) = true) \/
     (gc_last <> 0%Z /\
      (gc_status (i64 (now - gc_last)) (i64 (Z.of_N (gc_interval_secs (storage config))))).1 = Unhealthy) \/
     (member = false /\ joined = false /\ seed_nodes (cluster config) <> [])) /\
  (rd_status x.2 = Healthy <-> forall k c, rd_components x.2 !! k = Some c -> ch_status c = Healthy).
Proof.
  unfold readiness_check. destruct (check_rocksdb join_error (pb_db p)) as [c1 d] eqn:Hdb.
  destruct (check_filesystem data_path (pb_fs p)) as [c2 f] eqn:Hfs. set (m := <["cluster_membership" := _]> _).
  intros [= <- <-]. cbn [fst snd pb_fs rd_status rd_components].
  apply check_filesystem_spec in Hfs as [Hf Hfs]. apply rocksdb_unhealthy in Hdb. destruct (overall_spec m) as [HU HH].
  split_and!; [done|case_bool_decide; auto| |done].
  rewrite (code_spec (overall m)), HU. unfold m.
  rewrite !exists_insert by (by rewrite ?lookup_insert_ne by done).
  rewrite Hdb, disk_unhealthy, gc_unhealthy, membership_unhealthy, Hfs.
  assert (He : ~ exists (k : string) (c : ComponentHealth), (∅ : gmap string ComponentHealth) !! k = Some c /\ ch_status c = Unhealthy).
  { intros (k & c & Hk & _). by rewrite lookup_empty in Hk. }
  assert (Hb : forall b : bool, (if b then Healthy else Unhealthy) = Unhealthy <-> b = false) by (by intros []).
  rewrite Hb. clear -He. match goal with |- (?A \/ ?B \/ ?C \/ ?D \/ ?E \/ ?X) <-> _ =>
    generalize dependent X; generalize A, B, C, D, E end. intros. tauto.
Qed.
End theory.

(** ** Witness *)
Module ReadyWit.
Import Mem MemRaft MemFs.
(** A node that has seed nodes and has not joined. *)
Definition cfg : SaveConfig :=
  let d := ClusterConfig_default in
  mkSaveConfig (mkServerConfig DEFAULT_HTTP_BIND default_max_body_size 4 512 60 60)
    (mkStorageConfig "/data" "/meta" None 600 3600 "data") MetadataConfig_default
    (mkCredentialsConfig "ak" "sk") LimitsConfig_default ShutdownConfig_default
    (mkClusterConfig 2 (raft_bind_addr d) ["1:n1:9001:9000:9002"] (consistency_mode d) (connect_timeout_secs d)
      (rpc_timeout_secs d) (heartbeat_interval_ms d) (election_timeout_min_ms d) (election_timeout_max_ms d)
      (join_timeout_secs d) (leave_timeout_secs d) (learner_catchup_delay_ms d) (join_max_retries d) (replication d)
      (internal_api d)).
Definition disk : MemFs.t := (fs_create_dir_all ["data"] MemFs.empty).2.
Definition check (joined : bool) : (N * ReadinessResponse) * Probe (DB := Mem.t) (F := MemFs.t) (RS := MemRaft.t) :=
  readiness_check cfg ["data"] (fun _ => None) (fun _ _ => "") (Ok (mkStatvfs 100 50 4096)) 0 joined 1000
    (mkProbe Mem.empty disk MemRaft.empty).
Lemma readiness_exact_witness : (check false).1.1 = 503%N.
Proof.
  refine (proj2 (proj1 (proj2 (proj2 (readiness_exact cfg ["data"] (fun _ => None) (fun _ _ => "")
    (Ok (mkStatvfs 100 50 4096)) 0 false 1000 (mkProbe Mem.empty disk MemRaft.empty)
    (check false).1 (check false).2 (surjective_pairing _))))) _).
  right. right. right. right. split; [vm_compute; reflexivity|]. split; [reflexivity|done].
Defined.
Example ready_once_joined : (check true).1.1 = 200%N /\ rd_status (check true).1.2 = Degraded.
Proof. vm_compute. done. Qed.
End ReadyWit.
