(* ===== verification/Metrics.v ===== *)
(** * save-api: metrics

    Models [crates/save-api/src/metrics/] and the collection of metrics in
    [lib.rs] and [handlers/health/metrics.rs], and the places in the rest of the
    program that use a metric directly.  Prometheus is the interface
    [Prometheus]: the registry, its metrics by name and labels, and its text.  A
    metric's function registers it once, in a [OnceLock]; an action on the
    registry is [None] when it panics, because a name is taken or because the
    number of labels is wrong.  Overflow is that of a release build. *)
From Stdlib Require Import Strings.Byte Ascii SpecFloat ZArith.
From S2P Require Import Prelude Common Peers Config Retry Kv Fs ObjectStorage FsDirs Locks StateMachine RaftTypes.
From S2P Require Import RaftNode S3Xml Api Cluster Readiness.
From stdpp Require Import base gmap strings numbers list.

(** ** The metrics *)
Inductive Kind : Type := IntGauge | IntGaugeVec | GaugeVec | IntCounter | IntCounterVec | HistogramVec.
#[export] Instance Kind_eq_dec : EqDecision Kind.
Proof. solve_decision. Defined.
Record Metric : Type := mkMetric {
  m_name : string; m_help : string; m_kind : Kind; m_labels : list string; m_buckets : list spec_float }.
#[export] Instance spec_float_eq_dec : EqDecision spec_float.
Proof. solve_decision. Defined.
#[export] Instance Metric_eq_dec : EqDecision Metric.
Proof. solve_decision. Defined.
#[export] Instance RaftState_eq_dec : EqDecision RaftState.
Proof. solve_decision. Defined.

(** The literal of a decimal fraction is the float nearest to it. *)
Definition dec (a b : N) : spec_float := f64_div (F64.of_N a) (F64.of_N b).
Definition KB : spec_float := F64.of_N 1024.
Definition MB : spec_float := F64.mul (F64.of_N 1024) KB.
Definition GB : spec_float := F64.mul (F64.of_N 1024) MB.

(** *** [metrics/http.rs] *)
Definition http_requests_total : Metric := mkMetric "save_http_requests_total"
  "Total number of HTTP requests" IntCounterVec ["endpoint"; "method"; "status"] [].
Definition http_request_duration_seconds : Metric := mkMetric "save_http_request_duration_seconds"
  "HTTP request latency in seconds" HistogramVec ["endpoint"; "method"]
    [dec 1 1000; dec 5 1000; dec 1 100; dec 25 1000; dec 5 100; dec 1 10; dec 25 100; dec 5 10; F64.of_N 1; dec
     25 10; F64.of_N 5; F64.of_N 10].
Definition object_size_bytes : Metric := mkMetric "save_object_size_bytes"
  "Size of objects in bytes" HistogramVec ["operation"]
    [KB; F64.mul (F64.of_N 10) KB; F64.mul (F64.of_N 100) KB; MB; F64.mul (F64.of_N 10) MB; F64.mul (F64.of_N
     100) MB; GB; F64.mul (F64.of_N 10) GB].
Definition response_size_bytes : Metric := mkMetric "save_response_size_bytes"
  "Size of HTTP responses in bytes" HistogramVec ["endpoint"]
    [KB; F64.mul (F64.of_N 10) KB; F64.mul (F64.of_N 100) KB; MB; F64.mul (F64.of_N 10) MB; F64.mul (F64.of_N
     100) MB; GB].
Definition multipart_uploads_in_progress : Metric := mkMetric "save_multipart_uploads_in_progress"
  "Number of multipart uploads currently in progress" IntGauge [] [].
Definition atomic_put_operations_total : Metric := mkMetric "save_atomic_put_operations_total"
  "Total number of atomic PUT operations" IntCounterVec ["stage"; "result"] [].
Definition multipart_cleanup_failures_total : Metric := mkMetric "save_multipart_cleanup_failures_total"
  "Total number of multipart cleanup failures" IntCounter [] [].
Definition auth_events_total : Metric := mkMetric "save_auth_events_total"
  "Total number of authentication events" IntCounterVec ["result"; "reason"] [].
Definition in_flight_requests : Metric := mkMetric "save_in_flight_requests"
  "Number of requests currently being processed" IntGauge [] [].
Definition errors_total : Metric := mkMetric "save_errors_total"
  "Total number of errors" IntCounterVec ["error_type"; "endpoint"] [].
Definition http_metrics : list Metric :=
  [http_requests_total; http_request_duration_seconds; object_size_bytes; response_size_bytes;
   multipart_uploads_in_progress; atomic_put_operations_total; multipart_cleanup_failures_total;
   auth_events_total; in_flight_requests; errors_total].

(** *** [metrics/storage.rs] *)
Definition gc_files_deleted_total : Metric := mkMetric "save_gc_files_deleted_total"
  "Total number of files deleted by garbage collection" IntCounter [] [].
Definition gc_errors_total : Metric := mkMetric "save_gc_errors_total"
  "Total number of garbage collection errors" IntCounter [] [].
Definition gc_last_run_seconds : Metric := mkMetric "save_gc_last_run_seconds"
  "Unix timestamp of the last garbage collection run" IntGauge [] [].
Definition gc_cycles_total : Metric := mkMetric "save_gc_cycles_total"
  "Total number of garbage collection cycles" IntCounterVec ["result"] [].
Definition disk_usage_bytes : Metric := mkMetric "save_disk_usage_bytes"
  "Disk usage in bytes" GaugeVec ["path"; "type"] [].
Definition rocksdb_stats : Metric := mkMetric "save_rocksdb_stats" "RocksDB statistics" IntGaugeVec ["stat"] [].
Definition temp_files_count : Metric := mkMetric "save_temp_files_count"
  "Number of temporary files in the temp directory" IntGauge [] [].
Definition temp_files_size_bytes : Metric := mkMetric "save_temp_files_size_bytes"
  "Total size of temporary files in bytes" IntGauge [] [].
Definition stale_prepares_cleaned_total : Metric := mkMetric "save_stale_prepares_cleaned_total"
  "Total number of stale 2PC prepares cleaned" IntCounter [] [].
Definition stale_prepare_cleanup_cycles_total : Metric := mkMetric "save_stale_prepare_cleanup_cycles_total"
  "Total number of stale prepare cleanup cycles" IntCounterVec ["result"] [].
Definition stale_prepare_cleanup_last_run_seconds : Metric := mkMetric "save_stale_prepare_cleanup_last_run_seconds"
  "Unix timestamp of the last stale prepare cleanup run" IntGauge [] [].
Definition pending_prepares_count : Metric := mkMetric "save_pending_prepares_count"
  "Current number of pending 2PC prepare operations" IntGauge [] [].
Definition storage_metrics : list Metric :=
  [gc_files_deleted_total; gc_errors_total; gc_last_run_seconds; gc_cycles_total; disk_usage_bytes;
   rocksdb_stats; temp_files_count; temp_files_size_bytes; stale_prepares_cleaned_total;
   stale_prepare_cleanup_cycles_total; stale_prepare_cleanup_last_run_seconds; pending_prepares_count].

(** *** [metrics/cluster.rs] *)
Definition raft_term : Metric := mkMetric "save_raft_term" "Current Raft term number" IntGauge [] [].
Definition raft_state : Metric := mkMetric "save_raft_state"
  "Raft node state (1 = current state)" IntGaugeVec ["state"] [].
Definition raft_leader_elections_total : Metric := mkMetric "save_raft_leader_elections_total"
  "Total number of leader elections observed" IntCounter [] [].
Definition raft_log_index : Metric := mkMetric "save_raft_log_index"
  "Raft log index by type" IntGaugeVec ["type"] [].
Definition raft_snapshot_duration_seconds : Metric := mkMetric "save_raft_snapshot_duration_seconds"
  "Raft snapshot operation duration in seconds" HistogramVec ["operation"]
    [dec 1 10; dec 5 10; F64.of_N 1; dec 25 10; F64.of_N 5; F64.of_N 10; F64.of_N 30; F64.of_N 60; F64.of_N 120].
Definition raft_proposals_total : Metric := mkMetric "save_raft_proposals_total"
  "Total Raft proposals by result" IntCounterVec ["result"] [].
Definition raft_members : Metric := mkMetric "save_raft_members"
  "Number of Raft cluster members by type" IntGaugeVec ["type"] [].
Definition replication_writes_total : Metric := mkMetric "save_replication_writes_total"
  "Total replication writes by node and result" IntCounterVec ["node_id"; "result"] [].
Definition replication_reads_total : Metric := mkMetric "save_replication_reads_total"
  "Total replication reads by node and result" IntCounterVec ["node_id"; "result"] [].
Definition replication_bytes_total : Metric := mkMetric "save_replication_bytes_total"
  "Total bytes replicated by direction" IntCounterVec ["direction"] [].
Definition replication_quorum_results_total : Metric := mkMetric "save_replication_quorum_results_total"
  "Total quorum operation results" IntCounterVec ["operation"; "result"] [].
Definition replication_latency_seconds : Metric := mkMetric "save_replication_latency_seconds"
  "Replication operation latency in seconds" HistogramVec ["operation"]
    [dec 1 1000; dec 5 1000; dec 1 100; dec 25 1000; dec 5 100; dec 1 10; dec 25 100; dec 5 10; F64.of_N 1; dec
     25 10; F64.of_N 5].
Definition cluster_node_status : Metric := mkMetric "save_cluster_node_status"
  "Cluster node health status" IntGaugeVec ["node_id"; "status"] [].
Definition cluster_quorum_status : Metric := mkMetric "save_cluster_quorum_status"
  "Whether cluster has quorum (1 = yes, 0 = no)" IntGauge [] [].
Definition cluster_partition_status : Metric := mkMetric "save_cluster_partition_status"
  "Cluster partition status" IntGaugeVec ["status"] [].
Definition cluster_replication_lag_seconds : Metric := mkMetric "save_cluster_replication_lag_seconds"
  "Replication lag in seconds by node" GaugeVec ["node_id"] [].
Definition replica_count : Metric := mkMetric "save_replica_count"
  "Number of objects by replica count per bucket" IntGaugeVec ["bucket"; "replica_count"] [].
Definition under_replicated_objects_total : Metric := mkMetric "save_under_replicated_objects_total"
  "Total number of under-replicated objects" IntGauge [] [].
Definition requests_forwarded_total : Metric := mkMetric "save_requests_forwarded_total"
  "Total requests forwarded to leader by result" IntCounterVec ["result"] [].
Definition forwarding_latency_seconds : Metric := mkMetric "save_forwarding_latency_seconds"
  "Request forwarding latency in seconds" HistogramVec ["method"]
    [dec 1 1000; dec 5 1000; dec 1 100; dec 25 1000; dec 5 100; dec 1 10; dec 25 100; dec 5 10; F64.of_N 1; dec
     25 10; F64.of_N 5].
Definition cluster_metrics : list Metric :=
  [raft_term; raft_state; raft_leader_elections_total; raft_log_index; raft_snapshot_duration_seconds;
   raft_proposals_total; raft_members; replication_writes_total; replication_reads_total;
   replication_bytes_total; replication_quorum_results_total; replication_latency_seconds; cluster_node_status;
   cluster_quorum_status; cluster_partition_status; cluster_replication_lag_seconds; replica_count;
   under_replicated_objects_total; requests_forwarded_total; forwarding_latency_seconds].

(** *** [metrics/grpc.rs] *)
Definition grpc_requests_total : Metric := mkMetric "save_grpc_requests_total"
  "Total gRPC requests by service, method, and status" IntCounterVec ["service"; "method"; "status"] [].
Definition grpc_request_duration_seconds : Metric := mkMetric "save_grpc_request_duration_seconds"
  "gRPC request duration in seconds" HistogramVec ["service"; "method"]
    [dec 1 1000; dec 5 1000; dec 1 100; dec 25 1000; dec 5 100; dec 1 10; dec 25 100; dec 5 10; F64.of_N 1; dec
     25 10; F64.of_N 5; F64.of_N 10].
Definition grpc_streams_active : Metric := mkMetric "save_grpc_streams_active"
  "Number of active gRPC streams" IntGaugeVec ["service"; "method"] [].
Definition grpc_stream_duration_seconds : Metric := mkMetric "save_grpc_stream_duration_seconds"
  "gRPC stream duration in seconds" HistogramVec ["service"; "method"]
    [dec 1 10; dec 5 10; F64.of_N 1; dec 25 10; F64.of_N 5; F64.of_N 10; F64.of_N 30; F64.of_N 60; F64.of_N 120;
     F64.of_N 300].
Definition grpc_metrics : list Metric :=
  [grpc_requests_total; grpc_request_duration_seconds; grpc_streams_active; grpc_stream_duration_seconds].

Definition all_metrics : list Metric := http_metrics ++ storage_metrics ++ cluster_metrics ++ grpc_metrics.

(** ** Prometheus

    What Prometheus documents of names, labels and buckets. *)
Definition name_char (c : ascii) : bool :=
  is_ascii_lowercase c || (is_ascii_digit c || (c =? "_")%char).
Definition valid_name (s : string) : bool :=
  match s with String c t => negb (is_ascii_digit c) && all_chars name_char s | EmptyString => false end.
Fixpoint increasing (l : list spec_float) : bool :=
  match l with
  | x :: (y :: _) as t => F64.lt x y && increasing t
  | _ => true
  end.
Definition metric_ok (m : Metric) : bool :=
  valid_name (m_name m) && forallb valid_name (m_labels m) && bool_decide (NoDup (m_labels m))
  && match m_kind m with
     | IntGauge | IntCounter => bool_decide (m_labels m = [])
     | HistogramVec => increasing (m_buckets m) && negb (bool_decide (m_buckets m = []))
                       && negb (bool_decide ("le" ∈ m_labels m))
     | _ => true
     end.

(** The value of a metric for its labels: an integer, a float, or what a
    histogram has observed. *)
Inductive Value : Type := VInt (z : Z) | VFloat (x : spec_float) | VObserved (l : list spec_float).
Abbreviation Key := (string * list string)%type.

Class Prometheus (R : Type) : Type := {
  prom_names : R -> gset string;
  prom_value : R -> Key -> option Value;
  prom_register : Metric -> R -> result string R;
  prom_child : Metric -> list string -> result string unit;   (* get_metric_with_label_values *)
  prom_update : Key -> (option Value -> Value) -> R -> R;
  prom_text : R -> result string string;
}.
Class PrometheusLaws (R : Type) `{Prometheus R} : Prop := {
  prom_register_ok : forall m r, metric_ok m = true -> m_name m ∉ prom_names r ->
    exists r', prom_register m r = Ok r' /\ prom_names r' = {[ m_name m ]} ∪ prom_names r /\
      forall k, prom_value r' k = prom_value r k;
  prom_child_ok : forall m ls, metric_ok m = true -> length ls = length (m_labels m) -> prom_child m ls = Ok tt;
  prom_update_names : forall k g r, prom_names (prom_update k g r) = prom_names r;
  prom_update_value : forall k g r k',
    prom_value (prom_update k g r) k' = if decide (k = k') then Some (g (prom_value r k)) else prom_value r k';
}.

Section metrics.
Context {R : Type} `{Prometheus R}.

(** The registry of the process and the [OnceLock]s that are set. *)
Record Registry : Type := mkRegistry { once : gset string; prom : R }.
Definition Act : Type := Registry -> option Registry.
Definition chain (a b : Act) : Act := fun s => s' ← a s; b s'.
Fixpoint each {A} (f : A -> Act) (l : list A) : Act :=
  match l with [] => Some | x :: t => chain (f x) (each f t) end.
Definition when {A} (o : option A) (f : A -> Act) : Act := match o with Some x => f x | None => Some end.

Definition get_or_init (m : Metric) : Act := fun s =>
  if bool_decide (m_name m ∈ once s) then Some s
  else match prom_register m (prom s) with
       | Ok r => Some (mkRegistry ({[ m_name m ]} ∪ once s) r)
       | Err _ => None
       end.
(** [with_label_values] of a vector; the other metrics are used directly. *)
Definition child (m : Metric) (ls : list string) : result string unit :=
  match m_kind m with IntGauge | IntCounter => Ok tt | _ => prom_child m ls end.
(** [m().with_label_values(ls)] and an operation on what it gives. *)
Definition update (m : Metric) (ls : list string) (g : option Value -> Value) : Act :=
  chain (get_or_init m) (fun s =>
    match child m ls with
    | Ok _ => Some (mkRegistry (once s) (prom_update (m_name m, ls) g (prom s)))
    | Err _ => None
    end).

(** Counters are 64-bit words, gauges signed ones. *)
Definition int_of (v : option Value) : Z := match v with Some (VInt z) => z | _ => 0%Z end.
Definition observed (v : option Value) : list spec_float := match v with Some (VObserved l) => l | _ => [] end.
Definition set_int (m : Metric) (ls : list string) (z : Z) : Act := update m ls (fun _ => VInt z).
Definition set_float (m : Metric) (ls : list string) (x : spec_float) : Act := update m ls (fun _ => VFloat x).
Definition inc_by (m : Metric) (ls : list string) (n : N) : Act :=
  update m ls (fun v => VInt ((int_of v + Z.of_N n) mod 2 ^ 64)).
Definition inc (m : Metric) (ls : list string) : Act := inc_by m ls 1.
Definition add_gauge (m : Metric) (ls : list string) (d : Z) : Act := update m ls (fun v => VInt (i64 (int_of v + d))).
Definition observe (m : Metric) (ls : list string) (x : spec_float) : Act :=
  update m ls (fun v => VObserved (observed v ++ [x])).
(** [n as i64]. *)
Definition as_i64 (n : N) : Z := i64 (Z.of_N n).

Definition init_metrics : Act :=
  chain (each get_or_init http_metrics) (chain (each get_or_init storage_metrics)
    (chain (each get_or_init cluster_metrics) (each get_or_init grpc_metrics))).

(** *** [metrics/cluster.rs] *)
Definition RAFT_STATE_LABELS : list string := ["leader"; "follower"; "candidate"; "learner"; "shutdown"].
Definition raft_state_to_label (s : RaftState) : string :=
  match s with
  | Leader => "leader" | Follower => "follower" | Candidate => "candidate"
  | Learner => "learner" | Shutdown => "shutdown"
  end.
Definition NODE_HEALTH_LABELS : list string := ["healthy"; "degraded"; "unreachable"; "unknown"].
Definition node_health_to_label (h : Cluster.NodeHealth) : string :=
  match h with
  | Cluster.Healthy => "healthy" | Cluster.Degraded => "degraded"
  | Cluster.Unreachable => "unreachable" | Cluster.Unknown => "unknown"
  end.
Definition PARTITION_STATUS_LABELS : list string := ["connected"; "minority"; "possible_minority"; "unknown"].
Definition partition_status_to_label (s : PartitionStatus) : string :=
  match s with
  | Connected => "connected" | Minority => "minority"
  | PossibleMinority => "possible_minority" | UnknownPartition => "unknown"
  end.

Record RaftMetrics : Type := mkRaftMetrics {
  rm_term : N; rm_state : RaftState; rm_last_applied_index : option N; rm_last_log_index : option N;
  rm_voters_count : nat; rm_learners_count : nat }.

Definition collect_raft_metrics (data : RaftMetrics) : Act :=
  chain (set_int raft_term [] (as_i64 (rm_term data)))
  (chain (each (fun label => set_int raft_state [label]
          (if bool_decide (label = raft_state_to_label (rm_state data)) then 1 else 0)) RAFT_STATE_LABELS)
  (chain (when (rm_last_applied_index data) (fun idx => set_int raft_log_index ["last_applied"] (as_i64 idx)))
  (chain (when (rm_last_log_index data) (fun idx => set_int raft_log_index ["last_log"] (as_i64 idx)))
  (chain (set_int raft_members ["voters"] (as_i64 (N.of_nat (rm_voters_count data))))
       (set_int raft_members ["learners"] (as_i64 (N.of_nat (rm_learners_count data)))))))).

Definition record_raft_proposal (result : string) : Act := inc raft_proposals_total [result].
Definition record_raft_snapshot_duration (operation : string) (secs : spec_float) : Act :=
  observe raft_snapshot_duration_seconds [operation] secs.

Record ClusterNodeMetrics : Type := mkClusterNodeMetrics { cn_node_id : N; cn_health : Cluster.NodeHealth }.
Definition node_status (node : ClusterNodeMetrics) : Act :=
  each (fun label => set_int cluster_node_status [show (cn_node_id node); label]
    (if bool_decide (label = node_health_to_label (cn_health node)) then 1 else 0)) NODE_HEALTH_LABELS.
Definition collect_cluster_health_metrics (nodes : list ClusterNodeMetrics) (has_quorum : bool)
    (partition_status : PartitionStatus) : Act :=
  chain (set_int cluster_quorum_status [] (if has_quorum then 1 else 0))
  (chain (each (fun label => set_int cluster_partition_status [label]
          (if bool_decide (label = partition_status_to_label partition_status) then 1 else 0)) PARTITION_STATUS_LABELS)
       (each node_status nodes)).

Definition record_replication_lag (node_id : N) (secs : spec_float) : Act :=
  set_float cluster_replication_lag_seconds [show node_id] secs.
Definition success_label (b : bool) : string := if b then "success" else "failed".
Definition record_replication_write (node_id : N) (success : bool) : Act :=
  inc replication_writes_total [show node_id; success_label success].
Definition record_replication_read (node_id : N) (success : bool) : Act :=
  inc replication_reads_total [show node_id; success_label success].
Definition record_replication_bytes (direction : string) (bytes : N) : Act :=
  inc_by replication_bytes_total [direction] bytes.
Definition record_quorum_result (operation : string) (achieved : bool) : Act :=
  inc replication_quorum_results_total [operation; if achieved then "achieved" else "failed"].
Definition record_replication_latency (operation : string) (secs : spec_float) : Act :=
  observe replication_latency_seconds [operation] secs.
Definition collect_replica_metrics (buckets : list (string * list (nat * Z))) (under_replicated : Z) : Act :=
  chain (each (fun b => each (fun rc => set_int replica_count [b.1; show (N.of_nat rc.1)] rc.2) b.2) buckets)
      (set_int under_replicated_objects_total [] under_replicated).
Definition record_forwarded_request (success : bool) : Act := inc requests_forwarded_total [success_label success].
Definition record_forwarding_latency (method : string) (secs : spec_float) : Act :=
  observe forwarding_latency_seconds [method] secs.

(** *** [metrics/grpc.rs] *)
Definition record_grpc_request (service method status : string) : Act := inc grpc_requests_total [service; method; status].
Definition record_grpc_request_duration (service method : string) (secs : spec_float) : Act :=
  observe grpc_request_duration_seconds [service; method] secs.
Definition inc_grpc_stream (service method : string) : Act := add_gauge grpc_streams_active [service; method] 1.
Definition dec_grpc_stream (service method : string) : Act := add_gauge grpc_streams_active [service; method] (-1).
Definition record_grpc_stream_duration (service method : string) (secs : spec_float) : Act :=
  observe grpc_stream_duration_seconds [service; method] secs.
(** [GrpcStreamGuard]: what the guarded part does to the registry is between. *)
Definition stream_guarded (service method : string) (elapsed : spec_float) (body : Act) : Act :=
  chain (inc_grpc_stream service method)
  (chain body (chain (dec_grpc_stream service method) (record_grpc_stream_duration service method elapsed))).

(** *** [metrics/storage.rs] *)
Definition collect_disk_usage (statvfs : result string Statvfs) (label : string) : Act :=
  match statvfs with
  | Err _ => Some
  | Ok stat =>
      let total_bytes := wrapN 64 (blocks stat * block_size stat) in
      let available_bytes := wrapN 64 (blocks_available stat * block_size stat) in
      let used_bytes := wrapN 64 (total_bytes + 2 ^ 64 - available_bytes) in
      chain (set_float disk_usage_bytes [label; "total"] (F64.of_N total_bytes))
      (chain (set_float disk_usage_bytes [label; "used"] (F64.of_N used_bytes))
           (set_float disk_usage_bytes [label; "available"] (F64.of_N available_bytes)))
  end.

Record DatabaseStats : Type := mkDatabaseStats {
  block_cache_hits : option N; block_cache_misses : option N; memtable_size_bytes : option N;
  table_readers_mem_bytes : option N; estimate_num_keys : option N }.
Definition collect_database_stats (stats : DatabaseStats) : Act :=
  let stat name v := when v (fun n => set_int rocksdb_stats [name] (as_i64 n)) in
  chain (stat "block_cache_hits" (block_cache_hits stats))
  (chain (stat "block_cache_misses" (block_cache_misses stats))
  (chain (stat "table_readers_mem_bytes" (table_readers_mem_bytes stats))
  (chain (stat "memtable_size_bytes" (memtable_size_bytes stats))
       (stat "estimate_num_keys" (estimate_num_keys stats))))).

(** The entries of a directory: files are counted, directories pushed, and what
    cannot be read is skipped. *)
Fixpoint scan_stats (entries : list (result io_error DirEntry)) (count : Z) (total_size : N)
    (stack : list PathBuf) : Z * N * list PathBuf :=
  match entries with
  | [] => (count, total_size, stack)
  | Err _ :: rest => scan_stats rest count total_size stack
  | Ok entry :: rest =>
      match de_metadata entry with
      | Err _ => scan_stats rest count total_size stack
      | Ok m =>
          if is_file m then scan_stats rest (i64 (count + 1)) (wrapN 64 (total_size + meta_len m)) stack
          else if is_dir m then scan_stats rest count total_size (de_path entry :: stack)
          else scan_stats rest count total_size stack
      end
  end.
Fixpoint stats_loop {F} `{DirFs F} (fuel : nat) (f : F) (stack : list PathBuf) (count : Z) (total_size : N)
  : option (Z * N) :=
  match fuel with
  | 0 => None
  | S fuel' =>
      match stack with
      | [] => Some (count, total_size)
      | dir :: stack' =>
          match fs_read_dir f dir with
          | Ok entries =>
              let '(count', size', stack'') := scan_stats entries count total_size stack' in
              stats_loop fuel' f stack'' count' size'
          | Err _ => stats_loop fuel' f stack' count total_size
          end
      end
  end.
(** [None] also when the walk has not ended within [fuel] turns. *)
Definition set_temp_stats (count : Z) (total_size : N) : Act :=
  chain (set_int temp_files_count [] count) (set_int temp_files_size_bytes [] (as_i64 total_size)).
Definition collect_temp_file_stats {F} `{DirFs F} (fuel : nat) (f : F) (temp_dir : PathBuf) : Act := fun s =>
  '(count, total_size) ← stats_loop fuel f [temp_dir] 0 0;
  set_temp_stats count total_size s.

(** *** [lib.rs] of [save-metadata] and of [save-api] *)
Definition get_stats (property_int_value : string -> result string (option N)) : DatabaseStats :=
  let value name := match property_int_value name with Ok v => v | Err _ => None end in
  mkDatabaseStats (value "rocksdb.block-cache-hit") (value "rocksdb.block-cache-miss")
    (value "rocksdb.cur-size-all-mem-tables") (value "rocksdb.estimate-table-readers-mem")
    (value "rocksdb.estimate-num-keys").

Definition collect_raft_metrics_from_node {RS} `{RaftHandle RS} (node_id : N) (w : RS) : Act :=
  let status := get_status node_id w in
  collect_raft_metrics (mkRaftMetrics (cs_current_term status) (cs_state status) (cs_last_applied_index status)
    (cs_last_log_index status) (length (cs_voters status)) (length (cs_learners status))).

(** What a collection reads: the file systems of the two paths, the database's
    properties, the temporary directory and the Raft node. *)
Definition collect_metrics {F RS} `{DirFs F} `{RaftHandle RS} (fuel : nat) (config : SaveConfig)
    (statvfs : string -> result string Statvfs) (property_int_value : string -> result string (option N))
    (data_path : PathBuf) (f : F) (w : RS) : Act :=
  chain (collect_disk_usage (statvfs (Config.data_path (storage config))) "data")
  (chain (collect_disk_usage (statvfs (metadata_path (storage config))) "metadata")
  (chain (collect_database_stats (get_stats property_int_value))
  (chain (collect_temp_file_stats fuel f (path_join data_path "temp"))
       (collect_raft_metrics_from_node (cluster_node_id (cluster config)) w)))).

(** *** [handlers/health/metrics.rs] *)
Definition encode_metrics (s : Registry) : result string string :=
  map_err (fun e => "Failed to encode metrics: " +:+ e) (prom_text (prom s)).
Definition metrics_handler (s : Registry) : N * string :=
  match encode_metrics s with Ok text => (200, text)%N | Err e => (500, e)%N end.

(** *** The uses of single metrics in the rest of the program *)

(** [auth.rs]: the outcome of the check of a signature. *)
Inductive AuthEvent : Type :=
| AuthMissing | AuthBadFormat | AuthKeyMismatch | AuthMissingDate | AuthTimeSkewed | AuthSignatureMismatch | AuthOk.
Definition record_auth_event (e : AuthEvent) : Act :=
  inc auth_events_total
    match e with
    | AuthMissing => ["failure"; "missing_auth"]
    | AuthBadFormat => ["failure"; "invalid_format"]
    | AuthKeyMismatch => ["failure"; "key_mismatch"]
    | AuthMissingDate => ["failure"; "missing_date"]
    | AuthTimeSkewed => ["failure"; "time_skewed"]
    | AuthSignatureMismatch => ["failure"; "signature_mismatch"]
    | AuthOk => ["success"; "ok"]
    end.
(** [handlers/objects/put.rs]: the three steps of a PUT. *)
Inductive PutStep : Type := TempWrite | StorageCommit | MetadataCommit.
Definition record_put_step (step : PutStep) (ok : bool) : Act :=
  inc atomic_put_operations_total
    [match step with TempWrite => "temp_write" | StorageCommit => "storage_commit" | MetadataCommit => "metadata_commit" end;
     if ok then "success" else "error"].
(** [put.rs], [complete.rs] and the handlers that answer with XML. *)
Definition observe_object_size (operation : string) (size : spec_float) : Act := observe object_size_bytes [operation] size.
Definition observe_response_size (operation : string) (size : spec_float) : Act := observe response_size_bytes [operation] size.
(** [into_response] of [handlers/error.rs]. *)
Definition count_error (e : ApiError.t) : Act := inc errors_total [ApiError.error_type e; "api"].
(** [track_metrics] and the request tracker of [middleware.rs]. *)
Definition record_http (endpoint method status : string) (secs : spec_float) : Act :=
  chain (inc http_requests_total [endpoint; method; status]) (observe http_request_duration_seconds [endpoint; method] secs).
Definition move_in_flight (up : bool) : Act := add_gauge in_flight_requests [] (if up then 1 else -1).
(** [multipart/mod.rs], [complete.rs] and [abort.rs]. *)
Definition move_multipart (up : bool) : Act := add_gauge multipart_uploads_in_progress [] (if up then 1 else -1).
Definition count_cleanup_failure : Act := inc multipart_cleanup_failures_total [].
(** [gc.rs]; the readiness check reads the time of the last run. *)
Definition count_gc_cycle (ok : bool) : Act := inc gc_cycles_total [if ok then "success" else "error"].
Definition count_gc_file (removed : bool) : Act := if removed then inc gc_files_deleted_total [] else inc gc_errors_total [].
Definition set_gc_last_run (secs : Z) : Act := set_int gc_last_run_seconds [] (i64 secs).
(** A tick of the cleanup in [main.rs]. *)
Definition stale_metrics (cleaned pending : nat) (unix : Z) : Act :=
  chain (set_int stale_prepare_cleanup_last_run_seconds [] (i64 unix))
  (chain (set_int pending_prepares_count [] (as_i64 (N.of_nat pending)))
         (if 0 <? cleaned then
            chain (inc_by stale_prepares_cleaned_total [] (N.of_nat cleaned)) (inc stale_prepare_cleanup_cycles_total ["cleaned"])
          else inc stale_prepare_cleanup_cycles_total ["noop"])).
(** [record_request] of [internal_api/server.rs]. *)
Definition INTERNAL_SERVICE_NAME : string := "ClusterAdmin".
Definition record_request (method status : string) (duration : spec_float) : Act :=
  chain (inc grpc_requests_total [INTERNAL_SERVICE_NAME; method; status])
        (observe grpc_request_duration_seconds [INTERNAL_SERVICE_NAME; method] duration).

(** *** Everything that touches a metric *)
Inductive MetricCall : Type :=
| InitMetrics
| CollectRaft (data : RaftMetrics)
| RaftProposal (result : string)
| RaftSnapshotDuration (operation : string) (secs : spec_float)
| ClusterHealth (nodes : list ClusterNodeMetrics) (has_quorum : bool) (status : PartitionStatus)
| ReplicationLag (node_id : N) (secs : spec_float)
| ReplicationWrite (node_id : N) (success : bool)
| ReplicationRead (node_id : N) (success : bool)
| ReplicationBytes (direction : string) (bytes : N)
| QuorumResult (operation : string) (achieved : bool)
| ReplicationLatency (operation : string) (secs : spec_float)
| ReplicaMetrics (buckets : list (string * list (nat * Z))) (under_replicated : Z)
| ForwardedRequest (success : bool)
| ForwardingLatency (method : string) (secs : spec_float)
| GrpcRequest (service method status : string)
| GrpcRequestDuration (service method : string) (secs : spec_float)
| GrpcStream (service method : string) (elapsed : spec_float) (body : list MetricCall)
| DiskUsage (statvfs : result string Statvfs) (label : string)
| DatabaseStatistics (stats : DatabaseStats)
| TempFileStats (count : Z) (total_size : N)
| Auth (e : AuthEvent)
| PutStage (step : PutStep) (ok : bool)
| ObjectSize (operation : string) (size : spec_float)
| ResponseSize (operation : string) (size : spec_float)
| ApiErrors (e : ApiError.t)
| Http (endpoint method status : string) (secs : spec_float)
| InFlight (up : bool)
| MultipartUploads (up : bool)
| CleanupFailure
| GcCycle (ok : bool)
| GcFile (removed : bool)
| GcLastRun (secs : Z)
| ReadGcLastRun
| StaleCleanup (cleaned pending : nat) (unix : Z)
| InternalRequest (method status : string) (duration : spec_float).

Fixpoint call (c : MetricCall) : Act :=
  match c with
  | InitMetrics => init_metrics
  | CollectRaft data => collect_raft_metrics data
  | RaftProposal result => record_raft_proposal result
  | RaftSnapshotDuration operation secs => record_raft_snapshot_duration operation secs
  | ClusterHealth nodes q st => collect_cluster_health_metrics nodes q st
  | ReplicationLag node_id secs => record_replication_lag node_id secs
  | ReplicationWrite node_id success => record_replication_write node_id success
  | ReplicationRead node_id success => record_replication_read node_id success
  | ReplicationBytes direction bytes => record_replication_bytes direction bytes
  | QuorumResult operation achieved => record_quorum_result operation achieved
  | ReplicationLatency operation secs => record_replication_latency operation secs
  | ReplicaMetrics buckets under => collect_replica_metrics buckets under
  | ForwardedRequest success => record_forwarded_request success
  | ForwardingLatency method secs => record_forwarding_latency method secs
  | GrpcRequest service method status => record_grpc_request service method status
  | GrpcRequestDuration service method secs => record_grpc_request_duration service method secs
  | GrpcStream service method elapsed body => stream_guarded service method elapsed (each call body)
  | DiskUsage statvfs label => collect_disk_usage statvfs label
  | DatabaseStatistics stats => collect_database_stats stats
  | TempFileStats count total_size => set_temp_stats count total_size
  | Auth e => record_auth_event e
  | PutStage step ok => record_put_step step ok
  | ObjectSize operation size => observe_object_size operation size
  | ResponseSize operation size => observe_response_size operation size
  | ApiErrors e => count_error e
  | Http endpoint method status secs => record_http endpoint method status secs
  | InFlight up => move_in_flight up
  | MultipartUploads up => move_multipart up
  | CleanupFailure => count_cleanup_failure
  | GcCycle ok => count_gc_cycle ok
  | GcFile removed => count_gc_file removed
  | GcLastRun secs => set_gc_last_run secs
  | ReadGcLastRun => get_or_init gc_last_run_seconds
  | StaleCleanup cleaned pending unix => stale_metrics cleaned pending unix
  | InternalRequest method status duration => record_request method status duration
  end.
End metrics.
Arguments Registry : clear implicits.

(** ** Properties *)

(** All metrics are well formed and have names of their own, whatever the order
    in which they are first used. *)
Lemma catalogue_ok : forallb metric_ok all_metrics = true /\ NoDup (m_name <$> all_metrics).
Proof. split; [vm_compute; reflexivity|]. apply (bool_decide_unpack _). vm_compute. exact I. Qed.

Lemma metric_ok_in m : m ∈ all_metrics -> metric_ok m = true.
Proof. pose proof (proj1 catalogue_ok) as Hok. rewrite forallb_forall in Hok. intros Hm. apply Hok. by apply list_elem_of_In. Qed.

Section theory.
Context {R : Type} `{PrometheusLaws R}.
Implicit Types (s : Registry R) (a : Act (R := R)).
Abbreviation View := (Key -> option Value).

(** Nothing else uses the registry: a name that is taken is that of a metric
    whose [OnceLock] is set. *)
Definition own s : Prop := prom_names (prom s) ⊆ once s.
Definition value s : View := prom_value (prom s).
Definition upd (k : Key) (g : option Value -> Value) (v : View) : View :=
  fun k' => if decide (k = k') then Some (g (v k)) else v k'.

Lemma upd_eq k g v : upd k g v k = Some (g (v k)).
Proof. unfold upd. by rewrite decide_True. Qed.
Lemma upd_ne k g v k' : k'.1 <> k.1 -> upd k g v k' = v k'.
Proof. intros Hk. unfold upd. rewrite decide_False; [done|by intros <-]. Qed.
Lemma upd_each_ne {A} (e : A -> View -> View) l v k :
  (forall x v, x ∈ l -> e x v k = v k) -> foldr (fun x t => t ∘ e x) id l v k = v k.
Proof.
  intros He. revert v. induction l as [|x l IH]; intros v; [done|]. simpl. rewrite IH; [apply He; by left|].
  intros y w ?. apply He. by right.
Qed.

(** The action does not panic and has the effect [e] on the values. *)
Definition ext (e : View -> View) : Prop := forall v v', (forall k, v k = v' k) -> forall k, e v k = e v' k.
Definition runs a (e : View -> View) : Prop :=
  ext e /\ forall s, own s -> exists s', a s = Some s' /\ own s' /\ forall k, value s' k = e (value s) k.

Lemma runs_skip : runs Some id.
Proof. split; [by intros v v' ?|]. intros s Hs. by exists s. Qed.
Lemma runs_seq a b e e' : runs a e -> runs b e' -> runs (chain a b) (e' ∘ e).
Proof.
  intros [Hx Ha] [Hx' Hb]. split; [intros v v' Hv k; by apply Hx', Hx|].
  intros s (s1 & H1 & Ho1 & Hv1)%Ha. destruct (Hb s1 Ho1) as (s2 & H2 & Ho2 & Hv2).
  exists s2. unfold chain. rewrite H1. split_and!; [done..|]. intros k. rewrite Hv2. by apply Hx'.
Qed.
Lemma runs_each {A} (f : A -> Act) (e : A -> View -> View) l :
  (forall x, x ∈ l -> runs (f x) (e x)) -> runs (each f l) (foldr (fun x t => t ∘ e x) id l).
Proof.
  intros Hf. induction l as [|x l IH]; simpl; [apply runs_skip|]. apply runs_seq; [apply Hf; by left|].
  apply IH. intros y ?. apply Hf. by right.
Qed.
Lemma runs_when {A} (o : option A) (f : A -> Act) (e : A -> View -> View) :
  (forall x, runs (f x) (e x)) -> runs (when o f) (match o with Some x => e x | None => id end).
Proof. destruct o; simpl; [done|intros _; apply runs_skip]. Qed.
Lemma runs_cond (b : bool) a a' e e' : runs a e -> runs a' e' -> runs (if b then a else a') (if b then e else e').
Proof. by destruct b. Qed.
Lemma runs_get m : m ∈ all_metrics -> runs (get_or_init m) id.
Proof.
  intros Hm. split; [by intros v v' ?|]. intros s Hs. unfold get_or_init. case_bool_decide as Hin; [by exists s|].
  destruct (prom_register_ok m (prom s)) as (r & -> & Hn & Hv); [by apply metric_ok_in|set_solver|].
  eexists. split; [done|]. split; [|done]. unfold own in *. simpl. rewrite Hn. set_solver.
Qed.
Lemma runs_update m ls g : m ∈ all_metrics -> length ls = length (m_labels m) ->
  runs (update m ls g) (upd (m_name m, ls) g).
Proof.
  intros Hm Hl. split; [intros v v' Hv k'; unfold upd; by rewrite !Hv|].
  intros s Hs. destruct (proj2 (runs_get m Hm) s Hs) as (s1 & H1 & Ho1 & Hv1). unfold update, chain. rewrite H1. simpl.
  assert (child m ls = Ok tt) as ->.
  { unfold child. pose proof (prom_child_ok m ls (metric_ok_in m Hm) Hl). by destruct (m_kind m). }
  eexists. split; [done|]. split; [by unfold own; simpl; rewrite prom_update_names|].
  intros k. unfold value at 1. simpl. rewrite prom_update_value. unfold upd. fold (value s1). rewrite Hv1.
  case_decide; [done|]. apply Hv1.
Qed.
Lemma runs_exists a e s (P : Registry R -> Prop) : runs a e -> own s ->
  (forall s', own s' -> (forall k, value s' k = e (value s) k) -> P s') -> exists s', a s = Some s' /\ P s'.
Proof. intros [_ Ha] (s' & ? & ? & ?)%Ha HP. exists s'. split; [done|by apply HP]. Qed.

(** An action that never panics. *)
Definition typed a : Prop := exists e, runs a e.
Lemma typed_seq a b : typed a -> typed b -> typed (chain a b).
Proof. intros [e Ha] [e' Hb]. eexists. by apply runs_seq. Qed.
Lemma typed_skip : typed Some.
Proof. eexists. apply runs_skip. Qed.
Lemma typed_each {A} (f : A -> Act) l : (forall x, x ∈ l -> typed (f x)) -> typed (each f l).
Proof.
  induction l as [|x l IH]; intros Hf; simpl; [apply typed_skip|]. apply typed_seq; [apply Hf; by left|].
  apply IH. intros y ?. apply Hf. by right.
Qed.
Lemma typed_when {A} (o : option A) (f : A -> Act) : (forall x, typed (f x)) -> typed (when o f).
Proof. destruct o; simpl; [done|intros _; apply typed_skip]. Qed.
Lemma typed_get m : m ∈ all_metrics -> typed (get_or_init m).
Proof. intros ?. eexists. by apply runs_get. Qed.
Lemma typed_update m ls g : m ∈ all_metrics -> length ls = length (m_labels m) -> typed (update m ls g).
Proof. intros ??. eexists. by apply runs_update. Qed.
Lemma typed_run a s : typed a -> own s -> exists s', a s = Some s' /\ own s'.
Proof. intros [e Ha] Ho. by eapply runs_exists. Qed.
End theory.

(** A metric of the catalogue, and the number of its labels. *)
Ltac solve_metric := solve [apply (bool_decide_unpack _); vm_compute; exact I | reflexivity].
Ltac solve_typed :=
  repeat first
    [ apply typed_skip | apply typed_update; [solve_metric|solve_metric] | apply typed_get; solve_metric | apply typed_seq
    | apply typed_when; intros ? | apply typed_each; intros ? ? ].

Section calls.
Context {R : Type} `{PrometheusLaws R}.
Implicit Types (s : Registry R).

Lemma typed_init ms : ms ⊆ all_metrics -> typed (each (R := R) get_or_init ms).
Proof. intros Hms. apply typed_each. intros m Hm. by apply typed_get, Hms. Qed.

Lemma call_typed (c : MetricCall) : typed (R := R) (call c).
Proof.
  revert c. fix IH 1. intros c. destruct c as [| | | | | | | | | | | | | | | |svc meth el body| | | | | | | | | | | | | | | | | |]; cbn [call].
  17: { assert (Hb : typed (R := R) (each call body)).
        { induction body as [|c body IHb]; cbn [each]; [apply typed_skip|]. apply typed_seq; [apply IH|exact IHb]. }
        unfold stream_guarded. apply typed_seq; [solve_typed|]. apply typed_seq; [exact Hb|solve_typed]. }
  1: { unfold init_metrics. do 3 (apply typed_seq; [apply typed_init; unfold all_metrics; set_solver|]).
       apply typed_init. unfold all_metrics. set_solver. }
  all: unfold collect_disk_usage, record_auth_event, count_gc_file, stale_metrics; try case_match; solve_typed.
Qed.
End calls.

Ltac solve_runs :=
  repeat first
    [ apply runs_update; [solve_metric|solve_metric] | apply runs_when; intros ? | apply runs_each; intros ? ?
    | apply runs_seq ].

(** An update of a metric outside the names that [Hk] excludes. *)
Ltac not_named Hk := let E := fresh in intros E; apply Hk; rewrite E; apply (bool_decide_unpack _); exact I.
Ltac frame_upd Hk :=
  cbn [compose id]; repeat first [rewrite upd_ne by not_named Hk | rewrite upd_each_ne by (intros ? ? ?; rewrite upd_ne by not_named Hk; reflexivity)];
  reflexivity.

Section exact.
Context {R : Type} `{PrometheusLaws R}.
Implicit Types (s : Registry R).

(** C35. No use of a metric can panic.  In a process whose registry only this code
    uses, any sequence of uses of metrics, in any order and with any arguments,
    succeeds: every metric has its own well-formed name, and every use passes as
    many values as the metric has labels.  [MetricCall] lists the recording and
    collecting functions of [metrics/] and every place outside of it that uses a
    metric directly; of the statistics of the temporary files it has the part
    after the walk over the directories. *)
Theorem metrics_calls_typed (cs : list MetricCall) s : own s -> exists s', each call cs s = Some s' /\ own s'.
Proof. intros Hs. apply typed_run; [|done]. apply typed_each. intros c _. apply call_typed. Qed.

Definition raft_metric_names : list string := m_name <$> [raft_term; raft_state; raft_log_index; raft_members].

(** The Raft gauges after a collection: the gauge of the current state is one
    and those of all other states are zero; the term, the counts and the indices
    that are known are the node's, an unknown index keeps its old value, and no
    other metric has changed. *)
Theorem collect_raft_exact data s : own s -> exists s', collect_raft_metrics data s = Some s' /\ own s' /\
  value s' (m_name raft_term, []) = Some (VInt (as_i64 (rm_term data))) /\
  (forall st, value s' (m_name raft_state, [raft_state_to_label st]) =
     Some (VInt (if decide (st = rm_state data) then 1 else 0))) /\
  value s' (m_name raft_log_index, ["last_applied"]) =
     match rm_last_applied_index data with
     | Some i => Some (VInt (as_i64 i)) | None => value s (m_name raft_log_index, ["last_applied"]) end /\
  value s' (m_name raft_log_index, ["last_log"]) =
     match rm_last_log_index data with
     | Some i => Some (VInt (as_i64 i)) | None => value s (m_name raft_log_index, ["last_log"]) end /\
  value s' (m_name raft_members, ["voters"]) = Some (VInt (as_i64 (N.of_nat (rm_voters_count data)))) /\
  value s' (m_name raft_members, ["learners"]) = Some (VInt (as_i64 (N.of_nat (rm_learners_count data)))) /\
  (forall k, k.1 ∉ raft_metric_names -> value s' k = value s k).
Proof.
  intros Hs. eapply runs_exists; [unfold collect_raft_metrics; solve_runs|done|]. intros s' Ho Hv. split; [done|].
  split_and!; [|intros st| | | | |intros k Hk]; rewrite Hv; clear -Hk || clear; cbn [compose].
  2: destruct st, (rm_state data).
  all: destruct (rm_last_log_index data), (rm_last_applied_index data); try reflexivity; frame_upd Hk.
Qed.

(** The effect of [node_status]. *)
Definition status_effect (n : ClusterNodeMetrics) : (Key -> option Value) -> Key -> option Value :=
  foldr (fun label t => t ∘ upd (m_name cluster_node_status, [show (cn_node_id n); label])
    (fun _ => VInt (if bool_decide (label = node_health_to_label (cn_health n)) then 1 else 0))) id NODE_HEALTH_LABELS.
Lemma status_other n v k : k.1 <> m_name cluster_node_status \/ head k.2 <> Some (show (cn_node_id n)) ->
  status_effect n v k = v k.
Proof.
  intros Hk. apply upd_each_ne. intros l w _. unfold upd. rewrite decide_False; [done|]. intros <-. by destruct Hk.
Qed.
Lemma status_self n v h :
  status_effect n v (m_name cluster_node_status, [show (cn_node_id n); node_health_to_label h]) =
  Some (VInt (if decide (h = cn_health n) then 1 else 0)).
Proof.
  unfold status_effect, upd. cbn [foldr NODE_HEALTH_LABELS compose id]. generalize (show (cn_node_id n)). intros id.
  destruct h, (cn_health n); cbn [node_health_to_label]; repeat case_decide; simplify_eq; reflexivity.
Qed.

(** The gauges of the cluster's health after a collection: of the four states of
    each listed node exactly the current one is one, the partition's state
    likewise; a node that is not listed any more keeps its gauges. *)
Theorem collect_cluster_health_exact nodes q st s : own s -> NoDup (cn_node_id <$> nodes) ->
  exists s', collect_cluster_health_metrics nodes q st s = Some s' /\
  value s' (m_name cluster_quorum_status, []) = Some (VInt (if q then 1 else 0)) /\
  (forall st', value s' (m_name cluster_partition_status, [partition_status_to_label st']) =
     Some (VInt (if decide (st' = st) then 1 else 0))) /\
  (forall n h, n ∈ nodes -> value s' (m_name cluster_node_status, [show (cn_node_id n); node_health_to_label h]) =
     Some (VInt (if decide (h = cn_health n) then 1 else 0))) /\
  (forall id l, id ∉ cn_node_id <$> nodes ->
     value s' (m_name cluster_node_status, [show id; l]) = value s (m_name cluster_node_status, [show id; l])).
Proof.
  intros Hs Hnd.
  assert (Hn : forall v n h, n ∈ nodes ->
    foldr (fun x t => t ∘ status_effect x) id nodes v (m_name cluster_node_status, [show (cn_node_id n); node_health_to_label h])
    = Some (VInt (if decide (h = cn_health n) then 1 else 0))).
  { intros v n h. revert v. induction nodes as [|x l IH]; intros v Hin; [by apply not_elem_of_nil in Hin|].
    apply NoDup_cons in Hnd as [Hx Hnd]. cbn [foldr compose]. apply elem_of_cons in Hin as [->|Hin]; [|by apply IH].
    rewrite <- (status_self x v h). apply upd_each_ne. intros y w Hy. apply status_other. right.
    intros [= Heq%(inj show)]. apply Hx. rewrite Heq. by apply list_elem_of_fmap_2. }
  eapply runs_exists; [|done|intros s' Ho Hv].
  { unfold collect_cluster_health_metrics. apply runs_seq; [solve_runs|]. apply runs_seq; [solve_runs|].
    apply runs_each with (e := status_effect). intros n _. unfold node_status. solve_runs. }
  split_and!; [|intros st'|intros n h Hin|intros id l Hid]; rewrite Hv; cbn [compose].
  - rewrite upd_each_ne by (intros; apply status_other; by left). reflexivity.
  - rewrite upd_each_ne by (intros; apply status_other; by left). destruct st', st; reflexivity.
  - by apply Hn.
  - rewrite upd_each_ne. 2: { intros y w Hy. apply status_other. right. intros [= Heq%(inj show)]. apply Hid.
      rewrite Heq. by apply list_elem_of_fmap_2. }
    reflexivity.
Qed.
End exact.

(** ** The statistics of the temporary files agree with the collector's listing *)
Section temp_stats.
Context {R F : Type} `{PrometheusLaws R} `{DirFsLaws F}.
Implicit Types (f : F) (files : list (PathBuf * N)).

Lemma wrapN_add_l w a b : wrapN w (wrapN w a + b) = wrapN w (a + b).
Proof. unfold wrapN. rewrite N.Div0.add_mod_idemp_l. done. Qed.
Lemma i64_add_l a b : i64 (i64 a + b) = i64 (a + b).
Proof. unfold i64. replace ((_ - 2 ^ 63 + b + 2 ^ 63))%Z with ((a + 2 ^ 63) mod 2 ^ 64 + b)%Z by lia.
  rewrite Z.add_mod_idemp_l by lia. f_equal. f_equal. lia. Qed.

Definition total_len f files : N := foldr (fun pt n => N.of_nat (length (default [] (fs_view f !! pt.1))) + n)%N 0%N files.
Definition stat f files : Z * N := (i64 (Z.of_nat (length files)), wrapN 64 (total_len f files)).
Lemma stat_snoc f files p t : stat f (files ++ [(p, t)]) =
  (i64 ((stat f files).1 + 1), wrapN 64 ((stat f files).2 + N.of_nat (length (default [] (fs_view f !! p))))).
Proof.
  unfold stat. cbn [fst snd]. rewrite i64_add_l, wrapN_add_l, length_app. f_equal; [f_equal; simpl; lia|]. f_equal.
  induction files as [|q files IH]; simpl; [lia|]. rewrite IH. lia.
Qed.

(** What the operating system reports: every file has a time of modification,
    and the length of a file is the number of its bytes. *)
Context (f : F) (times : forall p, is_Some (fs_view f !! p) -> is_Some (fs_mtime f p))
  (lens : forall d es e m, fs_read_dir f d = Ok es -> Ok e ∈ es -> de_metadata e = Ok m -> is_file m = true ->
     meta_len m = N.of_nat (length (default [] (fs_view f !! de_path e)))).

Lemma scan_stats_eq d es0 es files stack files' stack' : fs_read_dir f d = Ok es0 -> (forall e, e ∈ es -> e ∈ es0) ->
  scan_entries es files stack = Ok (files', stack') ->
  scan_stats es (stat f files).1 (stat f files).2 stack = ((stat f files').1, (stat f files').2, stack').
Proof.
  intros Hes. revert files stack. induction es as [|[e|e] es IH]; intros files stack Hsub; cbn [scan_entries scan_stats].
  - by intros [= <- <-].
  - destruct (de_metadata e) as [m|] eqn:Hm; [|done]. cbn [map_err].
    assert (Hin : Ok e ∈ es0) by (apply Hsub; by left).
    assert (IH' := fun fl st => IH fl st (fun x Hx => Hsub x (proj2 (elem_of_cons _ _ _) (or_intror Hx)))).
    cbn [mbind result_bind]. destruct (is_file m) eqn:Hf; [|by destruct (is_dir m); apply IH'].
    destruct (fs_read_dir_file f d es0 e m Hes Hin Hm Hf) as [Hsome Hmt].
    destruct (times _ Hsome) as [t Ht]. rewrite Hmt, Ht. intros Hsc%IH'.
    rewrite stat_snoc in Hsc. rewrite (lens d es0 e m) by done. exact Hsc.
  - done.
Qed.

Lemma stats_loop_eq fuel stack files res : list_loop fuel f stack files = Some (Ok res) ->
  stats_loop fuel f stack (stat f files).1 (stat f files).2 = Some (stat f res).
Proof.
  revert stack files. induction fuel as [|fuel IH]; intros stack files; [done|]. cbn [list_loop stats_loop].
  destruct stack as [|d stack]; [by intros [= <-]|]. destruct (fs_read_dir f d) as [es|] eqn:Hes; [|done].
  destruct (scan_entries es files stack) as [[files' stack']|] eqn:Hsc; [|done].
  rewrite (scan_stats_eq d es es files stack files' stack') by done. apply IH.
Qed.

Lemma scan_stats_stack es c n stack : (scan_stats es c n stack).2 = reverse (omap entry_dir es) ++ stack.
Proof.
  revert c n stack. induction es as [|[e|e] es IH]; intros c n stack; cbn [scan_stats omap list_omap]; [done| |apply IH].
  simpl. destruct (de_metadata e) as [m|]; [|apply IH]. destruct (is_file m); [apply IH|].
  destruct (is_dir m); rewrite IH; [|done]. by rewrite reverse_cons, <- app_assoc.
Qed.
Lemma stats_loop_total fuel stack c n : Forall (fun d => d ∈ fs_dirs f) stack -> weight f stack < fuel ->
  exists r, stats_loop fuel f stack c n = Some r.
Proof.
  revert stack c n. induction fuel as [|fuel IH]; intros stack c n Hst Hw; [lia|]. cbn [stats_loop].
  destruct stack as [|d stack]; [by eauto|]. apply Forall_cons in Hst as [Hd Hst]. cbn [weight] in Hw.
  assert (Hpos : 0 < size (below f d)).
  { destruct (decide (size (below f d) = 0)) as [He%size_empty_inv|]; [|lia]. exfalso.
    apply (not_elem_of_empty (C := gset PathBuf) d), (He d). by apply elem_of_filter. }
  destruct (fs_read_dir f d) as [es|] eqn:Hes; [|apply IH; [done|lia]].
  pose proof (scan_stats_stack es c n stack) as Hs. destruct (scan_stats es c n stack) as [[c' n'] st']. cbn [snd] in Hs.
  subst st'. apply IH; [|rewrite weight_app; pose proof (dirs_weight _ _ _ Hes); lia].
  apply Forall_app. split; [|done]. apply Forall_forall. intros p Hp. rewrite elem_of_reverse in Hp.
  apply omap_dir_inv in Hp as (e & m & He & Hm & Hf & Hdir & <-). by eapply fs_read_dir_dir.
Qed.

(** The collection of the temporary files' statistics ends and cannot panic,
    whatever cannot be read; and when the garbage collector's own walk succeeds,
    the gauges are the number and the total length of exactly the files that
    walk finds. *)
Theorem collect_temp_file_stats_exact fuel dir (s : Registry R) : own s -> size (fs_dirs f) + 1 < fuel ->
  exists s', collect_temp_file_stats fuel f dir s = Some s' /\ own s' /\
  (forall k, k.1 ∉ m_name <$> [temp_files_count; temp_files_size_bytes] -> value s' k = value s k) /\
  (forall files, list_temp_files fuel f dir = Some (Ok files) ->
     value s' (m_name temp_files_count, []) = Some (VInt (i64 (Z.of_nat (length files)))) /\
     value s' (m_name temp_files_size_bytes, []) = Some (VInt (as_i64 (wrapN 64 (total_len f files))))).
Proof.
  intros Hs Hf.
  assert (Hloop : exists r, stats_loop fuel f [dir] 0 0 = Some r /\
    forall files, list_temp_files fuel f dir = Some (Ok files) -> r = stat f files).
  { destruct (decide (dir ∈ fs_dirs f)) as [Hd|Hd].
    - destruct (stats_loop_total fuel [dir] 0 0) as [r Hr]; [by constructor| |].
      { cbn [weight]. assert (size (below f dir) <= size (fs_dirs f)) by (apply subseteq_size; intros x; set_solver). lia. }
      exists r. split; [done|]. intros files. unfold list_temp_files. rewrite (fs_dirs_exist f dir Hd). cbn [negb].
      intros Hl%stats_loop_eq. change (stat f []) with (0%Z, 0%N) in Hl. cbn [fst snd] in Hl. congruence.
    - destruct fuel as [|[|fuel]]; [lia..|]. cbn [stats_loop list_temp_files].
      destruct (fs_read_dir f dir) as [es|] eqn:Hes; [by destruct Hd; eapply fs_read_dir_is_dir|].
      eexists. split; [done|]. intros files. unfold list_temp_files. destruct (negb (fs_exists f dir)); [by intros [= <-]|].
      cbn [list_loop]. by rewrite Hes. }
  destruct Hloop as ([c n] & Hr & Hst).
  unfold collect_temp_file_stats. rewrite Hr. cbn [mbind option_bind].
  eapply runs_exists; [solve_runs|done|]. intros s' Ho Hv. split_and!; [done|intros k Hk; rewrite Hv; frame_upd Hk|].
  intros files Hl%Hst. unfold stat in Hl. injection Hl as -> ->. rewrite !Hv. split; reflexivity.
Qed.
End temp_stats.

(** ** A registry in memory, and witnesses *)
Module PromWit.
Import MemFs.
Record t : Type := mk { names : gset string; vals : gmap Key Value }.
#[export] Instance prometheus : Prometheus t := {
  prom_names := names;
  prom_value r k := vals r !! k;
  prom_register m r :=
    if bool_decide (m_name m ∈ names r) || negb (metric_ok m) then Err "Duplicate metrics collector registration attempted"
    else Ok (mk ({[ m_name m ]} ∪ names r) (vals r));
  prom_child m ls :=
    if bool_decide (length ls = length (m_labels m)) then Ok tt else Err "Inconsistent label cardinality";
  prom_update k g r := mk (names r) (<[k := g (vals r !! k)]> (vals r));
  prom_text r := Ok (join_str "," (elements (names r)));
}.
#[export] Instance prometheus_laws : PrometheusLaws t.
Proof.
  split.
  - intros m r Hm Hn. eexists. cbn. rewrite bool_decide_eq_false_2, Hm by done. by split.
  - intros m ls _ Hl. cbn. by rewrite bool_decide_eq_true_2.
  - done.
  - intros k g r k'. cbn. case_decide as Hk; [subst; by rewrite lookup_insert_eq|by rewrite lookup_insert_ne].
Qed.
Definition r0 : Registry t := mkRegistry ∅ (mk ∅ ∅).
Lemma own0 : own r0.
Proof. unfold own. set_solver. Qed.

Definition calls : list MetricCall :=
  [InitMetrics; ForwardedRequest true; ForwardedRequest true;
   GrpcStream "raft" "append" (F64.of_N 1) [ReplicationWrite 2 false; QuorumResult "write" true];
   Http "/health" "GET" "200" (F64.of_N 1); Auth AuthSignatureMismatch; PutStage StorageCommit false;
   InternalRequest "GetStatus" "ok" (F64.of_N 1); StaleCleanup 1 0 9; InFlight true; TempFileStats 2 5].
Lemma metrics_calls_typed_witness : exists s', each call calls r0 = Some s' /\ own s'.
Proof. exact (metrics_calls_typed calls r0 own0). Defined.
Example forwarded_twice : (fun s => value s (m_name requests_forwarded_total, ["success"])) <$> each call calls r0
  = Some (Some (VInt 2)).
Proof. vm_compute. reflexivity. Qed.

Definition follower : RaftMetrics := mkRaftMetrics 7 Follower (Some 12%N) None 3 1.
Lemma collect_raft_exact_witness : exists s', collect_raft_metrics follower r0 = Some s' /\
  value s' (m_name raft_state, ["follower"]) = Some (VInt 1) /\ value s' (m_name raft_state, ["leader"]) = Some (VInt 0).
Proof.
  destruct (collect_raft_exact follower r0 own0) as (s' & Hr & _ & _ & Hst & _). exists s'.
  split; [exact Hr|]. split; [exact (Hst Follower)|exact (Hst Leader)].
Defined.

Definition n2_down : list ClusterNodeMetrics := [mkClusterNodeMetrics 1 Cluster.Healthy; mkClusterNodeMetrics 2 Cluster.Unreachable].
Lemma collect_cluster_health_exact_witness : exists s', collect_cluster_health_metrics n2_down true Connected r0 = Some s' /\
  value s' (m_name cluster_node_status, [show 2; "unreachable"]) = Some (VInt 1).
Proof.
  destruct (collect_cluster_health_exact n2_down true Connected r0 own0) as (s' & Hr & _ & _ & Hn & _).
  { apply (bool_decide_unpack _). vm_compute. exact I. }
  exists s'. split; [exact Hr|]. refine (Hn (mkClusterNodeMetrics 2 Cluster.Unreachable) Cluster.Unreachable _).
  right. left.
Defined.

#[local] Instance dirs : DirFs MemFs.t := MemDirs.dirfs DirsWit.mt.
#[local] Instance dirs_laws : DirFsLaws MemFs.t := MemDirs.laws DirsWit.mt.
Lemma mem_times p : is_Some (fs_view DirsWit.f0 !! p) -> is_Some (fs_mtime DirsWit.f0 p).
Proof. intros _. exists 7%N. reflexivity. Qed.
Lemma mem_lens d es e m : fs_read_dir DirsWit.f0 d = Ok es -> Ok e ∈ es -> de_metadata e = Ok m -> is_file m = true ->
  meta_len m = N.of_nat (length (default [] (fs_view DirsWit.f0 !! de_path e))).
Proof.
  intros [_ ->]%MemDirs.read_dir_Ok [He|He]%elem_of_app; apply list_elem_of_fmap in He as (x & [= ->] & Hx);
    cbn [de_metadata MemDirs.file_entry MemDirs.dir_entry]; intros [= <-] Hf; [|done].
  apply list_elem_of_filter in Hx as [_ Hx]. destruct x as [q b]. apply elem_of_map_to_list in Hx.
  cbn [de_path MemDirs.file_entry meta_len fst snd] in *. change (fs_view DirsWit.f0) with (MemFs.files DirsWit.f0).
  by rewrite Hx.
Qed.
Lemma collect_temp_file_stats_exact_witness : exists s', collect_temp_file_stats 9 DirsWit.f0 ["temp"] r0 = Some s' /\
  value s' (m_name temp_files_count, []) = Some (VInt 2) /\ value s' (m_name temp_files_size_bytes, []) = Some (VInt 2).
Proof.
  destruct (collect_temp_file_stats_exact (R := t) DirsWit.f0 mem_times mem_lens 9 ["temp"] r0)
    as (s' & Hr & _ & _ & Hl); [exact own0|vm_compute; lia|].
  exists s'. split; [exact Hr|]. destruct (Hl _ DirsWit.list_temp_files_finds) as [Hc Hn]. split; [exact Hc|exact Hn].
Defined.
End PromWit.
