(* ===== verification/Workers.v ===== *)
(** * save-api: the background workers

    Models the tasks that [crates/save-api/src/main.rs] spawns beside the servers:
    the garbage collector, the collection of metrics, the cleanup of the bucket
    cache, the cleanup of stale prepared writes (also the loop of
    [save-storage/src/replication/service.rs]) and the synchronisation of the
    coordinator with the members of the Raft cluster.  A worker is a loop around
    [select!] on an interval and the shutdown signal: [Wake] says which of the two
    came, with the readings of the clocks.  [None] is a panic of the task. *)
From Stdlib Require Import Strings.Byte ZArith Floats.SpecFloat.
From S2P Require Import Prelude Common Config Retry Kv Peers Fs ObjectStorage ReplicationService ReplicationClient Coordinator.
From S2P Require Import FsDirs Buckets Objects Multipart Locks StateMachine RaftTypes RaftRpc RaftNode MetadataStore.
From S2P Require Import Backends S3Xml Api Gc Cluster ClusterApi Readiness Metrics.
From stdpp Require Import base gmap strings numbers list.

(** [tokio::time::interval] is documented to panic for a period of zero. *)
Class Tokio : Type := { interval_panics : N -> bool }.
Class TokioLaws `{Tokio} : Prop := interval_zero : forall period, interval_panics period = (period =? 0)%N.

(** The monotonic clock in nanoseconds, and the Unix time in seconds. *)
Inductive Wake : Type := WTick (now : N) (unix : Z) | WShutdown.

(** [loop { select! { _ = interval.tick() => .., _ = shutdown.recv() => break } }]:
    the state it reaches, and whether it has ended. *)
Fixpoint select_loop {S} (tick : N -> Z -> S -> option S) (wakes : list Wake) (s : S) : option (S * bool) :=
  match wakes with
  | [] => Some (s, false)
  | WShutdown :: _ => Some (s, true)
  | WTick now unix :: rest => s' ← tick now unix s; select_loop tick rest s'
  end.
Definition interval_worker `{Tokio} {S} (period : N) (tick : N -> Z -> S -> option S) (wakes : list Wake) (s : S)
  : option (S * bool) :=
  if interval_panics period then None else select_loop tick wakes s.

Definition from_secs (n : N) : N := (n * 1000000000)%N.

(** ** [spawn_background_workers] *)
Definition gc_config (config : SaveConfig) : GcConfig :=
  mkGcConfig (from_secs (gc_interval_secs (storage config))) (from_secs (gc_temp_file_max_age_secs (storage config))).

Section background.
Context `{Tokio} {DB F R RS B : Type} `{RocksDB DB} `{Codec MultipartPart} `{Codec MultipartMetadata}
  `{FileSystem F, DirFs F} `{Prometheus R} `{RaftHandle RS}.
Context (config : SaveConfig).

Definition gc_worker (join_error : DB -> option (string * DB)) (fuel : nat) (temp_dir : PathBuf) (evs : list GcEvent)
    (w : Gc.World (DB := DB) (F := F)) : option (Gc.World (DB := DB) (F := F)) :=
  if interval_panics (gc_interval (gc_config config)) then None
  else run_gc_worker join_error fuel temp_dir (gc_config config) evs w.

(** The metrics worker reads the node [env now] as it is at each tick. *)
Definition metrics_worker (fuel : nat) (statvfs : N -> string -> result string Statvfs)
    (property_int_value : N -> string -> result string (option N)) (data_path : PathBuf) (fs_at : N -> F) (raft_at : N -> RS)
    : list Wake -> Registry R -> option (Registry R * bool) :=
  interval_worker (from_secs (metrics_interval_secs (server config)))
    (fun now _ => collect_metrics fuel config (statvfs now) (property_int_value now) data_path (fs_at now) (raft_at now)).

Definition cache_cleanup_interval_secs : N := N.max (bucket_cache_ttl_secs (server config)) 60.
Definition cache_cleanup_worker : list Wake -> BucketCache -> option (BucketCache * bool) :=
  interval_worker (from_secs cache_cleanup_interval_secs) (fun now _ c => Some (cleanup_expired now c)).
End background.

(** ** The stale prepared writes *)
Record StaleCleanupConfig : Type := mkStaleCleanupConfig { sc_interval : N; sc_max_age : N }.
Definition StaleCleanupConfig_default : StaleCleanupConfig := mkStaleCleanupConfig (from_secs (5 * 60)) (from_secs (60 * 60)).
Definition cleanup_config (config : SaveConfig) : StaleCleanupConfig :=
  let r := replication (cluster config) in
  mkStaleCleanupConfig (from_secs (stale_prepare_cleanup_interval_secs r)) (from_secs (stale_prepare_max_age_secs r)).

Section stale.
Context `{Tokio} {F R : Type} `{FileSystem F, Sha256, ReplicationStorage F} `{Prometheus R}.
Abbreviation Svc := (ReplicationService (F := F)).

(** The worker of [service.rs], which only logs. *)
Definition run_stale_prepare_cleanup_worker (cfg : StaleCleanupConfig) : list Wake -> Svc -> option (Svc * bool) :=
  interval_worker (sc_interval cfg) (fun now _ s => Some (cleanup_stale_prepares now (as_secs (sc_max_age cfg)) s).2).

(** The worker of [main.rs], which also records metrics. *)
Definition stale_tick (cfg : StaleCleanupConfig) (now : N) (unix : Z) (s : Svc * Registry R) : option (Svc * Registry R) :=
  let '(cleaned, svc) := cleanup_stale_prepares now (as_secs (sc_max_age cfg)) s.1 in
  reg ← stale_metrics cleaned (pending_prepare_count svc) unix s.2;
  Some (svc, reg).
Definition stale_worker (cfg : StaleCleanupConfig) : list Wake -> Svc * Registry R -> option (Svc * Registry R * bool) :=
  interval_worker (sc_interval cfg) (stale_tick cfg).
End stale.

(** ** The coordinator and the members of the cluster *)
Section sync.
Context `{Tokio} {F Net Ch RS : Type} `{FileSystem F, Sha256, ReplTransport Net Ch} `{RaftHandle RS}.
Context (hash_order : list N -> list N) (read_file : string -> result io_error bytes) (node_id : N).
Abbreviation Co := (Coordinator.St (F := F) (Net := Net) (Ch := Ch)).

(** A failure is logged; what was changed before it stays. *)
Definition sync_tick (raft : RS) (s : Co) : Co :=
  (sync_nodes hash_order read_file (get_cluster_replication_nodes node_id raft) s).2.
Definition initial_sync (raft : RS) (s : Co) : Co :=
  if bool_decide (get_cluster_replication_nodes node_id raft = []) then s else sync_tick raft s.
Definition coordinator_sync_worker (raft0 : RS) (raft_at : N -> RS) (wakes : list Wake) (s : Co) : option (Co * bool) :=
  interval_worker (from_secs 1) (fun now _ s => Some (sync_tick (raft_at now) s)) wakes (initial_sync raft0 s).
End sync.

(** ** Properties *)

(** An interval worker is a sequence of ticks that the signal ends. *)
Lemma select_loop_stops {S} (tick : N -> Z -> S -> option S) ws rest s s' b :
  select_loop tick ws s = Some (s', b) -> WShutdown ∉ ws ->
  b = false /\ select_loop tick (ws ++ WShutdown :: rest) s = Some (s', true).
Proof.
  revert s. induction ws as [|[now unix|] ws IH]; intros s; simpl.
  - by intros [= <- <-] _.
  - destruct (tick now unix s) as [s1|]; simpl; [|done]. intros Hr Hn. apply IH; [done|]. set_solver.
  - set_solver.
Qed.
Lemma select_loop_inv {S} (P : S -> Prop) (tick : N -> Z -> S -> option S) ws s s' b :
  (forall now unix s s', WTick now unix ∈ ws -> P s -> tick now unix s = Some s' -> P s') -> P s ->
  select_loop tick ws s = Some (s', b) -> P s'.
Proof.
  revert s. induction ws as [|[now unix|] ws IH]; intros s Ht Hs; simpl; [by intros [= <- <-]| |by intros [= <- <-]].
  destruct (tick now unix s) as [s1|] eqn:Hs1; simpl; [|done]. apply IH.
  - intros now' unix' t t' Hin. apply Ht. by right.
  - eapply Ht; [by left|done|done].
Qed.

Section stale_theory.
Context `{Tokio} {F R : Type} `{FileSystemLaws F, Sha256, !ReplicationStorage F, !ReplicationStorageLaws F} `{PrometheusLaws R}.

Lemma stale_metrics_exact cleaned pending unix (reg : Registry R) : own reg ->
  exists reg', stale_metrics cleaned pending unix reg = Some reg' /\ own reg' /\
    value reg' (m_name pending_prepares_count, []) = Some (VInt (as_i64 (N.of_nat pending))) /\
    (int_of (value reg' (m_name stale_prepares_cleaned_total, [])) mod 2 ^ 64 =
      (int_of (value reg (m_name stale_prepares_cleaned_total, [])) + Z.of_nat cleaned) mod 2 ^ 64)%Z.
Proof.
  intros Ho. unfold stale_metrics. destruct (Nat.ltb_spec 0 cleaned) as [Hc|Hc];
    (eapply runs_exists; [solve_runs|exact Ho|]; intros reg' Ho' Hv; rewrite !Hv; split_and!; [done|reflexivity|];
     cbn [compose]; repeat (rewrite upd_eq || rewrite upd_ne by discriminate); cbn [int_of]).
  - rewrite Z.mod_mod by done. do 2 f_equal. lia.
  - f_equal. lia.
Qed.

(** C36. A tick of the cleanup of prepared writes cannot panic.  It drops exactly
    the prepared writes that have reached the configured age and leaves the files
    and prepared writes of every other key alone; the gauge of pending writes is
    the number that is left, and the counter grows by the number dropped. *)
Theorem stale_tick_exact (config : SaveConfig) now unix (svc : ReplicationService (F := F)) (reg : Registry R) :
  let age := stale_prepare_max_age_secs (replication (cluster config)) in
  pending_wf svc -> own reg ->
  exists svc' reg', stale_tick (cleanup_config config) now unix (svc, reg) = Some (svc', reg') /\ own reg' /\
  (forall tid p, pending_prepares svc' !! tid = Some p <->
     pending_prepares svc !! tid = Some p /\ (as_secs (now - prepared_at p) < age)%N) /\
  (forall k, (forall tid p, mine k svc !! tid = Some p -> (as_secs (now - prepared_at p) < age)%N) -> leaves k svc svc') /\
  value reg' (m_name pending_prepares_count, []) = Some (VInt (as_i64 (N.of_nat (size (pending_prepares svc'))))) /\
  (int_of (value reg' (m_name stale_prepares_cleaned_total, [])) mod 2 ^ 64 =
    (int_of (value reg (m_name stale_prepares_cleaned_total, []))
       + Z.of_nat (size (pending_prepares svc) - size (pending_prepares svc'))) mod 2 ^ 64)%Z.
Proof.
  intros age Hwf Ho. unfold stale_tick, cleanup_config. cbn [fst snd sc_max_age].
  assert (Hage : as_secs (from_secs (stale_prepare_max_age_secs (replication (cluster config)))) = age)
    by (unfold as_secs, from_secs; by rewrite N.div_mul).
  rewrite Hage. destruct (cleanup_stale_prepares now age svc) as [cleaned svc'] eqn:Hc.
  assert (Hsvc : svc' = (cleanup_stale_prepares now age svc).2) by by rewrite Hc.
  assert (Hcl : cleaned = size (pending_prepares svc) - size (pending_prepares svc')) by by injection Hc as <- <-.
  assert (Hst : forall p, stale now age p = false <-> (as_secs (now - prepared_at p) < age)%N)
    by (intros p; unfold stale; apply N.leb_gt).
  destruct (stale_metrics_exact cleaned (pending_prepare_count svc') unix reg Ho) as (reg' & Hrun & Ho' & Hp & Hn).
  rewrite Hrun. exists svc', reg'. split_and!; [done|done| | |exact Hp|by rewrite <- Hcl].
  - intros tid p. rewrite Hsvc. simpl. rewrite map_lookup_filter_Some. simpl. by rewrite Hst.
  - intros k Hk. rewrite Hsvc. apply cleanup_fresh_leaves; [done|]. intros tid p ?. apply Hst. by eapply Hk.
Qed.
End stale_theory.

Section sync_theory.
Context {F Net Ch RS : Type} `{RaftHandle RS} (hash_order : list N -> list N) (hash_perm : forall l, hash_order l ≡ₚ l)
  (read_file : string -> result io_error bytes).
Abbreviation Co := (Coordinator.St (F := F) (Net := Net) (Ch := Ch)).

(** The replicas of [raft]: its other members whose addresses are known. *)
Definition replica (raft : RS) (id n : N) (addr : string) : Prop :=
  n <> id /\ n ∈ mt_voters (raft_metrics raft) ++ mt_learners (raft_metrics raft) /\
  exists node, mt_nodes (raft_metrics raft) !! n = Some node /\ addr = replication_addr node.
Lemma replication_nodes_spec (raft : RS) id n addr :
  (n, addr) ∈ get_cluster_replication_nodes id raft <-> replica raft id n addr.
Proof.
  unfold get_cluster_replication_nodes, replica. rewrite list_elem_of_omap. split.
  - intros (x & Hx & Hn). case_bool_decide; [|done].
    destruct (mt_nodes (raft_metrics raft) !! x) as [node|] eqn:Hnode; [|done]. simplify_eq/=. eauto 10.
  - intros (Hne & Hin & node & Hnode & ->). exists n. split; [done|]. rewrite bool_decide_eq_true_2 by done. by rewrite Hnode.
Qed.
Lemma replication_nodes_NoDup (raft : RS) id :
  NoDup (mt_voters (raft_metrics raft) ++ mt_learners (raft_metrics raft)) ->
  NoDup (get_cluster_replication_nodes id raft).*1.
Proof.
  unfold get_cluster_replication_nodes. generalize (mt_voters (raft_metrics raft) ++ mt_learners (raft_metrics raft)).
  intros l Hnd. eapply sublist_NoDup; [exact Hnd|]. clear Hnd. induction l as [|x l IH]; simpl; [done|].
  case_bool_decide; [|by constructor]. destruct (mt_nodes _ !! x); simpl; by constructor.
Qed.

(** The coordinator follows the cluster.  After a tick of the synchronisation
    that did not fail, the coordinator has a client for exactly the other members
    of the Raft cluster whose addresses are known, and a client that is new has
    the address of the membership. *)
Theorem sync_tick_exact (raft : RS) (s s' : Co) :
  clients (coord s) !! local_node_id (coord s) = None ->
  NoDup (mt_voters (raft_metrics raft) ++ mt_learners (raft_metrics raft)) ->
  sync_nodes hash_order read_file (get_cluster_replication_nodes (local_node_id (coord s)) raft) s = (Ok tt, s') ->
  sync_tick hash_order read_file (local_node_id (coord s)) raft s = s' /\
  (forall n, is_Some (clients (coord s') !! n) <-> exists addr, replica raft (local_node_id (coord s)) n addr) /\
  (forall n addr, replica raft (local_node_id (coord s)) n addr -> clients (coord s) !! n = None ->
     exists c, clients (coord s') !! n = Some c /\ ReplicationClient.node_id c = n /\ ReplicationClient.addr c = addr).
Proof.
  intros Hself Hnd Hrun. split; [unfold sync_tick; by rewrite Hrun|].
  apply sync_nodes_exact in Hrun as (Hdom & _ & Hnew); [|done..|by apply replication_nodes_NoDup]. split.
  - intros n. rewrite Hdom, list_elem_of_fmap. split.
    + intros [([n' addr] & -> & Hin%replication_nodes_spec) _]. by exists addr.
    + intros [addr Hr]. split; [|apply Hr]. exists (n, addr). split; [done|]. by apply replication_nodes_spec.
  - intros n addr Hr Hn. apply Hnew; [by apply replication_nodes_spec|apply Hr|done].
Qed.
End sync_theory.

Section timers.
Context `{TokioLaws}.

(** The cleanup of the bucket cache is invisible and cannot fail: its interval
    is never zero, and whatever ticks it has done by the time [t], the cache
    answers at [t] and later what it would have answered without it. *)
Theorem cache_cleanup_invisible (config : SaveConfig) ws c t b :
  (forall now unix, WTick now unix ∈ ws -> (now <= t)%N) ->
  exists c' ended, cache_cleanup_worker config ws c = Some (c', ended) /\ (ended = true <-> WShutdown ∈ ws) /\
    cache_contains t b c' = cache_contains t b c.
Proof.
  intros Ht. unfold cache_cleanup_worker, interval_worker. rewrite interval_zero.
  assert (Hp : (0 < from_secs (cache_cleanup_interval_secs config))%N).
  { unfold from_secs, cache_cleanup_interval_secs. lia. }
  destruct (N.eqb_spec (from_secs (cache_cleanup_interval_secs config)) 0) as [Hz|_]; [lia|]. clear Hp.
  revert c. induction ws as [|[now unix|] ws IH]; intros c; simpl.
  - exists c, false. split_and!; [done|split; [done|by intros ?%not_elem_of_nil]|done].
  - destruct (IH (fun n u Hin => Ht n u (proj2 (elem_of_cons _ _ _) (or_intror Hin))) (cleanup_expired now c))
      as (c' & e & Hr & He & Hc).
    exists c', e. split_and!; [done|rewrite He, elem_of_cons; naive_solver|]. rewrite Hc. unfold cache_contains. simpl.
    assert (Hn : (now <= t)%N) by (eapply Ht; by left).
    destruct (bc_cache c !! b) as [t0|] eqn:Hb.
    + destruct (decide ((now - t0 < bc_ttl c)%N)) as [Hf|Hf].
      * rewrite (proj2 (map_lookup_filter_Some _ _ _ _) (conj Hb Hf)). done.
      * rewrite (proj2 (map_lookup_filter_None _ _ _)). 2: { right. intros t1 Ht1. simpl. congruence. }
        symmetry. apply N.ltb_ge. lia.
    + rewrite (proj2 (map_lookup_filter_None _ _ _)) by by left. done.
  - exists c, true. split_and!; [done|split; [by left|done]|done].
Qed.

(** A configuration whose intervals are zero. *)
Definition zero_intervals (c : SaveConfig) : SaveConfig :=
  let sv := server c in let st := storage c in let cl := cluster c in let r := replication cl in
  mkSaveConfig
    (mkServerConfig (bind_address sv) (max_body_size sv) (worker_threads sv) (max_blocking_threads sv)
       (bucket_cache_ttl_secs sv) 0)
    (mkStorageConfig (data_path st) (metadata_path st) (max_object_size st) 0 (gc_temp_file_max_age_secs st) (Config.fsync_mode st))
    (metadata c) (credentials c) (limits c) (shutdown c)
    (mkClusterConfig (cluster_node_id cl) (raft_bind_addr cl) (seed_nodes cl) (consistency_mode cl) (connect_timeout_secs cl)
       (rpc_timeout_secs cl) (heartbeat_interval_ms cl) (election_timeout_min_ms cl) (election_timeout_max_ms cl)
       (join_timeout_secs cl) (leave_timeout_secs cl) (learner_catchup_delay_ms cl) (join_max_retries cl)
       (mkReplicationConfig (Config.replication_factor r) (repl_bind_addr r) (repl_tls r) (retry r) 0 (stale_prepare_max_age_secs r))
       (internal_api cl)).

(** Intervals of zero seconds pass the validation of the configuration, and the
    workers that have them panic when they start: the node runs without garbage
    collection, metrics and cleanup of prepared writes. *)
Theorem zero_intervals_accepted {DB F R RS} `{RocksDB DB} `{Codec MultipartPart} `{Codec MultipartMetadata}
    `{FileSystem F, DirFs F} `{Prometheus R} `{RaftHandle RS} `{Sha256, !ReplicationStorage F}
    (c : SaveConfig) je fuel dir evs (g : Gc.World (DB := DB) (F := F)) sv pv (fa : N -> F) (ra : N -> RS) ws (r : Registry R)
    (svc : ReplicationService (F := F)) :
  validate c = Ok tt ->
  validate (zero_intervals c) = Ok tt /\
  gc_worker (zero_intervals c) je fuel dir evs g = None /\
  metrics_worker (zero_intervals c) fuel sv pv dir fa ra ws r = None /\
  stale_worker (cleanup_config (zero_intervals c)) ws (svc, r) = None.
Proof.
  intros Hv%validate_Ok. split; [apply validate_Ok; by destruct Hv; split|].
  unfold gc_worker, metrics_worker, stale_worker, interval_worker. by rewrite !interval_zero.
Qed.
End timers.

(** ** Witnesses *)
Module WorkersWit.
#[local] Existing Instance PromWit.prometheus.
#[local] Existing Instance PromWit.prometheus_laws.
Import MemFs ToySha.
#[local] Instance tokio : Tokio := { interval_panics p := (p =? 0)%N }.
#[local] Instance tokio_laws : TokioLaws.
Proof. done. Qed.

(** A write prepared at the fifth nanosecond, two hours later. *)
#[local] Instance impl : ReplicationStorage MemFs.t := object_storage_impl ReplWit.st.
#[local] Instance impl_laws : ReplicationStorageLaws MemFs.t := object_storage_laws ReplWit.st.
Definition svc1 : ReplicationService (F := MemFs.t) := (ReplicationService.prepare_object 5 ReplWit.req1 ReplWit.s0).2.
Lemma svc1_wf : pending_wf svc1.
Proof.
  intros tid p Hp. destruct (decide (tid = "7:b/k")) as [->|Hne].
  - exists 7%N, "b/k". split; [reflexivity|]. revert Hp. vm_compute. by intros [= <-].
  - exfalso. assert (Hd : dom (pending_prepares svc1) = {[ "7:b/k" ]}) by (vm_compute; reflexivity).
    apply elem_of_dom_2 in Hp. rewrite Hd in Hp. set_solver.
Qed.
Definition later : N := from_secs 7200.
Lemma stale_tick_exact_witness : exists svc' reg',
  stale_tick (cleanup_config Readiness.ReadyWit.cfg) later 100 (svc1, PromWit.r0) = Some (svc', reg') /\
  pending_prepares svc' !! "7:b/k" = None /\
  value reg' (m_name pending_prepares_count, []) = Some (VInt (as_i64 (N.of_nat (size (pending_prepares svc'))))).
Proof.
  destruct (stale_tick_exact Readiness.ReadyWit.cfg later 100 svc1 PromWit.r0 svc1_wf PromWit.own0)
    as (svc' & reg' & Hrun & _ & Hp & _ & Hg & _).
  exists svc', reg'. split; [exact Hrun|]. split; [|exact Hg].
  destruct (pending_prepares svc' !! "7:b/k") as [p|] eqn:Hl; [|reflexivity]. exfalso.
  apply (proj1 (Hp _ _)) in Hl as [Hl Hage]. revert Hage. revert Hl.
  vm_compute. intros [= <-]. discriminate.
Defined.

Import MemRaft.
Definition node (n : string) : SaveNode := mkSaveNode (n +:+ ":9001") (n +:+ ":9000") (n +:+ ":9002").
Definition raft3 : MemRaft.t := MemRaft.mk {[ 1; 2 ]}%N {[ 1 := node "n1"; 2 := node "n2"; 3 := node "n3" ]}%N 0 (Some 1%N) 0.
Definition co0 := BackendWit.start ∅ ∅.
Definition synced := sync_nodes BackendWit.backwards BackendWit.no_files (get_cluster_replication_nodes 1 raft3) co0.
Lemma sync_tick_exact_witness : is_Some (clients (coord synced.2) !! 3%N) /\ ~ is_Some (clients (coord synced.2) !! 1%N).
Proof.
  destruct (sync_tick_exact BackendWit.backwards BackendWit.rev_perm BackendWit.no_files raft3 co0 synced.2) as (_ & Hc & _).
  - reflexivity.
  - apply (bool_decide_unpack _). vm_compute. exact I.
  - apply run_eq. vm_compute. reflexivity.
  - rewrite !Hc. split.
    + exists "n3:9002". split; [discriminate|]. split; [apply (bool_decide_unpack _); vm_compute; exact I|].
      exists (node "n3"). split; [vm_compute|]; reflexivity.
    + intros [addr [Hne _]]. apply Hne. reflexivity.
Defined.

Definition cache0 : BucketCache := mkBucketCache {[ "old" := 0%N; "new" := from_secs 100 ]} (from_secs 60).
Lemma cache_cleanup_invisible_witness : exists c' ended,
  cache_cleanup_worker Readiness.ReadyWit.cfg [WTick (from_secs 70) 0; WShutdown] cache0 = Some (c', ended) /\
  (ended = true <-> WShutdown ∈ [WTick (from_secs 70) 0; WShutdown]) /\
  cache_contains (from_secs 110) "new" c' = cache_contains (from_secs 110) "new" cache0.
Proof.
  apply (cache_cleanup_invisible Readiness.ReadyWit.cfg). intros now unix [[= -> ->]|Hin]%elem_of_cons.
  - vm_compute. discriminate.
  - apply list_elem_of_singleton in Hin. discriminate.
Defined.
End WorkersWit.
