(* ===== verification/Startup.v ===== *)
(** * save-api: starting a node

    Models the start of a node in [crates/save-api/src/main.rs] and what it calls:
    [init_raft_node] with the construction of the Raft node in
    [save-metadata/src/raft/node.rs], the listening sockets, and the servers'
    [run_server] functions ([raft/server.rs], [internal_api/server.rs],
    [replication/server.rs]) with the functions that spawn them.  Sockets, tonic's
    serving and openraft's constructor are parameters. *)
From Stdlib Require Import Ascii.
From S2P Require Import Prelude Common Peers Config Kv Fs ObjectStorage ReplicationClient Buckets Objects Locks.
From S2P Require Import StateMachine RaftTypes RaftRpc RaftNode MetadataStore ClusterApi Coordinator Factory.
From stdpp Require Import base gmap strings numbers list.

(** What [anyhow::Error] carries. *)
Inductive StartError : Type :=
| EMetadata (e : MetadataError)
| EStorage (e : StorageError.t)
| EMsg (msg : string).

(** ** Storage and metadata *)

(** The options the database is opened with. *)
Record DbOptions : Type := mkDbOptions {
  create_if_missing : bool; create_missing_column_families : bool; write_buffer_size : N;
  db_max_write_buffer_number : Z; min_write_buffer_number_to_merge : Z; block_cache_size : N; bloom_filter_bits : N;
  db_block_size : N; db_max_background_jobs : Z; stats_dump_period_sec : N }.
Definition metadata_options (c : MetadataConfig) : DbOptions :=
  mkDbOptions true true (wrapN 64 (write_buffer_size_mb c * 1024 * 1024)) (max_write_buffer_number c) 2
    (wrapN 64 (block_cache_size_mb c * 1024 * 1024)) 10 (16 * 1024) (max_background_jobs c) 300.

Section storage.
Context {F DB Ch : Type} `{FileSystem F, Sha256}.
(** [rocksdb::DB::open_cf_descriptors]. *)
Context (open_cf : DbOptions -> string -> list string -> result string DB).

Definition new_with_config (path : string) (c : MetadataConfig) : result MetadataError DB :=
  map_err Database (open_cf (metadata_options c) path column_families.ALL).

Definition init_storage (data_path : PathBuf) (config : SaveConfig) : M F StartError (StorageSetup Ch * DB) :=
  storage_setup ← with_err EStorage (create_storage_backend data_path (Config.fsync_mode (storage config)) (cluster config));
  metadata ← lift (map_err EMetadata (new_with_config (metadata_path (storage config)) (metadata config)));
  mret (storage_setup, metadata).
End storage.

(** ** The Raft node *)

(** openraft's [Config], as far as it is set. *)
Record RaftConfig : Type := mkRaftConfig {
  heartbeat_interval : N; election_timeout_min : N; election_timeout_max : N; max_in_snapshot_log_to_keep : N }.
Definition RaftConfig_of (c : ClusterConfig) : RaftConfig :=
  mkRaftConfig (heartbeat_interval_ms c) (election_timeout_min_ms c) (election_timeout_max_ms c) 1000.

Section raft_node.
Context {DB RS Ch : Type} `{RocksDB DB} `{RaftHandle RS}.
(** [openraft::Raft::new] on the storage of the database. *)
Context (raft_new : N -> RaftConfig -> Network.t Ch -> M DB string RS).

Definition with_config (node_id : N) (peers : list (N * string * string * string)) (config : RaftConfig)
  : M DB MetadataError RS :=
  with_err Raft (raft_new node_id config (Network.with_peers node_id peers)).
Definition from_cluster_config (cluster_config : ClusterConfig) : M DB MetadataError RS :=
  peers ← lift (parse_peers_to_tuples (seed_nodes cluster_config));
  with_config (cluster_node_id cluster_config) peers (RaftConfig_of cluster_config).

(** The bootstrap of a standalone node. *)
Definition bootstrap (config : SaveConfig) (node : RS) : result StartError RS :=
  let c := cluster config in
  if bool_decide (seed_nodes c = []) && negb (is_initialized node) then
    match from_bind_addrs (cluster_node_id c) (raft_bind_addr c) (bind_address (server config))
            (repl_bind_addr (replication c)) with
    | Err e => Err (EMsg ("Invalid bind address configuration: " +:+ Error.to_string e))
    | Ok peer =>
        match RaftNode.initialize [peer] node with
        | (Ok _, node') => Ok node'
        | (Err AlreadyInitialized, node') => Ok node'
        | (Err e, _) => Err (EMetadata e)
        end
    end
  else Ok node.

Definition init_raft_node (config : SaveConfig) : M DB StartError RS := fun d =>
  match from_cluster_config (cluster config) d with
  | (Ok node, d1) => (bootstrap config node, d1)
  | (Err e, d1) =>
      if is_recoverable_raft_corruption e then
        match MetadataStore.clear_raft_state d1 with
        | (Err _, d2) => (Err (EMetadata e), d2)
        | (Ok _, d2) =>
            match from_cluster_config (cluster config) d2 with
            | (Ok node, d3) => (bootstrap config node, d3)
            | (Err e', d3) => (Err (EMetadata e'), d3)
            end
        end
      else (Err (EMetadata e), d1)
  end.
End raft_node.

(** ** Listening sockets *)
Record SocketAddr : Type := mkSocketAddr { is_ipv4 : bool; sa_text : string }.
Inductive Domain : Type := IPV4 | IPV6.
Class Sockets (W Sock : Type) : Type := {
  parse_addr : string -> result string SocketAddr;
  sock_new : Domain -> M W string Sock;
  sock_set_reuse_address : Sock -> M W string unit;
  sock_bind : Sock -> SocketAddr -> M W string unit;
  sock_listen : Sock -> N -> M W string unit;
  sock_set_nonblocking : Sock -> M W string unit;
  sock_into_tokio : Sock -> M W string unit;
}.

(** What a spawned server has done so far: it is starting, it has sent the
    readiness signal, it has given up and dropped the signal's sender, its task
    has ended, or the task has panicked. *)
Inductive Phase : Type := Starting | Serving | Failing | Ended (r : result string unit) | Panicked (msg : string).
(** The receiver of the signal is ready when it was sent or its sender dropped. *)
Definition signalled (p : Phase) : bool := match p with Starting => false | _ => true end.
Definition is_finished (p : Phase) : bool := match p with Ended _ | Panicked _ => true | _ => false end.

Section servers.
Context {W Sock : Type} `{Sockets W Sock}.
(** tonic serving the connections of a listener until the shutdown signal, and
    binding an address by itself; its check of a TLS configuration. *)
Context (serve : Sock -> M W string unit) (serve_addr : SocketAddr -> M W string unit)
  (read_file : string -> result io_error bytes) (tls_config : ServerTlsConfig -> result string unit).

Definition create_tcp_listener (addr : SocketAddr) : M W string Sock :=
  socket ← sock_new (if is_ipv4 addr then IPV4 else IPV6);
  sock_set_reuse_address socket ;;
  sock_bind socket addr ;;
  sock_listen socket 1024 ;;
  sock_set_nonblocking socket ;;
  sock_into_tokio socket ;;
  mret socket.

(** [if let Some(tls) = tls_config { .. }]. *)
Definition set_up_tls (tls : option TlsConfig) : result string unit :=
  match tls with
  | Some t => server_tls ← map_err Error.to_string (load_server_tls_config read_file t); tls_config server_tls
  | None => Ok tt
  end.

(** *** [run_server] of [raft/server.rs]: its phases *)
Definition run_raft_server (addr : SocketAddr) (w : W) : list Phase * W :=
  match create_tcp_listener addr w with
  | (Err e, w1) => ([Starting; Failing; Ended (Err e)], w1)
  | (Ok l, w1) => let '(r, w2) := serve l w1 in ([Starting; Serving; Ended r], w2)
  end.

(** *** [run_server] of [internal_api/server.rs]: TLS is set up after the signal *)
Definition run_internal_api_server (addr : SocketAddr) (tls : option TlsConfig) (w : W) : list Phase * W :=
  match create_tcp_listener addr w with
  | (Err e, w1) => ([Starting; Failing; Ended (Err e)], w1)
  | (Ok l, w1) =>
      match set_up_tls tls with
      | Err e => ([Starting; Serving; Ended (Err e)], w1)
      | Ok _ => let '(r, w2) := serve l w1 in ([Starting; Serving; Ended r], w2)
      end
  end.

(** *** [run_server_with_tls] of [replication/server.rs] *)
Definition run_replication_server (addr : SocketAddr) (tls : option TlsConfig) : M W string unit :=
  lift (set_up_tls tls) ;; serve_addr addr.
End servers.

(** *** [start_raft_server]

    The second branch of the [select!] is a block without an await, which is
    ready when it is polled: the first poll decides.  [ready_first] is the order in
    which the branches are polled; [at_signal] and [at_handle] are the phases the
    server is in when they are. *)
Definition start_raft_server (ready_first : bool) (at_signal at_handle : Phase) : result StartError unit :=
  if ready_first && signalled at_signal then Ok tt
  else match at_handle with
       | Ended (Err e) => Err (EMsg ("Raft server failed to start: " +:+ e))
       | Ended (Ok _) => Err (EMsg "Raft server exited unexpectedly")
       | Panicked e => Err (EMsg ("Raft server task panicked: " +:+ e))
       | _ => Ok tt
       end.

(** *** [start_internal_api_server]

    The second branch polls the handle until the task has ended; each wake-up
    polls both branches.  The answer is whether a server was started. *)
Record Poll : Type := mkPoll { ready_first : bool; at_signal : Phase; at_handle : Phase }.
Definition poll_internal (p : Poll) : option (result StartError bool) :=
  let signal := if signalled (at_signal p) then Some (Ok true) else None in
  let handle := match at_handle p with
                | Ended _ => Some (Err (EMsg "Internal API server exited unexpectedly"))
                | Panicked e => Some (Err (EMsg ("Internal API server task panicked: " +:+ e)))
                | _ => None
                end in
  if ready_first p then match signal with Some r => Some r | None => handle end
  else match handle with Some r => Some r | None => signal end.
Fixpoint await_internal (polls : list Poll) : option (result StartError bool) :=
  match polls with
  | [] => None
  | p :: rest => match poll_internal p with Some r => Some r | None => await_internal rest end
  end.
(** The TLS configuration the server is given. *)
Definition internal_tls (config : SaveConfig) : option TlsConfig :=
  match api_tls (internal_api (cluster config)) with
  | Some t => Some t | None => repl_tls (replication (cluster config)) end.
(** Answers [None] while it waits. *)
Definition start_internal_api_server (parse : string -> result string SocketAddr) (config : SaveConfig) (polls : list Poll)
  : option (result StartError bool) :=
  let bind := api_bind_addr (internal_api (cluster config)) in
  if bool_decide (bind = "") then Some (Ok false)
  else match parse bind with Err e => Some (Err (EMsg e)) | Ok _ => await_internal polls end.

(** ** Properties *)
Section init_theory.
Context {DB RS Ch : Type} `{RocksDBLaws DB} `{RaftMembers RS}.
(** What is relied on of openraft: making the node reads the storage, and applies
    nothing, since the storage saves no committed index. *)
Context (raft_new : N -> RaftConfig -> Network.t Ch -> M DB string RS)
  (raft_new_reads : forall id c n d r d', raft_new id c n d = (r, d') -> meta d' = meta d).

Lemma clear_keeps_meta (d : DB) r d' : MetadataStore.clear_raft_state d = (r, d') -> meta d' = meta d.
Proof.
  unfold MetadataStore.clear_raft_state. apply (for_each_inv (fun t => meta t = meta d)); [|done].
  intros cf t u t' Hcf Ht. unfold MetadataStore.clear_cf. destruct (db_has_cf t cf); [|by intros [= _ <-]].
  apply (for_each_inv (fun t => meta t = meta d)); [|done]. intros k v u' v' _ Hv. unfold writes.
  destruct (db_delete v cf k) as [v1|] eqn:Hd; intros [= _ <-]; [|done]. rewrite <- Hv. unfold meta.
  eapply db_delete_frame; [exact Hd|]. intros <-. by apply (bool_decide_unpack _) in Hcf || set_solver.
Qed.
Lemma from_cluster_meta cfg (d : DB) r d' : from_cluster_config raft_new cfg d = (r, d') -> meta d' = meta d.
Proof.
  unfold from_cluster_config, with_config.
  intros [(ps & d1 & [_ ->]%lift_inv & (r0 & Hn & _)%with_err_inv)|(e & [_ ->]%lift_inv & _)]%bind_inv; [|done].
  by eapply raft_new_reads.
Qed.

Lemma init_raft_node_meta config (d : DB) r d' : init_raft_node raft_new config d = (r, d') -> meta d' = meta d.
Proof.
  unfold init_raft_node. destruct (from_cluster_config raft_new (cluster config) d) as [r1 d1] eqn:Hf.
  apply from_cluster_meta in Hf as <-. destruct r1 as [|e]; [by intros [= _ <-]|].
  destruct (is_recoverable_raft_corruption e); [|by intros [= _ <-]].
  destruct (MetadataStore.clear_raft_state d1) as [r2 d2] eqn:Hc. apply clear_keeps_meta in Hc as <-.
  destruct r2; [|by intros [= _ <-]]. destruct (from_cluster_config raft_new (cluster config) d2) as [r3 d3] eqn:Hf2.
  apply from_cluster_meta in Hf2 as <-. by destruct r3; intros [= _ <-].
Qed.

(** What the bootstrap makes of a node. *)
Definition bootstrapped (config : SaveConfig) (node : RS) (r : result StartError RS) : Prop :=
  forall node', r = Ok node' ->
    (node' = node /\ (seed_nodes (cluster config) = [] -> is_initialized node = true)) \/
    (seed_nodes (cluster config) = [] /\ is_initialized node = false /\
     exists p, from_bind_addrs (cluster_node_id (cluster config)) (raft_bind_addr (cluster config))
         (bind_address (server config)) (repl_bind_addr (replication (cluster config))) = Ok p /\
       (members node' = mkMembers {[ PeerInfo.node_id p ]} {[ PeerInfo.node_id p := node_of p ]} \/
        members node' = members node)).
Lemma bootstrap_spec config node : bootstrapped config node (bootstrap config node).
Proof.
  intros node'. unfold bootstrap. destruct (bool_decide_reflect (seed_nodes (cluster config) = [])) as [Hs|Hs]; simpl.
  2: { intros [= <-]. left. split; [done|naive_solver]. }
  destruct (is_initialized node) eqn:Hi; simpl; [intros [= <-]; by left|].
  destruct (from_bind_addrs _ _ _ _) as [p|]; [|done].
  destruct (RaftNode.initialize [p] node) as [[u|e] n1] eqn:Hr; apply initialize_members in Hr.
  - intros [= <-]. right. split_and!; [done..|]. exists p. split; [done|]. destruct Hr as [?|[??]]; [by left|done].
  - destruct e; intros [= <-]. right. split_and!; [done..|]. exists p. split; [done|]. destruct Hr as [?|[_ ?]]; auto.
Qed.

(** The texts by which an error of Raft counts as a corrupt record. *)
Definition names_corruption (e : MetadataError) : Prop :=
  exists msg word, e = Raft msg /\ contains_str word msg = true /\
    word ∈ ["missing field"; "invalid type"; "expected"; "JSON"; "deserialize"].
Lemma names_corruption_spec e : is_recoverable_raft_corruption e = true <-> names_corruption e.
Proof.
  unfold names_corruption. split.
  - destruct e; try done. cbn [is_recoverable_raft_corruption].
    rewrite !orb_true_iff. intros [[[[?|?]|?]|?]|?]; eexists _, _; (split; [done|split; [eassumption|set_solver]]).
  - intros (msg & word & -> & Hc & Hw). cbn [is_recoverable_raft_corruption]. rewrite !orb_true_iff.
    rewrite !elem_of_cons in Hw. destruct Hw as [->|[->|[->|[->|[->|[]%elem_of_nil]]]]]; tauto.
Qed.
(** The state of Raft is gone from every open column family that can be read
    through, and nothing else is. *)
Definition emptied (d d' : DB) : Prop :=
  meta d' = meta d /\
  forall cf, cf ∈ ["raft_log"; "raft_state"; "raft_snapshot"] -> db_has_cf d cf = true ->
    (forall d1, db_has_cf d1 cf = true -> db_view d1 cf = db_view d cf -> MetadataStore.iter_ok d1 cf) -> db_view d' cf = ∅.

End init_theory.

(** ** Servers and the readiness signal

    [seen] is what polls, one after the other, see of a server that goes through
    the phases [ps]. *)
Definition follows (ps seen : list Phase) : Prop :=
  exists idx, (forall i j a b, i < j -> idx !! i = Some a -> idx !! j = Some b -> a <= b) /\
    Forall2 (fun i p => ps !! i = Some p) idx seen.
Definition seen_by (p : Poll) : list Phase :=
  if ready_first p then [at_signal p; at_handle p] else [at_handle p; at_signal p].

Lemma follows_repeat ps i p n : ps !! i = Some p -> follows ps (replicate n p).
Proof.
  intros Hp. exists (replicate n i). split.
  - intros a b x y _ [-> _]%lookup_replicate [-> _]%lookup_replicate. done.
  - induction n; constructor; done.
Qed.

Section servers_theory.
Context {W Sock : Type} `{Sockets W Sock} (serve : Sock -> M W string unit)
  (read_file : string -> result io_error bytes) (tls_config : ServerTlsConfig -> result string unit).

(** An error is reported only for a server whose task has ended by then. *)
Lemma raft_start_error rf a b : is_ok (start_raft_server rf a b) = false -> is_finished b = true.
Proof. unfold start_raft_server. destruct (rf && _); [done|]. by destruct b as [| | |[]|]. Qed.

(** A Raft server that cannot listen is taken for a started one when its task has
    not ended at the first poll, and also when the poll sees that the sender of
    the signal was dropped. *)
Theorem raft_bind_failure_unnoticed addr w e w1 : create_tcp_listener addr w = (Err e, w1) ->
  let phases := (run_raft_server serve addr w).1 in
  (follows phases [Starting; Starting] /\ forall rf, start_raft_server rf Starting Starting = Ok tt) /\
  (forall b, follows phases [Failing; b] -> start_raft_server true Failing b = Ok tt).
Proof.
  intros Hc. unfold run_raft_server. rewrite Hc. simpl. split; [|done]. split; [|by intros []].
  by apply (follows_repeat _ 0 _ 2).
Qed.

(** The administration server: it is waited for until the signal or the end of its
    task; a failure of its TLS set-up comes after the signal and is not
    reported. *)
Theorem internal_tls_failure_unnoticed addr tls w l w1 e : create_tcp_listener addr w = (Ok l, w1) ->
  set_up_tls read_file tls_config tls = Err e ->
  let phases := (run_internal_api_server serve read_file tls_config addr tls w).1 in
  last phases = Some (Ended (Err e)) /\
  forall rf, follows phases (seen_by (mkPoll rf Serving Serving)) /\
    await_internal [mkPoll rf Serving Serving] = Some (Ok true).
Proof.
  intros Hc Ht. unfold run_internal_api_server. rewrite Hc, Ht. simpl. split; [done|]. intros [].
  - split; [by apply (follows_repeat _ 1 Serving 2)|done].
  - split; [by apply (follows_repeat _ 1 Serving 2)|done].
Qed.

(** It waits exactly while no poll sees the signal or the end of the task. *)
Lemma await_internal_waits polls : await_internal polls = None <->
  Forall (fun p => signalled (at_signal p) = false /\ is_finished (at_handle p) = false) polls.
Proof.
  induction polls as [|p polls IH]; simpl; [by split|]. rewrite list.Forall_cons, <- IH. unfold poll_internal.
  destruct (ready_first p), (signalled (at_signal p)), (at_handle p); naive_solver.
Qed.
End servers_theory.

(** ** Witnesses *)
Module StartWit.
Import Mem.
#[local] Existing Instance MemRaft.handle.
#[local] Existing Instance MemRaft.raft_members.
(** Sockets on a machine where one port is taken. *)
Record machine : Type := mkMachine { taken : gset string }.
#[local] Instance sockets : Sockets machine unit := {
  parse_addr s := Ok (mkSocketAddr true s);
  sock_new _ m := (Ok tt, m);
  sock_set_reuse_address _ m := (Ok tt, m);
  sock_bind _ a m := if bool_decide (sa_text a ∈ taken m) then (Err "Address already in use (os error 98)", m)
                     else (Ok tt, mkMachine ({[ sa_text a ]} ∪ taken m));
  sock_listen _ _ m := (Ok tt, m);
  sock_set_nonblocking _ m := (Ok tt, m);
  sock_into_tokio _ m := (Ok tt, m);
}.
Definition raft_addr0 : SocketAddr := mkSocketAddr true "0.0.0.0:9001".
Definition busy : machine := mkMachine {[ "0.0.0.0:9001" ]}.
Definition served : unit -> M machine string unit := fun _ => mret tt.
Lemma raft_bind_failure_unnoticed_witness :
  (run_raft_server served raft_addr0 busy).1 = [Starting; Failing; Ended (Err "Address already in use (os error 98)")] /\
  start_raft_server true Starting Starting = Ok tt.
Proof.
  split; [reflexivity|].
  refine (proj2 (proj1 (raft_bind_failure_unnoticed served raft_addr0 busy _ busy _)) true). reflexivity.
Defined.
Definition no_files : string -> result io_error bytes := fun _ => Err MemFs.enoent.
Lemma internal_tls_failure_unnoticed_witness : exists e,
  set_up_tls no_files (fun _ => Ok tt) (Some (mkTlsConfig "c" "k" "a")) = Err e /\
  await_internal [mkPoll true Serving Serving] = Some (Ok true).
Proof.
  eexists. split; [reflexivity|].
  refine (proj2 (proj2 (internal_tls_failure_unnoticed served no_files (fun _ => Ok tt) raft_addr0
    (Some (mkTlsConfig "c" "k" "a")) (mkMachine ∅) tt (mkMachine {[ "0.0.0.0:9001" ]}) _ _ _) true)); reflexivity.
Defined.

(** A node whose Raft state is corrupt: the first attempt reports a record that
    does not parse, the second finds no state. *)
Definition raft_new0 (_ : N) (_ : RaftConfig) (_ : Network.t unit) : M Mem.t string MemRaft.t := fun d =>
  if bool_decide (db_view d "raft_state" = ∅) then (Ok MemRaft.empty, d)
  else (Err "missing field `term` at line 1", d).
Lemma raft_new0_reads id c n d r d' : raft_new0 id c n d = (r, d') -> meta d' = meta d.
Proof. unfold raft_new0. destruct (bool_decide _); by intros [= _ <-]. Qed.
Definition corrupt : Mem.t := StoreWit.d.
Definition started := init_raft_node raft_new0 ClusterApi.MemberWit.cfg corrupt.

(** The recovery forgets the vote of the node. *)
Example recovery_forgets_vote : db_view corrupt "raft_state" !! "vote" = Some [] /\ db_view started.2 "raft_state" !! "vote" = None.
Proof. split; vm_compute; reflexivity. Qed.
(** Any Raft error whose text has the word unexpected counts as corruption. *)
Example unexpected_is_corruption : is_recoverable_raft_corruption (Raft "unexpected end of file") = true.
Proof. reflexivity. Qed.
End StartWit.
