(* ===== verification/Main.v ===== *)
(** * save-api: the life of a node

    Models the rest of [crates/save-api/src/main.rs]: [handle_graceful_shutdown],
    and [async_main_with_config], which calls the functions of [Startup] on the
    node's files, database and sockets.  [Step] is the trace of what it did; what
    tokio and axum decide is the [Environment]. *)
From Stdlib Require Import Ascii.
From S2P Require Import Prelude Common Peers Config Kv Buckets Locks StateMachine RaftTypes RaftRpc RaftNode ClusterApi.
From S2P Require Import Scaling Fs ObjectStorage MetadataStore Coordinator Factory Startup.
From stdpp Require Import base gmap strings numbers list sorting.

(** ** [handle_graceful_shutdown] *)

(** How the wait for the worker that joins the cluster ends. *)
Inductive JoinWait : Type := JoinCompleted | JoinPanicked (e : string) | JoinTimedOut.

Section shutdown.
Context {W : Type} `{RaftHandle W, ClusterHttp W} (res : N).
Abbreviation Proc := (Scaling.Proc (W := W)).
(** [shutdown_tx.send], the timed wait, and the requests in flight. *)
Context (send_shutdown : W -> W) (await_join : N -> Proc -> JoinWait * Proc) (in_flight_count : W -> N).

(** The answer is whether all requests were drained.  Each turn sleeps 100 ms, so
    a timeout of [t] ms needs at most [t / 100 + 2] turns. *)
Fixpoint drain_requests (fuel : nat) (start timeout : N) (w : W) : option (bool * W) :=
  match fuel with
  | 0 => None
  | S fuel' =>
      let in_flight := in_flight_count w in
      if (in_flight =? 0)%N then Some (true, w)
      else if (timeout <=? raft_now w - start)%N then Some (false, w)
      else drain_requests fuel' start timeout (raft_sleep 100 w)
  end.

(** The signal is sent, and then the worker that joins is waited for, so that it
    does not add the node again after it left. *)
Definition stop_workers (auto_join : bool) (config : SaveConfig) (p : Proc) : Proc :=
  let p1 := mkProc (send_shutdown (world p)) (CLUSTER_JOINED p) in
  if auto_join then (await_join (join_timeout_secs (cluster config) * 1000) p1).2 else p1.

(** The answer is that of [graceful_leave], which is only logged, when the cluster
    has more than one node. *)
Definition handle_graceful_shutdown (drain_timeout : N) (auto_join : bool) (config : SaveConfig) (p : Proc)
  : option (option (result ScalingError.t bool) * Proc) :=
  let p2 := stop_workers auto_join config p in
  let is_multi_node := negb (bool_decide (seed_nodes (cluster config) = [])) in
  '(_, w) ← drain_requests (N.to_nat (drain_timeout / 100) + 2) (raft_now (world p2)) drain_timeout (world p2);
  let p3 := mkProc w (CLUSTER_JOINED p2) in
  if is_multi_node then '(r, p4) ← graceful_leave res (cluster config) p3; Some (Some r, p4)
  else Some (None, p3).
End shutdown.

(** ** [async_main_with_config] *)
Inductive Task : Type :=
| TRaftServer | TReplicationServer | TStaleCleanup | TInternalApi | TGc | TMetrics | TCacheCleanup | TAutoJoin | TCoordinatorSync.
#[export] Instance Task_eq_dec : EqDecision Task.
Proof. solve_decision. Defined.
Inductive Step : Type :=
| InitStorage | InitRaft | Spawn (t : Task) | SetJoined | Listen | Serve | Await (t : Task).
#[export] Instance Step_eq_dec : EqDecision Step.
Proof. solve_decision. Defined.

(** The node as far as the start changes it: the files, the sockets, the database
    and the Raft node once there are, and what was done. *)
Section main.
Context {F W DB RS Ch Sock : Type} `{FileSystem F, Sha256} `{RocksDB DB} `{RaftHandle RS} `{Sockets W Sock}.
Context (open_cf : DbOptions -> string -> list string -> result string DB)
  (raft_new : N -> RaftConfig -> Network.t Ch -> M DB string RS) (data_path : PathBuf).
Record Node : Type := mkNode {
  n_files : F; n_sockets : W; n_db : option DB; n_raft : option RS; n_trace : list Step }.

(** What the environment decides: the poll of [start_raft_server], the polls of
    [start_internal_api_server], and how axum's serving ends. *)
Record Environment : Type := mkEnvironment {
  e_raft_poll : Poll; e_internal_polls : list Poll; e_served : result string unit }.

(** No result: the process panicked, or it still waits. *)
Abbreviation Main := (PM Node StartError).
Definition log (sts : list Step) : Main unit := fun n =>
  (Some (Ok tt), mkNode (n_files n) (n_sockets n) (n_db n) (n_raft n) (n_trace n ++ sts)).
Definition try {A} (r : result StartError A) : Main A := safe (lift r).
Definition waits {A} (o : option (result StartError A)) : Main A := fun n => (o, n).
Definition parse (s : string) : Main SocketAddr := try (map_err EMsg (parse_addr s)).

Definition open_storage (config : SaveConfig) : Main (StorageSetup Ch * DB) := fun n =>
  let '(r, f) := init_storage open_cf data_path config (n_files n) in
  (Some r, mkNode f (n_sockets n) (match r with Ok x => Some x.2 | Err _ => n_db n end) (n_raft n) (n_trace n)).
Definition make_raft (config : SaveConfig) (d : DB) : Main RS := fun n =>
  let '(r, d') := init_raft_node raft_new config d in
  (Some r, mkNode (n_files n) (n_sockets n) (Some d') (match r with Ok node => Some node | Err _ => n_raft n end) (n_trace n)).
Definition listen (addr : SocketAddr) : Main Sock := fun n =>
  let '(r, w) := create_tcp_listener addr (n_sockets n) in
  (Some (map_err EMsg r), mkNode (n_files n) w (n_db n) (n_raft n) (n_trace n)).

Definition is_replicated (setup : StorageSetup Ch) : bool :=
  match setup with LocalSetup _ => false | ReplicatedSetup _ _ _ => true end.
(** [start_replication_server] and [start_internal_api_server]: whether there is a
    server. *)
Definition start_replication_server (config : SaveConfig) (setup : StorageSetup Ch) : Main bool :=
  if is_replicated setup then
    parse (repl_bind_addr (replication (cluster config))) ;; log [Spawn TReplicationServer; Spawn TStaleCleanup] ;; mret true
  else mret false.
Definition spawns_internal (config : SaveConfig) : bool :=
  let bind := api_bind_addr (internal_api (cluster config)) in negb (bool_decide (bind = "")) && is_ok (parse_addr bind).
Definition start_internal (config : SaveConfig) (polls : list Poll) : Main bool :=
  log (if spawns_internal config then [Spawn TInternalApi] else []) ;;
  waits (start_internal_api_server parse_addr config polls).
(** [.expect("Invalid bind address configuration ..")]. *)
Definition self_peer (config : SaveConfig) : result Error.t PeerInfo.t :=
  let c := cluster config in
  from_bind_addrs (cluster_node_id c) (raft_bind_addr c) (bind_address (server config)) (repl_bind_addr (replication c)).
Definition spawn_auto_join_worker (config : SaveConfig) : Main unit :=
  if bool_decide (seed_nodes (cluster config) = []) then mret tt
  else match self_peer config with
       | Ok _ => log [Spawn TAutoJoin]
       | Err _ => waits None
       end.

(** [let _ = handle.await] for the handles that there are. *)
Definition shutdown_order (has_coordinator internal has_replication : bool) : list Task :=
  [TGc; TMetrics; TCacheCleanup] ++ (if has_coordinator then [TCoordinatorSync] else [])
  ++ (if internal then [TInternalApi] else [])
  ++ (if has_replication then [TReplicationServer; TStaleCleanup] else []) ++ [TRaftServer].

Definition async_main (config : SaveConfig) (env : Environment) : Main unit :=
  '(setup, metadata) ← open_storage config;
  log [InitStorage] ;;
  make_raft config metadata ;;
  log [InitRaft] ;;
  parse (raft_bind_addr (cluster config)) ;;
  log [Spawn TRaftServer] ;;
  (let p := e_raft_poll env in try (start_raft_server (ready_first p) (at_signal p) (at_handle p))) ;;
  has_replication ← start_replication_server config setup;
  log (if bool_decide (seed_nodes (cluster config) = []) then [SetJoined] else []) ;;
  internal ← start_internal config (e_internal_polls env);
  log [Spawn TGc; Spawn TMetrics; Spawn TCacheCleanup] ;;
  addr ← parse (bind_address (server config));
  listen addr ;;
  log [Listen] ;;
  spawn_auto_join_worker config ;;
  log (if is_replicated setup then [Spawn TCoordinatorSync] else []) ;;
  log [Serve] ;;
  try (map_err EMsg (e_served env)) ;;
  log (Await <$> shutdown_order (is_replicated setup) internal has_replication).
End main.
#[global] Arguments Node : clear implicits.

(** ** Properties *)
Definition spawned (tr : list Step) : list Task := omap (fun st => match st with Spawn t => Some t | _ => None end) tr.
Definition awaited (tr : list Step) : list Task := omap (fun st => match st with Await t => Some t | _ => None end) tr.

(** [a] was done before every [b]. *)
Fixpoint before (a b : Step) (tr : list Step) : bool :=
  match tr with
  | [] => true
  | st :: rest => if bool_decide (st = a) then true else if bool_decide (st = b) then false else before a b rest
  end.

Section main_theory.
Context {F W DB RS Ch Sock : Type} `{FileSystemLaws F, Sha256} `{RocksDBLaws DB} `{RaftMembers RS} `{Sockets W Sock}.
Context (open_cf : DbOptions -> string -> list string -> result string DB)
  (raft_new : N -> RaftConfig -> Network.t Ch -> M DB string RS)
  (raft_new_reads : forall id c n d r d', raft_new id c n d = (r, d') -> meta d' = meta d) (data_path : PathBuf).
Abbreviation Nd := (Node F W DB RS).

(** The backend is replicated exactly when the factor is above one, and no file is
    changed. *)
Lemma init_storage_spec config (f f' : F) r : init_storage (Ch := Ch) open_cf data_path config f = (r, f') ->
  fs_view f' = fs_view f /\
  forall setup d, r = Ok (setup, d) ->
    open_cf (metadata_options (metadata config)) (metadata_path (storage config)) column_families.ALL = Ok d /\
    is_replicated setup = (1 <? Config.replication_factor (replication (cluster config)))%N.
Proof.
  unfold init_storage, new_with_config.
  intros [(setup & f1 & (r0 & Hc & Hr0)%with_err_inv & Hm)|(e & (r0 & Hc & _)%with_err_inv & ->)]%bind_inv;
    apply create_storage_backend_exact in Hc as [Hv Hs]; [|by split].
  destruct r0 as [setup'|]; [|done]. injection Hr0 as ->.
  apply bind_inv in Hm as [(d & f2 & [Hd ->]%lift_inv & [= <- <-])|(e & [_ ->]%lift_inv & ->)]; [|by split].
  split; [done|]. intros ?? [= <- <-]. split; [by destruct (open_cf _ _ _); simplify_eq/=|].
  destruct setup'; simpl; symmetry; [apply N.ltb_ge|apply N.ltb_lt]; apply Hs.
Qed.
(** The answer of the administration server. *)
Lemma start_internal_answer config polls :
  match start_internal_api_server parse_addr config polls with
  | Some (Ok b) => b = spawns_internal config
  | Some (Err _) => True
  | None => spawns_internal config = true /\ await_internal polls = None
  end.
Proof.
  unfold start_internal_api_server, spawns_internal. case_bool_decide; [done|]. simpl.
  destruct (parse_addr _); simpl; [|done]. induction polls as [|p polls IH]; simpl; [done|].
  unfold poll_internal. destruct (ready_first p), (signalled (at_signal p)), (at_handle p) as [| | |[]|]; simpl; done.
Qed.

(** The whole life of a node with a configuration, from which the properties
    follow. *)
Definition replicates (config : SaveConfig) : bool := (1 <? Config.replication_factor (replication (cluster config)))%N.
Definition up_to_serve (config : SaveConfig) : list Step :=
  [InitStorage; InitRaft; Spawn TRaftServer]
  ++ (if replicates config then [Spawn TReplicationServer; Spawn TStaleCleanup] else [])
  ++ (if bool_decide (seed_nodes (cluster config) = []) then [SetJoined] else [])
  ++ (if spawns_internal config then [Spawn TInternalApi] else [])
  ++ [Spawn TGc; Spawn TMetrics; Spawn TCacheCleanup; Listen]
  ++ (if bool_decide (seed_nodes (cluster config) = []) then [] else [Spawn TAutoJoin])
  ++ (if replicates config then [Spawn TCoordinatorSync] else [])
  ++ [Serve].
Definition life_plan (config : SaveConfig) : list Step :=
  up_to_serve config ++ (Await <$> shutdown_order (replicates config) (spawns_internal config) (replicates config)).

(** A closed statement about a concrete trace. *)
Ltac by_trace := first [reflexivity | apply (bool_decide_unpack _); vm_compute; exact I].
Lemma life_plan_ordered config : let l := life_plan config in
  (before (Spawn TRaftServer) Serve l = true /\ before Listen Serve l = true) /\
  NoDup (spawned l) /\ NoDup (awaited l) /\ awaited (up_to_serve config) = [] /\
  (seed_nodes (cluster config) = [] -> before SetJoined Serve l = true).
Proof.
  unfold life_plan, up_to_serve, shutdown_order.
  destruct (replicates config), (spawns_internal config), (bool_decide_reflect (seed_nodes (cluster config) = [])) as [Hs|Hs];
    split_and!;
    lazymatch goal with
    | |- _ -> _ => first [intros _; by_trace | by intros ?%Hs]
    | |- _ => by_trace
    end.
Qed.
Lemma before_prefix a b l tr : tr `prefix_of` l -> before a b l = true -> before a b tr = true.
Proof.
  intros [k ->]. induction tr as [|st tr IH]; simpl; [done|]. destruct (bool_decide (st = a)); [done|].
  by destruct (bool_decide (st = b)).
Qed.
Lemma omap_prefix {A B} (f : A -> option B) l l' : l `prefix_of` l' -> omap f l `prefix_of` omap f l'.
Proof. intros [k ->]. rewrite omap_app. by eexists. Qed.
Lemma prefix_NoDup {A} (l l' : list A) : l `prefix_of` l' -> NoDup l' -> NoDup l.
Proof. intros [k ->]. by intros [? _]%NoDup_app. Qed.

(** Whatever happens, the trace is a beginning of the plan, and the whole of it
    when the process ends well. *)
Lemma async_main_follows config env (n n' : Nd) x : n_trace n = [] -> n_db n = None ->
  async_main (Ch := Ch) open_cf raft_new data_path config env n = (x, n') ->
  fs_view (n_files n') = fs_view (n_files n) /\
  (forall d', n_db n' = Some d' -> exists d,
     open_cf (metadata_options (metadata config)) (metadata_path (storage config)) column_families.ALL = Ok d /\ meta d' = meta d) /\
  (Serve ∈ n_trace n' -> is_Some (n_db n') /\ is_Some (n_raft n')) /\
  match x with
  | Some (Ok _) => n_trace n' = life_plan config /\ e_served env = Ok tt
  | Some (Err _) => n_trace n' `prefix_of` up_to_serve config
  | None => n_trace n' `prefix_of` up_to_serve config /\
      ((seed_nodes (cluster config) <> [] /\ exists e, self_peer config = Err e) \/
       (spawns_internal config = true /\ await_internal (e_internal_polls env) = None))
  end.
Proof.
  intros Htr Hdb. unfold async_main, start_replication_server, start_internal, spawn_auto_join_worker.
  unfold parse, try, log, waits, safe, lift, mbind, mret, PM_bind, PM_ret. 
  unfold open_storage at 1. destruct (init_storage open_cf data_path config (n_files n)) as [r f] eqn:Hi.
  apply init_storage_spec in Hi as [Hv Hi]. destruct r as [[setup d]|e]; simpl.
  2: { intros [= <- <-]. simpl. rewrite Htr. split_and!; [done|by rewrite Hdb|by intros ?%not_elem_of_nil|by apply prefix_nil]. }
  destruct (Hi setup d eq_refl) as [Hd Hr]. fold (replicates config) in Hr.
  unfold make_raft at 1. destruct (init_raft_node raft_new config d) as [r d'] eqn:Hraft.
  apply (init_raft_node_meta raft_new raft_new_reads) in Hraft.
  pose proof (start_internal_answer config (e_internal_polls env)) as Hapi. revert Hapi. rewrite Hr.
  unfold listen, life_plan, up_to_serve.
  generalize (start_internal_api_server parse_addr config (e_internal_polls env)) as api. intros api.
  generalize (start_raft_server (ready_first (e_raft_poll env)) (at_signal (e_raft_poll env)) (at_handle (e_raft_poll env))).
  intros rs. destruct (replicates config), (spawns_internal config),
    (bool_decide_reflect (seed_nodes (cluster config) = [])) as [Hs|Hs]; cbn; rewrite Htr; intros Hapi Hrun; clear Hi Hr;
  repeat match type of Hrun with
  | context [match api with Some _ => _ | None => _ end] => destruct api as [[b|]|]; cbn in Hrun
  | context [create_tcp_listener ?a ?w] => destruct (create_tcp_listener a w) as [[?|?] ?]; cbn in Hrun
  | context [match self_peer config with Ok _ => _ | Err _ => _ end] => destruct (self_peer config) as [?|?] eqn:?; cbn in Hrun
  | context [match ?r with Ok _ => _ | Err _ => _ end] => destruct r as [?|?] eqn:?; cbn in Hrun
  end; try subst b; injection Hrun as <- <-; cbn;
  (split; [done|]; split; [intros ? [= <-]; by exists d|]; split;
     [intros Hin; first [split; by eexists | exfalso; revert Hin; by_trace]|]);
  first [split; [reflexivity|by destruct (e_served env) as [[]|]] | by eexists | split; [by eexists|eauto]].
Qed.

(** The tasks of a node with a configuration. *)
Definition runs (config : SaveConfig) (t : Task) : bool :=
  match t with
  | TReplicationServer | TStaleCleanup | TCoordinatorSync => (1 <? Config.replication_factor (replication (cluster config)))%N
  | TInternalApi => let bind := api_bind_addr (internal_api (cluster config)) in
                    negb (bool_decide (bind = "")) && is_ok (parse_addr bind)
  | TAutoJoin => negb (bool_decide (seed_nodes (cluster config) = []))
  | TRaftServer | TGc | TMetrics | TCacheCleanup => true
  end.
Lemma life_plan_tasks config t :
  (t ∈ spawned (life_plan config) <-> runs config t = true) /\
  (t ∈ awaited (life_plan config) <-> runs config t = true /\ t <> TAutoJoin).
Proof.
  unfold runs, life_plan, up_to_serve. fold (replicates config) (spawns_internal config).
  destruct (replicates config), (spawns_internal config), (bool_decide (seed_nodes (cluster config) = [])), t;
    (split; split;
      [ intros Hin; first [reflexivity | exfalso; revert Hin; by_trace]
      | intros Hin; first [discriminate Hin | by_trace]
      | intros Hin; first [split; [reflexivity|discriminate] | exfalso; revert Hin; by_trace]
      | intros [Hin Hn]; first [discriminate Hin | by destruct Hn | by_trace] ]).
Qed.
Lemma life_plan_serves config : Serve ∈ life_plan config.
Proof. unfold life_plan, up_to_serve. set_solver. Qed.

(** C22. The life of a node.  However it ends, its start changes no object file, and
    no metadata of the database it opened (given that openraft's constructor only
    reads the storage).  It serves requests only when the database and the Raft
    node are there, after the Raft server was spawned and the listener opened, and
    as a standalone node only after the flag that it has joined was set.  No task
    is spawned twice or awaited twice.  A process that ends well has served, has
    spawned exactly the tasks its configuration asks for, and has awaited each of
    them except the worker that joins the cluster, which the shutdown handler waits
    for; a process that fails awaits nothing; and it panics or hangs only for
    addresses that do not parse as those of a peer, or while the administration
    server neither starts nor ends. *)
Theorem async_main_exact config env (n n' : Nd) x : n_trace n = [] -> n_db n = None ->
  async_main (Ch := Ch) open_cf raft_new data_path config env n = (x, n') ->
  let tr := n_trace n' in
  fs_view (n_files n') = fs_view (n_files n) /\
  (forall d', n_db n' = Some d' -> exists d,
     open_cf (metadata_options (metadata config)) (metadata_path (storage config)) column_families.ALL = Ok d /\ meta d' = meta d) /\
  (Serve ∈ tr -> is_Some (n_db n') /\ is_Some (n_raft n')) /\
  before (Spawn TRaftServer) Serve tr = true /\ before Listen Serve tr = true /\
  (seed_nodes (cluster config) = [] -> before SetJoined Serve tr = true) /\
  NoDup (spawned tr) /\ NoDup (awaited tr) /\
  match x with
  | Some (Ok _) => Serve ∈ tr /\ e_served env = Ok tt /\
      (forall t, t ∈ spawned tr <-> runs config t = true) /\
      (forall t, t ∈ awaited tr <-> runs config t = true /\ t <> TAutoJoin)
  | Some (Err _) => awaited tr = []
  | None => awaited tr = [] /\
      ((seed_nodes (cluster config) <> [] /\ exists e, self_peer config = Err e) \/
       (spawns_internal config = true /\ await_internal (e_internal_polls env) = None))
  end.
Proof.
  intros Htr Hdb Hrun tr. apply async_main_follows in Hrun as (Hf & Hd & Hsv & Hx); [|done..].
  destruct (life_plan_ordered config) as ((Ho1 & Ho2) & Hs & Ha & Hna & Hj).
  assert (Hend : forall l, l `prefix_of` up_to_serve config -> l `prefix_of` life_plan config /\ awaited l = []).
  { intros l Hl. split; [by apply prefix_app_r|]. apply (omap_prefix (fun st => match st with Await t => Some t | _ => None end)) in Hl.
    unfold awaited in Hna. rewrite Hna in Hl. by apply prefix_nil_inv in Hl. }
  assert (Hp : tr `prefix_of` life_plan config).
  { destruct x as [[]|]; [by destruct Hx as [<- _]|by apply Hend|by destruct Hx; apply Hend]. }
  split_and!; try done; try (by eapply before_prefix); try (by eapply prefix_NoDup; [apply omap_prefix|]).
  - intros Hb%Hj. by eapply before_prefix.
  - destruct x as [[]|]; [|by apply Hend|destruct Hx as [Hl Hx]; split; [by apply Hend|done]].
    destruct Hx as [Hx He]. subst tr. rewrite Hx. split_and!; [apply life_plan_serves|done|..]; intros t; apply life_plan_tasks.
Qed.

End main_theory.

(** *** Shutdown *)
Section shutdown_theory.
Context {W L : Type} `{RaftHandle W, ClusterHttp W} `{!RaftHandleLaws W} `{RaftMembers L} (leader : W -> L) `{!ServedBy leader}.
(** As in [Scaling]: a millisecond is [res] units of the clock, and an HTTP exchange
    takes at least one of them. *)
Context (res : N) (fine : W -> N) (res_pos : (0 < res)%N) (fine_clock : forall w, raft_now w = (fine w / res)%N)
  (get_takes : forall c url w r w', http_get_status c url w = (r, w') -> (fine w < fine w')%N)
  (delete_takes : forall c url w r w', http_delete c url w = (r, w') -> (fine w < fine w')%N).
Context (send_shutdown : W -> W) (await_join : N -> Scaling.Proc (W := W) -> JoinWait * Scaling.Proc (W := W))
  (in_flight_count : W -> N).

(** The loop is that of the administration service without its count. *)
Lemma drain_requests_admin fuel start timeout drained w :
  drain_requests in_flight_count fuel start timeout w =
  (fun x => (Admin.dr_success x.1, x.2)) <$> Admin.drain_loop in_flight_count fuel start timeout drained w.
Proof.
  revert drained w. induction fuel as [|fuel IH]; intros drained w; simpl; [done|].
  destruct (in_flight_count w =? 0)%N; [done|]. destruct (timeout <=? raft_now w - start)%N; [done|]. apply IH.
Qed.
Lemma drain_requests_spec timeout w : exists b w',
  drain_requests in_flight_count (N.to_nat (timeout / 100) + 2) (raft_now w) timeout w = Some (b, w') /\
  (b = true <-> in_flight_count w' = 0%N) /\ (b = false -> (raft_now w + timeout <= raft_now w')%N).
Proof.
  pose proof (N.div_mod timeout 100 ltac:(lia)) as Hd. pose proof (N.mod_lt timeout 100 ltac:(lia)) as Hm.
  destruct (drain_loop_spec in_flight_count (N.to_nat (timeout / 100) + 2) (raft_now w) timeout 0 w)
    as (resp & w' & Hrun & _ & Hok & Hto & _); [|lia|done|].
  { revert Hd Hm. generalize (timeout / 100)%N, (timeout mod 100)%N. intros; lia. }
  rewrite (drain_requests_admin _ _ _ 0), Hrun. by exists (Admin.dr_success resp), w'.
Qed.

End shutdown_theory.

(** ** Witnesses *)
Module MainWit.
Import MemRaft ScalingWit.
#[local] Existing Instance net_handle.
#[local] Existing Instance net_laws.
#[local] Existing Instance net_http.
#[local] Existing Instance net_served.
Definition cfg : SaveConfig :=
  let c := ClusterApi.MemberWit.cfg in
  mkSaveConfig (server c) (storage c) (metadata c) (credentials c) (limits c) (shutdown c) cfg2.

Definition stop_run := handle_graceful_shutdown (W := net) 1 id (fun _ p => (JoinCompleted, p)) (fun w => flight (me w))
  (drain_timeout_secs (shutdown cfg) * 1000) true cfg p1.
Lemma stop_answer : fst <$> stop_run = Some (Some (Ok true)).
Proof. vm_compute. reflexivity. Qed.

(** A worker whose wait timed out is not stopped.  Node 2 is not a member yet when
    it leaves, and the attempt to join that the worker was in adds it after
    that. *)
Example late_join : exists p' w',
  graceful_leave 1 cfg2 (mkProc w0 false) = Some (Ok false, p') /\
  join_loop 1 3 cfg2 peer2 None (world p') = (Ok true, w') /\ 2%N ∈ dom (nodes (members (lead w'))).
Proof.
  exists (mkProc w0 true), (join_loop 1 3 cfg2 peer2 None w0).2. split_and!.
  - vm_compute. reflexivity.
  - apply run_eq. vm_compute. reflexivity.
  - apply (bool_decide_unpack _). vm_compute. exact I.
Qed.

(** Node 2 starts on an empty machine, serves and ends. *)
#[local] Existing Instance MemRaft.handle.
#[local] Existing Instance MemRaft.raft_members.
#[local] Existing Instance StartWit.sockets.
Import Mem MemFs ToySha.
Definition env0 : Environment := mkEnvironment (mkPoll true Serving Serving) [mkPoll true Serving Serving] (Ok tt).
Definition node0 : Node MemFs.t StartWit.machine Mem.t MemRaft.t := mkNode MemFs.empty (StartWit.mkMachine ∅) None None [].
Definition life := async_main (fun _ _ _ => Ok StoreWit.d) StartWit.raft_new0 ["data"] cfg env0 node0.
Lemma life_answer : life.1 = Some (Ok tt).
Proof. vm_compute. reflexivity. Qed.
Lemma async_main_exact_witness : life.1 = Some (Ok tt) /\ Serve ∈ n_trace life.2 /\ TAutoJoin ∈ spawned (n_trace life.2) /\
  NoDup (awaited (n_trace life.2)).
Proof.
  destruct (async_main_exact (fun _ _ _ => Ok StoreWit.d) StartWit.raft_new0 StartWit.raft_new0_reads ["data"] cfg env0 node0 life.2 life.1)
    as (_ & _ & _ & _ & _ & _ & _ & Hn & Hx); [reflexivity|reflexivity|by apply surjective_pairing|].
  split; [exact life_answer|]. rewrite life_answer in Hx. destruct Hx as (Hs & _ & Ht & _).
  split; [exact Hs|]. split; [by apply Ht|exact Hn].
Defined.
End MainWit.
