(* ===== verification/ApiWit.v ===== *)
(** * Concrete nodes

    The HTTP handlers run on an in-memory node: the database of Kv.v, the file
    system of Fs.v under the local backend, and a Raft node that applies each
    command at once.  The witnesses of the handlers' properties, and runs that
    show behaviours at the edges. *)
From Stdlib Require Import Strings.Byte Ascii.
From S2P Require Import Prelude Common Config Kv Fs ObjectStorage StorageBackend FsDirs Buckets Objects.
From S2P Require Import Multipart Locks StateMachine MetadataStore S3Xml Api Auth BucketHandlers ObjectHandlers.
From S2P Require Import MultipartHandlers Gc Routes Middleware.
From stdpp Require Import base gmap strings numbers sorting relations list.

Module ApiWit.
Import Mem MemFs ToySha.

#[export] Instance raft : NodeRaft Mem.t := {
  nr_write c d := match apply_command 5 c d with
                  | (Ok _, d') => (Ok tt, d')
                  | (Err e, d') => (Err (Raft "Raft write failed"), d')
                  end;
  nr_ensure_linearizable := mret tt;
  nr_abandoned _ d := d;
  nr_elapse d := d;
}.
#[export] Instance raft_laws : NodeRaftLaws Mem.t.
Proof.
  split; simpl.
  - intros c d d' Hw. destruct (apply_command 5 c d) as [[[]|e] d1] eqn:Ha; [|done]. injection Hw as <-.
    by exists 5%Z, d, d1.
  - intros c d e d' Hw. right. destruct (apply_command 5 c d) as [r d1] eqn:Ha. exists r, 5%Z, d, d1.
    destruct r as [[]|e']; [done|]. by injection Hw as <- <-.
  - intros d r d' [= _ <-]. done.
  - by left.
  - done.
Qed.

Definition st : ObjectStorage := mkObjectStorage (mkStorageLayout ["data"]) "full".
#[export] Instance backend : StorageBackend MemFs.t MemFs.t := local_backend st.
#[export] Instance backend_laws : StorageBackendLaws MemFs.t MemFs.t := local_backend_laws st.
Definition mt (p : PathBuf) : option N := Some 1%N.
#[export] Instance dirs : DirFs MemFs.t := MemDirs.dirfs mt.
#[export] Instance dirs_laws : DirFsLaws MemFs.t := MemDirs.laws mt.
#[export] Instance chrono : Chrono := {| rfc3339_millis z := "1970-01-01T00:00:00.000Z"; http_date z := "Thu, 01 Jan 1970 00:00:00 GMT" |}.
#[export] Instance xmlw : XmlWriter := fun _ => Ok "<x/>".

Definition cfg : SaveConfig :=
  mkSaveConfig (mkServerConfig DEFAULT_HTTP_BIND default_max_body_size 4 512 60 60)
    (mkStorageConfig "/data" "/meta" None 600 3600 "data") MetadataConfig_default
    (mkCredentialsConfig "ak" "sk") LimitsConfig_default ShutdownConfig_default ClusterConfig_default.
Definition Node : Type := App Mem.t MemFs.t.
Definition no_join (d : Mem.t) : option (string * Mem.t) := None.
Definition instant (a : Node) : N := 0.
Definition utc (a : Node) : Z := 5.
Definition awaits (a : Node) : nat := 3.
Definition uuid (a : Node) : string := "u1".
Definition data : PathBuf := ["data"].
Lemma no_join_keeps d e d' : no_join d = Some (e, d') -> same_data d d'.
Proof. done. Qed.
Lemma apart key u : plain u ->
  ~ parts_dir data u `prefix_of` sb_final key /\ ~ parts_dir data u `prefix_of` sb_temp key /\
  complete_path data u <> sb_final key /\ complete_path data u <> sb_temp key.
Proof. apply (layout_apart st). Qed.
Lemma not_temp key : ~ path_join data "temp" `prefix_of` sb_final key.
Proof. apply (layout_not_temp st). Qed.

(** A node with an empty store that knows the bucket [photos]. *)
Definition run {X} (c : PM Node ApiError.t X) (a : Node) : Node := (c a).2.
Definition answer {X} (c : PM Node ApiError.t X) (a : Node) : option (result ApiError.t X) := (c a).1.
Definition fresh : Node := with_storage cfg MemFs.empty Mem.empty 1.
Definition a0 : Node := run (create_bucket no_join instant utc "photos") fresh.
Definition body (s : string) : Reader := slice_reader (String.list_byte_of_string s).
Definition put (k s : string) : PM Node ApiError.t Response := put_object no_join instant utc awaits "photos" k (body s).
Definition get (k : string) : PM Node ApiError.t Response := get_object cfg no_join instant awaits "photos" k.
Definition del (k : string) : PM Node ApiError.t Response := delete_object no_join awaits "photos" k.

(** A run whose answer is [x] is the pair of [x] and the state it leaves. *)
Lemma answered {X} (c : PM Node ApiError.t X) a x : answer c a = x -> c a = (x, run c a).
Proof. unfold answer, run. destruct (c a). by intros <-. Qed.
Definition code (x : option (result ApiError.t Response)) : N :=
  match x with Some (Ok r) => status r | Some (Err e) => ApiError.status_code e | None => 0 end.
Lemma small s d : (N.of_nat (String.length s) < 2 ^ 64)%N -> read_to_end (body s) = Ok d ->
  (N.of_nat (length d) < 2 ^ 64)%N.
Proof.
  unfold body. rewrite slice_reader_read. intros Hs [= <-].
  assert (Hl : length (String.list_byte_of_string s) = String.length s); [|by rewrite Hl].
  unfold String.list_byte_of_string. rewrite length_map. clear Hs. induction s; simpl; by f_equal.
Qed.

Lemma store_ok (a : Node) : sb_ok (app_store a).
Proof. exact I. Qed.

(** ** Buckets *)
Lemma create_bucket_exact_witness :
  answer (create_bucket no_join instant utc "photos") fresh = Some (Ok (mkResponse 200 [("location", "/photos")] NoBody)) /\
  meta (app_db fresh) !! bucket_key "photos" = None /\
  exists now, stored (meta (app_db a0) !! bucket_key "photos") (Some (Bucket_new now "photos")).
Proof.
  assert (Hr : answer (create_bucket no_join instant utc "photos") fresh =
    Some (Ok (mkResponse 200 [("location", "/photos")] NoBody))) by (vm_compute; reflexivity).
  destruct (create_bucket_exact no_join no_join_keeps instant utc "photos" fresh _ _ (answered _ _ _ Hr))
    as (_ & _ & _ & Hn & Hs & _).
  split; [exact Hr|]. split; [exact Hn|exact Hs].
Defined.

(** Deleting the empty bucket, and the bucket with an object. *)
Definition a1 : Node := run (put "k" "hello") a0.
Lemma delete_bucket_guard_witness :
  answer (delete_bucket no_join "photos") a0 = Some (Ok no_content) /\
  (forall k, meta (app_db a0) !! object_db_key "photos" k = None) /\
  bc_cache (bucket_cache (run (delete_bucket no_join "photos") a0)) !! "photos" = None.
Proof.
  assert (Hr : answer (delete_bucket no_join "photos") a0 = Some (Ok no_content)) by (vm_compute; reflexivity).
  destruct (delete_bucket_guard no_join no_join_keeps "photos" a0 _ _ (answered _ _ _ Hr)) as (_ & _ & _ & Hn & _ & Hc).
  split; [exact Hr|]. split; [exact Hn|exact Hc].
Defined.
Example bucket_with_object_stays : answer (delete_bucket no_join "photos") a1 = Some (Err (ApiError.BucketNotEmpty "photos")).
Proof. vm_compute. reflexivity. Qed.

(** ** Objects *)
Definition hello : bytes := String.list_byte_of_string "hello".
Definition put_resp : Response :=
  mkResponse 200 [("etag", quoted (sha256_hex hello)); ("x-storage-duration-ms", "0")] NoBody.
Lemma put_answer : answer (put "k" "hello") a0 = Some (Ok put_resp).
Proof. vm_compute. reflexivity. Qed.

Lemma put_request_ran : put_object no_join instant utc awaits "photos" "k" (body "hello") a0 = (Some (Ok put_resp), a1).
Proof. exact (answered (put "k" "hello") a0 _ put_answer). Qed.
Lemma put_object_exact_witness : exists d, read_to_end (body "hello") = Ok d /\ put_result "photos" "k" d None a0 a1.
Proof.
  destruct (put_object_exact no_join no_join_keeps instant utc awaits "photos" "k" (body "hello") a0 _ _
    (fun d => small "hello" d eq_refl) (store_ok _) put_request_ran) as (_ & _ & d & Hd & Hp & _).
  exists d. split; [exact Hd|exact Hp].
Defined.

Definition get_resp : Response := mkResponse 200
  [("etag", quoted (sha256_hex hello)); ("content-length", "5"); ("last-modified", "Thu, 01 Jan 1970 00:00:00 GMT");
   ("content-type", "application/octet-stream"); ("x-storage-duration-ms", "0")] (StreamBody (body "hello")).
Lemma get_answer_ok : answer (get "k") a1 = Some (Ok get_resp).
Proof. vm_compute. reflexivity. Qed.
Definition a1g : Node := run (get "k") a1.
Lemma get_ran : get_object cfg no_join instant awaits "photos" "k" a1 = (Some (Ok get_resp), a1g).
Proof. exact (answered (get "k") a1 _ get_answer_ok). Qed.
Lemma put_then_get_witness : exists d r, read_to_end (body "hello") = Ok d /\ resp_body get_resp = StreamBody r /\
  (forall d', read_to_end r = Ok d' -> d' = d).
Proof.
  destruct (put_then_get cfg no_join no_join_keeps instant utc awaits "photos" "k" (body "hello") a0 put_resp a1 _ a1g
    (fun d => small "hello" d eq_refl) (store_ok _) put_request_ran get_ran)
    as (d & r & Hd & Hr & Hx & _).
  exists d, r. split; [exact Hd|]. split; [exact Hr|exact Hx].
Defined.

Definition a2 : Node := run (del "k") a1.
Lemma del_answer : answer (del "k") a1 = Some (Ok no_content).
Proof. vm_compute. reflexivity. Qed.
Lemma del_ran : delete_object no_join awaits "photos" "k" a1 = (Some (Ok no_content), a2).
Proof. exact (answered (del "k") a1 _ del_answer). Qed.
Lemma delete_object_exact_witness : is_Some (entry a1 "photos" "k") /\ entry_set "photos" "k" None a1 a2 /\
  ObjectHandlers.files a2 = delete (final_of "photos" "k") (ObjectHandlers.files a1).
Proof.
  destruct (delete_object_exact no_join no_join_keeps awaits "photos" "k" a1 _ a2 (store_ok _) del_ran)
    as (_ & _ & He & Hs & Hf).
  split; [exact He|]. split; [exact Hs|exact Hf].
Defined.

(** ** Listing *)
Lemma meta_a0 : meta (app_db a0) = {[ bucket_key "photos" := pos_bytes (countable.encode (Bucket_new 5 "photos")) ]}.
Proof. vm_compute. reflexivity. Qed.
Lemma no_objects b k : entry a0 b k = None.
Proof. unfold entry. rewrite meta_a0. by apply lookup_singleton_ne. Qed.
Lemma put_keys_wf d (a a' : Node) : (forall b k, entry a b k = None) -> put_result "photos" "k" d None a a' -> keys_wf a' "photos".
Proof.
  intros Hn (_ & now & Hs & Hf) k v Hv. destruct (decide (k = "k")) as [->|Hne].
  - rewrite Hv in Hs. apply stored_Some in Hs as (x & [= <-] & Hd). eexists. by split.
  - specialize (Hn "photos" k). unfold entry in Hn, Hv. rewrite Hf in Hv; [congruence|done|].
    by intros [_ ?]%object_db_key_inj.
Qed.
Lemma wf_a1 : keys_wf a1 "photos".
Proof.
  destruct (put_object_inv no_join no_join_keeps instant utc awaits "photos" "k" (body "hello") a0 _ _
    (fun d => small "hello" d eq_refl) (store_ok _) put_request_ran) as (_ & _ & d & _ & Hp & _).
  exact (put_keys_wf d a0 a1 no_objects Hp).
Qed.
Definition q2 (n : nat) : ListObjectsQuery := mkListObjectsQuery None None (Some n) (Some "2") None.
Definition lst : PM Node ApiError.t ListResult := list_result cfg no_join instant "photos" (q2 10).
Definition page1 : option (result ApiError.t ListResult) := answer lst a1.
Definition a1l : Node := run lst a1.
Lemma page1_ok : exists page, page1 = Some (Ok page).
Proof. eexists. vm_compute. reflexivity. Qed.
Lemma list_ran page : page1 = Some (Ok page) -> list_result cfg no_join instant "photos" (q2 10) a1 = (Some (Ok page), a1l).
Proof. intros Hp. exact (answered lst a1 _ Hp). Qed.
Lemma list_result_exact_witness : exists page, page1 = Some (Ok page) /\
  exists objects, page = list_page "photos" (q2 10) objects /\ StronglySorted str_lt (om_key <$> objects).
Proof.
  destruct page1_ok as (page & Hp). exists page. split; [exact Hp|].
  destruct (list_result_exact cfg no_join no_join_keeps instant "photos" (q2 10) a1 page a1l wf_a1
    (list_ran page Hp)) as (_ & _ & objects & Ho & Hs & _).
  exists objects. split; [exact Ho|exact Hs].
Defined.

(** One page of one object; meanwhile the cache expires. *)
Definition tick (a : Node) : Node :=
  mkApp (app_db a) (app_store a) (BucketCache_new 60) (lock_manager a) (Api.multipart_uploads_in_progress a).
Lemma listing_a1 : exists objects, length objects = 1 /\ listing_of "photos" (q2 1) a1 objects.
Proof.
  destruct page1_ok as (page & Hp).
  destruct (list_result_exact cfg no_join no_join_keeps instant "photos" (q2 10) a1 page a1l wf_a1
    (list_ran page Hp)) as (_ & _ & objects & Ho & Hs & Hm).
  exists objects. split; [|by split]. assert (Hone : (match page with V2 r => length (l2_contents r) | V1 _ => 0 end) = 1).
  { apply (f_equal (fun x => match x with Some (Ok (V2 r)) => length (l2_contents r) | _ => 0 end)) in Hp.
    vm_compute in Hp. by destruct page. }
  rewrite Ho in Hone. revert Hone. change (length (object_entry <$> (listed <$> take 10 objects)) = 1 -> length objects = 1).
  rewrite !length_fmap, length_take. lia.
Qed.
Definition refused (x : Browsed) : bool := match x with Refused _ => true | _ => false end.
Lemma not_refused x e : refused x = false -> x <> Refused e.
Proof. by intros Hr ->. Qed.
Lemma list_pages_enumerate_witness : exists es, length es = 1 /\
  browse cfg no_join instant "photos" (q2 1) tick 2 None a1 = Listing es.
Proof.
  destruct listing_a1 as (objects & Hlen & Hl).
  assert (Hok : refused (browse cfg no_join instant "photos" (q2 1) tick 2 None a1) = false)
    by (vm_compute; reflexivity).
  destruct (list_pages_enumerate cfg no_join no_join_keeps instant "photos" (q2 1) tick (fun _ _ => eq_refl) a1 objects
    wf_a1 eq_refl ltac:(discriminate) Hl) as [Hb|[e Hb]]; rewrite Hlen in Hb.
  - exists (object_entry ∘ listed <$> objects). split; [rewrite length_fmap; exact Hlen|exact Hb].
  - exfalso. exact (not_refused _ e Hok Hb).
Defined.

(** ** Multipart uploads *)
Definition q (n : N) : UploadPartQuery := mkUploadPartQuery n "u1".
Definition init : PM Node ApiError.t Response := initiate_multipart data no_join instant utc uuid "photos" "v" None.
Definition part (n : N) (s : string) : PM Node ApiError.t Response := upload_part data no_join "photos" "v" (q n) (body s).
Definition complete : PM Node ApiError.t Response := complete_multipart cfg data no_join utc awaits "photos" "v" "u1".
Definition p0 : Node := run init a0.
Definition p1 : Node := run (part 2 "world") p0.
Definition p2 : Node := run (part 1 "hello ") p1.
Definition p3 : Node := run complete p2.
Example multipart_runs : code (answer init a0) = 200%N /\ code (answer (part 2 "world") p0) = 200%N /\
  code (answer (part 1 "hello ") p1) = 200%N /\ code (answer complete p2) = 200%N.
Proof. vm_compute. done. Qed.
Example multipart_content :
  ObjectHandlers.files p3 !! final_of "photos" "v" = Some (String.list_byte_of_string "hello world").
Proof. vm_compute. reflexivity. Qed.

Lemma part_answer2 : answer (part 2 "world") p0 =
  Some (Ok (mkResponse 200 [("etag", quoted (sha256_hex (String.list_byte_of_string "world")))] NoBody)).
Proof. vm_compute. reflexivity. Qed.
Lemma part_ran2 : upload_part data no_join "photos" "v" (q 2) (body "world") p0 = (Some (Ok
  (mkResponse 200 [("etag", quoted (sha256_hex (String.list_byte_of_string "world")))] NoBody)), p1).
Proof. exact (answered (part 2 "world") p0 _ part_answer2). Qed.
Lemma part_answer1 : answer (part 1 "hello ") p1 =
  Some (Ok (mkResponse 200 [("etag", quoted (sha256_hex (String.list_byte_of_string "hello ")))] NoBody)).
Proof. vm_compute. reflexivity. Qed.
Lemma part_ran1 : upload_part data no_join "photos" "v" (q 1) (body "hello ") p1 = (Some (Ok
  (mkResponse 200 [("etag", quoted (sha256_hex (String.list_byte_of_string "hello ")))] NoBody)), p2).
Proof. exact (answered (part 1 "hello ") p1 _ part_answer1). Qed.

Definition md : MultipartMetadata := mkMultipartMetadata "u1" "photos" "v" 5 None.
Lemma meta_p0 : meta (app_db p0) = <[ mpu_db_key "photos" "v" "u1" := pos_bytes (countable.encode md) ]>
  {[ bucket_key "photos" := pos_bytes (countable.encode (Bucket_new 5 "photos")) ]}.
Proof. vm_compute. reflexivity. Qed.
Lemma md_decodes : dec (pos_bytes (countable.encode md)) = Ok md.
Proof. vm_compute. reflexivity. Qed.
Lemma upload_p0 : upload_is data p0 "photos" "v" "u1" md ∅.
Proof.
  split.
  - rewrite meta_p0, lookup_insert_eq. constructor. exact md_decodes.
  - split; [|intros n p; by rewrite map_lookup_imap, lookup_empty]. intros key v. rewrite meta_p0.
    intros [[<- _]|[_ [<- _]%lookup_singleton_Some]]%lookup_insert_Some Hp; by vm_compute in Hp.
  - intros n d. by rewrite lookup_empty.
Qed.

Lemma upload_part_exact_witness : exists d, read_to_end (body "world") = Ok d /\
  ObjectHandlers.files p1 = <[part_path data "u1" 2 := d]> (ObjectHandlers.files p0) /\
  upload_is data p1 "photos" "v" "u1" md (<[2%N := d]> ∅).
Proof.
  destruct (upload_part_exact data no_join no_join_keeps "photos" "v" (q 2) (body "world") p0 _ _
    (fun d => small "world" d eq_refl) part_ran2) as (_ & _ & d & Hd & _ & _ & Hf & _ & Hu).
  exists d. split; [exact Hd|]. split; [exact Hf|exact (Hu md ∅ upload_p0)].
Defined.

Definition two_parts : gmap N bytes :=
  <[1%N := String.list_byte_of_string "hello "]> (<[2%N := String.list_byte_of_string "world"]> ∅).
Lemma body_bytes s d : read_to_end (body s) = Ok d -> d = String.list_byte_of_string s.
Proof. unfold body. rewrite slice_reader_read. by intros [= <-]. Qed.
Lemma upload_p2 : upload_is data p2 "photos" "v" "u1" md two_parts.
Proof.
  destruct (upload_part_inv data no_join no_join_keeps "photos" "v" (q 2) (body "world") p0 _ _
    (fun d => small "world" d eq_refl) part_ran2) as (_ & _ & d2 & Hd2%body_bytes & _ & _ & _ & _ & Hu2).
  destruct (upload_part_inv data no_join no_join_keeps "photos" "v" (q 1) (body "hello ") p1 _ _
    (fun d => small "hello " d eq_refl) part_ran1) as (_ & _ & d1 & Hd1%body_bytes & _ & _ & _ & _ & Hu1).
  pose proof (Hu1 md _ (Hu2 md ∅ upload_p0)) as Hu. rewrite Hd1, Hd2 in Hu. exact Hu.
Qed.

Definition complete_resp : Response := xml_response (xml_declaration +:+ "<x/>").
Lemma complete_answer : answer complete p2 = Some (Ok complete_resp).
Proof. vm_compute. reflexivity. Qed.
Lemma complete_ran : complete_multipart cfg data no_join utc awaits "photos" "v" "u1" p2 = (Some (Ok complete_resp), p3).
Proof. exact (answered complete p2 _ complete_answer). Qed.
Lemma plain_u1 : plain "u1".
Proof. by vm_compute. Qed.
Lemma disk_p2 : (disk_bytes (ObjectHandlers.files p2) < 2 ^ 64)%N.
Proof. vm_compute. reflexivity. Qed.
Lemma complete_multipart_exact_witness :
  assembled two_parts = String.list_byte_of_string "hello world" /\
  completed "photos" "v" "u1" None (assembled two_parts) p2 p3.
Proof.
  destruct (complete_multipart_exact cfg data no_join no_join_keeps utc awaits apart "photos" "v" "u1" p2 _ _
    plain_u1 (store_ok _) disk_p2 complete_ran) as (_ & ct & _ & Hc).
  split; [vm_compute; reflexivity|].
  destruct (Hc complete_resp md two_parts eq_refl upload_p2) as (_ & Hct & Hd). rewrite Hct in Hd. exact Hd.
Defined.

(** ** A run of the node: a PUT, then a GET *)
Definition not_allowed : Response := mkResponse 405 [] NoBody.
Definition request (m : Method) (b : Reader) : Request :=
  mkRequest m (ObjectRoute "photos" "k") (mkMultipartQueryParams None None) (mkBucketListQuery None (q2 10)) None None b.
Definition serve (r : Request) : PM Node ApiError.t Response :=
  api_routes cfg data no_join instant utc awaits uuid not_allowed r.
Definition n1 : Node := run (serve (request PUT (body "hello"))) a0.
Definition n2 : Node := run (serve (request GET [])) n1.
Definition step : Node -> Node -> Prop :=
  node_step cfg data no_join instant utc awaits uuid not_allowed.
Lemma serve_step r a : r = request PUT (body "hello") \/ r = request GET [] ->
  (disk_bytes (ObjectHandlers.files a) < 2 ^ 64)%N -> step a (run (serve r) a).
Proof.
  intros Hr Hd. eapply (step_request _ _ _ _ _ _ _ _ r a (answer (serve r) a)); [|by apply (answered (serve r))].
  destruct Hr as [->| ->]; split; try done; [intros d Hb; by apply (small "hello")|intros d [= <-]; done].
Qed.
Lemma metadata_never_dangles_witness : consistent n2 /\ is_Some (entry n2 "photos" "k").
Proof.
  assert (Hrun : rtc step a0 n2).
  { eapply rtc_l; [apply (serve_step (request PUT (body "hello")) a0); [by left|vm_compute; reflexivity]|].
    apply rtc_once. apply (serve_step (request GET []) n1); [by right|vm_compute; reflexivity]. }
  destruct (metadata_never_dangles cfg data no_join no_join_keeps instant utc awaits uuid not_allowed apart not_temp a0 n2
    (store_ok _) no_objects Hrun) as (Hc & _).
  split; [exact Hc|]. eexists. vm_compute. reflexivity.
Defined.
End ApiWit.

(** * Behaviours at the edges *)
Module ApiEdges.
Import Mem MemFs ToySha ApiWit.

(** A Raft node that loses the write of an object's metadata. *)
Definition lossy : NodeRaft Mem.t := {|
  nr_write c d := match c with
                  | PutObjectMetadata _ => (Err (Raft "Raft write failed"), d)
                  | _ => nr_write (NodeRaft := raft) c d
                  end;
  nr_ensure_linearizable := mret tt;
  nr_abandoned _ d := d;
  nr_elapse d := d;
|}.
Definition put_lost (k s : string) : PM Node ApiError.t Response :=
  put_object (H0 := lossy) no_join instant utc awaits "photos" k (body s).
Definition stream (x : option (result ApiError.t Response)) : option bytes :=
  match x with
  | Some (Ok r) => match resp_body r with
                   | StreamBody b => match read_to_end b with Ok d => Some d | Err _ => None end
                   | _ => None end
  | _ => None
  end.
Definition header (h : string) (x : option (result ApiError.t Response)) : option string :=
  match x with
  | Some (Ok r) => snd <$> head (filter (fun kv => kv.1 = h) (headers r))
  | _ => None
  end.

(** An overwriting PUT whose metadata is lost answers [500], and the next GET
    serves the new bytes under the etag and the length of the old ones. *)
Example lost_metadata_mixes :
  let a := run (put_lost "k" "HELLO!") a1 in
  code (answer (put_lost "k" "HELLO!") a1) = 500%N /\
  stream (answer (get "k") a) = Some (String.list_byte_of_string "HELLO!") /\
  header "etag" (answer (get "k") a) = Some (quoted (sha256_hex hello)) /\
  header "content-length" (answer (get "k") a) = Some "5".
Proof. vm_compute. done. Qed.

(** A completion whose metadata is lost removes the files of the parts while the
    upload stays in the store: it can never be completed again. *)
Definition complete_lost : PM Node ApiError.t Response :=
  complete_multipart (H0 := lossy) cfg data no_join utc awaits "photos" "v" "u1".
Example failed_completion_loses_parts :
  let a := run complete_lost p2 in
  code (answer complete_lost p2) = 500%N /\
  bool_decide (is_Some (meta (app_db a) !! mpu_db_key "photos" "v" "u1")) = true /\
  ObjectHandlers.files a !! part_path data "u1" 1 = None /\
  answer complete a = Some (Err (ApiError.Internal "Missing part 1")).
Proof. vm_compute. done. Qed.

(** A part uploaded again by a body that breaks off leaves a truncated file with
    the record of the old one, and the completion succeeds without its bytes. *)
Definition broken : PM Node ApiError.t Response :=
  upload_part data no_join "photos" "v" (q 1) [Err (io_other "connection reset")].
Example broken_reupload_corrupts :
  let a := run broken p2 in
  code (answer broken p2) = 500%N /\ code (answer complete a) = 200%N /\
  ObjectHandlers.files (run complete a) !! final_of "photos" "v" = Some (String.list_byte_of_string "world").
Proof. vm_compute. done. Qed.

(** A key of the maximal length is valid, but the bucket's name in front of it
    makes the storage key too long: such an object cannot be stored. *)
Fixpoint letters (n : nat) : string := match n with O => "" | S n => String "a"%char (letters n) end.
Example longest_key_refused :
  validate_object_key (letters 1024) = Ok tt /\ code (answer (put (letters 1024) "hello") a0) = 500%N.
Proof. vm_compute. done. Qed.

(** A bucket that another node has deleted is accepted while it is cached. *)
Example cached_bucket_outlives_deletion :
  let a := set_db a0 Mem.empty in
  meta (app_db a) !! bucket_key "photos" = None /\ code (answer (put "k" "hello") a) = 200%N.
Proof. vm_compute. done. Qed.

(** A DELETE whose file cannot be removed leaves the file without an entry,
    outside the directory that the collector walks. *)
Definition stuck : Node :=
  set_store a1 (MemFs.mk (MemFs.files (app_store a1)) (MemFs.dirs (app_store a1)) {[ final_of "photos" "k" ]} ∅ ∅).
Example failed_delete_orphans :
  let a := run (del "k") stuck in
  code (answer (del "k") stuck) = 500%N /\ entry a "photos" "k" = None /\
  ObjectHandlers.files a !! final_of "photos" "k" = Some hello /\
  bool_decide (path_join data "temp" `prefix_of` final_of "photos" "k") = false.
Proof. vm_compute. done. Qed.
End ApiEdges.

(** * The whole application *)
Module AppWit.
Import Mem MemFs ToySha ApiWit.
#[export] Instance hm : Hmac := {|
  hmac_sha256 k d := String.list_byte_of_string (digest (k ++ d));
  hex_encode b := String.string_of_list_byte b;
  parse_amz_date s := if bool_decide (s = "19700101T000000Z") then Some 0%Z else None;
|}.
#[export] Instance hm_laws : HmacLaws.
Proof. split. intros s t. unfold parse_amz_date, hm. case_bool_decide; [subst; simpl; lia|done]. Qed.
(** A network on which every request is refused. *)
#[export] Instance client : HttpClient unit := {|
  http_send _ _ _ _ n := (Err "connection refused", n);
  uri_parse s := Ok s;
|}.

Definition date : string := "19700101T000000Z".
Definition signed : list string := ["host"; "x-amz-date"].
Definition base : HeaderMap := [("host", Some "s3.local"); ("content-md5", Some "abc"); ("x-amz-date", Some date)].
Definition sign (names : list string) : string :=
  default "" (calculate_signature "sk" date "us-east-1" "s3"
    (build_string_to_sign date "19700101/us-east-1/s3/aws4_request"
       (build_canonical_request "PUT" "/photos/k" "" base names "UNSIGNED-PAYLOAD"))).
Definition authorization (names : list string) : SigV4.Authorization :=
  SigV4.mkAuthorization "ak" "19700101" "us-east-1" "s3" "aws4_request" names (sign names).
Definition http (names : list string) : HttpRequest :=
  mkHttpRequest "PUT" "/photos/k" None
    (("authorization", Some (SigV4.text (authorization names))) :: base)
    (body "hello") None.
Definition s0 : Server Node unit := mkServer a0 tt 0 ∅.
Definition extract (r : HttpRequest) : result Response Request := Ok (request PUT (hq_body r)).
Definition specific (r : HttpRequest) : option (Server Node unit -> option Response * Server Node unit) := None.
Definition the_app : HttpRequest -> Server Node unit -> option Response * Server Node unit :=
  Middleware.app cfg data no_join instant utc awaits uuid not_allowed (fun _ => true) (fun _ => None) (fun _ => true)
    (fun _ => ("0123456789abcdef-1", "u2", 7%N)) (fun _ => true) extract specific.
Definition x1 : option Response := (the_app (http signed) s0).1.
Definition s1 : Server Node unit := (the_app (http signed) s0).2.
Lemma app_ran : Middleware.app cfg data no_join instant utc awaits uuid not_allowed (fun _ => true) (fun _ => None)
  (fun _ => true) (fun _ => ("0123456789abcdef-1", "u2", 7%N)) (fun _ => true) extract specific (http signed) s0 = (x1, s1).
Proof. unfold x1, s1, the_app. apply surjective_pairing. Qed.
Example answered_put : status <$> x1 = Some 200%N.
Proof. vm_compute. reflexivity. Qed.

Lemma entry_changes (a a' : Node) : entry a "photos" "k" = None -> bool_decide (is_Some (entry a' "photos" "k")) = true -> a' <> a.
Proof. intros Hn Hs%bool_decide_eq_true ->. rewrite Hn in Hs. by destruct Hs. Qed.
Lemma only_authentic_requests_change_witness : exists auth info amz_date t,
  authentic 5 (credentials cfg) (signed_part (http signed)) auth info amz_date t.
Proof.
  assert (Hne : sv_app s1 <> sv_app s0) by (apply entry_changes; vm_compute; reflexivity).
  exact (proj1 (only_authentic_requests_change cfg data no_join instant utc awaits uuid not_allowed (fun _ => true)
    (fun _ => None) (fun _ => true) (fun _ => ("0123456789abcdef-1", "u2", 7%N)) (fun _ => true) extract specific
    (http signed) s0 x1 s1 eq_refl (fun _ => eq_refl) app_ran Hne)).
Defined.
Lemma authorization_written : SigV4.written (SigV4.text (authorization signed)) (authorization signed).
Proof.
  split; [|by exists ""; split; [left|rewrite string_app_nil_r]].
  split; [repeat constructor|done|repeat constructor|repeat constructor; vm_compute; reflexivity].
Qed.
Lemma signed_names auth info : auth = SigV4.text (authorization signed) -> parse_authorization_header auth = Ok info ->
  Forall (fun n => should_forward_header n = true) (ai_signed_headers info).
Proof. intros ->. rewrite (written_parse _ _ authorization_written). intros [= <-]. repeat constructor. Qed.
Lemma some_eq {A} (x y : A) : Some x = Some y -> x = y.
Proof. by intros [= ->]. Qed.
Lemma auth_header : header_str (hq_headers (http signed)) "authorization" =
  Some (SigV4.text (authorization signed)).
Proof. reflexivity. Qed.
Lemma forwarded_signature_kept_witness :
  validate_sigv4 5 (credentials cfg) (signed_part (received (http signed) hello [])) = Some (Ok tt).
Proof.
  rewrite (forwarded_signature_kept 5 (credentials cfg) (http signed) hello []); [vm_compute; reflexivity|..].
  - repeat constructor; eexists; reflexivity.
  - reflexivity.
  - intros auth info Ha Hp. apply (signed_names auth info); [|exact Hp].
    rewrite auth_header in Ha. exact (eq_sym (some_eq _ _ Ha)).
Defined.

(** A client may sign a header that is not forwarded: the node it asks would
    accept the request, but the leader it is forwarded to refuses it. *)
Example forwarding_breaks_signature :
  validate_sigv4 5 (credentials cfg) (signed_part (http ("content-md5" :: signed))) = Some (Ok tt) /\
  validate_sigv4 5 (credentials cfg) (signed_part (received (http ("content-md5" :: signed)) hello [])) =
    Some (Err ApiError.SignatureDoesNotMatch).
Proof. vm_compute. done. Qed.

(** A request that is not answered stays counted as in flight. *)
Example unanswered_stays_in_flight :
  in_flight (track_requests (fun _ s => (None, s)) (http signed) s0).2 = 1%N.
Proof. vm_compute. reflexivity. Qed.
End AppWit.
