(* ===== verification/AdminRoutes.v ===== *)
(** * save-api: the health, cluster and failpoint routes

    Models [routes/health.rs], [routes/cluster.rs], [routes/failpoint.rs] and
    [handlers/failpoint.rs] of [crates/save-api/src], and the part of [app] in
    [lib.rs] that puts these routes in front of the S3 routes.  Matching paths,
    extracting arguments, serde's JSON and the [fail] library are interfaces. *)
From Stdlib Require Import Strings.Byte Ascii.
From S2P Require Import Prelude Common Config Kv Fs ObjectStorage StorageBackend FsDirs Buckets Objects.
From S2P Require Import Multipart Locks StateMachine MetadataStore S3Xml Api Auth BucketHandlers ObjectHandlers.
From S2P Require Import MultipartHandlers Routes Middleware RaftTypes RaftRpc RaftNode ClusterApi Readiness Metrics ApiWit.
From stdpp Require Import base gmap strings numbers list.

(** ** What axum, serde, the fail library and the Raft node provide *)

(** The segment of the path that a pattern with a capture at its end takes. *)
Definition captured (p path : string) : option string :=
  '(pre, name) ← split_once "{"%char p;
  v ← Prelude.strip_prefix pre path;
  if ends_with_char "}"%char name && negb (bool_decide (v = "")) && negb (contains_char "/"%char v) then Some v else None.
(** [p] is the path itself, or captures its last segment. *)
Definition instance_of (p path : string) (captures : list string) : Prop :=
  (p = path /\ captures = []) \/ exists v, captured p path = Some v /\ captures = [v].

(** axum: the route of a path with its captures, [Path<u64>], and the answer to a
    HEAD request on a GET route, which has no body. *)
Class Axum : Type := {
  match_route : list string -> string -> option (string * list string);
  path_u64 : list string -> result Response N;
  without_body : Response -> Response;
}.
Class AxumLaws `{Axum} : Prop := {
  match_sound : forall ps path p cs, match_route ps path = Some (p, cs) -> p ∈ ps /\ instance_of p path cs;
  match_static : forall ps path, path ∈ ps -> match_route ps path = Some (path, []);
  match_capture : forall ps path p cs, p ∈ ps -> path ∉ ps -> instance_of p path cs ->
    (forall p' cs', p' ∈ ps -> instance_of p' path cs' -> p' = p) -> match_route ps path = Some (p, cs);
  path_u64_ok : forall n, (n < 2 ^ 64)%N -> path_u64 [show n] = Ok n;
}.

(** The extractor [Json<T>], with its own answer to a body it refuses, and the
    response [Json(t)]. *)
Class FromJson (T : Type) : Type := from_request : HttpRequest -> result Response T.
Class Serialize (T : Type) : Type := to_json : T -> string.
Definition json {T} `{Serialize T} (x : N * T) : Response :=
  mkResponse x.1 [("content-type", "application/json")] (TextBody (to_json x.2)).

(** The library [fail], whose registry is part of the process's surroundings. *)
Class FailLibrary (Net : Type) : Type := {
  fail_cfg : string -> string -> M Net string unit;
  fail_remove : string -> Net -> Net;
}.

(** The Raft node's state is part of the node's database state. *)
Class RaftIn (DB RS : Type) : Type := {
  raft_of : DB -> RS;
  set_raft : RS -> DB -> DB;
  raft_of_set : forall r d, raft_of (set_raft r d) = r;
}.

(** ** [handlers/failpoint.rs] *)
Record ConfigureFailpointRequest : Type := mkConfigureFailpointRequest { fp_name : string; fp_action : string }.
Record ConfigureFailpointResponse : Type := mkConfigureFailpointResponse { fr_success : bool; fr_message : string }.

Section failpoints.
Context {Net : Type} `{FailLibrary Net}.
(** The error is a status code. *)
Definition configure_failpoint (req : ConfigureFailpointRequest) : M Net N (N * ConfigureFailpointResponse) :=
  with_err (fun _ => 400%N) (fail_cfg (fp_name req) (fp_action req)) ;;
  mret (200%N, mkConfigureFailpointResponse true
    ("Configured failpoint '" +:+ fp_name req +:+ "' with action '" +:+ fp_action req +:+ "'")).
Definition remove_failpoint (req : ConfigureFailpointRequest) : M Net N (N * ConfigureFailpointResponse) := fun s =>
  (Ok (200%N, mkConfigureFailpointResponse true ("Removed failpoint '" +:+ fp_name req +:+ "'")), fail_remove (fp_name req) s).
End failpoints.

(** ** The tables of routes *)
Inductive AdminHandler : Type :=
| HealthCheck | ReadinessCheck | MetricsHandler
| ClusterStatusHandler | ClusterInitialize | AddLearner | PromoteVoters | RemoveNode | TriggerElect
| ConfigureFailpoint | RemoveFailpoint.
Abbreviation Table := (list (string * (string * AdminHandler))).

Definition health_routes : Table :=
  [("/health", ("GET", HealthCheck)); ("/health/ready", ("GET", ReadinessCheck)); ("/metrics", ("GET", MetricsHandler))].
Definition cluster_routes : Table :=
  [("/cluster/status", ("GET", ClusterStatusHandler)); ("/cluster/initialize", ("POST", ClusterInitialize));
   ("/cluster/members", ("POST", AddLearner)); ("/cluster/members/promote", ("POST", PromoteVoters));
   ("/cluster/members/{node_id}", ("DELETE", RemoveNode)); ("/cluster/trigger-elect", ("POST", TriggerElect))].
Definition failpoint_routes : Table :=
  [("/_failpoint/configure", ("POST", ConfigureFailpoint)); ("/_failpoint/remove", ("POST", RemoveFailpoint))].
(** [failpoints] is the feature of that name. *)
Definition admin_table (failpoints : bool) : Table :=
  health_routes ++ cluster_routes ++ (if failpoints then failpoint_routes else []).
#[local] Arguments admin_table : simpl never.

Fixpoint route_entry (table : Table) (p : string) : option (string * AdminHandler) :=
  match table with
  | [] => None
  | (q, x) :: rest => if bool_decide (q = p) then Some x else route_entry rest p
  end.
(** Every listed pattern has its entry. *)
Lemma route_entry_in table p : p ∈ table.*1 -> is_Some (route_entry table p).
Proof.
  induction table as [|[q x] l IH]; simpl; [by intros ?%not_elem_of_nil|].
  case_bool_decide; [by eexists|]. intros [?|?]%elem_of_cons; [congruence|auto].
Qed.
#[local] Arguments route_entry : simpl never.
(** A GET route serves HEAD too. *)
Definition serves (m method : string) : bool :=
  bool_decide (m = method) || (bool_decide (m = "GET") && bool_decide (method = "HEAD")).

Section routes.
Context {DB B F Net RS R : Type} `{RocksDB DB, Codec Bucket} `{FileSystem F, StorageBackend B F} `{RaftHandle RS}
  `{RaftIn DB RS} `{Prometheus R} `{Axum, FailLibrary Net}.
Context `{FromJson InitializeRequest, FromJson AddLearnerRequest, FromJson PromoteVotersRequest, FromJson ConfigureFailpointRequest}
  `{Serialize HealthResponse, Serialize ReadinessResponse, Serialize ClusterStatus, Serialize InitializeResponse,
    Serialize MembershipResponse, Serialize ConfigureFailpointResponse}.
Abbreviation Srv := (Server (App DB B) Net).
Abbreviation Served := (option Response * Srv)%type.
Context (config : SaveConfig) (data_path : PathBuf) (join_error : DB -> option (string * DB))
  (fixed : nat -> SpecFloat.spec_float -> string) (method_not_allowed : Response).
(** What the health handlers read besides the node: the clock, the uptime, the
    disk, the flags of the process and the registry of metrics. *)
Context (now : Srv -> Z) (uptime : Srv -> N) (statvfs : Srv -> result string Statvfs) (gc_last_run : Srv -> Z)
  (is_joined : Srv -> bool) (registry : Srv -> Registry R).
Definition this_node : N := cluster_node_id (cluster config).

Definition set_db (d : DB) (s : Srv) : Srv :=
  let a := sv_app s in
  set_app s (mkApp d (app_store a) (bucket_cache a) (lock_manager a) (Api.multipart_uploads_in_progress a)).
Definition set_store (b : B) (s : Srv) : Srv :=
  let a := sv_app s in
  set_app s (mkApp (app_db a) b (bucket_cache a) (lock_manager a) (Api.multipart_uploads_in_progress a)).
Definition the_raft (s : Srv) : RS := raft_of (app_db (sv_app s)).
(** A handler of the Raft node. *)
Definition on_raft {X} (f : RS -> X * RS) (render : X -> option Response) (s : Srv) : Served :=
  let '(x, rs) := f (the_raft s) in (render x, set_db (set_raft rs (app_db (sv_app s))) s).
Definition answer {T} `{Serialize T} (x : N * T) : option Response := Some (json x).
Definition with_json {T} `{FromJson T} (r : HttpRequest) (k : T -> Srv -> Served) (s : Srv) : Served :=
  match from_request r with Ok t => k t s | Err resp => (Some resp, s) end.

Definition serve_readiness (s : Srv) : Served :=
  let a := sv_app s in
  let '(x, p) := readiness_check config data_path join_error fixed (statvfs s) (gc_last_run s) (is_joined s) (now s)
    (mkProbe (app_db a) (sb_fs (app_store a)) (the_raft s)) in
  (answer x, set_store (sb_set_fs (app_store a) (pb_fs p)) (set_db (pb_db p) s)).
Definition serve_failpoint (f : ConfigureFailpointRequest -> M Net N (N * ConfigureFailpointResponse))
    (req : ConfigureFailpointRequest) (s : Srv) : Served :=
  match f req (sv_net s) with
  | (Ok x, n) => (answer x, set_net s n)
  | (Err code, n) => (Some (mkResponse code [] NoBody), set_net s n)
  end.

Definition run_handler (h : AdminHandler) (captures : list string) (r : HttpRequest) (s : Srv) : Served :=
  match h with
  | HealthCheck => (answer (200%N, Readiness.health_check (now s) (uptime s)), s)
  | ReadinessCheck => serve_readiness s
  | MetricsHandler =>
      let '(code, text) := metrics_handler (registry s) in
      (Some (mkResponse code [("content-type", "text/plain; charset=utf-8")] (TextBody text)), s)
  | ClusterStatusHandler => (answer (Http.cluster_status this_node (the_raft s)), s)
  | ClusterInitialize => with_json r (fun req => on_raft (Http.cluster_initialize this_node req) (fun x => y ← x; answer y)) s
  | AddLearner => with_json r (fun req => on_raft (Http.add_learner this_node req) answer) s
  | PromoteVoters => with_json r (fun req => on_raft (Http.promote_voters this_node req) answer) s
  | RemoveNode =>
      match path_u64 captures with
      | Ok id => on_raft (Http.remove_node this_node id) answer s
      | Err resp => (Some resp, s)
      end
  | TriggerElect => on_raft Http.trigger_elect answer s
  | ConfigureFailpoint => with_json r (serve_failpoint configure_failpoint) s
  | RemoveFailpoint => with_json r (serve_failpoint remove_failpoint) s
  end.

(** The routes that come before the fallback to the S3 routes: a path that matches
    is answered here, whatever the method. *)
Definition admin_routes (failpoints : bool) (r : HttpRequest) : option (Srv -> Served) :=
  '(p, captures) ← match_route (admin_table failpoints).*1 (hq_path r);
  '(m, h) ← route_entry (admin_table failpoints) p;
  Some (fun s =>
    if serves m (hq_method r) then
      let '(x, s') := run_handler h captures r s in
      ((if bool_decide (hq_method r = "HEAD") then without_body <$> x else x), s')
    else (Some method_not_allowed, s)).
End routes.

(** ** The application *)
Section application.
Context {DB B F Net RS R : Type} `{RocksDB DB, NodeRaft DB} `{!Codec Bucket} `{Codec ObjectMetadata} `{Codec LockState}
  `{Codec MultipartPart} `{Codec MultipartMetadata} `{FileSystem F, !DirFs F, StorageBackend B F}
  `{Chrono, XmlWriter, Sha256, Hmac, HttpClient Net} `{RaftHandle RS} `{!RaftIn DB RS} `{Prometheus R} `{Axum, FailLibrary Net}.
Context `{!FromJson InitializeRequest, !FromJson AddLearnerRequest, !FromJson PromoteVotersRequest, !FromJson ConfigureFailpointRequest}
  `{!Serialize HealthResponse, !Serialize ReadinessResponse, !Serialize ClusterStatus, !Serialize InitializeResponse,
    !Serialize MembershipResponse, !Serialize ConfigureFailpointResponse}.
Abbreviation Srv := (Server (App DB B) Net).
Context (config : SaveConfig) (data_path : PathBuf) (join_error : DB -> option (string * DB))
  (instant : App DB B -> N) (utc : App DB B -> Z) (lock_awaits : App DB B -> nat) (uuid : App DB B -> string)
  (fixed : nat -> SpecFloat.spec_float -> string) (method_not_allowed : Response) (draws : Srv -> string * string * N)
  (header_ok : string -> bool) (extract : HttpRequest -> result Response Request)
  (now : Srv -> Z) (uptime : Srv -> N) (statvfs : Srv -> result string Statvfs) (gc_last_run : Srv -> Z)
  (is_joined : Srv -> bool) (registry : Srv -> Registry R) (failpoints : bool).

(** The layers ask the Raft node. *)
Definition full_app : Service :=
  Middleware.app config data_path join_error instant utc lock_awaits uuid method_not_allowed
    (fun a => RaftNode.is_leader (this_node config) (raft_of (app_db a)))
    (fun a => RaftNode.leader_http_addr (raft_of (app_db a)))
    (fun a => RaftNode.is_initialized (raft_of (app_db a)))
    draws header_ok extract
    (admin_routes config data_path join_error fixed method_not_allowed now uptime statvfs gc_last_run is_joined registry failpoints).

(** *** What the routes change *)
Context `{!FileSystemLaws F} `{!StorageBackendLaws B F} `{!HmacLaws} `{!AxumLaws}.
Implicit Types (r : HttpRequest) (s : Srv).
Abbreviation handle := (run_handler config data_path join_error fixed now uptime statvfs gc_last_run is_joined registry).
Abbreviation table := (admin_table failpoints).

Definition changes_members (h : AdminHandler) : bool :=
  match h with ClusterInitialize | AddLearner | PromoteVoters | RemoveNode | TriggerElect => true | _ => false end.
(** The node with another state of Raft. *)
Definition with_raft (a : App DB B) (rs : RS) : App DB B :=
  mkApp (set_raft rs (app_db a)) (app_store a) (bucket_cache a) (lock_manager a) (Api.multipart_uploads_in_progress a).
(** The node after a readiness check: the metadata was listed, and of the files at
    most the probe differs. *)
Definition probed (a a' : App DB B) : Prop :=
  app_db a' = (MetadataStore.list_buckets join_error (app_db a)).2 /\
  same_but (test_path data_path) (sb_fs (app_store a)) (sb_fs (app_store a')) /\
  bucket_cache a' = bucket_cache a /\ lock_manager a' = lock_manager a /\
  Api.multipart_uploads_in_progress a' = Api.multipart_uploads_in_progress a.

Lemma on_raft_app {X} (f : RS -> X * RS) render s x s' : on_raft f render s = (x, s') ->
  exists rs, sv_app s' = with_raft (sv_app s) rs.
Proof. unfold on_raft. destruct (f _) as [y rs]. intros [= _ <-]. by exists rs. Qed.
Lemma readiness_app s x s' :
  serve_readiness config data_path join_error fixed now statvfs gc_last_run is_joined s = (x, s') -> probed (sv_app s) (sv_app s').
Proof.
  unfold serve_readiness, readiness_check, check_rocksdb. cbn [pb_db pb_fs pb_raft].
  destruct (check_filesystem _ _) as [c f] eqn:Hf. apply check_filesystem_spec in Hf as [Hf _].
  destruct (MetadataStore.list_buckets _ _) as [[bs|e] d] eqn:Hl; intros [= _ <-];
    (split_and!; [by rewrite Hl|simpl; by rewrite sb_fs_set|done..]).
Qed.
Lemma handle_app h cs r s x s' : handle h cs r s = (x, s') ->
  sv_app s' = sv_app s \/ (h = ReadinessCheck /\ probed (sv_app s) (sv_app s')) \/
  (changes_members h = true /\ exists rs, sv_app s' = with_raft (sv_app s) rs).
Proof.
  destruct h; cbn [run_handler changes_members]; unfold with_json, serve_failpoint.
  - intros [= _ <-]. by left.
  - intros Hr%readiness_app. auto.
  - destruct (metrics_handler _). intros [= _ <-]. by left.
  - intros [= _ <-]. by left.
  - destruct (from_request r); [intros Hr%on_raft_app; auto|intros [= _ <-]; by left].
  - destruct (from_request r); [intros Hr%on_raft_app; auto|intros [= _ <-]; by left].
  - destruct (from_request r); [intros Hr%on_raft_app; auto|intros [= _ <-]; by left].
  - destruct (path_u64 cs); [intros Hr%on_raft_app; auto|intros [= _ <-]; by left].
  - intros Hr%on_raft_app. auto.
  - destruct (from_request r) as [q|]; [destruct (configure_failpoint _ _) as [[] n]|]; intros [= _ <-]; by left.
  - destruct (from_request r) as [q|]; intros [= _ <-]; by left.
Qed.

(** The paths that are never forwarded are among these routes. *)
Lemma unforwarded_routes p : p ∈ ["/metrics"; "/health"; "/health/ready"; "/cluster/status"] -> p ∈ table.*1.
Proof.
  assert (Hall : forallb (fun q => bool_decide (q ∈ table.*1)) ["/metrics"; "/health"; "/health/ready"; "/cluster/status"] = true)
    by (destruct failpoints; reflexivity).
  rewrite forallb_forall in Hall. by intros Hp%list_elem_of_In%Hall%bool_decide_eq_true.
Qed.

(** The paths that are exempt from the check of the initialization are among these
    routes, except for what lies below a member. *)
Lemma exempt_routes p : is_exempt_from_initialization_check p = true -> match_route table.*1 p = None ->
  starts_with "/cluster/members/" p = true.
Proof.
  unfold is_exempt_from_initialization_check. intros [Hp%bool_decide_eq_true|[Hs _]%andb_true_iff]%orb_true_iff Hm; [|done].
  assert (Hall : forallb (fun q => bool_decide (q ∈ table.*1)) EXEMPT_PATHS = true) by (destruct failpoints; reflexivity).
  rewrite forallb_forall in Hall. apply list_elem_of_In, Hall, bool_decide_eq_true in Hp.
  by rewrite (match_static _ _ Hp) in Hm.
Qed.

(** C17. Every request that changes the node, through all layers of the application, is
    accounted for.  Either its path is none of the routes below, it passed the
    signature check, the cluster is initialized or the path lies below
    [/cluster/members/], and if it is a write then this node is the leader or knows
    of no leader, or the request has the header [x-forwarded-by] (which other nodes
    set, and which any client may set); or it is a readiness check, which leaves at
    most its probe file; or it is one of the five calls that manage the cluster,
    whose handlers reach nothing but the Raft node.  The last two need no
    signature. *)
Theorem changes_accounted_for r s x s' : full_app r s = (x, s') -> sv_app s' <> sv_app s ->
  (match_route table.*1 (hq_path r) = None /\
   (exists auth a amz_date t, authentic (utc (sv_app s)) (credentials config) (signed_part r) auth a amz_date t) /\
   (RaftNode.is_initialized (the_raft s) = true \/ starts_with "/cluster/members/" (hq_path r) = true) /\
   (is_write_method (hq_method r) = true -> is_Some (header_get (hq_headers r) "x-forwarded-by") \/
      RaftNode.is_leader (this_node config) (the_raft s) = true \/ RaftNode.leader_http_addr (the_raft s) = None)) \/
  exists p captures m h, match_route table.*1 (hq_path r) = Some (p, captures) /\ route_entry table p = Some (m, h) /\
    serves m (hq_method r) = true /\
    ((h = ReadinessCheck /\ probed (sv_app s) (sv_app s')) \/
     (changes_members h = true /\ exists rs, sv_app s' = with_raft (sv_app s) rs)).
Proof.
  intros Hx Hne. destruct (change_reaches_router _ _ _ _ _ _ _ _ _ _ _ _ _ _ _ _ _ _ _ Hx Hne)
    as (c & s0 & x1 & s1 & Hs0 & Hs1 & Hr & Hi & Hw). unfold the_raft in *. rewrite Hs1, <- Hs0 in *. clear Hx Hs1 Hs0.
  unfold router, admin_routes in Hr. cbn [with_trace hq_path hq_method] in Hr.
  destruct (match_route _ _) as [[p cs]|] eqn:Hm; simpl in Hr.
  2: { left. split_and!; [done|by eapply api_service_authentic|destruct Hi; eauto using exempt_routes|].
       intros [?%bool_decide_eq_true|[?|[?|Hp]]]%Hw; [by auto..|].
       exfalso. apply unforwarded_routes in Hp. by rewrite (match_static _ _ Hp) in Hm. }
  destruct (route_entry _ p) as [[m h]|] eqn:He; simpl in Hr.
  2: { exfalso. apply match_sound in Hm as [Hin _]. apply (route_entry_in table p) in Hin as [? ?]. congruence. }
  right. exists p, cs, m, h. destruct (serves m (hq_method r)) eqn:Hsv; [|by injection Hr as _ <-].
  destruct (handle h cs (with_trace r c) s0) as [y t] eqn:Hh. injection Hr as _ <-.
  apply handle_app in Hh as [?|Hh]; [done|]. done.
Qed.

(** *** The requests in flight *)

(** What runs inside the request tracker. *)
Definition tracked_app : Service :=
  forward_to_leader (fun a => RaftNode.is_leader (this_node config) (raft_of (app_db a)))
    (fun a => RaftNode.leader_http_addr (raft_of (app_db a)))
    (require_initialized_cluster (fun a => RaftNode.is_initialized (raft_of (app_db a))) draws
      (router config data_path join_error instant utc lock_awaits uuid method_not_allowed draws extract
        (admin_routes config data_path join_error fixed method_not_allowed now uptime statvfs gc_last_run is_joined registry failpoints))).

Lemma handle_in_flight h cs r s x s' : handle h cs r s = (x, s') -> in_flight s' = in_flight s.
Proof.
  assert (Hraft : forall X (f : RS -> X * RS) render t, on_raft f render s = (x, t) -> in_flight t = in_flight s).
  { intros X f render t. unfold on_raft. destruct (f _). by intros [= _ <-]. }
  destruct h; cbn [run_handler]; unfold with_json, serve_failpoint.
  - by intros [= _ <-].
  - unfold serve_readiness. destruct (readiness_check _ _ _ _ _ _ _ _ _). by intros [= _ <-].
  - destruct (metrics_handler _). by intros [= _ <-].
  - by intros [= _ <-].
  - destruct (from_request r); [apply Hraft|by intros [= _ <-]].
  - destruct (from_request r); [apply Hraft|by intros [= _ <-]].
  - destruct (from_request r); [apply Hraft|by intros [= _ <-]].
  - destruct (path_u64 cs); [apply Hraft|by intros [= _ <-]].
  - apply Hraft.
  - destruct (from_request r) as [q|]; [destruct (configure_failpoint _ _) as [[] n]|]; by intros [= _ <-].
  - destruct (from_request r) as [q|]; by intros [= _ <-].
Qed.


(** A path of these routes never reaches the S3 routes: a PUT of a bucket or an
    object that has such a path is refused, and nothing changes. *)
Theorem reserved_paths_refused r s : hq_path r ∈ table.*1 -> hq_method r = "PUT" ->
  router config data_path join_error instant utc lock_awaits uuid method_not_allowed draws extract
    (admin_routes config data_path join_error fixed method_not_allowed now uptime statvfs gc_last_run is_joined registry failpoints)
    r s = (Some method_not_allowed, s).
Proof.
  intros Hp Hm. unfold router, admin_routes. rewrite (match_static _ _ Hp). simpl.
  assert (He : exists m h, route_entry table (hq_path r) = Some (m, h) /\ serves m "PUT" = false).
  { revert Hp. generalize (hq_path r). intros q Hq.
    assert (Hall : forallb (fun q => match route_entry table q with Some (m, _) => negb (serves m "PUT") | None => false end)
      table.*1 = true) by (destruct failpoints; reflexivity).
    rewrite forallb_forall in Hall. apply list_elem_of_In, Hall in Hq. destruct (route_entry _ q) as [[m h]|]; [|done].
    exists m, h. split; [done|]. by apply negb_true_iff. }
  destruct He as (m & h & -> & Hsv). simpl. by rewrite Hm, Hsv.
Qed.

(** *** Removing a node *)
Definition member_path (id : N) : string := "/cluster/members/" +:+ show id.
(** No listed path is that of a member. *)
Lemma member_path_new id : member_path id ∉ table.*1.
Proof.
  intros Hin. assert (Hall : forallb (fun q => match Prelude.strip_prefix "/cluster/members/" q with
    | Some (String c _) => negb (is_ascii_digit c) | _ => true end) table.*1 = true) by (destruct failpoints; reflexivity).
  rewrite forallb_forall in Hall. apply list_elem_of_In, Hall in Hin. unfold member_path in Hin. simpl in Hin.
  destruct (show_head id) as (d & t & Hs & Hd). rewrite Hs, Hd in Hin. done.
Qed.
Lemma captured_plain p path : split_once "{"%char p = None -> captured p path = None.
Proof. unfold captured. by intros ->. Qed.
Lemma member_route id : match_route table.*1 (member_path id) = Some ("/cluster/members/{node_id}", [show id]).
Proof.
  assert (Hcap : captured "/cluster/members/{node_id}" (member_path id) = Some (show id)).
  { unfold captured, member_path. simpl. rewrite show_no_char by done. by destruct (show_head id) as (d & u & -> & _). }
  apply match_capture.
  - destruct failpoints; apply (bool_decide_unpack _); vm_compute; done.
  - apply member_path_new.
  - right. eauto.
  - intros p' cs' Hin [[-> _]|(v & Hv & _)].
    + by apply member_path_new in Hin.
    + assert (Hall : forallb (fun q => bool_decide (q = "/cluster/members/{node_id}") ||
        match split_once "{"%char q with None => true | Some _ => false end) table.*1 = true) by (destruct failpoints; reflexivity).
      rewrite forallb_forall in Hall. apply list_elem_of_In, Hall, orb_true_iff in Hin as [?%bool_decide_eq_true|Hn]; [done|].
      destruct (split_once _ p') eqn:Hn'; [done|]. by rewrite captured_plain in Hv.
Qed.

Lemma exempt_member id : is_exempt_from_initialization_check (member_path id) = true.
Proof.
  unfold is_exempt_from_initialization_check. apply orb_true_iff. right. unfold member_path. rewrite starts_with_app, andb_true_l.
  apply negb_true_iff, bool_decide_eq_false. intros Heq. apply (f_equal (Prelude.strip_prefix "/cluster/members/")) in Heq.
  rewrite strip_prefix_app in Heq. cbv [Prelude.strip_prefix] in Heq. destruct (show_head id) as (d & t & Hs & Hd). rewrite Hs in Heq.
  injection Heq as -> _. done.
Qed.
(** Removing a node over HTTP needs no signature: whatever headers a DELETE of a
    member has, the leader carries it out, and when it answers 200 the node has
    left the cluster. *)
Theorem removal_needs_no_signature `{!RaftMembers RS} r s id x rs : (id < 2 ^ 64)%N ->
  hq_method r = "DELETE" -> hq_path r = member_path id -> RaftNode.is_leader (this_node config) (the_raft s) = true ->
  Http.remove_node (this_node config) id (the_raft s) = (x, rs) ->
  exists resp s', full_app r s = (Some resp, s') /\ status resp = x.1 /\ the_raft s' = rs /\
    (x.1 = 200%N -> members (the_raft s') = without id (members (the_raft s))).
Proof.
  intros Hid Hm Hp Hl Hrun.
  assert (Hserved : forall c s0, sv_app s0 = sv_app s -> exists s1,
    router config data_path join_error instant utc lock_awaits uuid method_not_allowed draws extract
      (admin_routes config data_path join_error fixed method_not_allowed now uptime statvfs gc_last_run is_joined registry failpoints)
      (with_trace r c) s0 = (Some (json x), s1) /\ the_raft s1 = rs).
  { intros c s0 Hs0. unfold router, admin_routes. cbn [with_trace hq_path hq_method]. rewrite Hp, member_route, Hm.
    cbn [mbind option_bind].
    replace (route_entry table "/cluster/members/{node_id}") with (Some ("DELETE", RemoveNode)) by (by destruct failpoints).
    cbn. rewrite path_u64_ok by done. unfold on_raft, the_raft in *. rewrite Hs0, Hrun. eexists. split; [reflexivity|].
    simpl. apply raft_of_set. }
  assert (Hfwd : forall c s0, sv_app s0 = sv_app s -> exists s1, 
    forward_to_leader (fun a => RaftNode.is_leader (this_node config) (raft_of (app_db a)))
      (fun a => RaftNode.leader_http_addr (raft_of (app_db a)))
      (require_initialized_cluster (fun a => RaftNode.is_initialized (raft_of (app_db a))) draws
        (router config data_path join_error instant utc lock_awaits uuid method_not_allowed draws extract
          (admin_routes config data_path join_error fixed method_not_allowed now uptime statvfs gc_last_run is_joined registry failpoints)))
      (with_trace r c) s0 = (Some (json x), s1) /\ the_raft s1 = rs).
  { intros c s0 Hs0. destruct (Hserved c s0 Hs0) as (s1 & Hr & Hrs). exists s1. split; [|done].
    unfold forward_to_leader, require_initialized_cluster. cbn [with_trace hq_path hq_method hq_headers].
    rewrite Hp, exempt_member, Hs0. unfold the_raft in Hl. rewrite Hl, Hr. by repeat case_match. }
  unfold full_app, Middleware.app, Middleware.request_id. destruct (draws s) as [[u1 u2] rnd]. set (c := trace_context_from_headers u1 u2 rnd (hq_headers r)).
  unfold track_metrics, track_requests. cbn [with_trace hq_path hq_method].
  rewrite bool_decide_eq_false_2 by (rewrite Hp; intros Hin; apply (member_path_new id), unforwarded_routes; set_solver).
  destruct (Hfwd c (increment s) eq_refl) as (s1 & -> & Hrs). do 2 eexists. split; [reflexivity|].
  match goal with |- _ /\ the_raft ?t = _ /\ _ => assert (Ht : the_raft t = rs) by done; rewrite Ht end.
  split_and!; [by repeat case_match|done|]. intros Hok.
  apply http_remove_node_inv in Hrun as [_ Hrun]. destruct (mr_success x.2); [by destruct Hrun as (_ & _ & _ & ?)|].
  by destruct Hrun as [? _].
Qed.
End application.

(** ** Witnesses *)
Module AdminWit.
Import Mem MemFs ToySha ApiWit ApiWit.AppWit MemRaft PromWit.
(** The first pattern that fits, static ones first. *)
Definition fits (path : string) (p : string) : option (string * list string) := v ← captured p path; Some (p, [v]).
#[export] Instance axum : Axum := {|
  match_route ps path := if bool_decide (path ∈ ps) then Some (path, []) else head (omap (fits path) ps);
  path_u64 cs := ok_or (mkResponse 400 [] NoBody) (c ← head cs; parse_uint u64_max c);
  without_body r := mkResponse (status r) (headers r) NoBody;
|}.
Lemma fits_inv path ps p cs : head (omap (fits path) ps) = Some (p, cs) ->
  p ∈ ps /\ exists v, captured p path = Some v /\ cs = [v].
Proof.
  intros Hh%head_Some_elem_of. apply list_elem_of_omap in Hh as (q & Hq & (v & Hv & [= <- <-])%bind_Some). eauto.
Qed.
#[export] Instance axum_laws : AxumLaws.
Proof.
  split; simpl.
  - intros ps path p cs. case_bool_decide as Hin; [intros [= <- <-]; split; [done|by left]|].
    intros [? ?]%fits_inv. split; [done|by right].
  - intros ps path Hin. by rewrite bool_decide_eq_true_2.
  - intros ps path p cs Hp Hnew [[-> _]|(v & Hv & ->)] Honly; [done|]. rewrite bool_decide_eq_false_2 by done.
    assert (Hin : (p, [v]) ∈ omap (fits path) ps) by (apply list_elem_of_omap; exists p; unfold fits; by rewrite Hv).
    destruct (head (omap (fits path) ps)) as [[q cs]|] eqn:Hh; [|by destruct (omap _ _); [apply not_elem_of_nil in Hin|]].
    apply fits_inv in Hh as (Hq & w & Hw & ->). assert (q = p) as -> by (apply (Honly q [w]); [done|right; eauto]). congruence.
  - intros n Hn. rewrite parse_show; [done|]. unfold u64_max. lia.
Qed.

#[export] Instance no_init : FromJson InitializeRequest := fun _ => Err (mkResponse 415 [] NoBody).
#[export] Instance no_learner : FromJson AddLearnerRequest := fun _ => Err (mkResponse 415 [] NoBody).
#[export] Instance no_promote : FromJson PromoteVotersRequest := fun _ => Err (mkResponse 415 [] NoBody).
#[export] Instance no_failpoint : FromJson ConfigureFailpointRequest := fun _ => Err (mkResponse 415 [] NoBody).
#[export] Instance braces T : Serialize T := fun _ => "{}".
#[export] Instance no_fail : FailLibrary unit := {| fail_cfg _ _ := mret tt; fail_remove _ n := n |}.

(** A database with the state of Raft beside it. *)
Definition Db : Type := Mem.t * MemRaft.t.
Definition beside (x : result string Mem.t) (r : MemRaft.t) : result string Db := m ← x; Ok (m, r).
#[export] Instance db_rocks : RocksDB Db := {|
  db_has_cf d := db_has_cf d.1; db_get d := db_get d.1; db_iter d := db_iter d.1;
  db_put d cf k v := beside (db_put d.1 cf k v) d.2; db_delete d cf k := beside (db_delete d.1 cf k) d.2;
|}.
#[export] Instance db_raft : NodeRaft Db := {|
  nr_write c d := let '(x, m) := nr_write c d.1 in (x, (m, d.2));
  nr_ensure_linearizable := mret tt; nr_abandoned _ d := d; nr_elapse d := d;
|}.
#[export] Program Instance db_raft_in : RaftIn Db MemRaft.t := {| raft_of d := d.2; set_raft r d := (d.1, r) |}.
Next Obligation. done. Qed.

Definition Node2 : Type := App Db MemFs.t.
Definition srv : Server Node2 unit := mkServer (with_storage cfg MemFs.empty (Mem.empty, MemberWit.s1) 1) tt 0 ∅.
Definition rq (method path : string) : HttpRequest := mkHttpRequest method path None [] (body "") None.
Definition no_join2 (d : Db) : option (string * Db) := None.
Abbreviation run_app := (full_app cfg data no_join2 (fun _ => 0%N) (fun _ => 5%Z) (fun _ => 3) (fun _ => "u1") (fun _ _ => "")
  not_allowed (fun _ => ("0123456789abcdef-1", "u2", 7%N)) (fun _ => true) extract (fun _ => 5%Z) (fun _ => 0%N)
  (fun _ => Err "") (fun _ => 0%Z) (fun _ => true) (fun _ => r0) false).
Definition removed : HttpRequest := rq "DELETE" "/cluster/members/2".
Lemma leads : RaftNode.is_leader (RS := MemRaft.t) (this_node cfg) (the_raft srv) = true.
Proof. vm_compute. reflexivity. Qed.
(** Without an Authorization header. *)
Lemma removal_needs_no_signature_witness : exists resp s', run_app removed srv = (Some resp, s') /\ status resp = 200%N /\
  members (the_raft s') = without 2 (members (the_raft srv)).
Proof.
  assert (Hid : (2 < 2 ^ 64)%N) by lia.
  destruct (removal_needs_no_signature cfg data no_join2 (fun _ => 0%N) (fun _ => 5%Z) (fun _ => 3) (fun _ => "u1") (fun _ _ => "")
    not_allowed (fun _ => ("0123456789abcdef-1", "u2", 7%N)) (fun _ => true) extract (fun _ => 5%Z) (fun _ => 0%N)
    (fun _ => Err "") (fun _ => 0%Z) (fun _ => true) (fun _ => r0) false
    removed srv 2 (200%N, mkMembershipResponse true "Node 2 removed from cluster") MemberWit.s2 Hid eq_refl eq_refl
    leads MemberWit.removed_voter) as (resp & s' & Hr & Hc & _ & Hm).
  exists resp, s'. split; [exact Hr|]. split; [exact Hc|]. by apply Hm.
Defined.
Lemma changes_accounted_for_witness : exists m h, route_entry (admin_table false) "/cluster/members/{node_id}" = Some (m, h) /\
  exists rs, sv_app (run_app removed srv).2 = with_raft (sv_app srv) rs.
Proof.
  assert (Hne : sv_app (run_app removed srv).2 <> sv_app srv).
  { intros Heq. apply (f_equal (fun a => bool_decide (2%N ∈ mvoters (raft_of (app_db a))))) in Heq. vm_compute in Heq. discriminate. }
  destruct (changes_accounted_for cfg data no_join2 (fun _ => 0%N) (fun _ => 5%Z) (fun _ => 3) (fun _ => "u1") (fun _ _ => "")
    not_allowed (fun _ => ("0123456789abcdef-1", "u2", 7%N)) (fun _ => true) extract (fun _ => 5%Z) (fun _ => 0%N)
    (fun _ => Err "") (fun _ => 0%Z) (fun _ => true) (fun _ => r0) false removed srv _ _ (surjective_pairing _) Hne)
    as [[Hm _]|(p & cs & m & h & Hm & He & _ & Hc)]; vm_compute in Hm; [discriminate|].
  injection Hm as <- <-. exists m, h. split; [exact He|]. vm_compute in He. injection He as <- <-.
  destruct Hc as [[? _]|[_ Hc]]; [discriminate|exact Hc].
Defined.
(** The name of the path is that of a valid bucket. *)
Lemma reserved_paths_refused_witness : validate_bucket_name "health" = Ok tt /\
  router cfg data no_join2 (fun _ => 0%N) (fun _ => 5%Z) (fun _ => 3) (fun _ => "u1") not_allowed
    (fun _ => ("0123456789abcdef-1", "u2", 7%N)) extract
    (admin_routes cfg data no_join2 (fun _ _ => "") not_allowed (fun _ => 5%Z) (fun _ => 0%N)
      (fun _ => Err "") (fun _ => 0%Z) (fun _ => true) (fun _ => r0) false) (rq "PUT" "/health") srv = (Some not_allowed, srv).
Proof.
  split; [reflexivity|].
  assert (Hin : hq_path (rq "PUT" "/health") ∈ (admin_table false).*1) by (apply (bool_decide_unpack _); vm_compute; done).
  exact (reserved_paths_refused cfg data no_join2 (fun _ => 0%N) (fun _ => 5%Z) (fun _ => 3) (fun _ => "u1") (fun _ _ => "")
    not_allowed (fun _ => ("0123456789abcdef-1", "u2", 7%N)) extract (fun _ => 5%Z) (fun _ => 0%N)
    (fun _ => Err "") (fun _ => 0%Z) (fun _ => true) (fun _ => r0) false (rq "PUT" "/health") srv Hin eq_refl).
Defined.
(** A bucket of that name exists all the same: with a slash at the end the request
    goes to the S3 routes, where it is refused for want of a signature only. *)
Example slash_escapes : status <$> (run_app (rq "PUT" "/health/") srv).1 = Some 403%N.
Proof. vm_compute. reflexivity. Qed.
End AdminWit.
