(* ===== verification/Cli.v ===== *)
(** * save-cli: the command line client

    Models [crates/save-cli/src/main.rs].  The S3 client of the AWS SDK and the
    HTTP client are the class [S3Client], parsing of the command line gives a
    [Cli], and a run prints lines and bytes before it returns. *)
From Stdlib Require Import Strings.Byte.
From S2P Require Import Prelude Kv Fs.
From stdpp Require Import base strings numbers list.

Inductive BucketCommands : Type := BList | BCreate (name : string) | BDelete (name : string).
Inductive ObjectCommands : Type :=
| OList (bucket : string) (prefix : option string)
| OGet (bucket key : string)
| OPut (bucket key file : string)
| ODelete (bucket key : string).
Inductive Commands : Type := Health | Bucket (c : BucketCommands) | Object (c : ObjectCommands).
Record Cli : Type := mkCli { command : Commands; endpoint : string; access_key : string; secret_key : string }.

(** The settings of the S3 client. *)
Record ClientConfig : Type := mkClientConfig {
  cc_access_key : string; cc_secret_key : string; cc_region : string; cc_endpoint_url : string; cc_force_path_style : bool }.
Definition create_client (cli : Cli) : ClientConfig :=
  mkClientConfig (access_key cli) (secret_key cli) "us-east-1" (endpoint cli) true.

(** One page of a listing. *)
Record ListPage : Type := mkListPage { lp_contents : list (option string); lp_is_truncated : bool }.
Class S3Client (W : Type) : Type := {
  http_get : string -> M W string (N * result string string);
  read_file : string -> M W string bytes;
  s3_list_buckets : ClientConfig -> M W string (list (option string));
  s3_create_bucket : ClientConfig -> string -> M W string unit;
  s3_delete_bucket : ClientConfig -> string -> M W string unit;
  s3_list_objects_v2 : ClientConfig -> string -> option string -> M W string ListPage;
  s3_get_object : ClientConfig -> string -> string -> M W string (result string bytes);
  s3_put_object : ClientConfig -> string -> string -> bytes -> M W string unit;
  s3_delete_object : ClientConfig -> string -> string -> M W string unit;
  write_stdout : bytes -> M W string unit;        (* write_all and flush *)
}.

Inductive Output : Type := Line (s : string) | Raw (b : bytes).

Section cli.
Context {W : Type} `{S3Client W}.
(** The world, and what was printed. *)
Abbreviation Run := (M (W * list Output) string).
Definition io {A} (c : M W string A) : Run A := fun s => let '(r, w) := c s.1 in (r, (w, s.2)).
Definition println (t : string) : Run unit := fun s => (Ok tt, (s.1, s.2 ++ [Line t])).

Definition write_all (data : bytes) : Run unit := fun s =>
  match write_stdout data s.1 with
  | (Ok _, w) => (Ok tt, (w, s.2 ++ [Raw data]))
  | (Err e, w) => (Err e, (w, s.2))
  end.

Definition check_health (url : string) : Run unit :=
  '(status, body) ← io (http_get (url +:+ "/health"));
  if (200 <=? status)%N && (status <? 300)%N then text ← lift body; println text
  else throw ("Health check failed: " +:+ show status).

Definition print_names (names : list (option string)) : Run unit :=
  for_each (fun n => match n with Some name => println name | None => mret tt end) names.

Definition handle_bucket (cmd : BucketCommands) (cli : Cli) : Run unit :=
  let client := create_client cli in
  match cmd with
  | BList => names ← io (s3_list_buckets client); print_names names
  | BCreate name => io (s3_create_bucket client name) ;; println ("Bucket '" +:+ name +:+ "' created")
  | BDelete name => io (s3_delete_bucket client name) ;; println ("Bucket '" +:+ name +:+ "' deleted")
  end.

Definition handle_object (cmd : ObjectCommands) (cli : Cli) : Run unit :=
  let client := create_client cli in
  match cmd with
  | OList bucket prefix => page ← io (s3_list_objects_v2 client bucket prefix); print_names (lp_contents page)
  | OGet bucket key =>
      body ← io (s3_get_object client bucket key);
      data ← lift body;
      write_all data
  | OPut bucket key file =>
      body ← io (read_file file);
      io (s3_put_object client bucket key body) ;;
      println ("Object '" +:+ bucket +:+ "/" +:+ key +:+ "' uploaded")
  | ODelete bucket key => io (s3_delete_object client bucket key) ;; println ("Object '" +:+ bucket +:+ "/" +:+ key +:+ "' deleted")
  end.

Definition main (cli : Cli) : Run unit :=
  match command cli with
  | Health => check_health (endpoint cli)
  | Bucket cmd => handle_bucket cmd cli
  | Object cmd => handle_object cmd cli
  end.

(** ** Properties *)
Lemma io_inv {A} (c : M W string A) s r s' : io c s = (r, s') -> c s.1 = (r, s'.1) /\ s'.2 = s.2.
Proof. unfold io. destruct (c s.1) as [r0 w]. by intros [= <- <-]. Qed.
Lemma print_names_spec names s : print_names names s = (Ok tt, (s.1, s.2 ++ (Line <$> omap id names))).
Proof.
  revert s. induction names as [|[n|] names IH]; intros [w out]; simpl; [by rewrite app_nil_r| |apply IH].
  unfold print_names in *. cbn. unfold mbind, M_bind, println. cbn. rewrite IH. cbn. by rewrite <- app_assoc.
Qed.

(** A listing prints the keys of the first page and succeeds, also when the
    server says that there are more. *)
Theorem list_prints_first_page cli bucket prefix page w w' :
  command cli = Object (OList bucket prefix) ->
  s3_list_objects_v2 (create_client cli) bucket prefix w = (Ok page, w') ->
  main cli (w, []) = (Ok tt, (w', Line <$> omap id (lp_contents page))).
Proof.
  intros Hc Hp. unfold main. rewrite Hc. unfold handle_object, mbind, M_bind, io. cbn [fst snd]. rewrite Hp.
  apply print_names_spec.
Qed.

(** The client is honest: when a run fails it has not printed that the change was
    made, and when it succeeds the server has confirmed the change. *)
Theorem changes_confirmed cli bucket key file w r s' :
  command cli = Object (OPut bucket key file) -> main cli (w, []) = (r, s') ->
  match r with
  | Ok _ => s'.2 = [Line ("Object '" +:+ bucket +:+ "/" +:+ key +:+ "' uploaded")] /\
      exists body w1, read_file file w = (Ok body, w1) /\ s3_put_object (create_client cli) bucket key body w1 = (Ok tt, s'.1)
  | Err _ => s'.2 = []
  end.
Proof.
  intros Hc. unfold main. rewrite Hc. unfold handle_object.
  intros [(body & s1 & [Hb Ho]%io_inv & Hr)|(e & [_ Ho]%io_inv & ->)]%bind_inv; [|done]. simpl in *.
  apply bind_inv in Hr as [([] & s2 & [Hp Ho2]%io_inv & [= <- <-])|(e & [_ Ho2]%io_inv & ->)]; simpl; rewrite Ho2, Ho; [|done].
  split; [done|]. eauto.
Qed.
End cli.
